(* ===== verification/_CoqProject ===== *)
-Q . S2P
Prelude.v
Sfc32.v
Number.v
Strtod.v
Arith.v
Memory.v
Budget.v
MapTable.v
MapSpec.v
Slab.v
SlabSpec.v
Span.v
Host.v
Ctx.v
Gc.v
GcMark.v
GcSweep.v
GcSpec.v
GcAlloc.v
GcProps.v
Objects.v
Writer.v
Reader.v
WriterSpec.v
Eval.v
Frame.v
EvalFrame.v
EvalPure.v
Open.v
EvalProps.v
Lexer.v
LexerSpec.v
Parser.v
ParserSpec.v
ParserProps.v
ParserFrame.v
Builtins.v
BuiltinsText.v
BuiltinsList.v
Json.v
BuiltinsMath.v
Paths.v
Files.v
Process.v
BuiltinsSpec.v
TextSpec.v
JsonSpec.v
PathSpec.v
MathSpec.v
ListSpec.v
Modules.v
ModulesSpec.v
LoaderFrame.v
Try.v
Import.v
ImportFrame.v
ImportSpec.v
Agree.v
AgreeEval.v
AgreeParser.v
AgreeImport.v
Console.v
Register.v
BuiltinsFrame.v
AgreeBuiltins.v
Sandbox.v
Sessions.v
FilesSpec.v
ProcessSpec.v
WinArgs.v
Options.v
OptionsSpec.v
Report.v
ReportSpec.v
Main.v
MainSpec.v
CliSandbox.v
