(* ===== verification/Prelude.v ===== *)
(** * FeX: a verification library

    FeX is a small scripting language for embedding.  Its C sources under
    src/src have two layers.  The core, fe.c, is a Lisp interpreter: a fixed
    arena of object cells with a mark-and-sweep collector, strings in chains
    of slabs, hash maps, a reader, a printer, an evaluator with closures,
    macros, modules and tail calls, and three budgets (steps, time, an
    interrupt callback) that every loop polls.  The front, fex.c, is a lexer
    and a Pratt parser that compile the FeX syntax to Lisp objects, with
    source positions kept in fex_span.c and a C interface that runs a
    program.  fex_builtins.c adds the library functions, sfc32.c their random
    numbers, and main.c is the command line program around all of it.

    ** How the program is modelled

    Every C function becomes a function of the monad [comp S A] of this file:
    from a state it returns [Done] with a result, [Raised] when it calls
    fe_error (which never returns to its caller), [Stuck] where the C code
    has no defined behaviour (a wrong union member, a null pointer, a read
    out of bounds), or [NoFuel] when a loop used up the bound the model gives
    it.  Integers are [Z] with the wrap-around of their C type written out,
    doubles are the IEEE 754 [spec_float] of the Standard Library, characters
    are [ascii].  The state of the interpreter, [Ctx.fe_Context], holds the
    fields of struct fe_Context; pointers to cells are indices ([Ref]) and
    immediates are constructors of [obj].  setjmp and longjmp are outcomes: a
    protected call inspects the outcome of the computation it started.

    Code outside the repository is a parameter: the answer of malloc, the
    clock, the interrupt callback, the printf formats of doubles, the
    out-of-range conversion of a double, sin, cos, tan, pow and log, the files
    the loader reads (which open, their bytes, their canonical paths), and the
    operating system behind the builtins ([Files.System]), whose answer to a
    call may depend on every call before; the calls are recorded in the
    context ([Host.events]).

    ** Files

    - [Prelude]: machine integers, the outcome monad, characters.
    - [Sfc32] (sfc32.c): the generator and its seeding.
    - [Number], [Strtod], [Arith] (fe.h, fe_fixnum.h, fe.c): immediates,
      boxing of doubles, strtod, exact arithmetic on integers of 53 bits.
    - [Memory] (fe.c: tracked_alloc and the accounting), [Budget] (fe.c:
      check_eval_budget, poll_eval_abort, fe_poll_abort).
    - [MapTable], [MapSpec] (fe.c: map_find_slot to fe_map_keys): the open
      addressing table, and the finite map it implements.
    - [Slab], [SlabSpec] (fe.c: str_alloc and the slab readers): the string
      arena of the default configuration FE_OPT_NO_MALLOC_STRINGS.
    - [Span] (fex_span.c): positions attached to objects.
    - [Host] (fex.h, fex.c, fe.c): error reports, try scopes, the arrays of
      the module loader.
    - [Ctx], [Gc], [GcMark], [GcSweep], [GcSpec], [GcAlloc], [GcProps] (fe.c:
      struct fe_Context, fe_mark, collectgarbage, object, fe_cons,
      fe_string): the context, the collector, the constructors, and the heap
      invariant [GcSpec.heap_ok].
    - [Objects] (fe.c: equal, fe_symbol, fe_map_set, getbound, fe_set).
    - [Writer], [WriterSpec], [Reader] (fe.c: fe_write, fe_tostring, read_).
    - [Eval], [Frame], [EvalFrame], [EvalPure], [Open], [EvalProps] (fe.c:
      analyze, eval, argstoenv, evallist, dolist, fe_open).
    - [Lexer], [LexerSpec] (fex.c: scan_token and its helpers).
    - [Parser], [ParserSpec], [ParserProps], [ParserFrame] (fex.c: the
      compile scopes, parse_precedence_new, the statements,
      fex_compile_named, fex_do_string).
    - [Builtins] (fex_builtins.c, fex_builtins.h: argument checks, buffers,
      copies), [BuiltinsText] (strlen to byteslice), [BuiltinsList] (length
      to fold, makemap to mapcount, typeof to ismap, print), [Json]
      (parsejson, tojson), [BuiltinsMath] (sqrt to randbytes), [Paths]
      (pathjoin, dirname, basename).
    - [BuiltinsSpec], [TextSpec], [JsonSpec], [ListSpec], [PathSpec],
      [MathSpec]: what the builtins return.
    - [Modules], [ModulesSpec], [LoaderFrame] (fe.c: dup_cstring to
      fex_reset_import_state): string arrays, paths, module specifiers, the
      search for a file, the module cache and the loader's stacks.
    - [Try] (fex.c: copy_string to fex_print_error, fex_try_run_internal and
      the fex_try functions): protected calls and error reports.
    - [Import] (fe.c: do_file_common, import_module_spec; fex.c:
      fex_try_do_file): running and importing files; it ties the evaluator
      and the loader, which call each other.
    - [ImportFrame], [ImportSpec]: what protected calls and imports leave
      behind, and programs of several files.
    - [Files], [FilesSpec] (fex_builtins.c: exists to writejson, cwd to exit),
      [Process], [ProcessSpec] (runprocess, system, runcommand), [WinArgs]
      (build_windows_command_line), [Console] (fex.c: readline, readnumber).
    - [Register] (fex.c, fex_builtins.c: fex_init and the tables of names):
      [Register.interpret] is the interpreter with all its builtins.
    - [Agree], [AgreeEval], [AgreeParser], [AgreeImport], [AgreeBuiltins],
      [Sandbox]: two runs on different systems, compared through every
      function of the interpreter.
    - [BuiltinsFrame], [Sessions]: what the builtins do to the stacks of the
      evaluator, and the whole interpreter under protected calls.
    - [Options], [OptionsSpec], [Report], [ReportSpec], [Main], [MainSpec],
      [CliSandbox] (main.c, fe.c: fe_close, fe_get_stats): the command line
      program, from its arguments to its exit code.

    ** What is proved

    - Storage: the accounting of tracked memory is exact; a stored string is
      read back, and freeing a chain returns its slabs; the hash map
      implements a finite map through growth and deletion, and its probing
      ends; recorded positions are found and no block leaks.
    - Collector: marking reaches exactly the reachable cells within its fuel;
      a collection keeps every reachable object with its data and moves the
      others to the free list; an allocation returns a cell nobody uses; the
      constructors build what they are asked for.  [ListSpec] uses this for a
      builtin that allocates while it runs.
    - Evaluator: on expressions over integers, booleans, variables,
      arithmetic, comparison, conditionals and sequences eval computes a
      denotational semantics; every evaluation, with the builtins it calls
      and the files it imports, leaves the root stack, the call list, the
      depth and the stacks of the loader balanced, and an error resets them.
    - Embedding: no error leaves a protected call, which restores the state
      of its caller on both ends and whose error report fits its arrays, so a
      host can make any sequence of calls; an import finds no file outside
      its directories.
    - Sandbox: a context initialised without the I/O and system categories
      never calls the operating system, whatever it runs, and the command
      line program with such arguments prints and returns the same on every
      system.
    - System builtins: a process that was run leaves no descriptor and no
      child behind and its output is within its limits; what was written to a
      file is read back; a directory is listed in order; command lines for
      Windows are split into the arguments they were built from.
    - Command line: every setting can be written as arguments that are read
      back; the exit codes are the documented ones; the JSON report spells
      the object it should and is all that stderr holds.
    - Budgets: the step limit holds, a passed deadline is noticed within the
      check interval, and without a timeout and a handler polling does
      nothing ([Budget.quiet]).
    - Text: the printer emits exactly the textual form of a value; scanning
      any source ends and splits it into its tokens, and spelled tokens are
      read back; compiling ends for every source.
    - Builtins: the text builtins compute their reference functions and
      refuse bad arguments; JSON strings round trip and tojson writes JSON;
      list, type, path, rounding and random builtins return what they should.

    Defects found while modelling are lemmas beside the code they concern.

    ** Bounds

    Structural loops need no fuel.  Loops over a heap list get one unit more
    than there are cells ([Objects.list_fuel]), which no acyclic list exceeds
    ([BuiltinsSpec.list_at_length]).  Probing gets the capacity of the table,
    marking the number of cells, copying loops the length of the text; the
    theorems above prove these are enough.  The parser gets four levels per
    character of the source, proved enough in [ParserSpec].  The evaluator,
    the printer and tojson recurse on values and programs, so their fuel is
    an argument: their theorems give a bound in the size of the value or the
    expression, and hold for every larger one.  Importing is bounded by the
    segments of the specifier and by the number of files that are being
    loaded at the same time.

    ** Not modelled

    Host mark and gc callbacks are not installed.  A protected call is
    modelled outside of a compilation.  Of a process that is started, the
    side of the parent is modelled; the child between fork and execvp belongs
    to the system.  A child that ignores its input may run forever, so the
    loops of [Process] have fuel as an argument, and their theorem speaks of
    the runs that return.  Left out: the other Windows branches (handles, wide
    characters, a thread that feeds stdin), the malloc string configuration,
    the demo main of fe.c under FE_STANDALONE, and the C test programs in
    tools. *)

From Stdlib Require Import ZArith Lia Ascii String.
From stdpp Require Import base list gmap strings.

#[global] Open Scope Z_scope.

(** ** Machine integers *)

(** Unsigned wrap-around at width [w]. *)
Definition wrap (w z : Z) : Z := z mod 2 ^ w.

(** Two's-complement reading of the low [w] bits. *)
Definition swrap (w z : Z) : Z := (z + 2 ^ (w - 1)) mod 2 ^ w - 2 ^ (w - 1).

Abbreviation u32 := (wrap 32).
Abbreviation u64 := (wrap 64).
Abbreviation i64 := (swrap 64).

Definition SIZE_MAX : Z := 2 ^ 64 - 1.
Definition INT_MAX : Z := 2 ^ 31 - 1.

Definition in_u (w z : Z) : Prop := 0 <= z < 2 ^ w.
Definition in_s (w z : Z) : Prop := - 2 ^ (w - 1) <= z < 2 ^ (w - 1).

#[global] Instance in_s_dec w z : Decision (in_s w z).
Proof. unfold in_s. apply _. Defined.
#[global] Instance in_u_dec w z : Decision (in_u w z).
Proof. unfold in_u. apply _. Defined.

Create HintDb fex.

Lemma wrap_range w z : 0 <= w -> in_u w (wrap w z).
Proof. intros. unfold in_u, wrap. apply Z.mod_pos_bound, Z.pow_pos_nonneg; lia. Qed.

Lemma wrap_small w z : in_u w z -> wrap w z = z.
Proof. intros [??]. by apply Z.mod_small. Qed.

Lemma wrap_wrap w z : 0 <= w -> wrap w (wrap w z) = wrap w z.
Proof. intros. by apply wrap_small, wrap_range. Qed.

Lemma swrap_range w z : 0 < w -> in_s w (swrap w z).
Proof.
  intros. unfold in_s, swrap.
  pose proof (Z.mod_pos_bound (z + 2 ^ (w - 1)) (2 ^ w) ltac:(apply Z.pow_pos_nonneg; lia)).
  replace (2 ^ w) with (2 * 2 ^ (w - 1)) in *
    by (rewrite <- Z.pow_succ_r by lia; f_equal; lia).
  lia.
Qed.

Lemma swrap_small w z : 0 < w -> in_s w z -> swrap w z = z.
Proof.
  intros ? [??]. unfold swrap. rewrite Z.mod_small; [lia |].
  replace (2 ^ w) with (2 * 2 ^ (w - 1))
    by (rewrite <- Z.pow_succ_r by lia; f_equal; lia).
  lia.
Qed.

#[export] Hint Resolve wrap_range swrap_range : fex.

(** ** Outcomes of C code

    [Done] is a normal return, [Raised] a call to [fe_error] (which never
    returns to its caller: it ends in the error handler's [longjmp] or in
    [exit]), [Stuck] an access the C code has no defined behaviour for
    (a union member read at the wrong type, a null or wild pointer), and
    [NoFuel] means the bound given to a loop model was too small. *)
Inductive outcome (S A : Type) : Type :=
| Done (a : A) (s : S)
| Raised (msg : string) (s : S)
| Stuck
| NoFuel.
Arguments Done {S A} a s.
Arguments Raised {S A} msg s.
Arguments Stuck {S A}.
Arguments NoFuel {S A}.

(** A computation over the state [S]. *)
Definition comp (S A : Type) : Type := S -> outcome S A.

Definition ret {S A} (a : A) : comp S A := fun s => Done a s.
Definition bind {S A B} (m : comp S A) (k : A -> comp S B) : comp S B :=
  fun s => match m s with
           | Done a s' => k a s'
           | Raised e s' => Raised e s'
           | Stuck => Stuck
           | NoFuel => NoFuel
           end.
Definition get {S} : comp S S := fun s => Done s s.
Definition gets {S A} (f : S -> A) : comp S A := fun s => Done (f s) s.
Definition put {S} (s : S) : comp S unit := fun _ => Done tt s.
Definition modify {S} (f : S -> S) : comp S unit := fun s => Done tt (f s).
Definition stuck {S A} : comp S A := fun _ => Stuck.
Definition no_fuel {S A} : comp S A := fun _ => NoFuel.
Definition when {S} (b : bool) (m : comp S unit) : comp S unit :=
  if b then m else ret tt.

Declare Scope fex_scope.
Delimit Scope fex_scope with fex.
Notation "'let*' x ':=' m 'in' k" := (bind m (fun x => k))
  (at level 10, x binder, m at level 100, k at level 200,
   format "'let*'  x  ':='  m  'in' '//' k") : fex_scope.
Notation "m ';;;' k" := (bind m (fun _ => k))
  (at level 100, k at level 200, right associativity, format "m  ';;;' '//' k") : fex_scope.
#[global] Open Scope fex_scope.

(** A capacity doubled until it reaches [needed], in 64 bits. *)
Fixpoint doubled (fuel : nat) (cap needed : Z) : Z :=
  match fuel with
  | O => cap
  | S f => if cap <? needed then doubled f (u64 (cap * 2)) needed else cap
  end.

(** Case analysis on the outcome of the first computation of a [bind] that
    ends normally. *)
Lemma bind_done {S A B} (m : comp S A) (k : A -> comp S B) s b s' :
  bind m k s = Done b s' ->
  exists a s1, m s = Done a s1 /\ k a s1 = Done b s'.
Proof. unfold bind. destruct (m s); naive_solver. Qed.

Lemma bind_eq {S A B} (m : comp S A) (k : A -> comp S B) s a s' : m s = Done a s' -> bind m k s = k a s'.
Proof. unfold bind. by intros ->. Qed.
Lemma bind_raised {S A B} (m : comp S A) (k : A -> comp S B) s e s' :
  m s = Raised e s' -> bind m k s = Raised e s'.
Proof. unfold bind. by intros ->. Qed.

(** The continuation of a [bind] under what its first part returns. *)
Lemma bind_under {S A B C} (m : comp S A) (k1 : A -> comp S C) (k2 : A -> comp S B) (f : B -> comp S C) s :
  (forall a s', m s = Done a s' -> k1 a s' = bind (k2 a) f s') -> bind m k1 s = bind (bind m k2) f s.
Proof. unfold bind. intros H. destruct (m s) as [a s1 | | |]; [| done..]. by apply H. Qed.

(** [inv_done] decomposes every hypothesis that says a monadic program
    ended normally. *)
Lemma bind_assoc {S A B C} (m : comp S A) (g : A -> comp S B) (h : B -> comp S C) s :
  bind (bind m g) h s = bind m (fun a => bind (g a) h) s.
Proof. unfold bind. by destruct (m s). Qed.

Ltac inv_done :=
  repeat match goal with
    | H : bind _ _ _ = Done _ _ |- _ =>
        let a := fresh "v" in let s := fresh "st" in
        let H1 := fresh "Hm" in let H2 := fresh "Hk" in
        apply bind_done in H as (a & s & H1 & H2)
    | H : ret _ _ = Done _ _ |- _ => unfold ret in H; simplify_eq
    | H : Done _ _ = Done _ _ |- _ => simplify_eq
    end.

(** ** Character data *)

Abbreviation chars := (list ascii).

Definition str (s : string) : chars := list_ascii_of_string s.
Definition code (c : ascii) : Z := Z.of_N (N_of_ascii c).
Definition chr (z : Z) : ascii := ascii_of_N (Z.to_N (wrap 8 z)).

Lemma code_range c : 0 <= code c < 256.
Proof.
  unfold code. pose proof (N_ascii_bounded c). lia.
Qed.

Lemma chr_code c : chr (code c) = c.
Proof.
  unfold chr. rewrite wrap_small by (pose proof (code_range c); unfold in_u; lia).
  unfold code. rewrite N2Z.id. apply ascii_N_embedding.
Qed.

Lemma code_chr z : 0 <= z < 256 -> code (chr z) = z.
Proof.
  intros. unfold chr. rewrite wrap_small by (unfold in_u; lia).
  unfold code. rewrite N_ascii_embedding by lia. lia.
Qed.

Lemma code_inj a b : code a = code b -> a = b.
Proof. intros H. rewrite <- (chr_code a), <- (chr_code b). by f_equal. Qed.
