(* ===== verification/Sfc32.v ===== *)
(** * The SFC32 pseudo-random generator (src/sfc32.c) *)

From Stdlib Require Import ZArith Lia.
From stdpp Require Import base list.
From S2P Require Import Prelude.

Record sfc32_state := SFC { a : Z; b : Z; c : Z; d : Z }.

(** The state after the seed mixer has advanced, and the mixed word. *)
Definition seed_mix32 (x : Z) : Z * Z :=
  let x := u32 (x + 0x9e3779b9) in
  let z := x in
  let z := u32 (Z.lxor z (Z.shiftr z 16) * 0x85ebca6b) in
  let z := u32 (Z.lxor z (Z.shiftr z 13) * 0xc2b2ae35) in
  (x, Z.lxor z (Z.shiftr z 16)).

Definition sfc32_next (s : sfc32_state) : Z * sfc32_state :=
  let t := u32 (u32 (a s + b s) + d s) in
  let d' := u32 (d s + 1) in
  let a' := Z.lxor (b s) (Z.shiftr (b s) 9) in
  let b' := u32 (c s + u32 (Z.shiftl (c s) 3)) in
  let c' := Z.lor (u32 (Z.shiftl (c s) 21)) (Z.shiftr (c s) 11) in
  let c'' := u32 (c' + t) in
  (c'', SFC a' b' c'' d').

Fixpoint sfc32_rounds (n : nat) (s : sfc32_state) : sfc32_state :=
  match n with
  | O => s
  | S n' => sfc32_rounds n' (snd (sfc32_next s))
  end.

Definition sfc32_seed4 (a b c d : Z) : sfc32_state :=
  let d := if decide (d = 0) then 1 else d in
  sfc32_rounds 12 (SFC a b c d).

Definition sfc32_seed (seed : Z) : sfc32_state :=
  let '(x, a) := seed_mix32 seed in
  let '(x, b) := seed_mix32 x in
  let '(x, c) := seed_mix32 x in
  sfc32_seed4 a b c 1.

(** ** Well-formed states: four 32-bit words *)

Definition sfc32_wf (s : sfc32_state) : Prop :=
  in_u 32 (a s) /\ in_u 32 (b s) /\ in_u 32 (c s) /\ in_u 32 (d s).

(** ** Word-level injectivity lemmas *)

Lemma lxor_u32 x y : in_u 32 x -> in_u 32 y -> in_u 32 (Z.lxor x y).
Proof.
  intros [Hx1 Hx2] [Hy1 Hy2]. split; [by apply Z.lxor_nonneg |].
  destruct (decide (Z.lxor x y = 0)) as [-> | Hne]; [lia |].
  assert (0 <= Z.lxor x y) by (by apply Z.lxor_nonneg).
  apply Z.log2_lt_pow2; [lia |].
  pose proof (Z.log2_lxor x y Hx1 Hy1).
  assert (forall z, 0 <= z < 2 ^ 32 -> Z.log2 z < 32) as Hl.
  { intros z ?. destruct (decide (z = 0)) as [-> | ?]; [done |].
    apply Z.log2_lt_pow2; lia. }
  pose proof (Hl x ltac:(lia)). pose proof (Hl y ltac:(lia)). lia.
Qed.

Lemma shiftr_u32 x k : 0 <= k -> in_u 32 x -> in_u 32 (Z.shiftr x k).
Proof.
  intros ? [??]. rewrite Z.shiftr_div_pow2 by lia. split.
  - apply Z.div_pos; [lia |]. apply Z.pow_pos_nonneg; lia.
  - apply Z.div_lt_upper_bound; [apply Z.pow_pos_nonneg; lia |].
    pose proof (Z.pow_pos_nonneg 2 k ltac:(lia) ltac:(lia)). nia.
Qed.

(** An xor-shift is injective: if two words gave the same result, their
    difference [z] would equal [z >> k]. *)
Lemma xorshift_inj k x y :
  0 < k -> 0 <= x -> 0 <= y ->
  Z.lxor x (Z.shiftr x k) = Z.lxor y (Z.shiftr y k) -> x = y.
Proof.
  intros Hk Hx Hy H. apply Z.lxor_eq.
  set (z := Z.lxor x y).
  assert (Hz : 0 <= z) by (by apply Z.lxor_nonneg).
  assert (E : z = Z.shiftr z k).
  { unfold z. rewrite Z.shiftr_lxor. apply Z.bits_inj'; intros n _.
    apply (f_equal (fun w => Z.testbit w n)) in H.
    rewrite !Z.lxor_spec in *.
    destruct (Z.testbit x n), (Z.testbit y n),
      (Z.testbit (Z.shiftr x k) n), (Z.testbit (Z.shiftr y k) n); done. }
  rewrite Z.shiftr_div_pow2 in E by lia.
  destruct (decide (z = 0)); [done | exfalso].
  assert (2 <= 2 ^ k) by (apply (Z.pow_le_mono_r 2 1 k); lia).
  pose proof (Z.div_lt z (2 ^ k)). lia.
Qed.

(** Multiplication by an odd constant is injective modulo [2 ^ 32]; [k']
    is the inverse of [k]. *)
Lemma mul_u32_inj k k' x y :
  (k * k') mod 2 ^ 32 = 1 -> in_u 32 x -> in_u 32 y ->
  u32 (x * k) = u32 (y * k) -> x = y.
Proof.
  unfold wrap, in_u. intros Hk Hx Hy H.
  assert (forall z, 0 <= z < 2 ^ 32 -> z = (z * k) mod 2 ^ 32 * k' mod 2 ^ 32) as E.
  { intros z Hz. rewrite Z.mul_mod_idemp_l, <- Z.mul_assoc by lia.
    rewrite <- Z.mul_mod_idemp_r, Hk, Z.mul_1_r by lia. by rewrite Z.mod_small. }
  rewrite (E x Hx), (E y Hy). by rewrite H.
Qed.

Lemma add_u32_inj k x y :
  in_u 32 x -> in_u 32 y -> u32 (x + k) = u32 (y + k) -> x = y.
Proof.
  unfold wrap, in_u. intros Hx Hy H.
  rewrite <- (Z.mod_small x (2 ^ 32)), <- (Z.mod_small y (2 ^ 32)) by done.
  replace x with (x + k - k) by lia. replace y with (y + k - k) by lia.
  by rewrite <- (Zminus_mod_idemp_l (x + k)), H, Zminus_mod_idemp_l.
Qed.

(** ** The step *)

Lemma sfc32_next_wf s : sfc32_wf s -> sfc32_wf (snd (sfc32_next s)).
Proof.
  intros (Ha & Hb & Hc & Hd). repeat split; simpl; try (apply wrap_range; lia).
  - by apply lxor_u32; [| apply shiftr_u32; [lia |]].
  - by apply lxor_u32; [| apply shiftr_u32; [lia |]].
Qed.

Lemma mul9 x : u32 (x + u32 (Z.shiftl x 3)) = u32 (x * 9).
Proof.
  unfold wrap. rewrite Zplus_mod_idemp_r, Z.shiftl_mul_pow2 by lia. f_equal. lia.
Qed.

Lemma sfc32_next_step_inj s1 s2 :
  sfc32_wf s1 -> sfc32_wf s2 ->
  snd (sfc32_next s1) = snd (sfc32_next s2) -> s1 = s2.
Proof.
  destruct s1 as [a1 b1 c1 d1], s2 as [a2 b2 c2 d2].
  intros (Ha1 & Hb1 & Hc1 & Hd1) (Ha2 & Hb2 & Hc2 & Hd2); simpl in *.
  intros [= Ea Eb Ec Ed].
  apply xorshift_inj in Ea; [subst b2 | lia | apply Hb1 | apply Hb2].
  rewrite !mul9 in Eb. apply (mul_u32_inj 9 0x38e38e39) in Eb; [subst c2 | done..].
  apply add_u32_inj in Ed; [subst d2 | done..].
  rewrite !(Z.add_comm (Z.lor _ _)) in Ec.
  apply add_u32_inj in Ec; [| apply wrap_range; lia..].
  apply add_u32_inj in Ec; [| apply wrap_range; lia..].
  apply add_u32_inj in Ec; [subst a2 | done..]. done.
Qed.

Lemma sfc32_rounds_d n s :
  in_u 32 (d s) -> d (sfc32_rounds n s) = u32 (d s + Z.of_nat n).
Proof.
  revert s. induction n as [| n IH]; intros s Hd; simpl.
  - rewrite Z.add_0_r. by rewrite wrap_small.
  - rewrite IH by (simpl; apply wrap_range; lia). simpl.
    unfold wrap. rewrite Zplus_mod_idemp_l. f_equal. lia.
Qed.

(** C31. C-doc: the step is a permutation of the 2^128 states and the counter
    makes every cycle length a multiple of [2 ^ 32]. *)
Theorem sfc32_permutation_and_period s1 s2 n :
  sfc32_wf s1 -> sfc32_wf s2 ->
  sfc32_wf (snd (sfc32_next s1)) /\
  (snd (sfc32_next s1) = snd (sfc32_next s2) -> s1 = s2) /\
  (sfc32_rounds n s1 = s1 -> (2 ^ 32 | Z.of_nat n)).
Proof.
  intros H1 H2. split; [by apply sfc32_next_wf |]. split; [by apply sfc32_next_step_inj |].
  intros E. destruct H1 as (_ & _ & _ & Hd).
  pose proof (sfc32_rounds_d n s1 Hd) as Hn. rewrite E in Hn.
  unfold wrap, in_u in *. apply Z.mod_divide; [lia |].
  replace (Z.of_nat n) with ((d s1 + Z.of_nat n) - d s1) by lia.
  rewrite <- Zminus_mod_idemp_l, <- Hn, Z.sub_diag. done.
Qed.

(** ** Seeding *)

Definition mix (z : Z) : Z :=
  let z := u32 (Z.lxor z (Z.shiftr z 16) * 0x85ebca6b) in
  let z := u32 (Z.lxor z (Z.shiftr z 13) * 0xc2b2ae35) in
  Z.lxor z (Z.shiftr z 16).

Lemma mix_inj x y : in_u 32 x -> in_u 32 y -> mix x = mix y -> x = y.
Proof.
  unfold mix. intros Hx Hy H.
  assert (forall z k, 0 < k -> in_u 32 z -> in_u 32 (Z.lxor z (Z.shiftr z k))) as Hr.
  { intros z k ??. by apply lxor_u32; [| apply shiftr_u32; [lia |]]. }
  apply xorshift_inj in H; [| lia | apply wrap_range; lia..].
  apply (mul_u32_inj _ 2127672349) in H;
    [| done | apply Hr; [lia |]; apply wrap_range; lia..].
  apply xorshift_inj in H; [| lia | apply wrap_range; lia..].
  apply (mul_u32_inj _ 2781581891) in H; [| done | apply Hr; [lia | done]..].
  by apply xorshift_inj in H; [| lia | apply Hx | apply Hy].
Qed.

Lemma seed_mix32_mix x : seed_mix32 x = (u32 (x + 0x9e3779b9), mix (u32 (x + 0x9e3779b9))).
Proof. done. Qed.

Lemma u32_add_add x i j : u32 (u32 (x + i) + j) = u32 (x + (i + j)).
Proof. unfold wrap. rewrite Zplus_mod_idemp_l. f_equal. lia. Qed.

(** Two different multiples (below [2 ^ 32]) of the golden-ratio increment
    give different words. *)
Lemma golden_ne x i j :
  0 <= i < j -> j < 2 ^ 32 ->
  u32 (x + i * 0x9e3779b9) <> u32 (x + j * 0x9e3779b9).
Proof.
  intros Hij Hj H.
  assert (u32 (i * 0x9e3779b9) = u32 (j * 0x9e3779b9)) as H'.
  { unfold wrap in *.
    replace (i * 0x9e3779b9) with (x + i * 0x9e3779b9 - x) by lia.
    replace (j * 0x9e3779b9) with (x + j * 0x9e3779b9 - x) by lia.
    by rewrite <- Zminus_mod_idemp_l, H, Zminus_mod_idemp_l. }
  apply (mul_u32_inj _ 0x144cbc89) in H'; [lia | done | split; lia..].
Qed.

(** Header comment of [sfc32_seed]: the three seed words are pairwise
    different, the counter starts at 1, twelve warm-up rounds are run, and
    the resulting state is well formed with counter 13. *)
Theorem sfc32_seed_spec seed :
  exists wa wb wc,
    sfc32_seed seed = sfc32_rounds 12 (SFC wa wb wc 1) /\
    wa <> wb /\ wb <> wc /\ wa <> wc /\
    sfc32_wf (sfc32_seed seed) /\ d (sfc32_seed seed) = 13.
Proof.
  set (g := 0x9e3779b9).
  exists (mix (u32 (seed + 1 * g))), (mix (u32 (seed + 2 * g))), (mix (u32 (seed + 3 * g))).
  assert (sfc32_seed seed = sfc32_rounds 12
    (SFC (mix (u32 (seed + 1 * g))) (mix (u32 (seed + 2 * g)))
         (mix (u32 (seed + 3 * g))) 1)) as E.
  { unfold sfc32_seed. rewrite !seed_mix32_mix, !u32_add_add.
    unfold sfc32_seed4. rewrite decide_False by done. done. }
  assert (forall i j, 0 <= i < j -> j < 2 ^ 32 ->
    mix (u32 (seed + i * g)) <> mix (u32 (seed + j * g))) as Hne.
  { intros i j ?? Hm. apply mix_inj in Hm; [| apply wrap_range; lia..].
    by apply golden_ne in Hm. }
  assert (forall z, in_u 32 (mix (u32 z))) as Hr.
  { intros z. unfold mix. apply lxor_u32; [| apply shiftr_u32; [lia |]];
      apply wrap_range; lia. }
  split; [done |]. repeat split; try (apply Hne; lia).
  all: rewrite E; try (rewrite sfc32_rounds_d; [done | split; simpl; lia]).
  all: assert (sfc32_wf (sfc32_rounds 12 (SFC (mix (u32 (seed + 1 * g)))
         (mix (u32 (seed + 2 * g))) (mix (u32 (seed + 3 * g))) 1))) as Hw
    by (assert (forall n s, sfc32_wf s -> sfc32_wf (sfc32_rounds n s)) as W
          by (induction n as [| n IH]; intros s Hs; [done |];
              apply IH, sfc32_next_wf, Hs);
        apply W; repeat split; simpl; try apply Hr; lia).
  all: apply Hw.
Qed.

Lemma sfc32_permutation_and_period_witness :
  sfc32_wf (snd (sfc32_next (SFC 1 2 3 4))) /\
  (sfc32_rounds 5 (SFC 1 2 3 4) = SFC 1 2 3 4 -> (2 ^ 32 | Z.of_nat 5)).
Proof.
  destruct (sfc32_permutation_and_period (SFC 1 2 3 4) (SFC 5 6 7 8) 5) as (H1 & _ & H3).
  - unfold sfc32_wf, in_u. simpl. lia.
  - unfold sfc32_wf, in_u. simpl. lia.
  - split; [exact H1 | exact H3].
Defined.
