(* ===== verification/Number.v ===== *)
(** * Numbers and immediate values (src/fe.h, src/fe_fixnum.h, src/fe.c)

    Doubles are the kernel's IEEE-754 specification floats ([spec_float]) at
    the binary64 format; pointers and immediates are 64-bit words. *)

From Stdlib Require Import ZArith Lia SpecFloat.
From stdpp Require Import base list.
From S2P Require Import Prelude.

(** ** Immediate words *)
Module Imm.

Definition FE_IS_FIXNUM (x : Z) : bool := negb (Z.land x 1 =? 0).
Definition FE_FIXNUM (n : Z) : Z := u64 (Z.lor (Z.shiftl n 1) 1).
Definition FE_UNBOX_FIXNUM (x : Z) : Z := Z.shiftr (i64 x) 1.
Definition FE_FALSE : Z := 2.
Definition FE_TRUE : Z := 6.
Definition FE_IS_BOOLEAN (o : Z) : bool := Z.land o 3 =? 2.
Definition fe_bool (b : bool) : Z := if b then FE_TRUE else FE_FALSE.

(** The values a fixnum can hold on a 64-bit target. *)
Definition fixnum_range (n : Z) : Prop := - 2 ^ 62 <= n < 2 ^ 62.

Lemma land_1 x : Z.land x 1 = x mod 2.
Proof. change 1 with (Z.ones 1) at 1. by rewrite Z.land_ones by lia. Qed.

Lemma lor_shiftl_1 n : Z.lor (Z.shiftl n 1) 1 = 2 * n + 1.
Proof.
  rewrite Z.shiftl_mul_pow2 by lia. change (2 ^ 1) with 2.
  assert (Z.land (n * 2) 1 = 0) as H by (by rewrite land_1, Z.mod_mul).
  rewrite <- Z.lxor_lor, <- Z.add_nocarry_lxor by done. lia.
Qed.

Lemma land_3 x : Z.land x 3 = x mod 4.
Proof. change 3 with (Z.ones 2). by rewrite Z.land_ones by lia. Qed.

Lemma fixnum_word n : FE_FIXNUM n = (2 * n + 1) mod 2 ^ 64.
Proof. unfold FE_FIXNUM. by rewrite lor_shiftl_1. Qed.

Lemma fixnum_odd n : FE_FIXNUM n mod 2 = 1.
Proof.
  rewrite fixnum_word, Z.mod_mod_divide by (by exists (2 ^ 63)).
  rewrite Z.add_comm, (Z.mul_comm 2), Z.mod_add by lia. done.
Qed.

(** C28. Boxing and unboxing a fixnum, the three immediate classes being told
    apart by their tag bits, and no class containing an object address
    (objects are 8-byte aligned). *)
Theorem immediates_roundtrip_and_disjoint n p :
  fixnum_range n -> p mod 8 = 0 ->
  FE_UNBOX_FIXNUM (FE_FIXNUM n) = n /\
  FE_IS_FIXNUM (FE_FIXNUM n) = true /\ FE_IS_BOOLEAN (FE_FIXNUM n) = false /\
  (forall b, FE_IS_BOOLEAN (fe_bool b) = true /\ FE_IS_FIXNUM (fe_bool b) = false) /\
  fe_bool true <> fe_bool false /\
  FE_IS_FIXNUM p = false /\ FE_IS_BOOLEAN p = false.
Proof.
  unfold fixnum_range. intros Hn Hp.
  assert (FE_FIXNUM n mod 2 = 1) as Hodd by apply fixnum_odd.
  repeat split.
  - unfold FE_UNBOX_FIXNUM. rewrite Z.shiftr_div_pow2 by lia.
    assert (swrap 64 (FE_FIXNUM n) = 2 * n + 1) as ->.
    { rewrite fixnum_word. unfold swrap.
      rewrite Zplus_mod_idemp_l. apply (swrap_small 64); [lia |].
      unfold in_s. change (64 - 1) with 63. lia. }
    symmetry. apply (Z.div_unique _ _ _ 1); lia.
  - unfold FE_IS_FIXNUM. by rewrite land_1, Hodd.
  - unfold FE_IS_BOOLEAN. rewrite land_3. apply Z.eqb_neq. intros E.
    assert ((FE_FIXNUM n mod 4) mod 2 = 1) as E2
      by (rewrite Z.mod_mod_divide by (by exists 2); done).
    by rewrite E in E2.
  - by destruct b.
  - by destruct b.
  - done.
  - unfold FE_IS_FIXNUM. rewrite land_1.
    by rewrite <- (Z.mod_mod_divide p 8 2), Hp by (by exists 4).
  - unfold FE_IS_BOOLEAN. rewrite land_3.
    by rewrite <- (Z.mod_mod_divide p 8 4), Hp by (by exists 2).
Qed.

Lemma immediates_roundtrip_and_disjoint_witness :
  FE_UNBOX_FIXNUM (FE_FIXNUM (-5)) = -5 /\ FE_IS_FIXNUM 4096 = false.
Proof.
  destruct (immediates_roundtrip_and_disjoint (-5) 4096) as (H1 & _ & _ & _ & _ & H2 & _).
  - unfold fixnum_range. lia.
  - reflexivity.
  - split; [exact H1 | exact H2].
Defined.

End Imm.

(** ** Doubles *)

Abbreviation double := spec_float.
Definition prec : Z := 53.
Definition emax : Z := 1024.
Definition valid (v : double) : Prop := valid_binary prec emax v = true.

(** The double nearest to an integer, ties to even: the C conversion
    [(fe_Number)i]. *)
Definition double_of_Z (z : Z) : double := binary_normalize prec emax z 0 false.

(** Truncation towards zero, for finite values. *)
Definition trunc (v : double) : option Z :=
  match v with
  | S754_zero _ => Some 0
  | S754_finite s m e =>
      let a := if 0 <=? e then Z.pos m * 2 ^ e else Z.pos m / 2 ^ (- e) in
      Some (if s then - a else a)
  | _ => None
  end.

(** [(intptr_t)v].  The C conversion is undefined when the truncated value
    does not fit; [oob] is what the platform returns then. *)
Definition double_to_intptr (oob : double -> Z) (v : double) : Z :=
  match trunc v with
  | Some z => if decide (in_s 64 z) then z else oob v
  | None => oob v
  end.

(** What x86-64's [cvttsd2si] returns out of range. *)
Definition oob_x86 (_ : double) : Z := - 2 ^ 63.

(** A number object: an immediate fixnum or a boxed double. *)
Inductive number := Fixnum (i : Z) | Boxed (v : double).

Definition fe_num_value (n : number) : double :=
  match n with
  | Fixnum i => double_of_Z i
  | Boxed v => v
  end.

Definition fe_make_number (oob : double -> Z) (v : double) : number :=
  let iv := double_of_Z (double_to_intptr oob v) in
  if SFeqb v iv then
    let i := double_to_intptr oob iv in
    let shr := Z.shiftr i 62 in
    if (shr =? 0) || (shr =? -1) then Fixnum i else Boxed v
  else Boxed v.

(** The integer a double is exactly equal to, if there is one. *)
Definition int_value (v : double) : option Z :=
  match v with
  | S754_zero _ => Some 0
  | S754_finite s m e =>
      if decide (0 <= e \/ Z.pos m mod 2 ^ (- e) = 0) then trunc v else None
  | _ => None
  end.

(** ** Rounding facts *)

Lemma digits2_log2 m : Z.pos (digits2_pos m) = Z.log2 (Z.pos m) + 1.
Proof.
  induction m as [m IH | m IH |]; simpl digits2_pos.
  - rewrite Pos2Z.inj_succ, IH. rewrite (Pos2Z.inj_xI m), Z.log2_succ_double by lia. lia.
  - rewrite Pos2Z.inj_succ, IH. rewrite (Pos2Z.inj_xO m), Z.log2_double by lia. lia.
  - done.
Qed.

Lemma Zdigits2_log2 m : 0 < m -> Zdigits2 m = Z.log2 m + 1.
Proof. destruct m; [lia | | lia]. intros _. apply digits2_log2. Qed.

Lemma log2_mul_pow2 m k : 0 < m -> 0 <= k -> Z.log2 (m * 2 ^ k) = Z.log2 m + k.
Proof. intros. rewrite Z.log2_mul_pow2 by lia. lia. Qed.

Lemma iter_pos_shr1 n m :
  SpecFloat.iter_pos shr_1 n (Build_shr_record (Z.pos m * 2 ^ Z.pos n) false false) =
  Build_shr_record (Z.pos m) false false.
Proof.
  revert m. assert (forall n (k : Z), 0 < k ->
    SpecFloat.iter_pos shr_1 n (Build_shr_record (k * 2 ^ Z.pos n) false false) =
    Build_shr_record k false false) as H; [| intros; by apply H].
  clear n. intros n.
  assert (Hs : forall k, 0 < k ->
    shr_1 (Build_shr_record (k * 2) false false) = Build_shr_record k false false).
  { intros k Hk. destruct k as [| p | p]; [lia | | lia].
    by rewrite Z.mul_comm. }
  induction n as [n IH | n IH |]; intros k Hk; cbn [SpecFloat.iter_pos].
  - replace (k * 2 ^ Z.pos n~1) with ((k * 2 ^ Z.pos n * 2 ^ Z.pos n) * 2).
    2:{ replace (Z.pos n~1) with (Z.pos n + Z.pos n + 1) by lia.
        rewrite !Z.pow_add_r by lia. lia. }
    rewrite Hs by (repeat apply Z.mul_pos_pos; try apply Z.pow_pos_nonneg; lia).
    rewrite !IH; [done | lia |]. apply Z.mul_pos_pos; [lia |].
    apply Z.pow_pos_nonneg; lia.
  - replace (k * 2 ^ Z.pos n~0) with (k * 2 ^ Z.pos n * 2 ^ Z.pos n)
      by (rewrite <- Z.mul_assoc, <- Z.pow_add_r by lia; f_equal; f_equal; lia).
    rewrite !IH; [done | lia |]. apply Z.mul_pos_pos; [lia |].
    apply Z.pow_pos_nonneg; lia.
  - rewrite Z.pow_1_r. by apply Hs.
Qed.

Lemma bounded_inv m e :
  bounded prec emax m e = true ->
  fexp prec emax (Z.log2 (Z.pos m) + 1 + e) = e /\ e <= emax - prec.
Proof.
  unfold bounded, canonical_mantissa. rewrite andb_true_iff, Z.eqb_eq, Z.leb_le.
  by rewrite digits2_log2.
Qed.

Lemma bounded_mantissa m e : bounded prec emax m e = true -> Z.pos m < 2 ^ 53.
Proof.
  intros [H _]%bounded_inv. unfold fexp, prec in H.
  apply Z.log2_lt_pow2; lia.
Qed.

Lemma shr_fexp_exact m e k :
  bounded prec emax m e = true -> 0 <= k ->
  shr_fexp prec emax (Z.pos m * 2 ^ k) (e - k) loc_Exact =
  (Build_shr_record (Z.pos m) false false, e).
Proof.
  intros [Hf _]%bounded_inv Hk. unfold shr_fexp.
  rewrite Zdigits2_log2 by (apply Z.mul_pos_pos; [lia | apply Z.pow_pos_nonneg; lia]).
  rewrite log2_mul_pow2 by lia.
  replace (Z.log2 (Z.pos m) + k + 1 + (e - k)) with (Z.log2 (Z.pos m) + 1 + e) by lia.
  rewrite Hf. replace (e - (e - k)) with k by lia.
  destruct k as [| k | k]; [| | lia]; simpl shr.
  - by rewrite Z.mul_1_r, Z.sub_0_r.
  - cbn [shr shr_record_of_loc]. rewrite iter_pos_shr1. f_equal. lia.
Qed.

Lemma round_aux_exact s m e k :
  bounded prec emax m e = true -> 0 <= k ->
  binary_round_aux prec emax s (Z.pos m * 2 ^ k) (e - k) loc_Exact = S754_finite s m e.
Proof.
  intros Hb Hk. unfold binary_round_aux. rewrite shr_fexp_exact by done. simpl.
  pose proof (shr_fexp_exact m e 0 Hb ltac:(lia)) as H0.
  rewrite Z.mul_1_r, Z.sub_0_r in H0. rewrite H0. simpl.
  apply bounded_inv in Hb as [_ Hb]. by rewrite (proj2 (Z.leb_le _ _) Hb).
Qed.

Lemma pos_iter_xO n d : Z.pos (Pos.iter xO n d) = Z.pos n * 2 ^ Z.pos d.
Proof.
  induction d as [| d IH] using Pos.peano_ind.
  - simpl. lia.
  - rewrite Pos.iter_succ, Pos2Z.inj_xO, IH, Pos2Z.inj_succ, Z.pow_succ_r by lia. lia.
Qed.

Lemma binary_round_exact s n m e :
  bounded prec emax m e = true ->
  (0 <= e /\ Z.pos n = Z.pos m * 2 ^ e \/ e < 0 /\ Z.pos n * 2 ^ (- e) = Z.pos m) ->
  binary_round prec emax s n 0 = S754_finite s m e.
Proof.
  intros Hb Hn. unfold binary_round. rewrite digits2_log2, Z.add_0_r.
  pose proof (bounded_inv m e Hb) as [Hf _].
  destruct Hn as [[He En] | [He En]].
  - rewrite En, log2_mul_pow2 by lia.
    replace (Z.log2 (Z.pos m) + e + 1) with (Z.log2 (Z.pos m) + 1 + e) by lia.
    rewrite Hf. unfold shl_align. rewrite Z.sub_0_r.
    pose proof (round_aux_exact s m e e Hb He) as Hr. rewrite Z.sub_diag in Hr.
    destruct e; [| | lia]; rewrite En; done.
  - rewrite <- En, log2_mul_pow2 in Hf by lia.
    replace (Z.log2 (Z.pos n) + - e + 1 + e) with (Z.log2 (Z.pos n) + 1) in Hf by lia.
    rewrite Hf. unfold shl_align. rewrite Z.sub_0_r.
    destruct e as [| | d]; [lia.. |]. rewrite pos_iter_xO.
    change (- Z.neg d) with (Z.pos d) in En. rewrite En.
    pose proof (round_aux_exact s m (Z.neg d) 0 Hb ltac:(lia)) as Hr.
    by rewrite Z.mul_1_r, Z.sub_0_r in Hr.
Qed.

(** Every integer of at most 53 bits has a canonical double. *)
Lemma small_canonical n :
  Z.pos n < 2 ^ 53 ->
  exists m e, bounded prec emax m e = true /\
    (0 <= e /\ Z.pos n = Z.pos m * 2 ^ e \/ e < 0 /\ Z.pos n * 2 ^ (- e) = Z.pos m).
Proof.
  intros Hn. set (e := Z.log2 (Z.pos n) - 52).
  assert (Z.log2 (Z.pos n) < 53) by (apply Z.log2_lt_pow2; lia).
  pose proof (Z.log2_nonneg (Z.pos n)).
  assert (Hp : 0 < Z.pos n * 2 ^ (- e)) by (apply Z.mul_pos_pos; [lia | apply Z.pow_pos_nonneg; lia]).
  exists (Z.to_pos (Z.pos n * 2 ^ (- e))), e.
  unfold bounded, canonical_mantissa. rewrite digits2_log2, Z2Pos.id by done.
  rewrite log2_mul_pow2 by lia. split.
  - apply andb_true_intro. rewrite Z.eqb_eq, Z.leb_le. unfold fexp, emin, prec, emax. lia.
  - destruct (decide (e = 0)) as [E | E]; [left | right].
    + rewrite E. simpl. lia.
    + split; [unfold e in *; lia | done].
Qed.

Lemma SFeqb_finite s m e w :
  SFeqb (S754_finite s m e) w = true -> w = S754_finite s m e.
Proof.
  unfold SFeqb, SFcompare. destruct w as [b | b | | b m' e']; try (by destruct s); try (by destruct b).
  intros H. destruct s, b; try done.
  all: destruct (Z.compare_spec e e') as [-> | |]; try done.
  all: change (Pos.compare_cont Eq m m') with (Pos.compare m m') in H.
  all: by destruct (Pos.compare_spec m m') as [-> | |].
Qed.

Lemma SFeqb_refl_finite s m e : SFeqb (S754_finite s m e) (S754_finite s m e) = true.
Proof.
  unfold SFeqb, SFcompare. rewrite Z.compare_refl.
  change (Pos.compare_cont Eq m m) with (Pos.compare m m). rewrite Pos.compare_refl.
  by destruct s.
Qed.

Lemma double_of_Z_finite (s : bool) n :
  double_of_Z (if s then - Z.pos n else Z.pos n) = binary_round prec emax s n 0.
Proof. by destruct s. Qed.

Lemma fits_fixnum i :
  (Z.shiftr i 62 =? 0) || (Z.shiftr i 62 =? -1) = true <-> Imm.fixnum_range i.
Proof.
  unfold Imm.fixnum_range. rewrite Z.shiftr_div_pow2 by lia.
  change (2 ^ 62) with 4611686018427387904.
  rewrite orb_true_iff, !Z.eqb_eq. pose proof (Z.div_mod i 4611686018427387904).
  pose proof (Z.mod_pos_bound i 4611686018427387904). lia.
Qed.

(** A finite double equal to the double of its own truncation is an
    integer, and conversely. *)
Lemma finite_int_iff s m e z :
  valid (S754_finite s m e) -> trunc (S754_finite s m e) = Some z ->
  SFeqb (S754_finite s m e) (double_of_Z z) = true <->
  int_value (S754_finite s m e) = Some z.
Proof.
  intros Hv Hz. unfold valid, valid_binary in Hv. simpl in Hz. injection Hz as <-.
  unfold int_value. destruct (Z.leb_spec 0 e) as [He | He].
  - rewrite decide_True by (by left). simpl. rewrite (proj2 (Z.leb_le 0 e) He).
    split; [done | intros _].
    assert (0 < Z.pos m * 2 ^ e) as Hp
      by (apply Z.mul_pos_pos; [lia | apply Z.pow_pos_nonneg; lia]).
    destruct (Z.pos m * 2 ^ e) as [| n |] eqn:En; try lia.
    rewrite double_of_Z_finite, (binary_round_exact s n m e Hv)
      by (left; split; [done | by rewrite En]).
    apply SFeqb_refl_finite.
  - pose proof (Z.pow_pos_nonneg 2 (- e) ltac:(lia) ltac:(lia)) as Hpow.
    pose proof (bounded_mantissa m e Hv) as Hm.
    set (q := Z.pos m / 2 ^ (- e)) in *.
    assert (Hq : 0 <= q <= Z.pos m).
    { unfold q. split; [apply Z.div_pos; lia |]. apply Z.div_le_upper_bound; nia. }
    pose proof (Z.div_mod (Z.pos m) (2 ^ (- e)) ltac:(lia)) as Hdm. fold q in Hdm.
    destruct (decide (0 <= e \/ Z.pos m mod 2 ^ (- e) = 0)) as [[? | Hd] | Hd]; [lia | |].
    + simpl. rewrite (proj2 (Z.leb_gt 0 e) He). fold q. split; [done | intros _].
      assert (0 < q) as Hq0 by nia. destruct q as [| n |] eqn:En; try lia.
      rewrite double_of_Z_finite, (binary_round_exact s n m e Hv) by (right; split; [done | lia]).
      apply SFeqb_refl_finite.
    + split; [| done]. intros Hs. apply SFeqb_finite in Hs.
      destruct q as [| n |] eqn:En; [by destruct s | | lia].
      rewrite double_of_Z_finite in Hs.
      destruct (small_canonical n ltac:(lia)) as (m' & e' & Hb' & Hn').
      rewrite (binary_round_exact s n m' e' Hb' Hn') in Hs. injection Hs as -> ->.
      destruct Hn' as [[? _] | [_ Hn']]; [lia |].
      exfalso. apply Hd. right. rewrite <- Hn'. apply Z.mod_mul. lia.
Qed.

(** ** [fe_make_number]

    [oob_outside]: an out-of-range conversion yields no value a fixnum could
    hold, as on x86-64 ([-2 ^ 63]) and AArch64 (saturation). *)
Section MakeNumber.
Context (oob : double -> Z).
Hypothesis oob_outside : forall w, w <> S754_nan -> ~ Imm.fixnum_range (oob w).

Lemma make_number_finite s m e z :
  valid (S754_finite s m e) -> trunc (S754_finite s m e) = Some z ->
  fe_make_number oob (S754_finite s m e) =
    if decide (int_value (S754_finite s m e) = Some z /\ Imm.fixnum_range z)
    then Fixnum z else Boxed (S754_finite s m e).
Proof.
  intros Hv Hz. unfold fe_make_number.
  set (v := S754_finite s m e) in *.
  assert (Hc : double_to_intptr oob v = if decide (in_s 64 z) then z else oob v)
    by (unfold double_to_intptr; by rewrite Hz).
  rewrite Hc. destruct (decide (in_s 64 z)) as [Hr | Hr].
  - destruct (SFeqb v (double_of_Z z)) eqn:Hs.
    + pose proof (proj1 (finite_int_iff _ _ _ _ Hv Hz) Hs) as Hi. fold v in Hi.
      apply SFeqb_finite in Hs. fold v in Hs. rewrite Hs, Hc.
      destruct (_ || _) eqn:Hf.
      * rewrite decide_True; [done | by rewrite fits_fixnum in Hf].
      * rewrite decide_False; [done | intros [_ H]].
        apply fits_fixnum in H. congruence.
    + rewrite decide_False; [done | intros [H _]].
      apply (finite_int_iff _ _ _ _ Hv Hz) in H. fold v in H. congruence.
  - rewrite decide_False.
    2:{ intros [_ [H1 H2]]. apply Hr. unfold in_s. change (64 - 1) with 63. lia. }
    destruct (SFeqb v _) eqn:Hs; [| done].
    apply SFeqb_finite in Hs. fold v in Hs. rewrite Hs, Hc.
    destruct (_ || _) eqn:Hf; [| done].
    apply fits_fixnum in Hf. by apply oob_outside in Hf.
Qed.

Lemma int_value_trunc v z : int_value v = Some z -> trunc v = Some z.
Proof. destruct v; simpl; try done. by case_decide. Qed.

(** C27. [fe_make_number] returns a fixnum exactly for the doubles that are
    integers of the fixnum range, with that integer, and otherwise boxes
    the double itself. *)
Theorem fe_make_number_spec v :
  valid v ->
  (forall i, fe_make_number oob v = Fixnum i <->
             int_value v = Some i /\ Imm.fixnum_range i) /\
  (forall w, fe_make_number oob v = Boxed w -> w = v).
Proof.
  intros Hv. destruct v as [s | s | | s m e].
  - assert (fe_make_number oob (S754_zero s) = Fixnum 0) as -> by (by destruct s).
    split; [| done]. intros i. simpl. unfold Imm.fixnum_range.
    split; [intros [= <-]; split; [done | lia] | intros [[= <-] _]; done].
  - assert (fe_make_number oob (S754_infinity s) = Boxed (S754_infinity s)) as ->.
    { unfold fe_make_number, double_to_intptr at 1; simpl trunc; cbv iota.
      set (iv := double_of_Z _). destruct (SFeqb _ _) eqn:Hs; [| done].
      assert (iv = S754_infinity s) as ->.
      { unfold SFeqb, SFcompare in Hs. destruct iv as [? | b | | ? ? ?]; destruct s; try done;
          by destruct b. }
      change (double_to_intptr oob (S754_infinity s)) with (oob (S754_infinity s)).
      destruct (_ || _) eqn:Hf; [| done].
      apply fits_fixnum in Hf. by apply oob_outside in Hf. }
    split; [| naive_solver]. intros i. simpl. naive_solver.
  - split; [| cbn; naive_solver]. intros i. cbn. naive_solver.
  - destruct (trunc (S754_finite s m e)) as [z |] eqn:Hz; [| done].
    rewrite (make_number_finite _ _ _ _ Hv Hz). split.
    + intros i. case_decide as Hd; [naive_solver |].
      split; [done |]. intros [Hi Hr].
      pose proof (int_value_trunc _ _ Hi) as Hi'. naive_solver.
    + intros w. case_decide; naive_solver.
Qed.

End MakeNumber.

(** The x86-64 conversion instruction returns the most negative word for
    every value out of range. *)
Lemma fe_make_number_spec_witness :
  fe_make_number oob_x86 (double_of_Z 42) = Fixnum 42 /\
  (forall w, fe_make_number oob_x86 S754_nan = Boxed w -> w = S754_nan).
Proof.
  assert (Ho : forall w, w <> S754_nan -> ~ Imm.fixnum_range (oob_x86 w))
    by (intros w _; vm_compute; intros [H _]; by apply H).
  split.
  - apply (fe_make_number_spec oob_x86 Ho (double_of_Z 42)); [vm_compute; reflexivity |].
    split; [vm_compute; reflexivity | unfold Imm.fixnum_range; lia].
  - apply (fe_make_number_spec oob_x86 Ho S754_nan). reflexivity.
Defined.
