(* ===== verification/Strtod.v ===== *)
(** * strtod and decimal integers (C standard library)

    The decimal, hexadecimal, infinity and NaN forms of strtod in the C
    locale, with correct rounding.  The result is the value and what is left
    of the string, which is the whole string when there is no number. *)

From Stdlib Require Import ZArith Lia Ascii String SpecFloat.
From stdpp Require Import base list.
From S2P Require Import Prelude Number.

Definition is_digit (ch : ascii) : bool := (48 <=? code ch) && (code ch <=? 57).
Definition is_space (ch : ascii) : bool :=
  (code ch =? 32) || ((9 <=? code ch) && (code ch <=? 13)).
Definition to_lower (ch : ascii) : ascii :=
  if (65 <=? code ch) && (code ch <=? 90) then chr (code ch + 32) else ch.

(** The value of a digit in a base up to sixteen. *)
Definition digit_value (ch : ascii) : option Z :=
  let n := code (to_lower ch) in
  if (48 <=? n) && (n <=? 57) then Some (n - 48)
  else if (97 <=? n) && (n <=? 102) then Some (n - 87)
  else None.

(** A run of digits of [base]: the value, the number of digits and the
    rest. *)
Fixpoint digits (base acc : Z) (count : nat) (s : chars) : Z * nat * chars :=
  match s with
  | ch :: s' =>
      match digit_value ch with
      | Some d => if d <? base then digits base (acc * base + d) (S count) s' else (acc, count, s)
      | None => (acc, count, s)
      end
  | [] => (acc, count, [])
  end.

Definition strip_sign (s : chars) : bool * chars :=
  match s with
  | ch :: s' => if decide (ch = "-"%char) then (true, s')
                else if decide (ch = "+"%char) then (false, s') else (false, s)
  | [] => (false, [])
  end.

(** The exponent part introduced by [mark], if it is well formed. *)
Definition exponent (mark : ascii) (s : chars) : Z * chars :=
  match s with
  | ch :: s' =>
      if decide (to_lower ch = mark) then
        let '(neg, s'') := strip_sign s' in
        match digits 10 0 0 s'' with
        | (_, O, _) => (0, s)
        | (e, _, rest) => (if neg then - e else e, rest)
        end
      else (0, s)
  | [] => (0, [])
  end.

(** [num / den], rounded once. *)
Definition round_ratio (neg : bool) (num : Z) (den : positive) : double :=
  match num with
  | Z.pos m =>
      let '(q, e, l) := SFdiv_core_binary prec emax (Z.pos m) 0 (Z.pos den) 0 in
      binary_round_aux prec emax neg q e l
  | _ => S754_zero neg
  end.

(** [m * b^e] *)
Definition scaled (neg : bool) (m b e : Z) : double :=
  if 0 <=? e then round_ratio neg (m * b ^ e) 1 else round_ratio neg m (Z.to_pos (b ^ (- e))).

Definition mantissa (base : Z) (s : chars) : option (Z * Z * chars) :=
  let '(m, n, rest) := digits base 0 0 s in
  match rest with
  | ch :: rest' =>
      if decide (ch = "."%char) then
        let '(m, n', rest') := digits base m 0 rest' in
        if decide (n + n' = 0)%nat then None else Some (m, - Z.of_nat n', rest')
      else if decide (n = 0%nat) then None else Some (m, 0, rest)
  | [] => if decide (n = 0%nat) then None else Some (m, 0, [])
  end.

Definition starts_with (p s : chars) : option chars :=
  if bool_decide (to_lower <$> take (length p) s = p) then Some (drop (length p) s) else None.

(** The optional [(...)] after nan. *)
Fixpoint nan_tail (s : chars) : option chars :=
  match s with
  | ch :: s' =>
      if decide (ch = ")"%char) then Some s'
      else match digit_value ch with
           | Some _ => nan_tail s'
           | None => if decide (ch = "_"%char \/ 97 <= code (to_lower ch) <= 122) then nan_tail s' else None
           end
  | [] => None
  end.

Definition strtod_magnitude (neg : bool) (s : chars) : option (double * chars) :=
  match starts_with (str "infinity") s, starts_with (str "inf") s, starts_with (str "nan") s with
  | Some rest, _, _ => Some (S754_infinity neg, rest)
  | None, Some rest, _ => Some (S754_infinity neg, rest)
  | None, None, Some rest =>
      match rest with
      | ch :: rest' =>
          if decide (ch = "("%char)
          then Some (S754_nan, default rest (nan_tail rest'))
          else Some (S754_nan, rest)
      | [] => Some (S754_nan, [])
      end
  | None, None, None =>
      let hex :=
        match starts_with (str "0x") s with
        | Some rest =>
            match mantissa 16 rest with
            | Some (m, e, rest) =>
                let '(x, rest) := exponent "p" rest in
                Some (scaled neg m 2 (4 * e + x), rest)
            | None => None
            end
        | None => None
        end in
      match hex with
      | Some r => Some r
      | None =>
          match mantissa 10 s with
          | Some (m, e, rest) =>
              let '(x, rest) := exponent "e" rest in
              Some (scaled neg m 10 (e + x), rest)
          | None => None
          end
      end
  end.

Fixpoint skip_space (s : chars) : chars :=
  match s with ch :: s' => if is_space ch then skip_space s' else s | [] => [] end.

Definition strtod (s : chars) : double * chars :=
  let '(neg, s') := strip_sign (skip_space s) in
  default (S754_zero false, s) (strtod_magnitude neg s').

(** ** Examples *)

Example strtod_dec : strtod (str "12.5e1 x") = (double_of_Z 125, str " x").
Proof. reflexivity. Qed.
Example strtod_tenth : strtod (str "0.1") = (SFdiv prec emax (double_of_Z 1) (double_of_Z 10), []).
Proof. reflexivity. Qed.
Example strtod_hex : strtod (str "-0x1Ap1z") = (double_of_Z (-52), str "z").
Proof. reflexivity. Qed.
Example strtod_none : strtod (str "abc") = (S754_zero false, str "abc").
Proof. reflexivity. Qed.
Example strtod_partial : strtod (str "1e+") = (double_of_Z 1, str "e+").
Proof. reflexivity. Qed.
