(* ===== verification/Arith.v ===== *)
(** * Integer arithmetic in doubles

    fe.c computes with doubles and stores integral results as fixnums.  On
    integers of at most 53 bits nothing is lost. *)

From Stdlib Require Import ZArith Lia SpecFloat.
From stdpp Require Import base list.
From S2P Require Import Prelude Number.

(** The integers the development calls small. *)
Definition small (z : Z) : Prop := - 2 ^ 53 < z < 2 ^ 53.
#[global] Instance small_dec z : Decision (small z).
Proof. unfold small. apply _. Defined.

(** The canonical mantissa and exponent of a positive integer. *)
Definition expo (n : positive) : Z := Z.log2 (Z.pos n) - 52.
Definition mant (n : positive) : positive := Z.to_pos (Z.pos n * 2 ^ (- expo n)).

Lemma expo_nonpos n : Z.pos n < 2 ^ 53 -> expo n <= 0.
Proof.
  intros H. unfold expo. assert (Z.log2 (Z.pos n) < 53) by (apply Z.log2_lt_pow2; lia). lia.
Qed.

Lemma mant_spec n : Z.pos n < 2 ^ 53 -> Z.pos (mant n) = Z.pos n * 2 ^ (- expo n).
Proof.
  intros H. unfold mant. apply Z2Pos.id. apply Z.mul_pos_pos; [lia |].
  apply Z.pow_pos_nonneg; [lia |]. pose proof (expo_nonpos n H). lia.
Qed.

Lemma mant_bounded n : Z.pos n < 2 ^ 53 -> bounded prec emax (mant n) (expo n) = true.
Proof.
  intros Hn. assert (Z.log2 (Z.pos n) < 53) by (apply Z.log2_lt_pow2; lia).
  pose proof (Z.log2_nonneg (Z.pos n)). pose proof (expo_nonpos n Hn).
  unfold bounded, canonical_mantissa. rewrite digits2_log2, mant_spec by done.
  rewrite log2_mul_pow2 by lia. apply andb_true_intro. rewrite Z.eqb_eq, Z.leb_le.
  unfold fexp, emin, prec, emax, expo in *. lia.
Qed.

(** Rounding a scaled exact value finds the canonical form. *)
Lemma round_scaled s n p e0 :
  Z.pos n < 2 ^ 53 -> e0 <= expo n -> Z.pos p = Z.pos n * 2 ^ (- e0) ->
  binary_round_aux prec emax s (Z.pos p) e0 loc_Exact = S754_finite s (mant n) (expo n).
Proof.
  intros Hn He Hp. pose proof (expo_nonpos n Hn).
  rewrite <- (round_aux_exact s (mant n) (expo n) (expo n - e0)); [| by apply mant_bounded | lia].
  rewrite mant_spec, <- Z.mul_assoc, <- Z.pow_add_r by lia. f_equal; [| lia].
  rewrite Hp. f_equal. f_equal. lia.
Qed.

Lemma double_pos (s : bool) n :
  Z.pos n < 2 ^ 53 ->
  double_of_Z (if s then - Z.pos n else Z.pos n) = S754_finite s (mant n) (expo n).
Proof.
  intros Hn. rewrite double_of_Z_finite. apply binary_round_exact; [by apply mant_bounded |].
  pose proof (expo_nonpos n Hn). rewrite mant_spec by done.
  destruct (decide (expo n = 0)) as [-> | ?]; [left | right]; lia.
Qed.

(** Signs. *)
Lemma signed z : z <> 0 -> exists (s : bool) n, z = if s then - Z.pos n else Z.pos n.
Proof. destruct z as [| n | n]; [done | |]; intros _; [exists false, n | exists true, n]; lia. Qed.

Lemma small_abs (s : bool) n : small (if s then - Z.pos n else Z.pos n) -> Z.pos n < 2 ^ 53.
Proof. unfold small. destruct s; lia. Qed.

Lemma double_0 : double_of_Z 0 = S754_zero false.
Proof. reflexivity. Qed.

(** [v] is a double for the integer [z]; zero has two. *)
Definition is_double (z : Z) (v : double) : Prop :=
  small z /\ (v = double_of_Z z \/ z = 0 /\ v = S754_zero true).

Lemma is_double_of_Z z : small z -> is_double z (double_of_Z z).
Proof. split; [done | by left]. Qed.

Lemma is_double_cases z v :
  is_double z v ->
  (z = 0 /\ exists s, v = S754_zero s) \/
  exists (s : bool) n, z = (if s then - Z.pos n else Z.pos n) /\ Z.pos n < 2 ^ 53 /\
    v = S754_finite s (mant n) (expo n).
Proof.
  intros [Hs Hv]. destruct (decide (z = 0)) as [-> | Hz].
  - left. split; [done |]. destruct Hv as [-> | [_ ->]]; eauto.
  - right. destruct Hv as [-> | [? _]]; [| done]. destruct (signed z Hz) as (s & n & ->).
    exists s, n. pose proof (small_abs _ _ Hs). split; [done |]. split; [done |]. by apply double_pos.
Qed.

Lemma shl_align_spec m e ez : ez <= e -> Z.pos (fst (shl_align m e ez)) = Z.pos m * 2 ^ (e - ez).
Proof.
  intros H. unfold shl_align. destruct (ez - e) as [| d | d] eqn:E; simpl; [| lia |].
  - replace (e - ez) with 0 by lia. lia.
  - rewrite pos_iter_xO. f_equal. f_equal. lia.
Qed.

Lemma normalize_scaled z e0 :
  small z -> e0 <= 0 -> binary_normalize prec emax (z * 2 ^ (- e0)) e0 false = double_of_Z z.
Proof.
  intros Hs He. assert (0 < 2 ^ (- e0)) by (apply Z.pow_pos_nonneg; lia).
  destruct (decide (z = 0)) as [-> | Hz]; [done |].
  destruct (signed z Hz) as (s & n & ->). pose proof (small_abs _ _ Hs) as Hn.
  pose proof (expo_nonpos n Hn). rewrite double_pos by done.
  destruct (Z.pos n * 2 ^ (- e0)) as [| p | p] eqn:Ep; try lia.
  assert (binary_round prec emax s p e0 = S754_finite s (mant n) (expo n)) as Hr.
  { unfold binary_round. rewrite digits2_log2, <- Ep, log2_mul_pow2 by lia.
    assert (fexp prec emax (Z.log2 (Z.pos n) + - e0 + 1 + e0) = expo n) as ->.
    { destruct (bounded_inv _ _ (mant_bounded n Hn)) as [Hf _]. etrans; [| exact Hf]. f_equal.
      rewrite mant_spec, log2_mul_pow2 by (done || lia). lia. }
    unfold shl_align. destruct (expo n - e0) as [| d | d] eqn:E.
    - apply round_scaled; [done | lia | congruence].
    - apply round_scaled; [done | lia | congruence].
    - apply round_scaled; [done | lia |]. rewrite pos_iter_xO, <- Ep, <- Z.mul_assoc, <- Z.pow_add_r by lia.
      f_equal. f_equal. lia. }
  destruct s; unfold binary_normalize.
  - replace (- Z.pos n * 2 ^ (- e0)) with (Z.neg p) by lia. done.
  - by rewrite Ep.
Qed.

(** ** Operations *)

Lemma cond_Zopp_signed (s : bool) n : cond_Zopp s (Z.pos n) = if s then - Z.pos n else Z.pos n.
Proof. by destruct s. Qed.

Lemma aligned (s : bool) n ez :
  Z.pos n < 2 ^ 53 -> ez <= expo n ->
  cond_Zopp s (Z.pos (fst (shl_align (mant n) (expo n) ez)))
  = (if s then - Z.pos n else Z.pos n) * 2 ^ (- ez).
Proof.
  intros Hn He. pose proof (expo_nonpos n Hn).
  assert (Z.pos (fst (shl_align (mant n) (expo n) ez)) = Z.pos n * 2 ^ (- ez)) as E.
  { rewrite shl_align_spec, mant_spec, <- Z.mul_assoc, <- Z.pow_add_r by lia. f_equal. f_equal. lia. }
  rewrite cond_Zopp_signed. destruct s; lia.
Qed.

Lemma add_double a b x y :
  is_double a x -> is_double b y -> small (a + b) -> is_double (a + b) (SFadd prec emax x y).
Proof.
  intros Hx Hy Hs. destruct (is_double_cases _ _ Hx) as [(-> & s & ->) | (s & n & -> & Hn & ->)].
  - destruct (is_double_cases _ _ Hy) as [(-> & t & ->) | (t & m & -> & Hm & ->)].
    + split; [done |]. destruct s, t; simpl; [right | left | left | left]; done.
    + done.
  - destruct (is_double_cases _ _ Hy) as [(-> & t & ->) | (t & m & -> & Hm & ->)].
    + rewrite Z.add_0_r in *. done.
    + split; [done | left]. pose proof (expo_nonpos n Hn). cbn [SFadd].
      rewrite !aligned by lia. rewrite <- Z.mul_add_distr_r. apply normalize_scaled; [done | lia].
Qed.

Lemma opp_double a x : is_double a x -> is_double (- a) (SFopp x).
Proof.
  intros Hx. assert (small (- a)) by (destruct Hx as [? _]; unfold small in *; lia).
  destruct (is_double_cases _ _ Hx) as [(-> & s & ->) | (s & n & -> & Hn & ->)].
  - split; [done |]. destruct s; [left | right]; done.
  - split; [done | left]. cbn [SFopp]. rewrite <- (double_pos (negb s) n Hn). f_equal. destruct s; simpl negb; lia.
Qed.

Lemma SFsub_add x y : SFsub prec emax x y = SFadd prec emax x (SFopp y).
Proof. destruct x as [[] | [] | | []], y as [[] | [] | | []]; reflexivity. Qed.

Lemma sub_double a b x y :
  is_double a x -> is_double b y -> small (a - b) -> is_double (a - b) (SFsub prec emax x y).
Proof.
  intros Hx Hy Hs. rewrite SFsub_add. replace (a - b) with (a + - b) in * by lia.
  apply add_double; [done | by apply opp_double | done].
Qed.

Lemma mul_double a b x y :
  is_double a x -> is_double b y -> small (a * b) -> is_double (a * b) (SFmul prec emax x y).
Proof.
  intros Hx Hy Hs.
  assert (forall s t : bool, is_double 0 (S754_zero (xorb s t))) as Hz.
  { intros s t. split; [unfold small; lia |]. destruct s, t; [left | right | right | left]; done. }
  destruct (is_double_cases _ _ Hx) as [(-> & s & ->) | (s & n & -> & Hn & ->)],
    (is_double_cases _ _ Hy) as [(-> & t & ->) | (t & m & -> & Hm & ->)];
    rewrite ?Z.mul_0_l, ?Z.mul_0_r; try apply Hz.
  replace ((if s then - Z.pos n else Z.pos n) * (if t then - Z.pos m else Z.pos m))
    with (if xorb s t then - Z.pos (n * m) else Z.pos (n * m)) in * by (destruct s, t; simpl; lia).
  pose proof (small_abs _ _ Hs) as Hnm. split; [done | left]. rewrite double_pos by done.
  cbn [SFmul]. pose proof (expo_nonpos n Hn). pose proof (expo_nonpos m Hm).
  apply round_scaled; [done | |].
  - assert (Z.log2 (Z.pos n) + Z.log2 (Z.pos m) <= Z.log2 (Z.pos (n * m)))
      by (rewrite Pos2Z.inj_mul; apply Z.log2_mul_below; lia).
    assert (Z.log2 (Z.pos n) < 53) by (apply Z.log2_lt_pow2; lia).
    assert (Z.log2 (Z.pos m) < 53) by (apply Z.log2_lt_pow2; lia).
    unfold expo. lia.
  - rewrite Pos2Z.inj_mul, !mant_spec by done.
    replace (- (expo n + expo m)) with (- expo n + - expo m) by lia.
    rewrite Z.pow_add_r by lia. lia.
Qed.

(** ** Comparison *)

Lemma mant_compare n m : expo n = expo m -> Z.pos n < 2 ^ 53 -> Z.pos m < 2 ^ 53 ->
  Pos.compare (mant n) (mant m) = Pos.compare n m.
Proof.
  intros E Hn Hm. change (Pos.compare (mant n) (mant m)) with (Z.compare (Z.pos (mant n)) (Z.pos (mant m))).
  change (Pos.compare n m) with (Z.compare (Z.pos n) (Z.pos m)).
  rewrite !mant_spec, E by done. pose proof (expo_nonpos m Hm).
  symmetry. apply Zmult_compare_compat_r. apply Z.lt_gt, Z.pow_pos_nonneg; lia.
Qed.

Lemma expo_lt n m : expo n < expo m -> Z.pos n < Z.pos m.
Proof. unfold expo. intros H. apply Z.log2_lt_cancel. lia. Qed.

Lemma compare_pos n m : Z.pos n < 2 ^ 53 -> Z.pos m < 2 ^ 53 ->
  match Z.compare (expo n) (expo m) with
  | Eq => Pos.compare_cont Eq (mant n) (mant m) | r => r end = Z.compare (Z.pos n) (Z.pos m).
Proof.
  intros Hn Hm. destruct (Z.compare_spec (expo n) (expo m)) as [E | E | E].
  - change (Pos.compare_cont Eq (mant n) (mant m)) with (Pos.compare (mant n) (mant m)).
    by rewrite mant_compare.
  - symmetry. apply Z.compare_lt_iff. by apply expo_lt.
  - symmetry. apply Z.compare_gt_iff. by apply expo_lt.
Qed.

Lemma compare_double a b x y :
  is_double a x -> is_double b y -> SFcompare x y = Some (Z.compare a b).
Proof.
  intros Hx Hy. destruct (is_double_cases _ _ Hx) as [(-> & s & ->) | (s & n & -> & Hn & ->)],
    (is_double_cases _ _ Hy) as [(-> & t & ->) | (t & m & -> & Hm & ->)].
  - done.
  - by destruct t.
  - by destruct s.
  - pose proof (compare_pos n m Hn Hm) as H. cbn [SFcompare]. destruct s, t; try done.
    + rewrite Z.compare_opp, (Z.compare_antisym (Z.pos n)), <- H. by destruct (Z.compare (expo n) (expo m)).
    + rewrite <- H. by destruct (Z.compare (expo n) (expo m)).
Qed.

Lemma ltb_double a b x y : is_double a x -> is_double b y -> SFltb x y = (a <? b).
Proof. intros Hx Hy. unfold SFltb, Z.ltb. by rewrite (compare_double a b). Qed.
Lemma leb_double a b x y : is_double a x -> is_double b y -> SFleb x y = (a <=? b).
Proof. intros Hx Hy. unfold SFleb, Z.leb. rewrite (compare_double a b) by done. by destruct (a ?= b). Qed.
Lemma eqb_double a b x y : is_double a x -> is_double b y -> SFeqb x y = (a =? b).
Proof.
  intros Hx Hy. unfold SFeqb. rewrite (compare_double a b) by done. rewrite Z.eqb_compare.
  by destruct (a ?= b).
Qed.

(** ** Back to fixnums *)

Lemma trunc_double z v : is_double z v -> trunc v = Some z.
Proof.
  intros H. destruct (is_double_cases _ _ H) as [(-> & s & ->) | (s & n & -> & Hn & ->)]; [done |].
  pose proof (expo_nonpos n Hn). assert (0 < 2 ^ (- expo n)) by (apply Z.pow_pos_nonneg; lia).
  cbn [trunc]. rewrite mant_spec by done. destruct (Z.leb_spec 0 (expo n)).
  - replace (expo n) with 0 by lia. f_equal. destruct s; lia.
  - rewrite Z.div_mul by lia. done.
Qed.

Lemma make_number_small oob z v : is_double z v -> fe_make_number oob v = Fixnum z.
Proof.
  intros H. pose proof (trunc_double z v H) as Ht. destruct H as [Hs H].
  assert (in_s 64 z) as Hi by (unfold small, in_s in *; change (64 - 1) with 63; lia).
  assert (forall w, trunc w = Some z -> double_to_intptr oob w = z) as Hc.
  { intros w Hw. unfold double_to_intptr. rewrite Hw. by rewrite decide_True. }
  assert (is_double z (double_of_Z z)) as Hd by (by apply is_double_of_Z).
  unfold fe_make_number. rewrite (Hc v Ht).
  rewrite (eqb_double z z) by done. rewrite Z.eqb_refl, (Hc _ (trunc_double _ _ Hd)).
  replace ((Z.shiftr z 62 =? 0) || (Z.shiftr z 62 =? -1)) with true; [done |].
  symmetry. apply fits_fixnum. unfold Imm.fixnum_range, small in *. lia.
Qed.
