(* ===== verification/Memory.v ===== *)
(** * Tracked heap memory (src/fe.c: tracked_alloc and friends)

    Every auxiliary block (map tables, import bookkeeping, spans, compiler
    scratch) is allocated behind a header that stores its size, and the
    context keeps the running total.  The C heap is modelled by the live
    blocks with their header sizes; [malloc_ok n] says whether the [n]-th
    request of the process is granted, and no request is granted past the
    64-bit address space. *)

From Stdlib Require Import ZArith Lia String.
From stdpp Require Import base gmap.
From S2P Require Import Prelude.

Definition block := nat.

Record Mem := MkMem {
  memory_limit : Z;
  memory_used : Z;
  peak_memory_used : Z;
  base_memory_bytes : Z;
  alloc_failure_active : bool;
  alloc_failure_is_limit : bool;
  blocks : gmap block Z;            (* live blocks and their header->size *)
  next_block : block;
  malloc_ok : nat -> bool;
  malloc_calls : nat
}.

(** sizeof(fe_AllocHeader): a union with a long double *)
Definition HEADER : Z := 16.

Definition set_used (u : Z) (m : Mem) : Mem :=
  MkMem (memory_limit m) u (peak_memory_used m) (base_memory_bytes m)
        (alloc_failure_active m) (alloc_failure_is_limit m)
        (blocks m) (next_block m) (malloc_ok m) (malloc_calls m).
Definition set_peak (p : Z) (m : Mem) : Mem :=
  MkMem (memory_limit m) (memory_used m) p (base_memory_bytes m)
        (alloc_failure_active m) (alloc_failure_is_limit m)
        (blocks m) (next_block m) (malloc_ok m) (malloc_calls m).
Definition set_failure (active is_limit : bool) (m : Mem) : Mem :=
  MkMem (memory_limit m) (memory_used m) (peak_memory_used m) (base_memory_bytes m)
        active is_limit (blocks m) (next_block m) (malloc_ok m) (malloc_calls m).
Definition set_blocks (b : gmap block Z) (n : block) (m : Mem) : Mem :=
  MkMem (memory_limit m) (memory_used m) (peak_memory_used m) (base_memory_bytes m)
        (alloc_failure_active m) (alloc_failure_is_limit m) b n
        (malloc_ok m) (malloc_calls m).
Definition tick_malloc (m : Mem) : Mem :=
  MkMem (memory_limit m) (memory_used m) (peak_memory_used m) (base_memory_bytes m)
        (alloc_failure_active m) (alloc_failure_is_limit m)
        (blocks m) (next_block m) (malloc_ok m) (S (malloc_calls m)).

Definition fe_set_memory_limit (max_bytes : Z) (m : Mem) : Mem :=
  MkMem max_bytes (memory_used m) (peak_memory_used m) (base_memory_bytes m)
        (alloc_failure_active m) (alloc_failure_is_limit m)
        (blocks m) (next_block m) (malloc_ok m) (malloc_calls m).
Definition fe_get_memory_limit (m : Mem) : Z := memory_limit m.
Definition fe_get_memory_used (m : Mem) : Z := memory_used m.
Definition fe_get_peak_memory_used (m : Mem) : Z := peak_memory_used m.

(** The sizes of the live blocks, added up. *)
Definition total (b : gmap block Z) : Z := map_fold (fun _ sz acc => sz + acc) 0 b.

(** The C library's [malloc]/[realloc]: a fresh block, or nothing. *)
Definition malloc_granted (m : Mem) (extra : Z) : bool :=
  malloc_ok m (malloc_calls m) && (base_memory_bytes m + total (blocks m) + extra <? 2 ^ 64).

Definition memory_would_exceed_limit (m : Mem) (extra : Z) : bool :=
  if memory_limit m =? 0 then false
  else if memory_limit m <? memory_used m then true
  else memory_limit m - memory_used m <? extra.

Definition memory_note_alloc (size : Z) (m : Mem) : Mem :=
  let m := set_used (u64 (memory_used m + size)) m in
  let m := if peak_memory_used m <? memory_used m then set_peak (memory_used m) m else m in
  set_failure false false m.

Definition memory_note_free (size : Z) (m : Mem) : Mem :=
  let floor := base_memory_bytes m in
  if u64 (floor + size) <=? memory_used m
  then set_used (memory_used m - size) m
  else set_used floor m.

Definition tracked_alloc (size : Z) : comp Mem (option block) := fun m =>
  if SIZE_MAX - HEADER <? size then Done None (set_failure true false m)
  else if memory_would_exceed_limit m size then Done None (set_failure true true m)
  else if negb (malloc_granted m size)
  then Done None (set_failure true false (tick_malloc m))
  else
    let m := tick_malloc m in
    let p := next_block m in
    let m := set_blocks (<[p := size]> (blocks m)) (S p) m in
    Done (Some p) (memory_note_alloc size m).

Definition tracked_free (ptr : option block) : comp Mem unit := fun m =>
  match ptr with
  | None => Done tt m
  | Some p =>
      match blocks m !! p with
      | None => Stuck                                (* double or wild free *)
      | Some size =>
          let m := memory_note_free size m in
          Done tt (set_blocks (delete p (blocks m)) (next_block m) m)
      end
  end.

Definition tracked_realloc (ptr : option block) (new_size : Z) : comp Mem (option block) :=
  match ptr with
  | None => tracked_alloc new_size
  | Some p =>
      if new_size =? 0 then tracked_free ptr ;;; ret None
      else fun m =>
        match blocks m !! p with
        | None => Stuck
        | Some old_size =>
            if SIZE_MAX - HEADER <? new_size then Done None (set_failure true false m)
            else if (old_size <? new_size) &&
                    memory_would_exceed_limit m (new_size - old_size)
            then Done None (set_failure true true m)
            else if negb (malloc_granted m (new_size - old_size))
            then Done None (set_failure true false (tick_malloc m))
            else
              let m := tick_malloc m in
              let q := next_block m in
              let m := set_blocks (<[q := new_size]> (delete p (blocks m))) (S q) m in
              let m :=
                if old_size <? new_size then memory_note_alloc (new_size - old_size) m
                else if new_size <? old_size then memory_note_free (old_size - new_size) m
                else set_failure false false m in
              Done (Some q) m
        end
  end.

(** memory_error: the message [fe_error] is called with. *)
Definition memory_error {A} (fallback : string) : comp Mem A := fun m =>
  Raised (if alloc_failure_is_limit m then "memory limit exceeded"%string else fallback) m.

(** ** The accounting invariant *)

Definition mem_ok (m : Mem) : Prop :=
  memory_used m = base_memory_bytes m + total (blocks m) /\
  memory_used m <= peak_memory_used m /\
  0 <= base_memory_bytes m /\
  memory_used m < 2 ^ 64 /\
  0 <= memory_limit m < 2 ^ 64 /\
  (forall p sz, blocks m !! p = Some sz -> 0 <= sz /\ (p < next_block m)%nat).

Lemma total_insert b p sz : b !! p = None -> total (<[p := sz]> b) = sz + total b.
Proof. intros. unfold total. rewrite map_fold_insert_L; [done | lia | done]. Qed.

Lemma total_delete b p sz : b !! p = Some sz -> total b = sz + total (delete p b).
Proof. intros. unfold total. rewrite (map_fold_delete_L _ _ p sz b); [done | lia | done]. Qed.

Lemma total_nonneg b : (forall p sz, b !! p = Some sz -> 0 <= sz) -> 0 <= total b.
Proof.
  unfold total. induction b as [| p sz b Hp Hf IH] using map_first_key_ind; intros H.
  - done.
  - rewrite map_fold_insert_L by (lia || done).
    pose proof (H p sz ltac:(by rewrite lookup_insert_eq)).
    enough (0 <= map_fold (fun _ sz acc => sz + acc) 0 b) by lia.
    apply IH. intros q s Hq. apply (H q s). rewrite lookup_insert_ne; [done |].
    intros ->. congruence.
Qed.

Lemma mem_fresh m : mem_ok m -> blocks m !! next_block m = None.
Proof.
  intros (_ & _ & _ & _ & _ & H). destruct (blocks m !! next_block m) eqn:E; [| done].
  apply H in E as [_ ?]. lia.
Qed.

Lemma mem_lookup_le m p sz : mem_ok m -> blocks m !! p = Some sz ->
  0 <= sz /\ base_memory_bytes m + sz <= memory_used m.
Proof.
  intros (Hu & _ & _ & _ & _ & Hb) Hp. destruct (Hb _ _ Hp) as [? _]. split; [done |].
  rewrite Hu, (total_delete _ _ _ Hp).
  pose proof (total_nonneg (delete p (blocks m))
    ltac:(intros q s [_ Hq]%lookup_delete_Some; by apply Hb in Hq as [? _])). lia.
Qed.

Lemma exceeds_false m extra :
  memory_would_exceed_limit m extra = false ->
  memory_limit m = 0 \/ memory_used m + extra <= memory_limit m.
Proof.
  unfold memory_would_exceed_limit.
  destruct (Z.eqb_spec (memory_limit m) 0); [by left |].
  destruct (Z.ltb_spec (memory_limit m) (memory_used m)); [done |].
  rewrite Z.ltb_ge. right. lia.
Qed.

(** Recording a granted request: the new total, the limit and the peak. *)
Lemma note_alloc_fields size m :
  0 <= size -> 0 <= memory_used m -> memory_used m + size < 2 ^ 64 ->
  memory_used (memory_note_alloc size m) = memory_used m + size /\
  peak_memory_used (memory_note_alloc size m) =
    Z.max (peak_memory_used m) (memory_used m + size) /\
  memory_limit (memory_note_alloc size m) = memory_limit m /\
  base_memory_bytes (memory_note_alloc size m) = base_memory_bytes m /\
  blocks (memory_note_alloc size m) = blocks m /\
  next_block (memory_note_alloc size m) = next_block m.
Proof.
  intros. unfold memory_note_alloc. simpl. rewrite wrap_small by (split; lia).
  destruct (Z.ltb_spec (peak_memory_used m) (memory_used m + size)); simpl;
    repeat split; lia.
Qed.

Lemma note_free_fields size m :
  0 <= size -> 0 <= base_memory_bytes m ->
  base_memory_bytes m + size <= memory_used m -> memory_used m < 2 ^ 64 ->
  memory_note_free size m = set_used (memory_used m - size) m.
Proof.
  intros. unfold memory_note_free. rewrite wrap_small by (split; lia).
  by rewrite (proj2 (Z.leb_le _ _)) by lia.
Qed.

(** What one operation guarantees: the invariant, and no growth past a
    limit that held before. *)
Definition op_good (m m' : Mem) : Prop :=
  mem_ok m' /\ memory_limit m' = memory_limit m /\
  (memory_limit m = 0 \/ memory_limit m < memory_used m \/
   memory_used m' <= memory_limit m').

(** The fields the accounting invariant reads. *)
Lemma op_good_same m m' :
  mem_ok m -> memory_limit m' = memory_limit m -> memory_used m' = memory_used m ->
  peak_memory_used m' = peak_memory_used m ->
  base_memory_bytes m' = base_memory_bytes m -> blocks m' = blocks m ->
  next_block m' = next_block m -> op_good m m'.
Proof. unfold op_good, mem_ok. intros H -> -> -> -> -> ->. split; [done |]. lia. Qed.

(** A refused request changes only the failure flags. *)
Ltac alloc_refused :=
  eexists None, _; split; [done |]; split; [by apply op_good_same | done].

Lemma tracked_alloc_good size m :
  mem_ok m -> 0 <= size ->
  exists r m', tracked_alloc size m = Done r m' /\ op_good m m' /\
    match r with
    | None => blocks m' = blocks m /\ alloc_failure_active m' = true
    | Some p => blocks m !! p = None /\ blocks m' = <[p := size]> (blocks m) /\
                alloc_failure_active m' = false
    end.
Proof.
  intros Hm Hs. unfold tracked_alloc.
  destruct (SIZE_MAX - HEADER <? size); [alloc_refused |].
  destruct (memory_would_exceed_limit m size) eqn:Hl;
    [alloc_refused |].
  destruct (malloc_granted m size) eqn:Hg; simpl negb; cbv iota;
    [| alloc_refused].
  apply andb_true_iff in Hg as [_ Hg%Z.ltb_lt].
  pose proof (mem_fresh m Hm) as Hf. pose proof Hm as (Hu & Hp & Hb & Hlt & Hlim & Hbl).
  pose proof (total_nonneg (blocks m) ltac:(intros p s Hq; by apply Hbl in Hq as [? _])).
  set (m1 := set_blocks _ _ _).
  destruct (note_alloc_fields size m1) as (E1 & E2 & E3 & E4 & E5 & E6); [done | simpl; lia.. |].
  eexists _, _. split; [done |]. split; [split; [| split] |].
  - unfold mem_ok. rewrite E1, E2, E3, E4, E5, E6. simpl.
    rewrite total_insert by done. repeat split; try lia.
    all: apply lookup_insert_Some in H0 as [[<- <-] | [_ Hq]]; try (simpl; lia);
      apply Hbl in Hq; lia.
  - by rewrite E3.
  - rewrite E1, E3. simpl. apply exceeds_false in Hl. lia.
  - by rewrite E5.
Qed.

Lemma tracked_free_good p size m :
  mem_ok m -> blocks m !! p = Some size ->
  exists m', tracked_free (Some p) m = Done tt m' /\ op_good m m' /\
    blocks m' = delete p (blocks m) /\ memory_used m' = memory_used m - size.
Proof.
  intros Hm Hp. simpl. rewrite Hp. eexists. split; [done |].
  destruct (mem_lookup_le m p size Hm Hp) as [Hs Hle].
  pose proof Hm as (Hu & Hpk & Hb & Hlt & Hlim & Hbl).
  rewrite (note_free_fields size m) by lia. simpl.
  split; [| done]. split; [| split]; simpl; [| done | lia].
  unfold mem_ok; simpl. rewrite (total_delete _ _ _ Hp) in Hu.
  repeat split; try lia; apply lookup_delete_Some in H as [_ Hq]; apply Hbl in Hq; lia.
Qed.

Lemma tracked_realloc_good p old_size size m :
  mem_ok m -> 0 <= size -> blocks m !! p = Some old_size ->
  exists r m', tracked_realloc (Some p) size m = Done r m' /\ op_good m m' /\
    match r with
    | None => (size = 0 /\ blocks m' = delete p (blocks m)) \/
              (blocks m' = blocks m /\ alloc_failure_active m' = true)
    | Some q => blocks m !! q = None /\ blocks m' = <[q := size]> (delete p (blocks m))
    end.
Proof.
  intros Hm Hs Hp. unfold tracked_realloc. destruct (Z.eqb_spec size 0) as [-> | Hne].
  { destruct (tracked_free_good p old_size m Hm Hp) as (m' & E & Hg & Hb & _).
    exists None, m'. unfold bind. rewrite E. naive_solver. }
  rewrite Hp.
  assert (forall m', op_good m m' -> blocks m' = blocks m -> alloc_failure_active m' = true ->
    exists r m'', Done (S := Mem) (@None block) m' = Done r m'' /\ op_good m m'' /\
      match r with
      | None => (size = 0 /\ blocks m'' = delete p (blocks m)) \/
                (blocks m'' = blocks m /\ alloc_failure_active m'' = true)
      | Some q => blocks m !! q = None /\ blocks m'' = <[q := size]> (delete p (blocks m))
      end) as Hfail by (intros m' ???; exists None, m'; naive_solver).
  destruct (SIZE_MAX - HEADER <? size); [by apply Hfail; [apply op_good_same | |] |].
  destruct (_ && _) eqn:Hl; [by apply Hfail; [apply op_good_same | |] |].
  destruct (malloc_granted m (size - old_size)) eqn:Hg; simpl negb; cbv iota;
    [| by apply Hfail; [apply op_good_same | |]].
  clear Hfail. apply andb_true_iff in Hg as [_ Hg%Z.ltb_lt].
  pose proof (mem_fresh m Hm) as Hf.
  destruct (mem_lookup_le m p old_size Hm Hp) as [Hos Hole].
  pose proof Hm as (Hu & Hpk & Hb & Hlt & Hlim & Hbl).
  pose proof (total_delete _ _ _ Hp) as Htd.
  assert (delete p (blocks m) !! next_block m = None) as Hf'.
  { rewrite lookup_delete_ne; [done |]. intros ->. congruence. }
  set (m1 := set_blocks _ _ _). eexists _, _. split; [done |].
  assert (Hnew : forall m2, memory_used m2 = memory_used m + (size - old_size) ->
    peak_memory_used m2 = Z.max (peak_memory_used m) (memory_used m2) ->
    memory_limit m2 = memory_limit m -> base_memory_bytes m2 = base_memory_bytes m ->
    blocks m2 = blocks m1 -> next_block m2 = next_block m1 ->
    op_good m m2 /\ blocks m !! next_block (tick_malloc m) = None /\
    blocks m2 = <[next_block m := size]> (delete p (blocks m))).
  { intros m2 E1 E2 E3 E4 E5 E6. unfold op_good, mem_ok. rewrite E1, E2, E3, E4, E5, E6.
    simpl. rewrite total_insert by done. repeat split; try lia; try done.
    - apply lookup_insert_Some in H as [[<- <-] | [_ Hq]]; [lia |].
      apply lookup_delete_Some in Hq as [_ Hq]. apply Hbl in Hq. lia.
    - apply lookup_insert_Some in H as [[<- <-] | [_ Hq]]; [simpl; lia |].
      apply lookup_delete_Some in Hq as [_ Hq]. apply Hbl in Hq. lia.
    - destruct (Z.ltb_spec old_size size); simpl in Hl; [apply exceeds_false in Hl |]; lia. }
  destruct (Z.ltb_spec old_size size); [| destruct (Z.ltb_spec size old_size)].
  - destruct (note_alloc_fields (size - old_size) m1) as (E1 & E2 & E3 & E4 & E5 & E6);
      [lia | simpl; lia.. |].
    apply Hnew; try done. by rewrite E2, E1.
  - rewrite note_free_fields by (simpl; lia). apply Hnew; simpl; try done; lia.
  - apply Hnew; simpl; try done; lia.
Qed.

(** ** Freeing several blocks *)

Fixpoint tracked_free_all (bs : list block) : comp Mem unit :=
  match bs with
  | [] => ret tt
  | b :: bs => tracked_free (Some b) ;;; tracked_free_all bs
  end.

(** The live blocks without those of [bs]. *)
Definition without (bs : list block) (b : gmap block Z) : gmap block Z :=
  filter (fun kv => kv.1 ∉ bs) b.

Lemma without_lookup bs b p : without bs b !! p = if decide (p ∈ bs) then None else b !! p.
Proof.
  unfold without. case_decide as H.
  - apply map_lookup_filter_None. right. intros sz _. simpl. by intros ?.
  - destruct (b !! p) as [sz |] eqn:E.
    + by apply map_lookup_filter_Some.
    + apply map_lookup_filter_None. by left.
Qed.

Lemma without_app bs1 bs2 b : without bs2 (without bs1 b) = without (bs1 ++ bs2) b.
Proof.
  apply map_eq. intros p. rewrite !without_lookup.
  repeat case_decide; try done; exfalso; rewrite elem_of_app in *; tauto.
Qed.

Lemma without_nil b : without [] b = b.
Proof.
  apply map_eq. intros p. rewrite without_lookup, decide_False; [done |]. apply not_elem_of_nil.
Qed.

Lemma without_cons p bs b : without bs (delete p b) = without (p :: bs) b.
Proof.
  apply map_eq. intros q. rewrite !without_lookup.
  destruct (decide (q = p)) as [-> | Hne].
  - rewrite (decide_True (P := p ∈ p :: bs)) by (by left). case_decide; [done |].
    by rewrite lookup_delete_eq.
  - rewrite lookup_delete_ne by done. repeat case_decide; try done; exfalso;
      rewrite elem_of_cons in *; tauto.
Qed.

(** Blocks that are distinct and live. *)
Definition owned (m : Mem) (bs : list block) : Prop :=
  NoDup bs /\ forall p, p ∈ bs -> is_Some (blocks m !! p).

Lemma owned_app m m' bs1 bs2 :
  owned m (bs1 ++ bs2) -> blocks m' = without bs1 (blocks m) -> owned m' bs2.
Proof.
  intros [(Hn1 & Hd & Hn2)%NoDup_app Hl] Hb. split; [done |]. intros p Hp.
  rewrite Hb, without_lookup, decide_False by (intros ?; by apply (Hd p)).
  apply Hl, elem_of_app. by right.
Qed.

Lemma tracked_free_all_good bs m :
  mem_ok m -> owned m bs ->
  exists m', tracked_free_all bs m = Done tt m' /\ mem_ok m' /\
    memory_limit m' = memory_limit m /\ memory_used m' <= memory_used m /\
    blocks m' = without bs (blocks m).
Proof.
  revert m. induction bs as [| b bs IH]; intros m Hm Ho; cbn [tracked_free_all].
  { exists m. do 4 (split; [done |]). by rewrite without_nil. }
  destruct (proj2 Ho b ltac:(by left)) as [size Hb].
  destruct (tracked_free_good b size m Hm Hb) as (m1 & E1 & (Hm1 & Hl1 & _) & Hb1 & Hu1).
  destruct (mem_lookup_le m b size Hm Hb) as [Hs _].
  unfold bind. rewrite E1.
  assert (owned m1 bs) as Ho1.
  { apply (owned_app m m1 [b]); [done |]. by rewrite Hb1, <- without_cons, without_nil. }
  destruct (IH m1 Hm1 Ho1) as (m2 & E2 & Hm2 & Hl2 & Hu2 & Hb2).
  exists m2. split; [done |]. split; [done |]. split; [congruence |]. split; [lia |].
  by rewrite Hb2, Hb1, without_cons.
Qed.

(** ** Sequences of operations *)

Inductive mem_op :=
| OpAlloc (size : Z)
| OpRealloc (ptr : option block) (size : Z)
| OpFree (ptr : option block)
| OpLimit (max_bytes : Z).

Definition run_op (op : mem_op) : comp Mem unit :=
  match op with
  | OpAlloc size => tracked_alloc size ;;; ret tt
  | OpRealloc ptr size => tracked_realloc ptr size ;;; ret tt
  | OpFree ptr => tracked_free ptr
  | OpLimit n => modify (fe_set_memory_limit n)
  end.

(** The caller's obligations: a pointer is null or a live block, and sizes
    are [size_t] values. *)
Definition op_valid (m : Mem) (op : mem_op) : Prop :=
  match op with
  | OpAlloc size => in_u 64 size
  | OpRealloc ptr size => in_u 64 size /\
      forall p, ptr = Some p -> is_Some (blocks m !! p)
  | OpFree ptr => forall p, ptr = Some p -> is_Some (blocks m !! p)
  | OpLimit n => in_u 64 n
  end.

(** States reached from a freshly opened context by valid operations. *)
Inductive mem_reachable (base : Z) (granted : nat -> bool) : Mem -> Prop :=
| mr_open : mem_reachable base granted
    (MkMem 0 base base base false false ∅ 0%nat granted 0%nat)
| mr_step m op m' :
    mem_reachable base granted m -> op_valid m op -> run_op op m = Done tt m' ->
    mem_reachable base granted m'.

Lemma run_op_good m op :
  mem_ok m -> op_valid m op ->
  exists m', run_op op m = Done tt m' /\ mem_ok m' /\
    (memory_limit m' = memory_limit m -> memory_limit m = 0 \/
       memory_limit m < memory_used m \/ memory_used m' <= memory_limit m').
Proof.
  intros Hm Hv.
  assert (forall size, in_u 64 size -> exists m', run_op (OpAlloc size) m = Done tt m' /\
    op_good m m') as Ha.
  { intros size [? _]. destruct (tracked_alloc_good size m Hm ltac:(lia))
      as (r & m' & E & Hg & _). exists m'. cbn [run_op]. unfold bind. by rewrite E. }
  destruct op as [size | [p |] size | [p |] | n]; simpl in Hv.
  - destruct (Ha size Hv) as (m' & ? & ? & ? & ?). naive_solver.
  - destruct Hv as [[Hs _] Hv]. destruct (Hv p eq_refl) as [old Hp].
    destruct (tracked_realloc_good p old size m Hm Hs Hp) as (r & m' & E & (? & ? & ?) & _).
    exists m'. cbn [run_op]. unfold bind. rewrite E. naive_solver.
  - destruct (Ha size (proj1 Hv)) as (m' & ? & ? & ? & ?). naive_solver.
  - destruct (Hv p eq_refl) as [size Hp].
    destruct (tracked_free_good p size m Hm Hp) as (m' & E & (? & ? & ?) & _). naive_solver.
  - exists m. split; [done |]. split; [done |]. lia.
  - eexists. split; [done |]. destruct Hm as (? & ? & ? & ? & ? & ?). unfold in_u in Hv.
    split; [| simpl; lia]. unfold mem_ok; simpl. naive_solver.
Qed.

(** C24. The accounting theorem: from any reachable state, a valid operation
    returns, the reported usage is exactly the arena plus the live blocks,
    the peak bounds it, and an operation never takes the usage from within
    a non-zero limit to beyond it. *)
Theorem memory_accounting base granted m op :
  0 <= base < 2 ^ 64 -> mem_reachable base granted m -> op_valid m op ->
  exists m', run_op op m = Done tt m' /\
    fe_get_memory_used m' = base_memory_bytes m' + total (blocks m') /\
    fe_get_memory_used m' <= fe_get_peak_memory_used m' /\
    fe_get_memory_used m' < 2 ^ 64 /\
    (fe_get_memory_limit m' = fe_get_memory_limit m -> fe_get_memory_limit m <> 0 ->
     fe_get_memory_used m <= fe_get_memory_limit m ->
     fe_get_memory_used m' <= fe_get_memory_limit m').
Proof.
  intros Hbase Hr Hv.
  assert (Hok : mem_ok m).
  { clear Hv op. induction Hr as [| m op m' _ IH Hv E].
    - unfold mem_ok, total; simpl. rewrite map_fold_empty. repeat split; try lia;
        by rewrite lookup_empty in H.
    - destruct (run_op_good m op IH Hv) as (m'' & E' & ? & _). congruence. }
  destruct (run_op_good m op Hok Hv) as (m' & E & (? & ? & ? & ? & ? & ?) & Hl).
  exists m'. unfold fe_get_memory_used, fe_get_memory_limit, fe_get_peak_memory_used.
  repeat split; try done. intros. destruct Hl as [? | [? | ?]]; [done | lia.. ].
Qed.

Lemma memory_accounting_witness :
  let m0 := MkMem 0 4096 4096 4096 false false ∅ 0%nat (fun _ => true) 0%nat in
  exists m', run_op (OpAlloc 100) m0 = Done tt m' /\
    fe_get_memory_used m' = base_memory_bytes m' + total (blocks m').
Proof.
  intros m0.
  destruct (memory_accounting 4096 (fun _ => true) m0 (OpAlloc 100)) as (m' & E & H & _).
  - lia.
  - apply mr_open.
  - vm_compute. split; [discriminate | reflexivity].
  - exists m'. split; [exact E | exact H].
Defined.
