(* ===== verification/Budget.v ===== *)
(** * Execution budgets (src/fe.c: step limit, timeout, interrupts)

    The wall clock and the host's interrupt callback are outside the
    program: [clock n] is the value of the [n]-th clock reading and
    [interrupt_handler n] the answer of the [n]-th call of the callback. *)

From Stdlib Require Import ZArith Lia String.
From stdpp Require Import base list.
From S2P Require Import Prelude.

Record Budget := MkBudget {
  step_limit : Z;
  steps_executed : Z;
  timeout_ms : Z;
  timeout_deadline_ms : Z;
  timeout_countdown : Z;
  interrupt_interval : Z;
  interrupt_countdown : Z;
  interrupt_handler : option (nat -> bool);
  eval_depth : Z;
  clock : nat -> Z;
  clock_reads : nat;
  interrupt_calls : nat
}.

Definition TIMEOUT_CHECK_INTERVAL : Z := 64.
Definition FE_IO_ABORT_CHECK_INTERVAL : Z := 64.

Definition set_steps v b := MkBudget (step_limit b) v (timeout_ms b) (timeout_deadline_ms b)
  (timeout_countdown b) (interrupt_interval b) (interrupt_countdown b) (interrupt_handler b)
  (eval_depth b) (clock b) (clock_reads b) (interrupt_calls b).
Definition set_timeout t dl cd b := MkBudget (step_limit b) (steps_executed b) t dl
  cd (interrupt_interval b) (interrupt_countdown b) (interrupt_handler b)
  (eval_depth b) (clock b) (clock_reads b) (interrupt_calls b).
Definition set_timeout_countdown cd b := set_timeout (timeout_ms b) (timeout_deadline_ms b) cd b.
Definition set_interrupt h iv cd b := MkBudget (step_limit b) (steps_executed b) (timeout_ms b)
  (timeout_deadline_ms b) (timeout_countdown b) iv cd h
  (eval_depth b) (clock b) (clock_reads b) (interrupt_calls b).
Definition set_interrupt_countdown cd b :=
  set_interrupt (interrupt_handler b) (interrupt_interval b) cd b.
Definition set_eval_depth d b := MkBudget (step_limit b) (steps_executed b) (timeout_ms b)
  (timeout_deadline_ms b) (timeout_countdown b) (interrupt_interval b) (interrupt_countdown b)
  (interrupt_handler b) d (clock b) (clock_reads b) (interrupt_calls b).
Definition tick_clock b := MkBudget (step_limit b) (steps_executed b) (timeout_ms b)
  (timeout_deadline_ms b) (timeout_countdown b) (interrupt_interval b) (interrupt_countdown b)
  (interrupt_handler b) (eval_depth b) (clock b) (S (clock_reads b)) (interrupt_calls b).
Definition tick_interrupt b := MkBudget (step_limit b) (steps_executed b) (timeout_ms b)
  (timeout_deadline_ms b) (timeout_countdown b) (interrupt_interval b) (interrupt_countdown b)
  (interrupt_handler b) (eval_depth b) (clock b) (clock_reads b) (S (interrupt_calls b)).

(** A clock reading. *)
Definition current_time_ms : comp Budget Z := fun b => Done (clock b (clock_reads b)) (tick_clock b).

Definition fe_set_step_limit (max_steps : Z) (b : Budget) : Budget :=
  MkBudget max_steps (steps_executed b) (timeout_ms b) (timeout_deadline_ms b)
    (timeout_countdown b) (interrupt_interval b) (interrupt_countdown b)
    (interrupt_handler b) (eval_depth b) (clock b) (clock_reads b) (interrupt_calls b).
Definition fe_get_step_limit (b : Budget) : Z := step_limit b.
Definition fe_get_steps_executed (b : Budget) : Z := steps_executed b.

Definition fe_set_timeout_ms (t : Z) : comp Budget unit :=
  modify (fun b => set_timeout t (timeout_deadline_ms b) (timeout_countdown b) b) ;;;
  if 0 <? t then
    let* now := current_time_ms in
    modify (set_timeout t (u64 (now + t)) TIMEOUT_CHECK_INTERVAL)
  else modify (set_timeout t 0 0).
Definition fe_get_timeout_ms (b : Budget) : Z := timeout_ms b.

Definition fe_set_interrupt_handler (fn : option (nat -> bool)) (check_interval_steps : Z)
    (b : Budget) : Budget :=
  let iv := if fn is Some _ then (if 0 <? check_interval_steps then check_interval_steps else 1024)
            else 0 in
  set_interrupt fn iv iv b.

Definition begin_eval_run : comp Budget unit :=
  let* b := get in
  when (eval_depth b =? 0)
    (modify (set_steps 0) ;;;
     when (0 <? timeout_ms b)
       (let* now := current_time_ms in
        modify (set_timeout (timeout_ms b) (u64 (now + timeout_ms b)) TIMEOUT_CHECK_INTERVAL)) ;;;
     modify (fun b => set_interrupt_countdown (interrupt_interval b) b)) ;;;
  modify (fun b => set_eval_depth (eval_depth b + 1) b).

Definition end_eval_run (b : Budget) : Budget :=
  let b := if 0 <? eval_depth b then set_eval_depth (eval_depth b - 1) b else b in
  if eval_depth b =? 0 then
    let b := if 0 <? timeout_ms b then set_timeout_countdown TIMEOUT_CHECK_INTERVAL b else b in
    set_interrupt_countdown (interrupt_interval b) b
  else b.

(** The message of an abort, or nothing. *)
Definition poll_timeout (immediate : bool) : comp Budget (option string) :=
  let* b := get in
  if 0 <? timeout_ms b then
    if immediate || (timeout_countdown b <=? 1) then
      modify (set_timeout_countdown TIMEOUT_CHECK_INTERVAL) ;;;
      let* now := current_time_ms in
      ret (if timeout_deadline_ms b <=? now
           then Some "execution timeout exceeded"%string else None)
    else modify (set_timeout_countdown (timeout_countdown b - 1)) ;;; ret None
  else ret None.

Definition poll_interrupt (immediate : bool) : comp Budget (option string) :=
  let* b := get in
  match interrupt_handler b with
  | Some handler =>
      if immediate || (interrupt_countdown b <=? 1) then
        modify (fun b => tick_interrupt (set_interrupt_countdown (interrupt_interval b) b)) ;;;
        ret (if handler (interrupt_calls b) then Some "execution interrupted"%string else None)
      else modify (set_interrupt_countdown (interrupt_countdown b - 1)) ;;; ret None
  | None => ret None
  end.

Definition poll_eval_abort (immediate : bool) : comp Budget (option string) :=
  let* r := poll_timeout immediate in
  match r with
  | Some msg => ret (Some msg)
  | None => poll_interrupt immediate
  end.

Definition fe_poll_abort : comp Budget (option string) := poll_eval_abort true.

(** [countdown] is the caller's local counter; the new value is returned. *)
Definition poll_io_abort (countdown : Z) : comp Budget (option string * Z) :=
  if 1 <? countdown then ret (None, countdown - 1)
  else let* r := fe_poll_abort in ret (r, FE_IO_ABORT_CHECK_INTERVAL).

(** The context resets [fe_error] performs on the budget before it calls
    the error handler. *)
Definition error_reset (b : Budget) : Budget :=
  let b := set_eval_depth 0 b in
  let b := if 0 <? timeout_ms b then set_timeout_countdown TIMEOUT_CHECK_INTERVAL b else b in
  set_interrupt_countdown (interrupt_interval b) b.

Definition fe_error {A} (msg : string) : comp Budget A := fun b => Raised msg (error_reset b).

(** [if (abort_msg != NULL) fe_error(ctx, abort_msg)] *)
Definition raise_abort (r : option string) : comp Budget unit :=
  match r with Some msg => fe_error msg | None => ret tt end.

(** The polling statement found in the program's loops. *)
Definition poll_io (countdown : Z) : comp Budget Z :=
  let* '(r, cd) := poll_io_abort countdown in
  raise_abort r ;;; ret cd.

Definition check_eval_budget : comp Budget unit :=
  modify (fun b => set_steps (u64 (steps_executed b + 1)) b) ;;;
  let* b := get in
  (if (0 <? step_limit b) && (step_limit b <? steps_executed b)
   then fe_error "execution step limit exceeded" else ret tt) ;;;
  let* r := poll_eval_abort false in
  raise_abort r.

(** ** Runs of the evaluator's per-step check *)

Fixpoint checks (n : nat) : comp Budget unit :=
  match n with
  | O => ret tt
  | S n' => check_eval_budget ;;; checks n'
  end.

(** One poll changes nothing but the countdowns and the oracle indices. *)
Lemma poll_eval_abort_fields immediate b r b' :
  poll_eval_abort immediate b = Done r b' ->
  step_limit b' = step_limit b /\ steps_executed b' = steps_executed b /\
  timeout_ms b' = timeout_ms b /\ timeout_deadline_ms b' = timeout_deadline_ms b /\
  interrupt_handler b' = interrupt_handler b /\ interrupt_interval b' = interrupt_interval b /\
  eval_depth b' = eval_depth b /\ clock b' = clock b.
Proof.
  unfold poll_eval_abort, poll_timeout, poll_interrupt, bind, get, modify, ret, current_time_ms.
  destruct (0 <? timeout_ms b); simpl;
    [destruct (immediate || (timeout_countdown b <=? 1)); simpl;
      [case_match; simpl; [naive_solver |] |] |];
    destruct (interrupt_handler b) eqn:?; simpl; try (intros; simplify_eq; done);
    destruct (immediate || (interrupt_countdown b <=? 1)); simpl; intros; simplify_eq; done.
Qed.

(** A poll always returns: it has no loop, and the callback's answer is
    taken as given. *)
Lemma poll_eval_abort_total immediate b : exists r b', poll_eval_abort immediate b = Done r b'.
Proof.
  unfold poll_eval_abort, poll_timeout, poll_interrupt, bind, get, modify, ret, current_time_ms.
  repeat (case_match || simpl); simplify_eq; eauto.
Qed.

Lemma check_eval_budget_cases b :
  (exists b', check_eval_budget b = Done tt b' /\
     steps_executed b' = u64 (steps_executed b + 1) /\
     step_limit b' = step_limit b /\ timeout_ms b' = timeout_ms b /\
     timeout_deadline_ms b' = timeout_deadline_ms b /\
     interrupt_handler b' = interrupt_handler b /\
     interrupt_interval b' = interrupt_interval b /\ clock b' = clock b /\
     poll_eval_abort false (set_steps (u64 (steps_executed b + 1)) b) = Done None b' /\
     (step_limit b = 0 \/ step_limit b < 0 \/ u64 (steps_executed b + 1) <= step_limit b)) \/
  exists msg b', check_eval_budget b = Raised msg b'.
Proof.
  unfold check_eval_budget. set (b1 := set_steps (u64 (steps_executed b + 1)) b).
  destruct (poll_eval_abort_total false b1) as (r & b2 & Hp).
  unfold bind, modify, get. fold b1. simpl.
  destruct ((0 <? step_limit b) && (step_limit b <? u64 (steps_executed b + 1))) eqn:Hl;
    simpl; [right; eauto |].
  rewrite Hp. destruct r as [msg |]; [right; simpl; eauto | left].
  exists b2. destruct (poll_eval_abort_fields _ _ _ _ Hp) as (? & ? & ? & ? & ? & ? & ? & ?).
  repeat split; try done.
  apply andb_false_iff in Hl as [Hl | Hl]; [apply Z.ltb_ge in Hl | apply Z.ltb_ge in Hl]; lia.
Qed.

(** C25. The step budget: [n] checks in a row succeed only while the counter
    stays within the limit, and the counter is then exactly the number of
    checks made. *)
Theorem step_limit_enforced n b b' :
  0 < step_limit b -> 0 <= steps_executed b -> steps_executed b + Z.of_nat n < 2 ^ 64 ->
  checks n b = Done tt b' ->
  fe_get_steps_executed b' = steps_executed b + Z.of_nat n /\
  (n <> O -> fe_get_steps_executed b' <= fe_get_step_limit b).
Proof.
  unfold fe_get_steps_executed, fe_get_step_limit.
  revert b. induction n as [| n IH]; intros b HL Hs Hw; cbn [checks].
  - intros [= <-]. split; [lia | done].
  - unfold bind. destruct (check_eval_budget_cases b)
      as [(b1 & E & Es & El & _ & _ & _ & _ & _ & _ & Hlim) | (msg & b1 & E)]; rewrite E; [| done].
    rewrite wrap_small in Es, Hlim by (split; lia). intros Hc.
    destruct (IH b1 ltac:(lia) ltac:(lia) ltac:(lia) Hc) as [E1 E2].
    split; [lia |]. intros _. destruct n as [| n]; [simpl in Hc; unfold ret in Hc |].
    + simplify_eq. lia.
    + rewrite <- El. by apply E2.
Qed.

Lemma poll_timeout_fires b :
  0 < timeout_ms b -> timeout_countdown b <= 1 ->
  (forall n, timeout_deadline_ms b <= clock b n) ->
  exists msg b', poll_eval_abort false b = Done (Some msg) b'.
Proof.
  intros Ht Hc Hcl. unfold poll_eval_abort, poll_timeout, bind, get, modify, ret, current_time_ms.
  rewrite (proj2 (Z.ltb_lt _ _) Ht), (proj2 (Z.leb_le _ _) Hc). simpl.
  rewrite (proj2 (Z.leb_le _ _) (Hcl _)). eauto.
Qed.

Lemma poll_timeout_waits b b' :
  0 < timeout_ms b -> 1 < timeout_countdown b ->
  poll_eval_abort false b = Done None b' ->
  timeout_countdown b' = timeout_countdown b - 1.
Proof.
  intros Ht Hc. unfold poll_eval_abort, poll_timeout, poll_interrupt, bind, get, modify, ret.
  rewrite (proj2 (Z.ltb_lt _ _) Ht), (proj2 (Z.leb_gt _ _) Hc). simpl.
  destruct (interrupt_handler b); simpl; [| naive_solver].
  case_match; simpl; naive_solver.
Qed.

(** C26. Timeouts are noticed: once every clock reading is past the deadline, a
    run of [TIMEOUT_CHECK_INTERVAL] checks cannot complete, from any
    countdown the runtime can hold. *)
Theorem timeout_noticed_within_interval b :
  0 < timeout_ms b -> timeout_countdown b <= TIMEOUT_CHECK_INTERVAL ->
  (forall n, timeout_deadline_ms b <= clock b n) ->
  exists msg b', checks (Z.to_nat TIMEOUT_CHECK_INTERVAL) b = Raised msg b'.
Proof.
  intros Ht Hc Hcl.
  assert (forall n b, (0 < n)%nat -> timeout_countdown b <= Z.of_nat n -> 0 < timeout_ms b ->
    (forall n, timeout_deadline_ms b <= clock b n) ->
    exists msg b', checks n b = Raised msg b') as H.
  { clear. induction n as [| n IH]; intros b Hn Hc Ht Hcl; [lia |]. cbn [checks]. unfold bind.
    destruct (check_eval_budget_cases b)
      as [(b1 & E & _ & _ & Etm & Edl & _ & _ & Eck & Hp & _) | (msg & b1 & E)];
      rewrite E; [| eauto].
    destruct (decide (timeout_countdown b <= 1)) as [H1 | H1].
    - destruct (poll_timeout_fires (set_steps (u64 (steps_executed b + 1)) b)) as (? & ? & ?);
        simpl; [done.. | congruence].
    - apply poll_timeout_waits in Hp; [| simpl; lia..]. simpl in Hp.
      apply IH; [lia | lia | by rewrite Etm | by rewrite Edl, Eck]. }
  apply H; unfold TIMEOUT_CHECK_INTERVAL in *; [lia | lia | done | done].
Qed.

(** ** Computations that only poll

    [yields c a]: from every budget, [c] returns [a], or an abort is raised,
    which needs a timeout or an interrupt handler to be installed. *)

Definition quiet (b : Budget) : Prop := timeout_ms b <= 0 /\ interrupt_handler b = None.

Definition yields {A} (c : comp Budget A) (a : A) : Prop :=
  forall b, (exists b', c b = Done a b' /\ (quiet b -> quiet b')) \/
            (~ quiet b /\ exists msg b', c b = Raised msg b').

Lemma yields_ret {A} (a : A) : yields (ret a) a.
Proof. intros b. left. by exists b. Qed.

Lemma yields_bind {A B} (m : comp Budget A) (k : A -> comp Budget B) a r :
  yields m a -> yields (k a) r -> yields (bind m k) r.
Proof.
  intros Hm Hk b. unfold bind. destruct (Hm b) as [(b1 & -> & Hq) | (Hq & msg & b1 & ->)].
  - destruct (Hk b1) as [(b2 & -> & Hq2) | (Hq2 & msg & b2 & ->)].
    + left. exists b2. auto.
    + right. split; [tauto | eauto].
  - right. eauto.
Qed.

Lemma yields_done {A} (c : comp Budget A) a b r b' :
  yields c a -> c b = Done r b' -> r = a.
Proof. intros H E. destruct (H b) as [(? & E' & _) | (_ & ? & ? & E')]; congruence. Qed.

Lemma yields_quiet {A} (c : comp Budget A) a b :
  yields c a -> quiet b -> exists b', c b = Done a b' /\ quiet b'.
Proof. intros H Hq. destruct (H b) as [(b' & E & ?) | (? & _)]; [eauto | done]. Qed.

(** The polling statement returns the next countdown or aborts. *)
Lemma yields_poll_io cd :
  yields (poll_io cd) (if 1 <? cd then cd - 1 else FE_IO_ABORT_CHECK_INTERVAL).
Proof.
  intros b. unfold poll_io, poll_io_abort.
  destruct (1 <? cd); [left; exists b; done |].
  unfold fe_poll_abort.
  destruct (poll_eval_abort_total true b) as (r & b' & E). unfold bind. rewrite E.
  destruct (poll_eval_abort_fields _ _ _ _ E) as (_ & _ & Ht & _ & Hh & _).
  destruct r as [msg |].
  - right. split; [| simpl; unfold fe_error; eauto]. intros [Hq1 Hq2].
    unfold poll_eval_abort, poll_timeout, poll_interrupt, bind, get, ret in E.
    rewrite (proj2 (Z.ltb_ge _ _) Hq1), Hq2 in E. done.
  - left. exists b'. split; [done |]. unfold quiet. by rewrite Ht, Hh.
Qed.

#[export] Hint Resolve yields_ret yields_poll_io : fex.

(** A context with a step limit of 10 and a deadline that has passed. *)
Definition example_budget : Budget :=
  MkBudget 10 0 5 5 64 0 0 None 0 (fun _ => 100) 0%nat 0%nat.

Lemma step_limit_enforced_witness :
  exists b', checks 3 example_budget = Done tt b' /\ fe_get_steps_executed b' = 3.
Proof.
  destruct (checks 3 example_budget) as [[] b' | | |] eqn:E;
    [| vm_compute in E; discriminate..].
  exists b'. split; [reflexivity |].
  destruct (step_limit_enforced 3 example_budget b') as [H _];
    [reflexivity | simpl; lia | simpl; lia | exact E |]. exact H.
Defined.

Lemma timeout_noticed_within_interval_witness :
  exists msg b', checks (Z.to_nat TIMEOUT_CHECK_INTERVAL) example_budget = Raised msg b'.
Proof.
  apply (timeout_noticed_within_interval example_budget);
    [reflexivity | vm_compute; discriminate | intros n; simpl; lia].
Defined.
