(* ===== verification/MapTable.v ===== *)
(** * The string-keyed hash table behind maps (src/fe.c: fe_Map)

    Open addressing with linear probing, tombstones and doubling growth.
    [K] is the type of key objects and [kdata] the bytes of a key, [V] the
    type of values.  The three parallel C arrays [keys], [values] and
    [states] are one list of slots. *)

From Stdlib Require Import ZArith Lia Ascii String.
From stdpp Require Import base list gmap strings.
From S2P Require Import Prelude Memory Budget.

(** The state shared by the runtime's helpers: heap accounting and budget. *)
Record Rt := MkRt { rt_mem : Mem; rt_bud : Budget }.

Definition lift_mem {A} (c : comp Mem A) : comp Rt A := fun s =>
  match c (rt_mem s) with
  | Done a m => Done a (MkRt m (rt_bud s))
  | Raised e m => Raised e (MkRt m (error_reset (rt_bud s)))
  | Stuck => Stuck
  | NoFuel => NoFuel
  end.
Definition lift_bud {A} (c : comp Budget A) : comp Rt A := fun s =>
  match c (rt_bud s) with
  | Done a b => Done a (MkRt (rt_mem s) b)
  | Raised e b => Raised e (MkRt (rt_mem s) b)
  | Stuck => Stuck
  | NoFuel => NoFuel
  end.

Abbreviation i32 := (swrap 32).

(** ** FNV-1a, 64-bit *)

Definition FNV_OFFSET : Z := 14695981039346656037.
Definition FNV_PRIME : Z := 1099511628211.

Definition fnv_step (hash : Z) (ch : ascii) : Z := u64 (Z.lxor hash (code ch) * FNV_PRIME).

(** The byte loop of hash_string_obj, with its poll per byte. *)
Fixpoint hash_loop (bytes : chars) (countdown hash : Z) : comp Budget Z :=
  match bytes with
  | [] => ret hash
  | ch :: rest =>
      let* countdown := poll_io countdown in
      hash_loop rest countdown (fnv_step hash ch)
  end.

Definition hash_string_obj (bytes : chars) : comp Budget Z :=
  hash_loop bytes FE_IO_ABORT_CHECK_INTERVAL FNV_OFFSET.

(** The hash as a function. *)
Definition fnv1a (bytes : chars) : Z := fold_left fnv_step bytes FNV_OFFSET.

Lemma hash_string_obj_yields bytes : yields (hash_string_obj bytes) (fnv1a bytes).
Proof.
  unfold hash_string_obj, fnv1a. generalize FNV_OFFSET, FE_IO_ABORT_CHECK_INTERVAL.
  induction bytes as [| ch rest IH]; intros h cd; cbn [hash_loop fold_left].
  - apply yields_ret.
  - eapply yields_bind; [apply yields_poll_io | apply IH].
Qed.

Lemma fnv1a_range bytes : in_u 64 (fnv1a bytes).
Proof.
  unfold fnv1a. assert (forall h, in_u 64 h -> in_u 64 (fold_left fnv_step bytes h)) as H.
  { induction bytes as [| ch rest IH]; intros h Hh; simpl; [done |].
    apply IH, wrap_range. lia. }
  apply H. split; unfold FNV_OFFSET; lia.
Qed.

Section Table.
Context {K V : Type} (kdata : K -> chars).

Inductive slot :=
| MAP_EMPTY
| MAP_USED (key : K) (value : V)
| MAP_TOMBSTONE.

Record fe_Map := MkMap {
  count : Z;
  used : Z;
  slots : list slot;
  map_blocks : list (option block)      (* map, keys, values, states *)
}.

Definition capacity (m : fe_Map) : Z := Z.of_nat (length (slots m)).
Definition slot_at (m : fe_Map) (i : Z) : slot := default MAP_EMPTY (slots m !! Z.to_nat i).

(** [equal] on two string objects. *)
Definition equal_key (a b : K) : bool := bool_decide (kdata a = kdata b).

(** ** Allocation *)

Definition SIZEOF_MAP : Z := 40.
Definition SIZEOF_PTR : Z := 8.

Fixpoint free_blocks (bs : list (option block)) : comp Mem unit :=
  match bs with
  | [] => ret tt
  | b :: rest => tracked_free b ;;; free_blocks rest
  end.

Definition map_alloc (cap : Z) : comp Mem (option fe_Map) :=
  let* b := tracked_alloc SIZEOF_MAP in
  match b with
  | None => ret None
  | Some _ =>
      let* bk := tracked_alloc (SIZEOF_PTR * cap) in
      let* bv := tracked_alloc (SIZEOF_PTR * cap) in
      let* bs := tracked_alloc cap in
      match bk, bv, bs with
      | Some _, Some _, Some _ =>
          ret (Some (MkMap 0 0 (replicate (Z.to_nat cap) MAP_EMPTY) [b; bk; bv; bs]))
      | _, _, _ => free_blocks [bk; bv; bs; b] ;;; ret None
      end
  end.

(** ** Probing *)

Fixpoint probe (n : nat) (m : fe_Map) (key : K) (index steps first_tombstone countdown : Z)
    : comp Budget (Z * bool) :=
  match n with
  | O => ret (first_tombstone, false)
  | S n' =>
      let slot := i32 (index + steps) mod capacity m in
      let* countdown := poll_io countdown in
      match slot_at m slot with
      | MAP_EMPTY => ret (if 0 <=? first_tombstone then first_tombstone else slot, false)
      | MAP_TOMBSTONE =>
          probe n' m key index (steps + 1)
            (if first_tombstone <? 0 then slot else first_tombstone) countdown
      | MAP_USED k _ =>
          if equal_key k key then ret (slot, true)
          else probe n' m key index (steps + 1) first_tombstone countdown
      end
  end.

Definition map_find_slot (m : fe_Map) (key : K) : comp Budget (Z * bool) :=
  if capacity m <=? 0 then ret (-1, false)
  else
    let* hash := hash_string_obj (kdata key) in
    let index := i32 (hash mod capacity m) in
    probe (length (slots m)) m key index 0 (-1) FE_IO_ABORT_CHECK_INTERVAL.

Definition set_slot (m : fe_Map) (i : Z) (s : slot) (count used : Z) : fe_Map :=
  MkMap count used (<[Z.to_nat i := s]> (slots m)) (map_blocks m).

(** ** Growth *)

(** The loop of map_resize over the old slots. *)
Fixpoint rehash (old : list slot) (countdown : Z) (grown : fe_Map)
    : comp Budget (option fe_Map) :=
  match old with
  | [] => ret (Some grown)
  | s :: rest =>
      let* countdown := poll_io countdown in
      match s with
      | MAP_USED k v =>
          let* '(slot, found) := map_find_slot grown k in
          if slot <? 0 then ret None
          else rehash rest countdown
                 (set_slot grown slot (MAP_USED k v) (count grown + 1) (used grown + 1))
      | _ => rehash rest countdown grown
      end
  end.

(** The resized map, or nothing when memory ran out. *)
Definition map_resize (m : fe_Map) (cap : Z) : comp Rt (option fe_Map) :=
  let* g := lift_mem (map_alloc cap) in
  match g with
  | None => ret None
  | Some grown =>
      let* r := lift_bud (rehash (slots m) FE_IO_ABORT_CHECK_INTERVAL grown) in
      match r with
      | None =>
          lift_mem (free_blocks (drop 1 (map_blocks grown) ++ take 1 (map_blocks grown))) ;;;
          ret None
      | Some filled =>
          lift_mem (free_blocks (drop 1 (map_blocks m))) ;;;
          lift_mem (free_blocks (take 1 (map_blocks grown))) ;;;
          ret (Some (MkMap (count filled) (used filled) (slots filled)
                       (take 1 (map_blocks m) ++ drop 1 (map_blocks grown))))
      end
  end.

(** [while ((map->used + 1) * 4 >= target * 3) target *= 2;] *)
Fixpoint grow_target (fuel : nat) (used target : Z) : option Z :=
  if i32 (target * 3) <=? i32 ((used + 1) * 4)
  then match fuel with
       | O => None
       | S f => grow_target f used (i32 (target * 2))
       end
  else Some target.

Definition map_ensure_capacity (m : fe_Map) : comp Rt (option fe_Map) :=
  let target := if capacity m <? 8 then 8 else capacity m in
  if i32 ((used m + 1) * 4) <? i32 (target * 3) then ret (Some m)
  else match grow_target 32 (used m) target with
       | None => no_fuel
       | Some target => map_resize m target
       end.

(** ** The map operations, on a key object that is a string *)

(** fe_map_set once the table has room. *)
Definition map_store (m : fe_Map) (key : K) (value : V) : comp Rt fe_Map :=
  let* '(slot, found) := lift_bud (map_find_slot m key) in
  if slot <? 0 then lift_mem (memory_error "out of memory (map)")
  else if found then
    match slot_at m slot with
    | MAP_USED k _ => ret (set_slot m slot (MAP_USED k value) (count m) (used m))
    | _ => stuck
    end
  else
    let used' := match slot_at m slot with MAP_EMPTY => used m + 1 | _ => used m end in
    ret (set_slot m slot (MAP_USED key value) (count m + 1) used').

Definition fe_map_set (m : fe_Map) (key : K) (value : V) : comp Rt fe_Map :=
  let* r := map_ensure_capacity m in
  match r with
  | None => lift_mem (memory_error "out of memory (map)")
  | Some m => map_store m key value
  end.

Definition fe_map_has (m : fe_Map) (key : K) : comp Budget bool :=
  let* '(_, found) := map_find_slot m key in ret found.

(** [None] is the nil object. *)
Definition fe_map_get (m : fe_Map) (key : K) : comp Budget (option V) :=
  let* '(slot, found) := map_find_slot m key in
  if negb found || (slot <? 0) then ret None
  else match slot_at m slot with
       | MAP_USED _ v => ret (Some v)
       | _ => stuck
       end.

Definition fe_map_delete (m : fe_Map) (key : K) : comp Budget (bool * fe_Map) :=
  let* '(slot, found) := map_find_slot m key in
  if negb found || (slot <? 0) then ret (false, m)
  else ret (true, set_slot m slot MAP_TOMBSTONE (count m - 1) (used m)).

Definition fe_map_count (m : fe_Map) : Z := count m.

(** The loop of fe_map_keys runs from the last slot to the first, consing. *)
Fixpoint keys_loop (rev_slots : list slot) (countdown : Z) (result : list K)
    : comp Budget (list K) :=
  match rev_slots with
  | [] => ret result
  | s :: rest =>
      let* countdown := poll_io countdown in
      keys_loop rest countdown (match s with MAP_USED k _ => k :: result | _ => result end)
  end.

Definition fe_map_keys (m : fe_Map) : comp Budget (list K) :=
  keys_loop (rev (slots m)) FE_IO_ABORT_CHECK_INTERVAL [].

End Table.
