(* ===== verification/MapSpec.v ===== *)
(** * The hash table implements a finite map

    [rep m g]: the table [m] is well formed and holds exactly the finite map
    [g].  The theorems show that every operation of the table is the
    corresponding operation on [g], that the growth loop ends, and that a
    probe always finds a slot. *)

From Stdlib Require Import ZArith Lia Ascii String.
From stdpp Require Import base list gmap strings.
From S2P Require Import Prelude Memory Budget MapTable.

Section Spec.
Context {K V : Type} (kdata : K -> chars).
Abbreviation fmap_t := (@fe_Map K V).
Abbreviation slot_t := (@slot K V).

Definition kname (k : K) : string := string_of_list_ascii (kdata k).

Definition entry (s : slot_t) : list (string * V) :=
  match s with MAP_USED k v => [(kname k, v)] | _ => [] end.
Definition nonempty (s : slot_t) : list unit :=
  match s with MAP_EMPTY => [] | _ => [tt] end.
Definition entries (l : list slot_t) : list (string * V) := l ≫= entry.
Definition filled (l : list slot_t) : list unit := l ≫= nonempty.

Definition home (m : fmap_t) (k : K) : Z := fnv1a (kdata k) mod capacity m.
Definition idx (m : fmap_t) (h i : Z) : Z := (h + i) mod capacity m.

Definition in_range (m : fmap_t) (j : Z) : Prop := 0 <= j < capacity m.

(** Every entry is reachable from its home slot without crossing an empty
    slot. *)
Definition probe_ok (m : fmap_t) : Prop :=
  forall j k v i, in_range m j -> slot_at m j = MAP_USED k v ->
    0 <= i < (j - home m k) mod capacity m ->
    slot_at m (idx m (home m k) i) <> MAP_EMPTY.

Definition wf (m : fmap_t) : Prop :=
  8 <= capacity m <= 2 ^ 28 /\
  used m = Z.of_nat (length (filled (slots m))) /\
  count m = Z.of_nat (length (entries (slots m))) /\
  4 * used m < 3 * capacity m /\
  NoDup (entries (slots m)).*1 /\
  probe_ok m.

Definition rep (m : fmap_t) (g : gmap string V) : Prop :=
  wf m /\ g = list_to_map (entries (slots m)).

(** ** Lists of slots *)

Lemma kname_inj k1 k2 : kname k1 = kname k2 <-> kdata k1 = kdata k2.
Proof.
  unfold kname. split; [| by intros ->]. intros H.
  by rewrite <- (list_ascii_of_string_of_list_ascii (kdata k1)), H,
    list_ascii_of_string_of_list_ascii.
Qed.

(** Replacing one slot replaces its contribution. *)
Lemma bind_insert {A} (f : slot_t -> list A) (l : list slot_t) j s0 s :
  l !! j = Some s0 ->
  exists rest, l ≫= f ≡ₚ f s0 ++ rest /\ <[j := s]> l ≫= f ≡ₚ f s ++ rest.
Proof.
  intros Hj. exists ((take j l ≫= f) ++ (drop (S j) l ≫= f)).
  rewrite <- (take_drop_middle l j s0 Hj) at 1.
  rewrite insert_take_drop by (by eapply lookup_lt_Some).
  rewrite !bind_app, !bind_cons. split; solve_Permutation.
Qed.

Lemma slot_at_lookup (m : fmap_t) j :
  in_range m j -> slots m !! Z.to_nat j = Some (slot_at m j).
Proof.
  unfold in_range, capacity, slot_at. intros Hj.
  destruct (slots m !! Z.to_nat j) eqn:E; [done |].
  apply lookup_ge_None in E. lia.
Qed.

Lemma idx_range (m : fmap_t) h i : 8 <= capacity m -> in_range m (idx m h i).
Proof. intros. apply Z.mod_pos_bound. lia. Qed.

Lemma home_range (m : fmap_t) k : 8 <= capacity m -> in_range m (home m k).
Proof. intros. apply Z.mod_pos_bound. lia. Qed.

Lemma idx_dist (m : fmap_t) h j :
  in_range m j -> idx m h ((j - h) mod capacity m) = j.
Proof.
  unfold in_range, idx. intros Hj. rewrite Zplus_mod_idemp_r.
  replace (h + (j - h)) with j by lia. by apply Z.mod_small.
Qed.

Lemma idx_inj (m : fmap_t) h i1 i2 :
  0 <= i1 < capacity m -> 0 <= i2 < capacity m -> idx m h i1 = idx m h i2 -> i1 = i2.
Proof.
  unfold idx. intros H1 H2 E.
  rewrite <- (Z.mod_small i1 (capacity m)), <- (Z.mod_small i2 (capacity m)) by done.
  replace i1 with (h + i1 - h) by lia. replace i2 with (h + i2 - h) by lia.
  by rewrite <- Zminus_mod_idemp_l, E, Zminus_mod_idemp_l.
Qed.

Lemma elem_of_entries (m : fmap_t) s v :
  (s, v) ∈ entries (slots m) <->
  exists j k, in_range m j /\ slot_at m j = MAP_USED k v /\ kname k = s.
Proof.
  unfold entries. rewrite list_elem_of_bind. split.
  - intros (sl & Hin & [i Hi]%list_elem_of_lookup).
    destruct sl as [| k v' |]; simpl in Hin; try (by apply not_elem_of_nil in Hin).
    apply list_elem_of_singleton in Hin. simplify_eq.
    exists (Z.of_nat i), k. unfold in_range, capacity, slot_at.
    rewrite Nat2Z.id, Hi. apply lookup_lt_Some in Hi. repeat split; lia.
  - intros (j & k & Hj & E & <-). exists (slot_at m j). split.
    + rewrite E. simpl. by apply list_elem_of_singleton.
    + eapply list_elem_of_lookup_2. by apply slot_at_lookup.
Qed.

Lemma rep_lookup m g s v :
  rep m g -> g !! s = Some v <->
  exists j k, in_range m j /\ slot_at m j = MAP_USED k v /\ kname k = s.
Proof.
  intros [(_ & _ & _ & _ & Hnd & _) ->]. rewrite <- elem_of_entries.
  split; [apply elem_of_list_to_map_2 | by apply elem_of_list_to_map_1].
Qed.

(** A table that is not full has an empty slot on every probe path. *)
Lemma has_empty m h : wf m -> exists e, 0 <= e < capacity m /\ slot_at m (idx m h e) = MAP_EMPTY.
Proof.
  intros (Hc & Hu & _ & Hload & _ & _).
  destruct (decide (Forall (fun s => nonempty s = [tt]) (slots m))) as [Hall | Hex].
  { exfalso. assert (length (filled (slots m)) = length (slots m)) as E.
    { unfold filled. clear -Hall. induction Hall as [| s l Hs _ IH]; simpl; [done |].
      rewrite Hs. simpl. by f_equal. }
    unfold capacity in *. lia. }
  apply not_Forall_Exists in Hex; [| apply _].
  apply Exists_exists in Hex as (s & [i Hi]%list_elem_of_lookup & Hs).
  pose proof (lookup_lt_Some _ _ _ Hi). set (j := Z.of_nat i).
  assert (in_range m j) as Hj by (unfold in_range, capacity, j; lia).
  exists ((j - h) mod capacity m). split; [apply Z.mod_pos_bound; lia |].
  rewrite idx_dist by done. unfold slot_at, j. rewrite Nat2Z.id, Hi. simpl.
  by destruct s; [| destruct Hs..].
Qed.

(** ** Probing *)

Definition not_key (s : slot_t) (k : K) : Prop :=
  forall k' v, s = MAP_USED k' v -> kdata k' <> kdata k.

(** What [map_find_slot] returns. *)
Definition find_post (m : fmap_t) (k : K) (r : Z * bool) : Prop :=
  match r with
  | (j, true) => in_range m j /\
      exists k' v, slot_at m j = MAP_USED k' v /\ kdata k' = kdata k
  | (j, false) =>
      exists d e, 0 <= d <= e /\ e < capacity m /\ j = idx m (home m k) d /\
        (forall k' v, slot_at m j <> MAP_USED k' v) /\
        slot_at m (idx m (home m k) e) = MAP_EMPTY /\
        (forall i, 0 <= i < e -> slot_at m (idx m (home m k) i) <> MAP_EMPTY /\
                                 not_key (slot_at m (idx m (home m k) i)) k)
  end.

(** What is known about the first tombstone after [steps] probes. *)
Definition tomb_ok (m : fmap_t) (h steps ft : Z) : Prop :=
  ft = -1 \/ exists d, 0 <= d < steps /\ ft = idx m h d /\ slot_at m ft = MAP_TOMBSTONE.

Lemma probe_yields m k n steps ft cd :
  wf m -> Z.of_nat n + steps = capacity m -> 0 <= steps ->
  (forall i, 0 <= i < steps -> slot_at m (idx m (home m k) i) <> MAP_EMPTY /\
                               not_key (slot_at m (idx m (home m k) i)) k) ->
  tomb_ok m (home m k) steps ft ->
  exists r, yields (probe kdata n m k (home m k) steps ft cd) r /\ find_post m k r.
Proof.
  intros Hwf. pose proof Hwf as (Hc & _). set (h := home m k).
  pose proof (home_range m k ltac:(lia)) as Hh. fold h in Hh. unfold in_range in Hh.
  revert steps ft cd. induction n as [| n IH]; intros steps ft cd Hn Hs Hseen Htomb.
  { exfalso. destruct (has_empty m h Hwf) as (e & He & Hem).
    destruct (Hseen e ltac:(lia)) as [Hne _]. by apply Hne. }
  cbn [probe]. rewrite (swrap_small 32) by (unfold in_s; change (32 - 1) with 31; lia).
  fold (idx m h steps). set (j := idx m h steps).
  assert (Hj : in_range m j) by (apply idx_range; lia).
  assert (Hext : forall ft', slot_at m j <> MAP_EMPTY -> not_key (slot_at m j) k ->
    tomb_ok m h (steps + 1) ft' -> forall cd, exists r,
    yields (probe kdata n m k h (steps + 1) ft' cd) r /\ find_post m k r).
  { intros ft' Hne Hnk Ht cd'. apply IH; [lia | lia | | done].
    intros i Hi. destruct (decide (i = steps)) as [-> |]; [done | apply Hseen; lia]. }
  assert (Hmono : tomb_ok m h (steps + 1) ft).
  { destruct Htomb as [-> | (d & ? & ? & ?)]; [by left |]. right. exists d.
    split; [lia | done]. }
  destruct (slot_at m j) as [| k' v |] eqn:Ej.
  - eexists. split; [eapply yields_bind; [apply yields_poll_io | apply yields_ret] |].
    unfold find_post. destruct Htomb as [-> | (d & Hd & -> & Ht)].
    + exists steps, steps. simpl. fold h j. rewrite Ej. repeat split; try lia; try done;
        by apply Hseen.
    + assert (0 <= idx m h d) by (apply idx_range; lia).
      rewrite (proj2 (Z.leb_le _ _)) by done. exists d, steps. fold h j.
      rewrite Ej, Ht. repeat split; try lia; try done; by apply Hseen.
  - unfold equal_key. case_bool_decide as Hk.
    + eexists. split; [eapply yields_bind; [apply yields_poll_io | apply yields_ret] |].
      simpl. split; [done |]. by exists k', v.
    + destruct (Hext ft ltac:(done)) with (cd := if 1 <? cd then cd - 1 else
        FE_IO_ABORT_CHECK_INTERVAL) as (r & Hy & Hp); [by intros ?? [= <- <-] | done |].
      exists r. split; [| done]. by eapply yields_bind; [apply yields_poll_io |].
  - destruct (Hext (if ft <? 0 then j else ft) ltac:(done)) with (cd := if 1 <? cd
      then cd - 1 else FE_IO_ABORT_CHECK_INTERVAL) as (r & Hy & Hp); [done | |].
    + destruct (Z.ltb_spec ft 0); [| done]. right. exists steps. split; [lia | done].
    + exists r. split; [| done]. by eapply yields_bind; [apply yields_poll_io |].
Qed.

Lemma find_slot_yields m k :
  wf m -> exists r, yields (map_find_slot kdata m k) r /\ find_post m k r.
Proof.
  intros Hwf. pose proof Hwf as (Hc & _). unfold map_find_slot.
  rewrite (proj2 (Z.leb_gt _ _)) by lia.
  destruct (probe_yields m k (length (slots m)) 0 (-1) FE_IO_ABORT_CHECK_INTERVAL)
    as (r & Hy & Hp); [done | unfold capacity; lia | done | lia | by left |].
  exists r. split; [| done].
  eapply yields_bind; [apply hash_string_obj_yields |]. cbv beta.
  rewrite (swrap_small 32); [done | lia |].
  pose proof (home_range m k ltac:(lia)) as [? ?]. unfold home in *.
  unfold in_s. change (32 - 1) with 31. lia.
Qed.

(** The slot found, read through the abstract map. *)
Lemma find_post_lookup m g k r :
  rep m g -> find_post m k r ->
  match r with
  | (j, true) => in_range m j /\
      exists k' v, slot_at m j = MAP_USED k' v /\ kname k' = kname k /\ g !! kname k = Some v
  | (j, false) => in_range m j /\ g !! kname k = None
  end.
Proof.
  intros Hrep. pose proof Hrep as [Hwf _]. pose proof Hwf as (Hc & _ & _ & _ & _ & Hprobe).
  destruct r as [j []]; simpl.
  - intros (Hj & k' & v & E & Hk%kname_inj). split; [done |]. exists k', v.
    repeat split; try done. apply (rep_lookup m g _ v Hrep). eauto.
  - intros (d & e & Hd & He & -> & _ & Hem & Hpath). split; [apply idx_range; lia |].
    apply eq_None_not_Some. intros [v Hv].
    apply (rep_lookup m g _ _ Hrep) in Hv as (j' & k' & Hj' & E & Hk%kname_inj).
    assert (Hh : home m k' = home m k) by (unfold home; by rewrite Hk).
    set (d' := (j' - home m k) mod capacity m).
    assert (Hd' : idx m (home m k) d' = j') by (by apply idx_dist).
    assert (0 <= d' < capacity m) by (apply Z.mod_pos_bound; lia).
    destruct (decide (d' < e)) as [Hlt | Hge].
    + destruct (Hpath d' ltac:(lia)) as [_ Hnk]. rewrite Hd', E in Hnk.
      by apply (Hnk k' v).
    + destruct (decide (d' = e)) as [-> | Hne]; [congruence |].
      apply (Hprobe j' k' v e Hj' E); [rewrite Hh; unfold d' in *; lia |].
      by rewrite Hh.
Qed.

(** ** Updating one slot *)

Lemma set_slot_capacity (m : fmap_t) j s c u : capacity (set_slot m j s c u) = capacity m.
Proof. unfold capacity, set_slot. simpl. by rewrite length_insert. Qed.

Lemma slot_at_set_slot (m : fmap_t) j s c u x :
  in_range m j -> 0 <= x ->
  slot_at (set_slot m j s c u) x = if decide (x = j) then s else slot_at m x.
Proof.
  unfold in_range, capacity, slot_at, set_slot. simpl. intros Hj Hx. case_decide as E.
  - subst. by rewrite list_lookup_insert_eq by lia.
  - rewrite list_lookup_insert_ne by lia. done.
Qed.

(** Filling, overwriting or tombstoning slot [j] keeps every probe path:
    no slot becomes empty, and a new key is reachable. *)
Lemma probe_ok_set_slot m j s c u :
  8 <= capacity m -> in_range m j -> probe_ok m -> s <> MAP_EMPTY ->
  (forall k v, s = MAP_USED k v -> forall i, 0 <= i < (j - home m k) mod capacity m ->
     slot_at m (idx m (home m k) i) <> MAP_EMPTY) ->
  probe_ok (set_slot m j s c u).
Proof.
  intros Hc Hj Hp Hs Hnew j' k v i. unfold in_range, home, idx.
  rewrite set_slot_capacity. fold (home m k) (idx m (home m k) i). intros Hj'.
  pose proof (idx_range m (home m k) i Hc) as [Hi0 _].
  rewrite (slot_at_set_slot m j s c u j' Hj) by lia.
  rewrite (slot_at_set_slot m j s c u _ Hj Hi0).
  intros E Hi. destruct (decide (idx m (home m k) i = j)); [done |].
  case_decide; subst; eauto.
Qed.

Lemma nonempty_length (s : slot_t) : s <> MAP_EMPTY -> length (nonempty s) = 1%nat.
Proof. by destruct s. Qed.

Lemma set_slot_rep m g j s (c u : Z) g' :
  rep m g -> in_range m j -> s <> MAP_EMPTY ->
  u = used m + match slot_at m j with MAP_EMPTY => 1 | _ => 0 end -> 4 * u < 3 * capacity m ->
  (forall rest, entries (slots m) ≡ₚ entry (slot_at m j) ++ rest ->
     c = Z.of_nat (length (entry s ++ rest)) /\ NoDup (entry s ++ rest).*1 /\
     list_to_map (entry s ++ rest) = g') ->
  (forall k v, s = MAP_USED k v -> forall i, 0 <= i < (j - home m k) mod capacity m ->
     slot_at m (idx m (home m k) i) <> MAP_EMPTY) ->
  rep (set_slot m j s c u) g'.
Proof.
  intros [(Hc & Hu & Hcnt & Hload & Hnd & Hp) Hg] Hj Hs Hu' Hl He Hnew.
  pose proof (slot_at_lookup m j Hj) as Hjs.
  destruct (bind_insert entry (slots m) _ _ s Hjs) as (rest & E1 & E2).
  destruct (bind_insert nonempty (slots m) _ _ s Hjs) as (rest2 & F1 & F2).
  fold (entries (slots m)) in E1. destruct (He rest E1) as (-> & Hnd' & <-).
  split.
  - repeat split.
    + rewrite set_slot_capacity. lia.
    + rewrite set_slot_capacity. lia.
    + simpl. unfold filled in *. rewrite F2, length_app, nonempty_length by done.
      rewrite F1, length_app in Hu. destruct (slot_at m j); simpl in *; lia.
    + simpl. unfold entries. by rewrite E2.
    + rewrite set_slot_capacity. simpl. lia.
    + simpl. unfold entries. rewrite E2. done.
    + apply probe_ok_set_slot; try done. lia.
  - simpl. unfold entries. symmetry. apply list_to_map_proper; [| done].
    by rewrite E2.
Qed.

(** ** The operations *)

Lemma list_to_map_split (l rest : list (string * V)) k v :
  NoDup ((k, v) :: rest).*1 -> l ≡ₚ (k, v) :: rest ->
  (list_to_map l : gmap string V) = <[k := v]> (list_to_map rest).
Proof.
  intros Hnd Hl. rewrite <- list_to_map_cons.
  apply (list_to_map_proper _ ((k, v) :: rest)); [| done]. by rewrite Hl.
Qed.

(** Inserting into the free slot a probe found. *)
Lemma insert_rep m g k v j :
  rep m g -> find_post m k (j, false) -> 4 * (used m + 1) < 3 * capacity m ->
  rep (set_slot m j (MAP_USED k v) (count m + 1)
         match slot_at m j with MAP_EMPTY => used m + 1 | _ => used m end)
      (<[kname k := v]> g).
Proof.
  intros Hrep Hf Hl. pose proof (find_post_lookup m g k _ Hrep Hf) as [Hj Hnone].
  pose proof Hrep as [(Hc & _ & Hcnt & _ & Hnd & _) Hg].
  destruct Hf as (d & e & Hd & He & Ej & Hnu & _ & Hpath).
  assert (Hent : entry (slot_at m j) = []).
  { destruct (slot_at m j) as [| k' v' |] eqn:E; try done. by destruct (Hnu k' v'). }
  apply (set_slot_rep m g j _ _ _ _ Hrep Hj); try done.
  - destruct (slot_at m j); lia.
  - destruct (slot_at m j); lia.
  - intros rest Hr. rewrite Hent in Hr. simpl in Hr |- *.
    rewrite Hr in Hcnt, Hnd. repeat split.
    + lia.
    + apply NoDup_cons. split; [| done]. intros Hin.
      apply list_elem_of_fmap in Hin as ([s v0] & Hs & Hin). simpl in Hs. subst s.
      rewrite <- Hr in Hin. apply elem_of_list_to_map_1 in Hin; [| by rewrite Hr].
      rewrite <- Hg in Hin. congruence.
    + rewrite Hg. f_equal. symmetry. by apply list_to_map_proper; [rewrite Hr |].
  - intros k0 v0 [= <- <-] i Hi. apply Hpath.
    assert ((j - home m k) mod capacity m = d) as Hdd; [| lia].
    rewrite Ej. unfold idx. rewrite Zminus_mod_idemp_l.
    replace (home m k + d - home m k) with d by lia. apply Z.mod_small. lia.
Qed.

(** Overwriting the value of the slot a probe found. *)
Lemma overwrite_rep m g k k' v v' j :
  rep m g -> in_range m j -> slot_at m j = MAP_USED k' v' -> kname k' = kname k ->
  rep (set_slot m j (MAP_USED k' v) (count m) (used m)) (<[kname k := v]> g).
Proof.
  intros Hrep Hj E Hk. pose proof Hrep as [(Hc & _ & Hcnt & ? & Hnd & Hp) Hg].
  apply (set_slot_rep m g j _ _ _ _ Hrep Hj); rewrite ?E; try (done || lia).
  - intros rest Hr. simpl in *. rewrite Hr in Hcnt, Hnd. repeat split; try done.
    rewrite <- Hk, Hg, (list_to_map_split _ _ _ _ Hnd Hr). simpl.
    by rewrite insert_insert_eq.
  - intros k0 v0 [= <- <-] i Hi. by apply (Hp j k' v').
Qed.

Lemma delete_rep m g k k' v' j :
  rep m g -> in_range m j -> slot_at m j = MAP_USED k' v' -> kname k' = kname k ->
  rep (set_slot m j MAP_TOMBSTONE (count m - 1) (used m)) (delete (kname k) g).
Proof.
  intros Hrep Hj E Hk. pose proof Hrep as [(Hc & _ & Hcnt & ? & Hnd & Hp) Hg].
  apply (set_slot_rep m g j _ _ _ _ Hrep Hj); rewrite ?E; try (done || lia).
  intros rest Hr. simpl in *. rewrite Hr in Hcnt, Hnd.
  rewrite <- Hk, Hg, (list_to_map_split _ _ _ _ Hnd Hr).
  apply NoDup_cons in Hnd as [Hnin Hnd']. repeat split; [simpl in Hcnt; lia | done |].
  rewrite delete_insert_eq. symmetry. apply delete_id. by apply not_elem_of_list_to_map.
Qed.

(** A fresh table holds the empty map. *)
Lemma fresh_rep cap bs :
  8 <= cap <= 2 ^ 28 -> rep (MkMap 0 0 (replicate (Z.to_nat cap) MAP_EMPTY) bs) ∅.
Proof.
  intros Hc.
  assert (forall n A (f : slot_t -> list A), f MAP_EMPTY = [] ->
    replicate n (MAP_EMPTY : slot_t) ≫= f = []) as Hb.
  { induction n as [| n IH]; intros A f Hf; simpl; [done |]. rewrite Hf. by apply IH. }
  split.
  - unfold wf, filled, entries, capacity, probe_ok; simpl. rewrite length_replicate, !Hb by done.
    repeat split; try (simpl; lia); try by constructor.
    intros j k v i Hj E. exfalso. unfold slot_at in E; simpl in E.
    destruct (replicate _ _ !! _) as [s |] eqn:El; simpl in E; [| done].
    apply lookup_replicate in El as [-> _]. done.
  - simpl. unfold entries. by rewrite Hb.
Qed.

(** ** Ownership of the table's heap blocks *)

Definition live (mem : Mem) (b : block) : Prop := is_Some (blocks mem !! b).

Definition owns (mem : Mem) (bs : list block) : Prop :=
  NoDup bs /\ forall b, b ∈ bs -> live mem b.

(** [mem'] still has every block of [mem] outside [bs]. *)
Definition keeps (mem mem' : Mem) (bs : list block) : Prop :=
  forall b, b ∉ bs -> live mem b -> live mem' b.

Definition some_list (rs : list (option block)) : list block := omap id rs.

Lemma free_blocks_good mem rs :
  mem_ok mem -> owns mem (some_list rs) ->
  exists mem', free_blocks rs mem = Done tt mem' /\ mem_ok mem' /\
    keeps mem mem' (some_list rs).
Proof.
  revert mem. induction rs as [| [b |] rs IH]; intros mem Hok [Hnd Hl]; cbn [free_blocks].
  - exists mem. split; [done |]. split; [done |]. by intros ???.
  - cbn in Hnd, Hl |- *. apply NoDup_cons in Hnd as [Hb Hnd].
    destruct (Hl b ltac:(by left)) as [sz Hsz].
    destruct (tracked_free_good b sz mem Hok Hsz) as (m1 & E & [Hok1 _] & Hbl & _).
    assert (Hlv : forall x, x <> b -> live mem x -> live m1 x).
    { intros x Hx. unfold live. by rewrite Hbl, lookup_delete_ne. }
    destruct (IH m1 Hok1) as (m2 & E2 & Hok2 & Hk).
    { split; [done |]. intros x Hx. apply Hlv; [by intros -> |]. by apply Hl; right. }
    exists m2. unfold bind. rewrite E. split; [done |]. split; [done |].
    intros x Hx Hlx. apply not_elem_of_cons in Hx as [??]. by apply Hk; auto.
  - destruct (IH mem Hok (conj Hnd Hl)) as (m2 & E2 & Hok2 & Hk). exists m2.
    unfold bind. simpl. auto.
Qed.

(** Blocks allocated since [mem0]. *)
Definition fresh_since (mem0 mem : Mem) (bs : list block) : Prop :=
  (forall b, live mem0 b -> live mem b) /\ owns mem bs /\ (forall b, b ∈ bs -> ~ live mem0 b).

Lemma alloc_fresh mem0 mem bs size :
  mem_ok mem -> fresh_since mem0 mem bs -> 0 <= size ->
  exists r mem', tracked_alloc size mem = Done r mem' /\ mem_ok mem' /\
    fresh_since mem0 mem' (some_list [r] ++ bs).
Proof.
  intros Hok (Hk & [Hnd Hl] & Hf) Hs.
  destruct (tracked_alloc_good size mem Hok Hs) as (r & m' & E & [Hok' _] & Hr).
  exists r, m'. split; [done |]. split; [done |].
  assert (Hmono : forall b, live mem b -> live m' b).
  { unfold live. destruct r as [p |]; [destruct Hr as (Hp & -> & _) | by destruct Hr as (-> & _)].
    intros b Hb. destruct (decide (b = p)) as [-> | ?]; [by rewrite Hp in Hb; destruct Hb |].
    by rewrite lookup_insert_ne. }
  split; [by auto |]. destruct r as [p |]; simpl; [| split; [split |]; by auto].
  destruct Hr as (Hp & Hb & _).
  assert (~ live mem p) as Hnl by (unfold live; rewrite Hp; by intros [??]).
  split; [split |].
  - apply NoDup_cons. split; [| done]. intros Hin. by apply Hnl, Hl.
  - intros b [-> | Hin]%elem_of_cons; [| by auto]. unfold live. by rewrite Hb, lookup_insert_eq.
  - intros b [-> | Hin]%elem_of_cons; [| by auto]. by auto.
Qed.

(** A table allocated for [cap] slots: four new blocks, or nothing. *)
Lemma map_alloc_good mem cap :
  mem_ok mem -> 8 <= cap <= 2 ^ 28 ->
  exists r mem', map_alloc (K := K) (V := V) cap mem = Done r mem' /\ mem_ok mem' /\
    (forall b, live mem b -> live mem' b) /\
    (forall m, r = Some m -> rep m ∅ /\ capacity m = cap /\ used m = 0 /\
       (forall s, s ∈ slots m -> s <> MAP_TOMBSTONE) /\
       exists bs, map_blocks m = Some <$> bs /\ length bs = 4%nat /\ fresh_since mem mem' bs).
Proof.
  intros Hok Hc. unfold map_alloc, SIZEOF_MAP, SIZEOF_PTR.
  assert (fresh_since mem mem []) as F by (split; [done |]; split; [split; [constructor |] |]; set_solver).
  destruct (alloc_fresh mem mem [] 40 Hok F ltac:(lia)) as (r0 & m0 & E0 & Hok0 & F0).
  destruct (alloc_fresh mem m0 _ (8 * cap) Hok0 F0 ltac:(lia)) as (r1 & m1 & E1 & Hok1 & F1).
  destruct (alloc_fresh mem m1 _ (8 * cap) Hok1 F1 ltac:(lia)) as (r2 & m2 & E2 & Hok2 & F2).
  destruct (alloc_fresh mem m2 _ cap Hok2 F2 ltac:(lia)) as (r3 & m3 & E3 & Hok3 & F3).
  unfold bind. rewrite E0. destruct r0 as [b0 |].
  2:{ exists None, m0. split; [done |]. split; [done |]. split; [apply F0 | done]. }
  rewrite E1, E2, E3.
  assert (Hp : some_list [r3] ++ some_list [r2] ++ some_list [r1] ++ some_list [Some b0] ++ []
    ≡ₚ some_list [r1; r2; r3; Some b0]).
  { destruct r1, r2, r3; simpl; solve_Permutation. }
  destruct F3 as (Hk3 & [Hnd3 Hl3] & Hn3).
  assert (owns m3 (some_list [r1; r2; r3; Some b0])) as Ho.
  { split; [by rewrite <- Hp |]. intros b Hb. apply Hl3. by rewrite Hp. }
  assert (forall b, b ∈ some_list [r1; r2; r3; Some b0] -> ~ live mem b) as Hn
    by (intros b Hb; apply Hn3; by rewrite Hp).
  destruct (free_blocks_good m3 _ Hok3 Ho) as (m4 & E4 & Hok4 & Hk4).
  assert (forall b, live mem b -> live m4 b) as Hk
    by (intros b Hb; apply Hk4; [intros Hin; by apply (Hn b) | by auto]).
  destruct r1 as [b1 |], r2 as [b2 |], r3 as [b3 |];
    try (rewrite E4; exists None, m4; done).
  eexists _, m3. split; [done |]. split; [done |]. split; [done |]. intros m [= <-].
  split; [by apply fresh_rep |]. split; [unfold capacity; simpl; rewrite length_replicate; lia |].
  split; [done |]. split; [by intros s [-> _]%elem_of_replicate |].
  exists [b0; b1; b2; b3]. split; [done |]. split; [done |]. split; [done |].
  assert (some_list [Some b1; Some b2; Some b3; Some b0] ≡ₚ [b0; b1; b2; b3]) as Hq
    by (simpl; solve_Permutation).
  split; [split |].
  - rewrite <- Hq. apply Ho.
  - intros b Hb. apply Ho. by rewrite Hq.
  - intros b Hb. apply Hn. by rewrite Hq.
Qed.

(** ** Growth *)

Lemma set_slot_blocks (m : fmap_t) j s c u : map_blocks (set_slot m j s c u) = map_blocks m.
Proof. done. Qed.

(** Re-inserting a list of slots into a table without tombstones. *)
Lemma rehash_yields old cd grown g0 :
  rep grown g0 -> (forall s, s ∈ slots grown -> s <> MAP_TOMBSTONE) ->
  NoDup (entries old).*1 -> (forall s, s ∈ (entries old).*1 -> g0 !! s = None) ->
  4 * (used grown + Z.of_nat (length (entries old))) < 3 * capacity grown ->
  exists filled, yields (rehash kdata old cd grown) (Some filled) /\
    rep filled (list_to_map (entries old) ∪ g0) /\
    capacity filled = capacity grown /\ map_blocks filled = map_blocks grown /\
    used filled = used grown + Z.of_nat (length (entries old)).
Proof.
  revert cd grown g0. induction old as [| s old IH]; intros cd grown g0 Hrep Hnt Hnd Hdisj Hl;
    cbn [rehash].
  { exists grown. split; [apply yields_ret |]. simpl.
    rewrite (left_id_L ∅ (∪)). split; [done |]. split; [done |]. split; [done | lia]. }
  assert (Hskip : entry s = [] -> exists filled,
    yields (let* countdown := poll_io cd in rehash kdata old countdown grown) (Some filled) /\
    rep filled (list_to_map (entries (s :: old)) ∪ g0) /\
    capacity filled = capacity grown /\ map_blocks filled = map_blocks grown /\
    used filled = used grown + Z.of_nat (length (entries (s :: old)))).
  { intros Hs. unfold entries in *. rewrite bind_cons, Hs in *. simpl in *.
    destruct (IH (if 1 <? cd then cd - 1 else FE_IO_ABORT_CHECK_INTERVAL) grown g0 Hrep Hnt
      Hnd Hdisj Hl) as (f & Hy & Hf). exists f. split; [| done].
    eapply yields_bind; [apply yields_poll_io | apply Hy]. }
  destruct s as [| k v |]; [by apply Hskip | clear Hskip | by apply Hskip].
  unfold entries in Hnd, Hdisj, Hl. rewrite bind_cons in Hnd, Hdisj, Hl. simpl in Hnd, Hdisj, Hl.
  fold (entries old) in *. apply NoDup_cons in Hnd as [Hk Hnd].
  pose proof Hrep as [Hwf _].
  destruct (find_slot_yields grown k Hwf) as ([j fnd] & Hy & Hpost).
  pose proof (find_post_lookup grown g0 k _ Hrep Hpost) as Hlk.
  pose proof (Hdisj (kname k) ltac:(by left)) as Hnone.
  destruct fnd; [destruct Hlk as (_ & ? & ? & _ & _ & ?); congruence |].
  destruct Hlk as [Hj _].
  assert (Hempty : slot_at grown j = MAP_EMPTY).
  { pose proof (Hnt _ (list_elem_of_lookup_2 _ _ _ (slot_at_lookup grown j Hj))).
    destruct Hpost as (_ & _ & _ & _ & _ & Hnu & _).
    destruct (slot_at grown j) as [| k' v' |] eqn:E; [done | by destruct (Hnu k' v') | done]. }
  pose proof (insert_rep grown g0 k v j Hrep Hpost ltac:(lia)) as Hrep'.
  rewrite Hempty in Hrep'. set (g1 := set_slot _ _ _ _ _) in Hrep'.
  destruct (IH (if 1 <? cd then cd - 1 else FE_IO_ABORT_CHECK_INTERVAL) g1 _ Hrep')
    as (f & Hyf & Hf & Hcap & Hbl & Hu); [| done | | |].
  - intros s Hs. apply list_elem_of_lookup in Hs as [i Hi]. unfold g1, set_slot in Hi; simpl in Hi.
    apply list_lookup_insert_Some in Hi as [(_ & <- & _) | (_ & Hi)]; [done |].
    by eapply Hnt, list_elem_of_lookup_2.
  - intros s Hs. rewrite lookup_insert_ne; [apply Hdisj; by right |]. by intros <-.
  - unfold g1. rewrite set_slot_capacity. simpl. lia.
  - exists f. split.
    + eapply yields_bind; [apply yields_poll_io |]. eapply yields_bind; [apply Hy |].
      cbv beta iota. rewrite (proj2 (Z.ltb_ge _ _)) by apply Hj. apply Hyf.
    + unfold entries. rewrite bind_cons. fold (entries old). simpl.
      rewrite <- insert_union_l, insert_union_r by (by apply not_elem_of_list_to_map_1).
      split; [done |]. split; [by rewrite Hcap; unfold g1; rewrite set_slot_capacity |].
      split; [done |]. rewrite Hu. unfold g1. simpl. lia.
Qed.

Lemma grow_target_eq fuel u target :
  grow_target fuel u target =
    if i32 (target * 3) <=? i32 ((u + 1) * 4)
    then match fuel with O => None | S f => grow_target f u (i32 (target * 2)) end
    else Some target.
Proof. by destruct fuel. Qed.

(** The doubling loop ends, after one round, at twice the capacity. *)
Lemma grow_target_ok m :
  wf m -> capacity m <= 2 ^ 27 -> 3 * capacity m <= 4 * (used m + 1) ->
  grow_target 32 (used m) (capacity m) = Some (2 * capacity m) /\
  4 * (used m + 1) < 3 * (2 * capacity m).
Proof.
  intros (Hc & Hu & _ & Hl & _) Hb Hge.
  assert (forall z, - 2 ^ 31 <= z < 2 ^ 31 -> i32 z = z) as Hi.
  { intros z Hz. apply swrap_small; [lia |]. unfold in_s. by change (32 - 1) with 31. }
  split; [| lia]. rewrite grow_target_eq, !Hi by lia.
  rewrite (proj2 (Z.leb_le _ _)) by lia.
  rewrite grow_target_eq, !Hi by lia. rewrite (proj2 (Z.leb_gt _ _)) by lia. f_equal. lia.
Qed.

Lemma entries_le_filled (l : list slot_t) : (length (entries l) <= length (filled l))%nat.
Proof.
  unfold entries, filled. induction l as [| s l IH]; [done |].
  rewrite !bind_cons, !length_app. destruct s; simpl length at 1 3; lia.
Qed.

(** The table with its four heap blocks. *)
Definition rep_in (mem : Mem) (m : fmap_t) (g : gmap string V) : Prop :=
  rep m g /\ exists bs, map_blocks m = Some <$> bs /\ length bs = 4%nat /\ owns mem bs.

Lemma some_list_fmap bs : some_list (Some <$> bs) = bs.
Proof. unfold some_list. induction bs as [| b bs IH]; simpl; [done |]. by f_equal. Qed.

(** What [map_ensure_capacity] does: the same map with room for one more
    entry, a refused allocation, or an abort. *)
Lemma ensure_capacity_good m g st :
  rep_in (rt_mem st) m g -> mem_ok (rt_mem st) -> capacity m <= 2 ^ 27 ->
  match map_ensure_capacity kdata m st with
  | Done (Some m') st' => rep_in (rt_mem st') m' g /\ mem_ok (rt_mem st') /\
      4 * (used m' + 1) < 3 * capacity m' /\ (quiet (rt_bud st) -> quiet (rt_bud st'))
  | Done None st' => mem_ok (rt_mem st')
  | Raised _ _ => ~ quiet (rt_bud st)
  | Stuck | NoFuel => False
  end.
Proof.
  intros [Hrep (bs & Hbs & Hlen & Ho)] Hok Hb. pose proof Hrep as [Hwf Hg].
  pose proof Hwf as (Hc & Hu & Hcnt & Hl & Hnd & _).
  unfold map_ensure_capacity. rewrite (proj2 (Z.ltb_ge (capacity m) 8)) by lia.
  assert (forall z, - 2 ^ 31 <= z < 2 ^ 31 -> i32 z = z) as Hi.
  { intros z Hz. apply swrap_small; [lia |]. unfold in_s. by change (32 - 1) with 31. }
  rewrite !Hi by lia.
  destruct (Z.ltb_spec ((used m + 1) * 4) (capacity m * 3)) as [Hroom | Hfull].
  { unfold ret. split; [split; [done | by exists bs] |]. split; [done |]. split; [lia | done]. }
  destruct (grow_target_ok m Hwf Hb ltac:(lia)) as [-> Hcap2].
  unfold map_resize, bind, lift_mem at 1.
  destruct (map_alloc_good (rt_mem st) (2 * capacity m) Hok ltac:(lia))
    as ([grown |] & mem1 & E & Hok1 & Hk1 & Hr); rewrite E; [| done].
  destruct (Hr grown eq_refl) as (Hrep1 & Hcap1 & Hu1 & Hnt & bs2 & Hbs2 & Hlen2 & Hf2).
  destruct (rehash_yields (slots m) FE_IO_ABORT_CHECK_INTERVAL grown ∅ Hrep1 Hnt Hnd)
    as (f & Hy & Hf & Hcapf & Hblf & Huf).
  { intros. apply lookup_empty. }
  { pose proof (entries_le_filled (slots m)). rewrite Hu1, Hcap1. lia. }
  rewrite (right_id_L ∅ (∪)), <- Hg in Hf. unfold lift_bud. cbn [rt_mem rt_bud].
  destruct (Hy (rt_bud st)) as [(b1 & Er & Hq) | (Hnq & msg & b1 & Er)]; rewrite Er; [| done].
  destruct bs as [| p0 bs]; [done |]. destruct bs2 as [| q0 bs2]; [done |].
  assert (drop 1 (map_blocks m) = Some <$> bs /\ take 1 (map_blocks grown) = [Some q0] /\
    take 1 (map_blocks m) ++ drop 1 (map_blocks grown) = Some <$> p0 :: bs2) as (-> & -> & ->)
    by (rewrite Hbs, Hbs2; done).
  destruct Hf2 as (_ & [Hnd2 Hl2] & Hn2). destruct Ho as [Hnd1 Hl1].
  apply NoDup_cons in Hnd1 as [Hp0 Hnd1]. apply NoDup_cons in Hnd2 as [Hq0 Hnd2].
  destruct (free_blocks_good mem1 (Some <$> bs) Hok1) as (mem2 & E2 & Hok2 & Hk2).
  { rewrite some_list_fmap. split; [done |]. intros b Hb'. apply Hk1, Hl1. by right. }
  rewrite some_list_fmap in Hk2. unfold lift_mem. cbn [rt_mem rt_bud]. rewrite E2.
  assert (Hdisj : forall b, b ∈ q0 :: bs2 -> b ∉ p0 :: bs).
  { intros b H2 H1. by apply (Hn2 b H2), Hl1. }
  destruct (free_blocks_good mem2 [Some q0] Hok2) as (mem3 & E3 & Hok3 & Hk3).
  { split; [apply NoDup_singleton |]. intros b ->%list_elem_of_singleton. apply Hk2.
    - intros Hin. apply (Hdisj q0); by constructor.
    - apply Hl2. by left. }
  cbn [rt_mem rt_bud]. rewrite E3. unfold ret. cbn [rt_mem]. cbn in Hk3.
  assert (Hkeep : forall b, b ∉ bs -> b <> q0 -> live mem1 b -> live mem3 b).
  { intros b ???. apply Hk3; [set_solver | by apply Hk2]. }
  split; [split |]; [| exists (p0 :: bs2) |].
  - destruct Hf as [Hwff Hgf]. split; [exact Hwff | done].
  - cbn. split; [done |]. split; [simpl in *; lia |]. split.
    + apply NoDup_cons. split; [| done]. intros Hin. apply (Hdisj p0); [by right | by left].
    + intros b [-> | Hin]%elem_of_cons; apply Hkeep.
      * done.
      * intros ->. apply (Hdisj q0); by constructor.
      * apply Hk1, Hl1. by left.
      * intros Hin'. by apply (Hdisj b); right.
      * by intros ->.
      * apply Hl2. by right.
  - split; [done |]. split; [| done]. change (4 * (used f + 1) < 3 * capacity f).
    pose proof (entries_le_filled (slots m)). rewrite Huf, Hu1, Hcapf, Hcap1. lia.
Qed.

(** ** Refinement theorems *)

Lemma rep_count m g : rep m g -> fe_map_count m = Z.of_nat (size g).
Proof.
  intros [(_ & _ & Hcnt & _ & Hnd & _) ->]. unfold fe_map_count. rewrite Hcnt. f_equal.
  rewrite <- (length_map_to_list (list_to_map _)).
  by rewrite map_to_list_to_map.
Qed.

(** C22. Lookups: [fe_map_get], [fe_map_has] and [fe_map_count] on a table that
    represents [g] answer as [g] does, whatever tombstones and collisions
    the table has; they return unless an installed timeout or interrupt
    aborts them. *)
Theorem map_lookup_refines m g k :
  rep m g ->
  yields (fe_map_get kdata m k) (g !! kname k) /\
  yields (fe_map_has kdata m k) (bool_decide (is_Some (g !! kname k))) /\
  fe_map_count m = Z.of_nat (size g).
Proof.
  intros Hrep. pose proof Hrep as [Hwf _]. split; [| split]; [| | by apply rep_count].
  all: destruct (find_slot_yields m k Hwf) as ([j fnd] & Hy & Hpost).
  all: pose proof (find_post_lookup m g k _ Hrep Hpost) as Hlk.
  all: eapply yields_bind; [apply Hy |].
  - destruct fnd; [destruct Hlk as (Hj & k' & v & Es & _ & ->) | destruct Hlk as (_ & ->)];
      [| apply yields_ret]. cbn [negb orb].
    rewrite (proj2 (Z.ltb_ge _ _)) by apply Hj. rewrite Es. apply yields_ret.
  - destruct fnd; [destruct Hlk as (Hj & k' & v & Es & _ & ->) | destruct Hlk as (_ & ->)];
      apply yields_ret.
Qed.

(** C21. Deletion: the key disappears from the abstract map, the answer says
    whether it was there, and the table stays well formed (its probe paths
    survive the tombstone). *)
Theorem map_delete_refines m g k :
  rep m g ->
  exists m', yields (fe_map_delete kdata m k) (bool_decide (is_Some (g !! kname k)), m') /\
    rep m' (delete (kname k) g).
Proof.
  intros Hrep. pose proof Hrep as [Hwf _].
  destruct (find_slot_yields m k Hwf) as ([j fnd] & Hy & Hpost).
  pose proof (find_post_lookup m g k _ Hrep Hpost) as Hlk.
  destruct fnd; [destruct Hlk as (Hj & k' & v & Es & Hk & Hg) | destruct Hlk as (_ & Hg)];
    eexists; (split; [eapply yields_bind; [apply Hy |] |]); rewrite ?Hg; cbn [negb orb].
  - rewrite (proj2 (Z.ltb_ge _ _)) by apply Hj. apply yields_ret.
  - by eapply delete_rep.
  - apply yields_ret.
  - by rewrite delete_id.
Qed.

(** C20. Insertion: from a represented map in a table of at most 2^27 slots,
    [fe_map_set] gives a table that represents the updated map and owns its
    heap blocks.  The only other ends are a raised abort, which needs a
    timeout or an interrupt handler, and the out-of-memory error; the code
    never probes past the table, loops in the growth loop or frees a block
    it does not own. *)
Theorem map_set_refines m g k v st :
  rep_in (rt_mem st) m g -> mem_ok (rt_mem st) -> capacity m <= 2 ^ 27 ->
  match fe_map_set kdata m k v st with
  | Done m' st' => rep_in (rt_mem st') m' (<[kname k := v]> g) /\ mem_ok (rt_mem st') /\
      fe_map_count m' = Z.of_nat (size (<[kname k := v]> g))
  | Raised msg _ => ~ quiet (rt_bud st) \/
      msg = "out of memory (map)"%string \/ msg = "memory limit exceeded"%string
  | Stuck | NoFuel => False
  end.
Proof.
  intros Hrep Hok Hb. unfold fe_map_set, map_store, bind at 1.
  pose proof (ensure_capacity_good m g st Hrep Hok Hb) as He.
  destruct (map_ensure_capacity kdata m st) as [[m1 |] st1 | msg st1 | |]; [| | auto | done | done].
  2:{ unfold lift_mem, memory_error. destruct (alloc_failure_is_limit _); auto. }
  destruct He as ([Hrep1 Hown] & Hok1 & Hload & Hqt). pose proof Hrep1 as [Hwf1 _].
  destruct (find_slot_yields m1 k Hwf1) as ([j fnd] & Hy & Hpost).
  pose proof (find_post_lookup m1 g k _ Hrep1 Hpost) as Hlk. unfold bind, lift_bud.
  destruct (Hy (rt_bud st1)) as [(b1 & Er & Hq) | (Hnq & msg & b1 & Er)]; rewrite Er.
  2:{ left. tauto. }
  destruct fnd.
  - destruct Hlk as (Hj & k' & v' & Es & Hk & Hg).
    rewrite (proj2 (Z.ltb_ge _ _)) by apply Hj. rewrite Es. unfold ret.
    pose proof (overwrite_rep m1 g k k' v v' j Hrep1 Hj Es Hk) as Hr.
    split; [split; [done | by rewrite set_slot_blocks] |]. split; [done |]. by apply rep_count.
  - destruct Hlk as (Hj & Hg). rewrite (proj2 (Z.ltb_ge _ _)) by apply Hj. unfold ret.
    pose proof (insert_rep m1 g k v j Hrep1 Hpost Hload) as Hr.
    split; [split; [done | by rewrite set_slot_blocks] |]. split; [done |]. by apply rep_count.
Qed.


Lemma keys_loop_yields l cd acc :
  exists ks, yields (keys_loop (V := V) (rev l) cd acc) ks /\
    kname <$> ks = (entries l).*1 ++ (kname <$> acc).
Proof.
  revert cd acc. induction l as [| s l IH] using rev_ind; intros cd acc.
  - exists acc. split; [apply yields_ret | done].
  - rewrite rev_app_distr. cbn [rev app keys_loop].
    destruct (IH (if 1 <? cd then cd - 1 else FE_IO_ABORT_CHECK_INTERVAL)
      (match s with MAP_USED k _ => k :: acc | _ => acc end)) as (ks & Hy & E).
    exists ks. split; [eapply yields_bind; [apply yields_poll_io | apply Hy] |].
    rewrite E. unfold entries. rewrite bind_app, fmap_app, <- app_assoc. f_equal.
    by destruct s.
Qed.

(** Enumeration: [fe_map_keys] lists each key of the map exactly once, in
    slot order. *)
Theorem map_keys_refines m g :
  rep m g ->
  exists ks, yields (fe_map_keys m) ks /\
    kname <$> ks = (entries (slots m)).*1 /\ NoDup (kname <$> ks) /\
    (forall s, s ∈ kname <$> ks <-> is_Some (g !! s)).
Proof.
  intros [(_ & _ & _ & _ & Hnd & _) ->].
  destruct (keys_loop_yields (slots m) FE_IO_ABORT_CHECK_INTERVAL []) as (ks & Hy & E).
  rewrite app_nil_r in E. exists ks. split; [exact Hy |]. split; [done |].
  rewrite E. split; [done |]. intros s. split.
  - intros ([s' v] & -> & Hin)%list_elem_of_fmap. exists v. by apply elem_of_list_to_map_1.
  - intros [v Hv%elem_of_list_to_map_2]. apply list_elem_of_fmap. by exists (s, v).
Qed.

End Spec.

(** ** Concrete tables, with the bytes of the keys as key objects *)

Definition example_mem : Mem := MkMem 0 4096 4096 4096 false false ∅ 0%nat (fun _ => true) 0%nat.
Definition example_rt : Rt :=
  MkRt example_mem (MkBudget 0 0 0 0 0 0 0 None 0 (fun _ => 0) 0%nat 0%nat).
Definition example_table : @fe_Map chars Z := MkMap 0 0 (replicate 8 MAP_EMPTY) [].

Lemma example_table_rep : rep id example_table ∅.
Proof. apply (fresh_rep id 8 []); lia. Qed.

Lemma map_lookup_refines_witness :
  yields (fe_map_get id example_table (str "k")) None.
Proof. destruct (map_lookup_refines id example_table ∅ (str "k") example_table_rep) as [H _]. exact H. Defined.

Lemma map_delete_refines_witness :
  exists m', yields (fe_map_delete id example_table (str "k")) (false, m') /\ rep id m' ∅.
Proof.
  destruct (map_delete_refines id example_table ∅ (str "k") example_table_rep) as (m' & H1 & H2).
  exists m'. split; [exact H1 | rewrite delete_empty in H2; exact H2].
Defined.

Lemma map_keys_refines_witness : exists ks, yields (fe_map_keys example_table) ks.
Proof.
  destruct (map_keys_refines id example_table ∅ example_table_rep) as (ks & H & _).
  exists ks. exact H.
Defined.

Lemma example_mem_ok : mem_ok example_mem.
Proof.
  unfold mem_ok, total. simpl. rewrite map_fold_empty. do 5 (split; [lia |]).
  intros p sz. by rewrite lookup_empty.
Qed.

Lemma example_alloc :
  exists m mem', rep_in id mem' m ∅ /\ mem_ok mem' /\ capacity (K := chars) (V := Z) m = 8.
Proof.
  destruct (map_alloc_good (K := chars) (V := Z) id example_mem 8 example_mem_ok ltac:(lia))
    as (r & mem' & E & Hok & _ & Hr).
  destruct r as [m |]; [| vm_compute in E; discriminate].
  destruct (Hr m eq_refl) as (Hrep & Hc & _ & _ & bs & Hb & Hl & _ & Ho & _).
  exists m, mem'. split; [| done]. split; [done |]. by exists bs.
Qed.

Lemma map_set_refines_witness :
  exists m mem, capacity m = 8 /\
    match fe_map_set id m (str "k") 7 (MkRt mem (rt_bud example_rt)) with
    | Done m' st' => rep_in id (rt_mem st') m' {[ "k"%string := 7 ]}
    | Raised msg _ => msg = "out of memory (map)"%string \/ msg = "memory limit exceeded"%string
    | _ => False
    end.
Proof.
  destruct example_alloc as (m & mem & Hrep & Hok & Hc). exists m, mem. split; [exact Hc |].
  pose proof (map_set_refines id m ∅ (str "k") 7 (MkRt mem (rt_bud example_rt)) Hrep Hok
    ltac:(rewrite Hc; lia)) as H.
  destruct (fe_map_set id m (str "k") 7 _) as [m' st' | msg st' | |].
  - destruct H as [H _]. exact H.
  - destruct H as [H | H]; [| exact H]. exfalso. apply H. split; [simpl; lia | reflexivity].
  - exact H.
  - exact H.
Defined.
