(* ===== verification/Slab.v ===== *)
(** * The string slab arena (src/fe.c: fe_Slab, str_alloc, equal_slab, ...)

    Strings and byte buffers live in chains of 64-byte slabs, each holding
    the offset of the next slab and 60 data bytes.  Free slabs are linked
    through the same field. *)

From Stdlib Require Import ZArith Lia Ascii String.
From stdpp Require Import base list.
From S2P Require Import Prelude.

Definition FE_SLAB_SIZE : Z := 64.
Definition FE_SLAB_DATA_SIZE : nat := 60.
Definition FE_SLAB_NULL : Z := 2 ^ 32 - 1.

Record fe_Slab := MkSlab { next : Z; data : chars }.

Record StrArena := MkArena {
  slabs : list fe_Slab;        (* the slab at byte offset 64 * i is the i-th *)
  str_freelist : Z;
  bytes_since_gc : Z
}.

(** The slab at [ctx->str_base + offset], when there is one in the arena. *)
Definition slab_at (A : StrArena) (o : Z) : option fe_Slab :=
  if decide (0 <= o /\ o mod FE_SLAB_SIZE = 0)
  then slabs A !! Z.to_nat (o / FE_SLAB_SIZE) else None.

Definition read_slab (o : Z) : comp StrArena fe_Slab := fun A =>
  match slab_at A o with Some s => Done s A | None => Stuck end.
Definition write_slab (o : Z) (s : fe_Slab) : comp StrArena unit := fun A =>
  match slab_at A o with
  | Some _ => Done tt (MkArena (<[Z.to_nat (o / FE_SLAB_SIZE) := s]> (slabs A))
                         (str_freelist A) (bytes_since_gc A))
  | None => Stuck
  end.
Definition set_next (o n : Z) : comp StrArena unit :=
  let* s := read_slab o in write_slab o (MkSlab n (data s)).
Definition set_freelist (o : Z) : comp StrArena unit :=
  modify (fun A => MkArena (slabs A) o (bytes_since_gc A)).

(** memcpy / memset of the first [length bytes] data bytes of a slab. *)
Definition set_data (o : Z) (bytes : chars) : comp StrArena unit :=
  let* s := read_slab o in
  write_slab o (MkSlab (next s) (bytes ++ drop (length bytes) (data s))).

(** ** Initialisation

    The loop of fe_open that links every slab of the arena, whose memory is
    [str_end] bytes of unspecified contents, into the free list. *)
Fixpoint populate_slabs (fuel : nat) (slab_ptr str_end : Z) : comp StrArena unit :=
  if slab_ptr + FE_SLAB_SIZE <=? str_end then
    match fuel with
    | O => no_fuel
    | S f =>
        let* A := get in
        set_next slab_ptr (str_freelist A) ;;;
        set_freelist (u32 slab_ptr) ;;;
        populate_slabs f (slab_ptr + FE_SLAB_SIZE) str_end
    end
  else ret tt.

(** ** Freeing *)

Definition str_slab_free (offset : Z) : comp StrArena unit :=
  if offset =? FE_SLAB_NULL then ret tt
  else
    let* A := get in
    set_next offset (str_freelist A) ;;; set_freelist offset.

Fixpoint str_free_chain (fuel : nat) (offset : Z) : comp StrArena unit :=
  if offset =? FE_SLAB_NULL then ret tt
  else match fuel with
       | O => no_fuel
       | S f =>
           let* s := read_slab offset in
           let next_offset := next s in
           str_slab_free offset ;;; str_free_chain f next_offset
       end.

(** ** Allocation

    The allocator runs inside a larger state [S] that contains the arena,
    because an exhausted free list starts a collection ([gc]) of the whole
    heap. *)

Class HasArena (S : Type) := {
  arena : S -> StrArena;
  set_arena : StrArena -> S -> S;
  arena_set : forall A s, arena (set_arena A s) = A;
  set_arena_twice : forall A B s, set_arena A (set_arena B s) = set_arena A s;
  set_arena_same : forall s, set_arena (arena s) s = s
}.

#[export] Program Instance HasArena_self : HasArena StrArena :=
  {| arena := fun A => A; set_arena := fun A _ => A |}.
Solve Obligations with done.

Definition lift_arena {S} `{HasArena S} {A} (m : comp StrArena A) : comp S A := fun s =>
  match m (arena s) with
  | Done a A' => Done a (set_arena A' s)
  | Raised e A' => Raised e (set_arena A' s)
  | Stuck => Stuck
  | NoFuel => NoFuel
  end.

Section Alloc.
Context {S : Type} `{HasArena S} (gc : comp S unit).

Definition str_slab_alloc : comp S Z :=
  let* s := get in
  (if str_freelist (arena s) =? FE_SLAB_NULL
   then gc ;;;
        let* s := get in
        if str_freelist (arena s) =? FE_SLAB_NULL
        then (fun s => Raised "out of memory (string slab)" s) else ret tt
   else ret tt) ;;;
  let* s := get in
  let offset := str_freelist (arena s) in
  let* sl := lift_arena (read_slab offset) in
  lift_arena (set_freelist (next sl)) ;;;
  ret offset.

(** The copy loop: [p] is what is left of the source (or of the fill), and
    the result is the number of further slabs allocated. *)
Fixpoint str_fill (fuel : nat) (current : Z) (p : chars) : comp S Z :=
  match fuel with
  | O => no_fuel
  | Datatypes.S f =>
      lift_arena (set_data current (take FE_SLAB_DATA_SIZE p)) ;;;
      let p := drop FE_SLAB_DATA_SIZE p in
      if decide (0 < length p)%nat then
        let* next_offset := str_slab_alloc in
        lift_arena (set_next current next_offset) ;;;
        let* n := str_fill f next_offset p in
        ret (n + 1)
      else lift_arena (set_next current FE_SLAB_NULL) ;;; ret 0
  end.

(** [bytes] is the source buffer, or [len] copies of the fill character. *)
Definition str_alloc (bytes : chars) : comp S Z :=
  if decide (length bytes = 0%nat) then ret FE_SLAB_NULL
  else
    let* head_offset := str_slab_alloc in
    let* n := str_fill (length bytes) head_offset bytes in
    lift_arena (modify (fun A => MkArena (slabs A) (str_freelist A)
                       (u64 (bytes_since_gc A + (n + 1) * FE_SLAB_SIZE)))) ;;;
    ret head_offset.

End Alloc.

(** ** Reading *)

(** equal_slab: both strings have the same length [remaining]. *)
Fixpoint equal_slab_loop (fuel : nat) (offset_a offset_b : Z) (remaining : nat)
    : comp StrArena bool :=
  if decide (remaining = 0%nat) then ret true
  else match fuel with
       | O => no_fuel
       | S f =>
           let* slab_a := read_slab offset_a in
           let* slab_b := read_slab offset_b in
           let to_cmp := Nat.min remaining FE_SLAB_DATA_SIZE in
           if bool_decide (take to_cmp (data slab_a) = take to_cmp (data slab_b))
           then equal_slab_loop f (next slab_a) (next slab_b) (remaining - to_cmp)
           else ret false
       end.
Definition equal_slab (len : nat) (offset_a offset_b : Z) : comp StrArena bool :=
  equal_slab_loop len offset_a offset_b len.

Fixpoint streq_slab_loop (fuel : nat) (offset : Z) (remaining : nat) (s : chars)
    : comp StrArena bool :=
  if decide (offset = FE_SLAB_NULL \/ remaining = 0%nat) then ret (bool_decide (remaining = 0%nat))
  else match fuel with
       | O => no_fuel
       | S f =>
           let* slab := read_slab offset in
           let to_cmp := Nat.min remaining FE_SLAB_DATA_SIZE in
           if bool_decide (take to_cmp (data slab) = take to_cmp s)
           then streq_slab_loop f (next slab) (remaining - to_cmp) (drop to_cmp s)
           else ret false
       end.
(** [s] is a C string. *)
Definition streq_slab (len : nat) (offset : Z) (s : chars) : comp StrArena bool :=
  if negb (bool_decide (length s = len)) then ret false
  else if decide (len = 0%nat) then ret true
  else streq_slab_loop len offset len s.

Fixpoint contains_nul_loop (fuel : nat) (offset : Z) (remaining : nat) : comp StrArena bool :=
  if decide (offset = FE_SLAB_NULL \/ remaining = 0%nat) then ret false
  else match fuel with
       | O => no_fuel
       | S f =>
           let* slab := read_slab offset in
           let to_scan := Nat.min remaining FE_SLAB_DATA_SIZE in
           if bool_decide (zero ∈ take to_scan (data slab)) then ret true
           else contains_nul_loop f (next slab) (remaining - to_scan)
       end.
Definition fe_string_contains_nul (len : nat) (offset : Z) : comp StrArena bool :=
  contains_nul_loop len offset len.

(** The bytes fe_bytescopy writes to its destination. *)
Fixpoint bytescopy_loop (fuel : nat) (slab_offset : Z) (remaining_offset remaining : nat)
    (out : chars) : comp StrArena chars :=
  if decide (slab_offset = FE_SLAB_NULL \/ remaining = 0%nat) then ret out
  else match fuel with
       | O => no_fuel
       | S f =>
           let* slab := read_slab slab_offset in
           if decide (FE_SLAB_DATA_SIZE <= remaining_offset)%nat
           then bytescopy_loop f (next slab) (remaining_offset - FE_SLAB_DATA_SIZE) remaining out
           else
             let slab_start := remaining_offset in
             let to_copy := Nat.min (FE_SLAB_DATA_SIZE - slab_start) remaining in
             bytescopy_loop f (next slab) 0 (remaining - to_copy)
               (out ++ take to_copy (drop slab_start (data slab)))
       end.
Definition fe_bytescopy (len : nat) (chain offset : Z) (size : Z) : comp StrArena chars :=
  if decide (Z.of_nat len <= offset \/ size = 0) then ret []
  else
    let size := if Z.of_nat len - offset <? size then Z.of_nat len - offset else size in
    bytescopy_loop len chain (Z.to_nat offset) (Z.to_nat size) [].

(** The whole contents, as the write and hash loops visit them. *)
Fixpoint read_chain (fuel : nat) (offset : Z) (remaining : nat) : comp StrArena chars :=
  if decide (offset = FE_SLAB_NULL \/ remaining = 0%nat) then ret []
  else match fuel with
       | O => no_fuel
       | S f =>
           let* slab := read_slab offset in
           let n := Nat.min remaining FE_SLAB_DATA_SIZE in
           let* rest := read_chain f (next slab) (remaining - n) in
           ret (take n (data slab) ++ rest)
       end.
