(* ===== verification/SlabSpec.v ===== *)
(** * Slab chains hold strings

    [holds A off os s]: the chain that starts at offset [off] consists of
    the slabs [os] and stores the bytes [s].  [own A fl kept]: the free list
    is [fl], and none of its slabs is among the slabs [kept] in use. *)

From Stdlib Require Import ZArith Lia Ascii String.
From stdpp Require Import base list sets.
From S2P Require Import Prelude Slab.

Inductive holds (A : StrArena) : Z -> list Z -> chars -> Prop :=
| holds_nil : holds A FE_SLAB_NULL [] []
| holds_cons o sl os s :
    s <> [] -> slab_at A o = Some sl ->
    take (Nat.min (length s) FE_SLAB_DATA_SIZE) (data sl) = take FE_SLAB_DATA_SIZE s ->
    holds A (next sl) os (drop FE_SLAB_DATA_SIZE s) ->
    holds A o (o :: os) s.

Inductive flist (A : StrArena) : Z -> list Z -> Prop :=
| flist_nil : flist A FE_SLAB_NULL []
| flist_cons o sl os : slab_at A o = Some sl -> flist A (next sl) os -> flist A o (o :: os).

Definition data_ok (A : StrArena) : Prop :=
  forall o sl, slab_at A o = Some sl -> length (data sl) = FE_SLAB_DATA_SIZE.

Definition own (A : StrArena) (fl kept : list Z) : Prop :=
  data_ok A /\ flist A (str_freelist A) fl /\ NoDup (fl ++ kept) /\
  forall o, o ∈ kept -> is_Some (slab_at A o).

(** The slabs of [os] are the same in both arenas. *)
Definition same_on (A A' : StrArena) (os : list Z) : Prop :=
  forall o, o ∈ os -> slab_at A' o = slab_at A o.

(** ** Basic facts *)

Lemma slab_at_null A : slab_at A FE_SLAB_NULL = None.
Proof. unfold slab_at. rewrite decide_False; [done |]. by intros [_ ?]. Qed.

Lemma slab_at_valid A o sl : slab_at A o = Some sl -> 0 <= o /\ o mod FE_SLAB_SIZE = 0.
Proof. unfold slab_at. by case_decide. Qed.

Lemma slab_at_not_null A o sl : slab_at A o = Some sl -> o <> FE_SLAB_NULL.
Proof. intros H ->. by rewrite slab_at_null in H. Qed.

Lemma write_slab_spec A o s s0 :
  slab_at A o = Some s0 ->
  exists A', write_slab o s A = Done tt A' /\ str_freelist A' = str_freelist A /\
    bytes_since_gc A' = bytes_since_gc A /\
    forall o', slab_at A' o' = if decide (o' = o) then Some s else slab_at A o'.
Proof.
  intros Ho. unfold write_slab. rewrite Ho. eexists. split; [done |]. split; [done |].
  split; [done |]. intros o'. unfold slab_at in *. simpl. unfold FE_SLAB_SIZE in *.
  destruct (decide (0 <= o /\ o mod 64 = 0)) as [Hv | ?]; [| done].
  destruct (decide (o' = o)) as [-> | Hne].
  - rewrite decide_True by done. apply list_lookup_insert_eq. by eapply lookup_lt_Some.
  - case_decide as Hv'; [| done]. apply list_lookup_insert_ne.
    pose proof (Z.div_mod o 64 ltac:(done)). pose proof (Z.div_mod o' 64 ltac:(done)). lia.
Qed.

Lemma holds_frame A A' off os s :
  same_on A A' os -> holds A off os s -> holds A' off os s.
Proof.
  intros Hs H. induction H as [| o sl os s Hne Ho Hd _ IH]; [constructor |].
  econstructor; [done | rewrite Hs by (by left); done | done |].
  apply IH. intros x Hx. apply Hs. by right.
Qed.

Lemma flist_frame A A' off os : same_on A A' os -> flist A off os -> flist A' off os.
Proof.
  intros Hs H. induction H as [| o sl os Ho _ IH]; [constructor |].
  econstructor; [rewrite Hs by (by left); done |]. apply IH. intros x Hx. apply Hs. by right.
Qed.

Lemma flist_slabs A off os o : flist A off os -> o ∈ os -> is_Some (slab_at A o).
Proof.
  induction 1 as [| o' sl os' Ho _ IH]; [by intros ?%not_elem_of_nil |].
  intros [-> | ?]%elem_of_cons; [by rewrite Ho | auto].
Qed.

Lemma holds_slabs A off os s o : holds A off os s -> o ∈ os -> is_Some (slab_at A o).
Proof.
  induction 1 as [| o' sl os' s' _ Ho _ _ IH]; [by intros ?%not_elem_of_nil |].
  intros [-> | ?]%elem_of_cons; [by rewrite Ho | auto].
Qed.

(** Number of slabs of a chain. *)
Lemma holds_length A off os s : holds A off os s -> (length os <= length s)%nat.
Proof.
  induction 1 as [| o sl os s Hne _ _ _ IH]; [done |]. rewrite length_drop in IH.
  destruct s; [done |]. unfold FE_SLAB_DATA_SIZE in *. simpl in *. lia.
Qed.

(** ** Reading a chain

    The induction every reader goes through: one slab, then the rest. *)

Lemma read_slab_done A o sl : slab_at A o = Some sl -> read_slab o A = Done sl A.
Proof. unfold read_slab. by intros ->. Qed.

Lemma min_sub_drop (s : chars) :
  (length s - Nat.min (length s) FE_SLAB_DATA_SIZE)%nat = length (drop FE_SLAB_DATA_SIZE s).
Proof. rewrite length_drop. lia. Qed.

(** Case analysis on one [bool_decide] of the goal. *)
Ltac by_decide P H :=
  destruct (decide P) as [H | H];
  [rewrite (bool_decide_eq_true_2 P H) | rewrite (bool_decide_eq_false_2 P H)].

Ltac at_slab Ho :=
  unfold bind at 1; rewrite (read_slab_done _ _ _ Ho); cbv beta iota zeta.

Lemma not_done A o sl (s : chars) :
  s <> [] -> slab_at A o = Some sl -> ~ (o = FE_SLAB_NULL \/ length s = 0%nat).
Proof.
  intros Hs Ho [-> | E]; [by rewrite slab_at_null in Ho |]. by apply Hs, length_zero_iff_nil.
Qed.

Lemma fuel_drop (s : chars) f :
  s <> [] -> (length s <= S f)%nat -> (length (drop FE_SLAB_DATA_SIZE s) <= f)%nat.
Proof. intros. rewrite length_drop. unfold FE_SLAB_DATA_SIZE. destruct s; simpl in *; [done | lia]. Qed.

Lemma read_chain_holds A off os s fuel :
  holds A off os s -> (length s <= fuel)%nat -> read_chain fuel off (length s) A = Done s A.
Proof.
  intros H. revert fuel. induction H as [| o sl os s Hne Ho Hd _ IH]; intros fuel Hf.
  - by destruct fuel.
  - destruct fuel as [| f]; [destruct s; [done | simpl in Hf; lia] |].
    cbn [read_chain]. rewrite decide_False by (by eapply not_done). at_slab Ho.
    rewrite min_sub_drop. unfold bind. rewrite IH by (by apply fuel_drop). unfold ret.
    rewrite Hd. by rewrite take_drop.
Qed.

Lemma contains_nul_holds A off os s fuel :
  holds A off os s -> (length s <= fuel)%nat ->
  contains_nul_loop fuel off (length s) A = Done (bool_decide (zero ∈ s)) A.
Proof.
  intros H. revert fuel. induction H as [| o sl os s Hne Ho Hd _ IH]; intros fuel Hf.
  - by destruct fuel.
  - destruct fuel as [| f]; [destruct s; [done | simpl in Hf; lia] |].
    cbn [contains_nul_loop]. rewrite decide_False by (by eapply not_done). at_slab Ho.
    rewrite Hd. by_decide (zero ∈ take FE_SLAB_DATA_SIZE s) Hin.
    + unfold ret. f_equal. symmetry. apply bool_decide_eq_true.
      rewrite <- (take_drop FE_SLAB_DATA_SIZE s). apply elem_of_app. by left.
    + rewrite min_sub_drop, IH by (by apply fuel_drop). f_equal.
      apply bool_decide_ext. rewrite <- (take_drop FE_SLAB_DATA_SIZE s) at 2.
      rewrite elem_of_app. tauto.
Qed.

Lemma streq_holds A off os s t fuel :
  holds A off os s -> (length s <= fuel)%nat -> length t = length s ->
  streq_slab_loop fuel off (length s) t A = Done (bool_decide (s = t)) A.
Proof.
  intros H. revert fuel t. induction H as [| o sl os s Hne Ho Hd _ IH]; intros fuel t Hf Ht.
  - destruct t; [| done]. by destruct fuel.
  - destruct fuel as [| f]; [destruct s; [done | simpl in Hf; lia] |].
    cbn [streq_slab_loop]. rewrite decide_False by (by eapply not_done). at_slab Ho.
    assert (forall n, n = Nat.min (length s) FE_SLAB_DATA_SIZE ->
      take n t = take FE_SLAB_DATA_SIZE t /\ drop n t = drop FE_SLAB_DATA_SIZE t) as Hn.
    { intros n ->. destruct (Nat.min_spec (length s) FE_SLAB_DATA_SIZE) as [[? ->] | [? ->]]; [| done].
      rewrite <- Ht. rewrite !take_ge, !drop_ge by lia. done. }
    destruct (Hn _ eq_refl) as [-> ->]. rewrite Hd, min_sub_drop.
    by_decide (take FE_SLAB_DATA_SIZE s = take FE_SLAB_DATA_SIZE t) Hin.
    + rewrite IH; [| by apply fuel_drop | by rewrite !length_drop, Ht]. f_equal.
      apply bool_decide_ext. split; [| by intros ->]. intros E.
      by rewrite <- (take_drop FE_SLAB_DATA_SIZE s), Hin, E, take_drop.
    + unfold ret. f_equal. symmetry. apply bool_decide_eq_false. by intros ->.
Qed.

Lemma equal_slab_holds A off1 os1 s off2 os2 t fuel :
  holds A off1 os1 s -> holds A off2 os2 t -> (length s <= fuel)%nat -> length t = length s ->
  equal_slab_loop fuel off1 off2 (length s) A = Done (bool_decide (s = t)) A.
Proof.
  intros H. revert fuel off2 os2 t.
  induction H as [| o sl os s Hne Ho Hd _ IH]; intros fuel off2 os2 t H2 Hf Ht.
  - destruct t; [| done]. destruct fuel; done.
  - destruct fuel as [| f]; [destruct s; [done | simpl in Hf; lia] |].
    cbn [equal_slab_loop]. rewrite decide_False by (intros E; by apply Hne, length_zero_iff_nil).
    destruct H2 as [| o2 sl2 os2 t Hne2 Ho2 Hd2 H2]; [destruct s; done |].
    at_slab Ho. at_slab Ho2. rewrite Hd. rewrite <- Ht, Hd2, Ht, min_sub_drop.
    by_decide (take FE_SLAB_DATA_SIZE s = take FE_SLAB_DATA_SIZE t) Hin.
    + rewrite (IH f (next sl2) os2 (drop FE_SLAB_DATA_SIZE t) H2);
        [| by apply fuel_drop | by rewrite !length_drop, Ht]. f_equal.
      apply bool_decide_ext. split; [| by intros ->]. intros E.
      by rewrite <- (take_drop FE_SLAB_DATA_SIZE s), Hin, E, take_drop.
    + unfold ret. f_equal. symmetry. apply bool_decide_eq_false. by intros ->.
Qed.

Lemma slab_slice (d s : chars) n st :
  take (Nat.min (length s) FE_SLAB_DATA_SIZE) d = take FE_SLAB_DATA_SIZE s ->
  (st + n <= Nat.min (length s) FE_SLAB_DATA_SIZE)%nat ->
  take n (drop st d) = take n (drop st s).
Proof.
  intros E Hle. rewrite !take_drop_commute. f_equal.
  transitivity (take (st + n) (take (Nat.min (length s) FE_SLAB_DATA_SIZE) d)).
  - rewrite take_take. f_equal. lia.
  - rewrite E, take_take. f_equal. lia.
Qed.

Lemma bytescopy_holds A off os s fuel ro rem out :
  holds A off os s -> (length s <= fuel)%nat -> (ro + rem <= length s)%nat ->
  bytescopy_loop fuel off ro rem out A = Done (out ++ take rem (drop ro s)) A.
Proof.
  intros H. revert fuel ro rem out.
  induction H as [| o sl os s Hne Ho Hd _ IH]; intros fuel ro rem out Hf Hr.
  - simpl in Hr. destruct rem; [| lia]. rewrite take_0, app_nil_r. by destruct fuel.
  - destruct fuel as [| f]; [destruct s; [done | simpl in Hf; lia] |]. cbn [bytescopy_loop].
    pose proof (slab_at_not_null _ _ _ Ho).
    destruct (decide (o = FE_SLAB_NULL \/ rem = 0%nat)) as [[? | ->] | Hnd]; [done | |].
    { by rewrite take_0, app_nil_r. }
    at_slab Ho. destruct (decide (FE_SLAB_DATA_SIZE <= ro)%nat) as [Hge | Hlt].
    + rewrite IH; [| by apply fuel_drop | rewrite length_drop; lia].
      rewrite drop_drop.
      by replace (FE_SLAB_DATA_SIZE + (ro - FE_SLAB_DATA_SIZE))%nat with ro by lia.
    + set (n := Nat.min (FE_SLAB_DATA_SIZE - ro) rem).
      rewrite (slab_slice (data sl) s n ro Hd) by (unfold n; lia).
      rewrite IH; [| by apply fuel_drop | rewrite length_drop; unfold n; lia].
      rewrite <- app_assoc, drop_0. f_equal. f_equal.
      destruct (decide (rem <= FE_SLAB_DATA_SIZE - ro)%nat) as [Hs | Hs].
      * replace n with rem by (unfold n; lia). rewrite Nat.sub_diag, take_0. apply app_nil_r.
      * replace n with (FE_SLAB_DATA_SIZE - ro)%nat by (unfold n; lia).
        replace (drop FE_SLAB_DATA_SIZE s)
          with (drop (FE_SLAB_DATA_SIZE - ro) (drop ro s)) by (rewrite drop_drop; f_equal; lia).
        rewrite take_take_drop. f_equal. lia.
Qed.

(** ** The initial arena *)

(** The offsets of the slabs number [n-1], ..., [0]. *)
Fixpoint offsets (n : nat) : list Z :=
  match n with O => [] | S n' => FE_SLAB_SIZE * Z.of_nat n' :: offsets n' end.

Lemma offsets_lt n o : o ∈ offsets n -> 0 <= o < FE_SLAB_SIZE * Z.of_nat n.
Proof.
  unfold FE_SLAB_SIZE. induction n as [| n IH]; cbn [offsets]; [by intros ?%not_elem_of_nil |].
  intros [-> | ?%IH]%elem_of_cons; unfold FE_SLAB_SIZE in *; lia.
Qed.

Lemma offsets_NoDup n : NoDup (offsets n).
Proof.
  induction n as [| n IH]; cbn [offsets]; [constructor |]. constructor; [| done].
  intros ?%offsets_lt. lia.
Qed.

Lemma slab_at_nth A i sl : slabs A !! i = Some sl -> slab_at A (FE_SLAB_SIZE * Z.of_nat i) = Some sl.
Proof.
  intros H. unfold slab_at, FE_SLAB_SIZE. rewrite decide_True.
  - by rewrite Z.mul_comm, Z.div_mul, Nat2Z.id by done.
  - split; [lia |]. by rewrite Z.mul_comm, Z.mod_mul.
Qed.

Lemma populate_slabs_spec fuel i A str_end :
  data_ok A -> flist A (str_freelist A) (offsets i) -> (i + fuel = length (slabs A))%nat ->
  str_end < 2 ^ 32 ->
  FE_SLAB_SIZE * Z.of_nat (length (slabs A)) <= str_end < FE_SLAB_SIZE * Z.of_nat (S (length (slabs A))) ->
  exists A', populate_slabs fuel (FE_SLAB_SIZE * Z.of_nat i) str_end A = Done tt A' /\
    own A' (offsets (length (slabs A))) [].
Proof.
  revert i A. induction fuel as [| f IH]; intros i A Hd Hfl Hi H32 He;
    cbn [populate_slabs]; unfold FE_SLAB_SIZE in *.
  - rewrite (proj2 (Z.leb_gt _ _)) by lia. exists A. split; [done |].
    replace (length (slabs A)) with i by lia. split; [done |]. split; [done |].
    rewrite app_nil_r. split; [apply offsets_NoDup |]. by intros ? ?%not_elem_of_nil.
  - rewrite (proj2 (Z.leb_le _ _)) by lia.
    destruct (lookup_lt_is_Some_2 (slabs A) i) as [sl Hsl]; [lia |].
    pose proof (slab_at_nth _ _ _ Hsl) as Ho. unfold FE_SLAB_SIZE in Ho.
    unfold bind, get, set_next. unfold bind. rewrite (read_slab_done _ _ _ Ho).
    destruct (write_slab_spec A _ (MkSlab (str_freelist A) (data sl)) sl Ho)
      as (A1 & E & Ef & _ & Es).
    assert (length (slabs A1) = length (slabs A)) as Hlen.
    { unfold write_slab in E. rewrite Ho in E. injection E as <-. apply length_insert. }
    rewrite E. unfold set_freelist, modify. rewrite wrap_small by (split; lia).
    set (A2 := MkArena (slabs A1) (64 * Z.of_nat i) (bytes_since_gc A1)).
    assert (forall x, slab_at A2 x = slab_at A1 x) as H2 by done.
    replace (64 * Z.of_nat i + 64) with (64 * Z.of_nat (S i)) by lia.
    replace (length (slabs A)) with (length (slabs A2)) by done.
    apply IH; [| | simpl; lia | done | simpl; lia].
    + intros x s. rewrite H2, Es. case_decide; [intros [= <-]; by apply (Hd _ _ Ho) | by apply Hd].
    + cbn [offsets str_freelist A2]. unfold FE_SLAB_SIZE.
      econstructor; [by rewrite H2, Es, decide_True |]. simpl. eapply flist_frame; [| exact Hfl].
      intros x Hx%offsets_lt. rewrite H2, Es, decide_False; [done |]. unfold FE_SLAB_SIZE in Hx. lia.
Qed.

(** ** Freeing a chain *)

Lemma slab_free_spec A o sl fl kept :
  slab_at A o = Some sl -> own A fl (o :: kept) ->
  exists A', str_slab_free o A = Done tt A' /\ own A' (o :: fl) kept /\
    forall x, x <> o -> slab_at A' x = slab_at A x.
Proof.
  intros Ho (Hd & Hfl & Hnd & Hk). unfold str_slab_free.
  rewrite (proj2 (Z.eqb_neq _ _)) by (by eapply slab_at_not_null).
  unfold bind, get, set_next. unfold bind. rewrite (read_slab_done _ _ _ Ho).
  destruct (write_slab_spec A o (MkSlab (str_freelist A) (data sl)) sl Ho)
    as (A1 & E & Ef & _ & Es). rewrite E. eexists. split; [done |].
  assert (Hsame : forall x, slab_at (MkArena (slabs A1) o (bytes_since_gc A1)) x = slab_at A1 x)
    by done.
  split; [split; [| split; [| split]] |].
  - intros x s Hx. rewrite Hsame, Es in Hx. case_decide; [| by eapply Hd].
    simplify_eq. simpl. by eapply Hd.
  - simpl. econstructor; [by rewrite Hsame, Es, decide_True |]. simpl.
    eapply flist_frame; [| exact Hfl]. intros x Hx. rewrite Hsame, Es, decide_False; [done |].
    intros ->. apply NoDup_app in Hnd as (_ & Hdis & _). by apply (Hdis o Hx); left.
  - by rewrite <- Permutation_middle in Hnd.
  - intros x Hx. rewrite Hsame, Es. case_decide; [done |]. apply Hk. by right.
  - intros x Hx. by rewrite Hsame, Es, decide_False.
Qed.

(** Freeing a chain returns exactly its slabs to the free list and leaves
    every other chain intact. *)
Lemma free_chain_spec A off os s fl kept fuel :
  holds A off os s -> own A fl (os ++ kept) -> (length os <= fuel)%nat ->
  exists A', str_free_chain fuel off A = Done tt A' /\ own A' (rev os ++ fl) kept /\
    same_on A A' kept.
Proof.
  revert A off s fl fuel. induction os as [| o os IH]; intros A off s fl fuel H Hown Hf.
  - inversion H; subst. exists A. split; [by destruct fuel | done].
  - inversion H as [| ? sl ? ? Hne Ho Hd Hr]; subst o0 os0 s0 o.
    destruct fuel as [| f]; [simpl in Hf; lia |]. cbn [str_free_chain].
    rewrite (proj2 (Z.eqb_neq _ _)) by (by eapply slab_at_not_null). at_slab Ho.
    destruct (slab_free_spec A off sl fl (os ++ kept) Ho Hown) as (A1 & E1 & Hown1 & Hs1).
    unfold bind. rewrite E1.
    assert (NoDup (off :: os ++ kept)) as [Hni _]%NoDup_cons
      by (by destruct Hown as (_ & _ & [_ [_ ?]]%NoDup_app & _)).
    destruct (IH A1 (next sl) (drop FE_SLAB_DATA_SIZE s) (off :: fl) f) as (A2 & E2 & Hown2 & Hs2).
    + eapply holds_frame; [| exact Hr]. intros x Hx. apply Hs1. set_solver.
    + done.
    + simpl in Hf. lia.
    + exists A2. split; [done |]. split; [cbn [rev]; by rewrite <- app_assoc |].
      intros x Hx. rewrite Hs2 by done. apply Hs1. set_solver.
Qed.

(** ** Allocating a chain

    What the allocator needs of the collector it may run.  [slab_inv s live
    fl ex]: in the state [s], string objects own the slabs [live], the free
    list is [fl], and the slabs [ex] belong to a chain under construction.
    A collection may give back slabs of [live], never one of [ex]. *)
Class SlabClient (S : Type) `{HasArena S} (gc : comp S unit) := {
  slab_inv : S -> list Z -> list Z -> list Z -> Prop;
  slab_inv_own s live fl ex : slab_inv s live fl ex -> own (arena s) fl (live ++ ex);
  slab_inv_update s live fl ex A' fl' ex' :
    slab_inv s live fl ex -> own A' fl' (live ++ ex') -> same_on (arena s) A' live ->
    slab_inv (set_arena A' s) live fl' ex';
  slab_inv_gc s live fl ex :
    slab_inv s live fl ex ->
    exists s' live' fl', gc s = Done tt s' /\ slab_inv s' live' fl' ex /\ live' ⊆ live /\
      same_on (arena s) (arena s') (live' ++ ex)
}.

(** An arena on its own, with a collector that never frees anything. *)
#[export] Program Instance SlabClient_self : SlabClient StrArena (ret tt) :=
  {| slab_inv A live fl ex := own A fl (live ++ ex) |}.
Next Obligation. done. Qed.
Next Obligation. done. Qed.
Next Obligation. intros s live fl ex Ho. by exists s, live, fl. Qed.

Lemma holds_snoc_inv A fl kept o : own A fl kept -> o ∈ kept -> o ∉ fl.
Proof. intros (_ & _ & (_ & Hd & _)%NoDup_app & _) Hk Hf. by apply (Hd o). Qed.

(** Overwriting one slab in use keeps ownership. *)
Lemma own_write A fl kept o sl sl0 :
  own A fl kept -> o ∈ kept -> slab_at A o = Some sl0 -> length (data sl) = FE_SLAB_DATA_SIZE ->
  exists A', write_slab o sl A = Done tt A' /\ own A' fl kept /\ slab_at A' o = Some sl /\
    (forall x, x <> o -> slab_at A' x = slab_at A x).
Proof.
  intros Hown Hin Ho Hlen.
  destruct (write_slab_spec A o sl sl0 Ho) as (A' & E & Ef & _ & Es).
  exists A'. split; [done |]. pose proof (holds_snoc_inv _ _ _ _ Hown Hin) as Hni.
  destruct Hown as (Hd & Hfl & Hnd & Hk).
  split; [| split; [by rewrite Es, decide_True | intros x ?; by rewrite Es, decide_False]].
  split; [| split; [| split; [done |]]].
  - intros x s. rewrite Es. case_decide; [by intros [= <-] | by apply Hd].
  - rewrite Ef. eapply flist_frame; [| exact Hfl]. intros x Hx. rewrite Es, decide_False; [done |].
    by intros ->.
  - intros x Hx. rewrite Es. case_decide; [done | auto].
Qed.

Section AllocSpec.
Context {S : Type} `{HasArena S} (gc : comp S unit) `{!SlabClient S gc}.

Definition OOM : string := "out of memory (string slab)".

Lemma slab_alloc_spec s live fl ex :
  slab_inv s live fl ex ->
  (exists o s' live' fl', str_slab_alloc gc s = Done o s' /\
     slab_inv s' live' fl' (o :: ex) /\ live' ⊆ live /\
     same_on (arena s) (arena s') (live' ++ ex) /\ (length fl <= Datatypes.S (length fl'))%nat) \/
  (fl = [] /\ exists s', str_slab_alloc gc s = Raised OOM s').
Proof.
  intros Hinv.
  assert (forall s live fl ex o, slab_inv s live fl ex -> str_freelist (arena s) = o ->
    o <> FE_SLAB_NULL ->
    exists sl, read_slab o (arena s) = Done sl (arena s) /\ exists fl', fl = o :: fl' /\
      slab_inv (set_arena (MkArena (slabs (arena s)) (next sl) (bytes_since_gc (arena s))) s)
        live fl' (o :: ex)) as Hpop.
  { clear. intros s live fl ex o Hinv Eo Hn.
    destruct (slab_inv_own _ _ _ _ Hinv) as (Hd & Hfl & Hnd & Hk).
    rewrite Eo in Hfl. inversion Hfl as [| ? sl os Ho Hr]; subst; [done |].
    exists sl. split; [by apply read_slab_done |]. exists os. split; [done |].
    eapply slab_inv_update; [exact Hinv | | done]. split; [exact Hd |].
    split; [by eapply flist_frame; [| exact Hr] |].
    split; [by rewrite <- !Permutation_middle in * |].
    intros x [?|[->|?]%elem_of_cons]%elem_of_app.
    - apply Hk, elem_of_app. by left.
    - by exists sl.
    - apply Hk, elem_of_app. by right. }
  unfold str_slab_alloc, bind, get. cbv beta.
  destruct (Z.eqb_spec (str_freelist (arena s)) FE_SLAB_NULL) as [Hz | Hz].
  - destruct (slab_inv_own _ _ _ _ Hinv) as (_ & Hfl & _). rewrite Hz in Hfl.
    inversion Hfl as [| o sl ? Ho]; subst; [| by rewrite slab_at_null in Ho].
    destruct (slab_inv_gc _ _ _ _ Hinv) as (s1 & live1 & fl1 & E & Hinv1 & Hsub & Hsame).
    rewrite E.
    destruct (Z.eqb_spec (str_freelist (arena s1)) FE_SLAB_NULL) as [Hz1 | Hz1]; [right; eauto |].
    left. destruct (Hpop s1 live1 fl1 ex _ Hinv1 eq_refl Hz1) as (sl & Er & fl2 & -> & Hinv2).
    unfold ret, lift_arena, set_freelist, modify. rewrite Er, set_arena_same.
    do 4 eexists. split; [done |]. split; [exact Hinv2 |]. split; [done |].
    split; [| simpl; lia]. intros x Hx. rewrite arena_set. by apply Hsame.
  - left. destruct (Hpop s live fl ex _ Hinv eq_refl Hz) as (sl & Er & fl2 & -> & Hinv2).
    unfold ret, lift_arena, set_freelist, modify. rewrite Er, set_arena_same.
    do 4 eexists. split; [done |]. split; [exact Hinv2 |]. split; [done |].
    split; [| simpl; lia]. intros x Hx. by rewrite arena_set.
Qed.

(** Slabs a chain of [n > 0] bytes needs beyond its first. *)
Definition more_slabs (n : nat) : nat := ((n - 1) / FE_SLAB_DATA_SIZE)%nat.

Lemma more_slabs_drop (p : chars) :
  (0 < length (drop FE_SLAB_DATA_SIZE p))%nat ->
  more_slabs (length p) = Datatypes.S (more_slabs (length (drop FE_SLAB_DATA_SIZE p))).
Proof.
  unfold more_slabs, FE_SLAB_DATA_SIZE. rewrite length_drop. intros.
  replace (length p - 1)%nat with ((length p - 60 - 1) + 1 * 60)%nat by lia.
  rewrite Nat.div_add by lia. lia.
Qed.

(** A write to a slab of the chain under construction. *)
Lemma lift_write s live fl ex o sl sl0 :
  slab_inv s live fl ex -> o ∈ ex -> slab_at (arena s) o = Some sl0 ->
  length (data sl) = FE_SLAB_DATA_SIZE ->
  exists A', write_slab o sl (arena s) = Done tt A' /\ slab_inv (set_arena A' s) live fl ex /\
    slab_at A' o = Some sl /\ (forall x, x <> o -> slab_at A' x = slab_at (arena s) x) /\ o ∉ live.
Proof.
  intros Hinv Hin Ho Hl. pose proof (slab_inv_own _ _ _ _ Hinv) as Hown.
  destruct (own_write (arena s) fl (live ++ ex) o sl sl0 Hown) as (A' & E & Hown' & Eo & Es);
    [apply elem_of_app; by right | done | done |].
  assert (o ∉ live) as Hni.
  { destruct Hown as (_ & _ & (_ & _ & (_ & Hd & _)%NoDup_app)%NoDup_app & _).
    intros Hl'. by apply (Hd o). }
  exists A'. split; [done |]. split; [| done].
  eapply slab_inv_update; [done | done |]. intros x Hx. apply Es. by intros ->.
Qed.

Lemma lift_set_data s live fl ex o sl0 bytes :
  slab_inv s live fl ex -> o ∈ ex -> slab_at (arena s) o = Some sl0 ->
  (length bytes <= FE_SLAB_DATA_SIZE)%nat ->
  exists s', lift_arena (set_data o bytes) s = Done tt s' /\ slab_inv s' live fl ex /\
    (exists d, slab_at (arena s') o = Some (MkSlab (next sl0) (bytes ++ d))) /\
    (forall x, x <> o -> slab_at (arena s') x = slab_at (arena s) x) /\ o ∉ live.
Proof.
  intros Hinv Hin Ho Hl. destruct (slab_inv_own _ _ _ _ Hinv) as (Hd & _).
  destruct (lift_write s live fl ex o (MkSlab (next sl0) (bytes ++ drop (length bytes) (data sl0)))
    sl0 Hinv Hin Ho) as (A' & E & Hi & Eo & Es & Hni).
  { simpl. rewrite length_app, length_drop, (Hd _ _ Ho). lia. }
  exists (set_arena A' s). unfold lift_arena, set_data, bind. rewrite (read_slab_done _ _ _ Ho), E.
  rewrite arena_set. split; [done |]. split; [done |]. split; [eauto | done].
Qed.

Lemma lift_set_next s live fl ex o sl0 n :
  slab_inv s live fl ex -> o ∈ ex -> slab_at (arena s) o = Some sl0 ->
  exists s', lift_arena (set_next o n) s = Done tt s' /\ slab_inv s' live fl ex /\
    slab_at (arena s') o = Some (MkSlab n (data sl0)) /\
    (forall x, x <> o -> slab_at (arena s') x = slab_at (arena s) x) /\ o ∉ live.
Proof.
  intros Hinv Hin Ho. destruct (slab_inv_own _ _ _ _ Hinv) as (Hd & _).
  destruct (lift_write s live fl ex o (MkSlab n (data sl0)) sl0 Hinv Hin Ho)
    as (A' & E & Hi & Eo & Es & Hni); [exact (Hd _ _ Ho) |].
  exists (set_arena A' s). unfold lift_arena, set_next, bind. rewrite (read_slab_done _ _ _ Ho), E.
  rewrite arena_set. split; [done |]. split; [done |]. split; [eauto | done].
Qed.

Lemma slab_inv_perm s live fl ex ex' :
  slab_inv s live fl ex -> ex ≡ₚ ex' -> slab_inv s live fl ex'.
Proof.
  intros Hinv Hp. rewrite <- (set_arena_same s). eapply slab_inv_update; [done | | done].
  destruct (slab_inv_own _ _ _ _ Hinv) as (? & ? & ? & ?).
  split; [done |]. split; [done |].
  split; [by rewrite <- Hp | by setoid_rewrite <- Hp].
Qed.

Lemma slab_inv_disjoint s live fl ex o : slab_inv s live fl (o :: ex) -> (o ∉ live) /\ (o ∉ ex).
Proof.
  intros (_ & _ & Hnd & _)%slab_inv_own. apply NoDup_app in Hnd as (_ & _ & Hnd).
  rewrite <- Permutation_middle in Hnd. apply NoDup_cons in Hnd as [Hnd _].
  by apply not_elem_of_app in Hnd.
Qed.

Lemma take_slab (p d : chars) :
  take (Nat.min (length p) FE_SLAB_DATA_SIZE) (take FE_SLAB_DATA_SIZE p ++ d)
  = take FE_SLAB_DATA_SIZE p.
Proof.
  rewrite take_app_le by (rewrite length_take; lia). rewrite take_take.
  destruct (Nat.min_spec (length p) FE_SLAB_DATA_SIZE) as [[? ->] | [? ->]].
  - rewrite !take_ge; [done | lia | lia].
  - by rewrite Nat.min_id.
Qed.

Lemma fill_spec fuel s live fl ex cur p :
  slab_inv s live fl (cur :: ex) -> p <> [] -> (length p <= fuel)%nat ->
  (exists s' live' fl' os, str_fill gc fuel cur p s = Done (Z.of_nat (length os)) s' /\
     slab_inv s' live' fl' (cur :: os ++ ex) /\ live' ⊆ live /\
     holds (arena s') cur (cur :: os) p /\ same_on (arena s) (arena s') (live' ++ ex)) \/
  ((length fl < more_slabs (length p))%nat /\ exists s', str_fill gc fuel cur p s = Raised OOM s').
Proof.
  revert s live fl ex cur p. induction fuel as [| f IH]; intros s live fl ex cur p Hinv Hp Hf.
  { destruct p; [done | simpl in Hf; lia]. }
  cbn [str_fill]. destruct (slab_inv_own _ _ _ _ Hinv) as (_ & _ & _ & Hk).
  destruct (Hk cur) as [sl0 Hsl0]; [set_solver |].
  destruct (lift_set_data s live fl (cur :: ex) cur sl0 (take FE_SLAB_DATA_SIZE p) Hinv)
    as (s1 & E1 & Hi1 & [d Hd1] & Hs1 & Hni); [by left | done | rewrite length_take; lia |].
  unfold bind. rewrite E1. cbv zeta. destruct (slab_inv_disjoint _ _ _ _ _ Hinv) as [_ Hne].
  assert (forall live', live' ⊆ live -> same_on (arena s) (arena s1) (live' ++ ex)) as Hsame1.
  { intros live' Hsub x Hx. apply Hs1. set_solver. }
  case_decide as Hmore.
  - destruct (slab_alloc_spec s1 live fl (cur :: ex) Hi1)
      as [(o & s2 & live2 & fl2 & E2 & Hi2 & Hsub2 & Hs2 & Hl2) | (-> & s2 & E2)];
      rewrite E2; [| right; split; [rewrite more_slabs_drop by done; simpl; lia | by eexists]].
    destruct (lift_set_next s2 live2 fl2 (o :: cur :: ex) cur
      (MkSlab (next sl0) (take FE_SLAB_DATA_SIZE p ++ d)) o Hi2)
      as (s3 & E3 & Hi3 & Hc3 & Hs3 & Hni3); [set_solver | rewrite Hs2; [done | set_solver] |].
    rewrite E3. simpl in Hc3.
    destruct (IH s3 live2 fl2 (cur :: ex) o (drop FE_SLAB_DATA_SIZE p))
      as [(s4 & live4 & fl4 & os & E4 & Hi4 & Hsub4 & Hh4 & Hs4) | (Hlt & s4 & E4)];
      [done | intros E; rewrite E in Hmore; simpl in Hmore; lia | by apply fuel_drop | |];
      rewrite E4.
    + left. exists s4, live4, fl4, (o :: os). split; [unfold ret; f_equal; simpl; lia |].
      split; [eapply slab_inv_perm; [done |]; symmetry; apply (Permutation_middle (o :: os)) |].
      split; [set_solver |]. split.
      * econstructor; [done | rewrite Hs4 by set_solver; exact Hc3 | apply take_slab | done].
      * intros x Hx. rewrite Hs4 by set_solver. rewrite Hs3 by set_solver.
        rewrite Hs2 by set_solver. apply (Hsame1 live4); [set_solver | done].
    + right. split; [rewrite more_slabs_drop by done; lia | by eexists].
  - destruct (lift_set_next s1 live fl (cur :: ex) cur
      (MkSlab (next sl0) (take FE_SLAB_DATA_SIZE p ++ d)) FE_SLAB_NULL Hi1)
      as (s3 & E3 & Hi3 & Hc3 & Hs3 & Hni3); [by left | done |].
    left. rewrite E3. exists s3, live, fl, []. split; [done |]. split; [done |].
    split; [done |]. split.
    + econstructor; [done | exact Hc3 | apply take_slab |]. simpl.
      destruct (drop FE_SLAB_DATA_SIZE p); [constructor | simpl in Hmore; lia].
    + intros x Hx. rewrite Hs3 by set_solver. by apply (Hsame1 live).
Qed.

(** A fresh chain for [bytes]: it holds them, and what the other string
    objects that survive the collections hold is unchanged; exhaustion is
    reported only when the free list is too short for the request. *)
Lemma alloc_spec s live fl bytes :
  slab_inv s live fl [] ->
  (exists off s' live' fl' os, str_alloc gc bytes s = Done off s' /\
     slab_inv s' live' fl' os /\ live' ⊆ live /\
     holds (arena s') off os bytes /\ same_on (arena s) (arena s') live') \/
  ((length fl <= more_slabs (length bytes))%nat /\ bytes <> [] /\
   exists s', str_alloc gc bytes s = Raised OOM s').
Proof.
  intros Hinv. unfold str_alloc. destruct bytes as [| b0 bs].
  { left. exists FE_SLAB_NULL, s, live, fl, []. do 3 (split; [done |]). split; [constructor | done]. }
  rewrite decide_False by done. set (p := b0 :: bs). unfold bind.
  destruct (slab_alloc_spec s live fl [] Hinv)
    as [(o & s1 & live1 & fl1 & E1 & Hi1 & Hsub1 & Hs1 & Hl1) | (-> & s1 & E1)];
    rewrite E1; [| right; split; [simpl; lia | split; [done | by eexists]]].
  destruct (fill_spec (length p) s1 live1 fl1 [] o p Hi1)
    as [(s2 & live2 & fl2 & os & E2 & Hi2 & Hsub2 & Hh2 & Hs2) | (Hlt & s2 & E2)];
    [done | lia | |]; rewrite E2; [| right; split; [fold p; lia | split; [done | by eexists]]].
  left. unfold lift_arena, modify. rewrite app_nil_r in Hi2.
  exists o. eexists _, live2, fl2, (o :: os). split; [done |]. rewrite !arena_set. split; [| split; [| split]].
  - eapply slab_inv_update; [exact Hi2 | | done].
    destruct (slab_inv_own _ _ _ _ Hi2) as (? & Hfl & ?). split; [done |]. split; [| done].
    by eapply flist_frame; [| exact Hfl].
  - set_solver.
  - by eapply holds_frame; [| exact Hh2].
  - intros x Hx. transitivity (slab_at (arena s2) x); [done |].
    rewrite Hs2 by set_solver. apply Hs1. set_solver.
Qed.

End AllocSpec.

(** ** Properties *)

(** C23. Allocation round trip: [str_alloc] returns a chain from which the
    bytes are read back, leaves the contents of every string object that
    survived a collection unchanged, and reports exhaustion only when the
    free list was too short for the request. *)
Theorem str_alloc_roundtrip {S : Type} `{HasArena S} (gc : comp S unit) `{!SlabClient S gc}
    (s : S) live fl bytes :
  slab_inv s live fl [] ->
  (exists off s' live' fl' os, str_alloc gc bytes s = Done off s' /\
     slab_inv s' live' fl' os /\ live' ⊆ live /\
     read_chain (length bytes) off (length bytes) (arena s') = Done bytes (arena s') /\
     (forall off0 os0 t, os0 ⊆ live' -> holds (arena s) off0 os0 t -> holds (arena s') off0 os0 t)) \/
  ((length fl <= more_slabs (length bytes))%nat /\ bytes <> [] /\
   exists s', str_alloc gc bytes s = Raised OOM s').
Proof.
  intros Hinv. destruct (alloc_spec gc s live fl bytes Hinv)
    as [(off & s' & live' & fl' & os & E & Hi & Hsub & Hh & Hsame) | Hr]; [left | by right].
  exists off, s', live', fl', os. do 3 (split; [done |]).
  split; [by eapply read_chain_holds |]. intros off0 os0 t Hos. apply holds_frame.
  intros x Hx. by apply Hsame, Hos.
Qed.

(** Freeing a string returns exactly its slabs to the free list and
    leaves every other string readable. *)
Theorem str_free_chain_reclaims A off os s fl kept :
  holds A off os s -> own A fl (os ++ kept) ->
  exists A', str_free_chain (length os) off A = Done tt A' /\ own A' (rev os ++ fl) kept /\
    forall off0 os0 t, os0 ⊆ kept -> holds A off0 os0 t -> holds A' off0 os0 t.
Proof.
  intros Hh Hown. destruct (free_chain_spec A off os s fl kept (length os) Hh Hown)
    as (A' & E & Ho & Hsame); [lia |].
  exists A'. split; [done |]. split; [done |]. intros off0 os0 t Hos. apply holds_frame.
  intros x Hx. by apply Hsame, Hos.
Qed.

(** The readers of slab chains agree with the strings the chains hold:
    comparison of two strings of equal length and with a C string, the search
    for a NUL byte, and the windowed copy. *)
Theorem slab_readers_correct A offa osa a offb osb b t offset size :
  holds A offa osa a -> holds A offb osb b -> 0 <= offset -> 0 <= size ->
  (length a = length b -> equal_slab (length a) offa offb A = Done (bool_decide (a = b)) A) /\
  streq_slab (length a) offa t A = Done (bool_decide (a = t)) A /\
  fe_string_contains_nul (length a) offa A = Done (bool_decide (zero ∈ a)) A /\
  fe_bytescopy (length a) offa offset size A
    = Done (take (Z.to_nat size) (drop (Z.to_nat offset) a)) A.
Proof.
  intros Ha Hb Ho Hs. split; [| split; [| split]].
  - intros Hl. unfold equal_slab. by eapply equal_slab_holds.
  - unfold streq_slab. by_decide (length t = length a) Hl; simpl.
    + case_decide as Hz; [| by eapply streq_holds].
      rewrite Hz in Hl. apply length_zero_iff_nil in Hl, Hz. by subst.
    + unfold ret. f_equal. symmetry. apply bool_decide_eq_false. by intros ->.
  - by eapply contains_nul_holds.
  - unfold fe_bytescopy. case_decide as Hd.
    + unfold ret. f_equal. destruct Hd as [Hd | ->]; [| done]. by rewrite drop_ge, take_nil by lia.
    + case_match eqn:Hlt; [apply Z.ltb_lt in Hlt | apply Z.ltb_ge in Hlt].
      * rewrite (bytescopy_holds A offa osa a) by (done || lia). f_equal. simpl.
        rewrite !take_ge by (rewrite length_drop; lia). done.
      * rewrite (bytescopy_holds A offa osa a) by (done || lia). done.
Qed.

(** ** A concrete arena *)

Definition raw_arena (n : nat) : StrArena :=
  MkArena (replicate n (MkSlab 0 (replicate FE_SLAB_DATA_SIZE zero))) FE_SLAB_NULL 0.

Lemma raw_arena_ok n : data_ok (raw_arena n).
Proof.
  intros o sl. unfold slab_at. case_decide; [| done]. simpl.
  by intros [-> _]%lookup_replicate.
Qed.

Lemma populate_raw_arena n :
  FE_SLAB_SIZE * Z.of_nat n < 2 ^ 32 ->
  exists A, populate_slabs n 0 (FE_SLAB_SIZE * Z.of_nat n) (raw_arena n) = Done tt A /\
    own A (offsets n) [].
Proof.
  intros Hn. destruct (populate_slabs_spec n 0 (raw_arena n) (FE_SLAB_SIZE * Z.of_nat n))
    as (A & E & Ho); simpl; rewrite ?length_replicate; try (done || lia).
  - apply raw_arena_ok.
  - constructor.
  - unfold FE_SLAB_SIZE. lia.
  - exists A. simpl in E, Ho. rewrite length_replicate in Ho. done.
Qed.

Definition example_bytes : chars := replicate 70 (chr 97).

Lemma str_alloc_roundtrip_witness :
  exists A, own A (offsets 4) [] /\
    exists off s', str_alloc (ret tt) example_bytes A = Done off s' /\
      read_chain 70 off 70 s' = Done example_bytes s'.
Proof.
  destruct (populate_raw_arena 4) as (A & _ & Ho); [done |]. exists A. split; [exact Ho |].
  destruct (@str_alloc_roundtrip StrArena _ (ret tt) SlabClient_self A [] (offsets 4) example_bytes Ho)
    as [(off & s' & live' & fl' & os & E & _ & _ & Hr & _) | (Hl & _)].
  - exists off, s'. split; [exact E | exact Hr].
  - exfalso. revert Hl. vm_compute. lia.
Defined.

(** The chain of [example_bytes] in an arena of two slabs, both in use. *)
Definition example_arena : StrArena :=
  MkArena [MkSlab 64 (replicate 60 (chr 97));
           MkSlab FE_SLAB_NULL (replicate 10 (chr 97) ++ replicate 50 zero)] FE_SLAB_NULL 0.

Lemma example_holds : holds example_arena 0 [0; 64] example_bytes.
Proof.
  econstructor; [done | reflexivity | reflexivity |].
  econstructor; [done | reflexivity | reflexivity | constructor].
Qed.

Lemma example_own : own example_arena [] [0; 64].
Proof.
  split; [| split; [constructor | split]].
  - intros o sl. unfold slab_at. case_decide; [| done]. simpl.
    destruct (Z.to_nat (o / FE_SLAB_SIZE)) as [| [| [| ?]]]; simpl; by intros [= <-].
  - by apply (bool_decide_unpack _).
  - intros o Ho. repeat (apply elem_of_cons in Ho as [-> | Ho]; [by eexists |]).
    by apply not_elem_of_nil in Ho.
Qed.

Lemma str_free_chain_reclaims_witness :
  exists A', str_free_chain 2 0 example_arena = Done tt A' /\ own A' [64; 0] [].
Proof.
  destruct (str_free_chain_reclaims example_arena 0 [0; 64] example_bytes [] []
    example_holds example_own) as (A' & E & Ho & _).
  exists A'. split; [exact E | exact Ho].
Defined.

Lemma slab_readers_correct_witness :
  fe_bytescopy 70 0 58 4 example_arena = Done (replicate 4 (chr 97)) example_arena.
Proof.
  destruct (slab_readers_correct example_arena 0 [0; 64] example_bytes 0 [0; 64] example_bytes
    [] 58 4 example_holds example_holds ltac:(lia) ltac:(lia)) as (_ & _ & _ & E).
  exact E.
Defined.
