(* ===== verification/Span.v ===== *)
(** * Source spans (src/fex_span.c)

    A chained hash table from node addresses to source positions, with the
    heap blocks it owns.  A C string that the table owns is its characters
    together with its block. *)

From Stdlib Require Import ZArith Lia Ascii String.
From stdpp Require Import base list gmap.
From S2P Require Import Prelude Memory.

Definition BUCKETS : Z := 8192.

Record FexSpan := MkSpan {
  node : Z;
  source : option (chars * block);     (* the owned excerpt *)
  source_name : chars;
  start_line : Z;
  start_col : Z;
  end_line : Z;
  end_col : Z;
  span_block : block
}.

Record FexSourceName := MkSourceName { text : chars; text_block : block; name_block : block }.

Record FexSpanState := MkSpanState {
  buckets : list (list FexSpan);
  source_names : list FexSourceName;
  enabled : bool;
  state_block : block
}.

(** The part of the context the spans live in. *)
Record Spans := MkSpans { sp_mem : Mem; span_state : option FexSpanState }.

Definition sp_lift {A} (m : comp Mem A) : comp Spans A := fun s =>
  match m (sp_mem s) with
  | Done a mem => Done a (MkSpans mem (span_state s))
  | Raised e mem => Raised e (MkSpans mem (span_state s))
  | Stuck => Stuck
  | NoFuel => NoFuel
  end.

Definition set_state (st : option FexSpanState) : comp Spans unit :=
  modify (fun s => MkSpans (sp_mem s) st).

Definition hash_ptr (p : Z) : Z := Z.land (Z.shiftr p 3) (BUCKETS - 1).

Definition span_alloc (size : Z) : comp Spans (option block) := sp_lift (tracked_alloc size).
Definition span_free (ptr : option block) : comp Spans unit := sp_lift (tracked_free ptr).

(** [sizeof] of the three structs on a 64-bit target. *)
Definition SIZEOF_FexSpan : Z := 64.
Definition SIZEOF_FexSourceName : Z := 16.
Definition SIZEOF_FexSpanState : Z := 8 * BUCKETS + 16.

(** The interned name, or nothing when memory ran out; a null or empty name
    is the literal "<string>". *)
Definition intern_source_name (st : FexSpanState) (name : option chars)
    : comp Spans (option (chars * FexSpanState)) :=
  match name with
  | None | Some [] => ret (Some (str "<string>", st))
  | Some name =>
      match list_find (fun e => text e = name) (source_names st) with
      | Some (_, e) => ret (Some (text e, st))
      | None =>
          let* copy := span_alloc (Z.of_nat (length name) + 1) in
          match copy with
          | None => ret None
          | Some copy =>
              let* entry := span_alloc SIZEOF_FexSourceName in
              match entry with
              | None => span_free (Some copy) ;;; ret None
              | Some entry =>
                  ret (Some (name, MkSpanState (buckets st)
                                     (MkSourceName name copy entry :: source_names st)
                                     (enabled st) (state_block st)))
              end
          end
      end
  end.

(** [start] and [end] delimit [excerpt]; [None] when either is null. *)
Definition copy_span_excerpt (excerpt : chars) : comp Spans (option (chars * block)) :=
  let* copy := span_alloc (Z.of_nat (length excerpt) + 1) in
  ret (match copy with Some b => Some (excerpt, b) | None => None end).

(** The zeroed bucket array. *)
Definition no_spans : list (list FexSpan) := replicate (Z.to_nat BUCKETS) [].

Definition fex_span_init : comp Spans unit :=
  let* b := span_alloc SIZEOF_FexSpanState in
  match b with
  | Some b => set_state (Some (MkSpanState no_spans [] false b))
  | None => ret tt
  end.

Definition free_span (e : FexSpan) : comp Spans unit :=
  (match source e with
   | Some (_, b) => span_free (Some b)
   | None => ret tt
   end) ;;;
  span_free (Some (span_block e)).

Fixpoint free_all {A} (f : A -> comp Spans unit) (l : list A) : comp Spans unit :=
  match l with
  | [] => ret tt
  | e :: l => f e ;;; free_all f l
  end.

Definition free_source_name (e : FexSourceName) : comp Spans unit :=
  span_free (Some (text_block e)) ;;; span_free (Some (name_block e)).

Definition fex_span_cleanup : comp Spans unit :=
  let* s := get in
  match span_state s with
  | None => ret tt
  | Some st =>
      free_all (free_all free_span) (buckets st) ;;;
      free_all free_source_name (source_names st) ;;;
      span_free (Some (state_block st)) ;;;
      set_state None
  end.

(** One bucket of the pruning loop: the entries whose node is still live. *)
Fixpoint prune_bucket (live : Z -> bool) (b : list FexSpan) : comp Spans (list FexSpan) :=
  match b with
  | [] => ret []
  | e :: b =>
      if live (node e) then
        let* b := prune_bucket live b in ret (e :: b)
      else free_span e ;;; prune_bucket live b
  end.

Fixpoint prune_buckets (live : Z -> bool) (bs : list (list FexSpan))
    : comp Spans (list (list FexSpan)) :=
  match bs with
  | [] => ret []
  | b :: bs =>
      let* b := prune_bucket live b in
      let* bs := prune_buckets live bs in
      ret (b :: bs)
  end.

(** [live] is fe_ctx_object_is_live. *)
Definition fex_span_prune (live : Z -> bool) : comp Spans unit :=
  let* s := get in
  match span_state s with
  | None => ret tt
  | Some st =>
      let* bs := prune_buckets live (buckets st) in
      set_state (Some (MkSpanState bs (source_names st) (enabled st) (state_block st)))
  end.

Definition fex_span_set_enabled (e : bool) : comp Spans unit :=
  let* s := get in
  (match span_state s with
   | None =>
       when e
         (fex_span_init ;;;
          let* s := get in
          match span_state s with
          | None => sp_lift (memory_error "out of memory (span state)")
          | Some _ => ret tt
          end)
   | Some _ => ret tt
   end) ;;;
  let* s := get in
  match span_state s with
  | Some st => set_state (Some (MkSpanState (buckets st) (source_names st) e (state_block st)))
  | None => ret tt
  end.

Definition fex_span_is_enabled (s : Spans) : bool :=
  match span_state s with Some st => enabled st | None => false end.

Definition fex_record_span (nd : Z) (name : option chars) (sl sc el ec : Z)
    (excerpt : option chars) : comp Spans unit :=
  let* s := get in
  match span_state s with
  | None => ret tt
  | Some st =>
      if negb (enabled st) then ret tt
      else
        let* copy :=
          (match excerpt with
           | Some x =>
               let* c := copy_span_excerpt x in
               match c with
               | None => sp_lift (memory_error "out of memory (span excerpt)")
               | Some c => ret (Some c)
               end
           | None => ret None
           end) in
        let h := hash_ptr nd in
        let* entry := span_alloc SIZEOF_FexSpan in
        match entry with
        | None =>
            (match copy with Some (_, b) => span_free (Some b) | None => ret tt end) ;;;
            sp_lift (memory_error "out of memory (span entry)")
        | Some entry =>
            let* r := intern_source_name st name in
            match r with
            | None =>
                (match copy with Some (_, b) => span_free (Some b) | None => ret tt end) ;;;
                span_free (Some entry) ;;;
                sp_lift (memory_error "out of memory (span source name)")
            | Some (stable, st) =>
                let e := MkSpan nd copy stable sl sc el ec entry in
                let old := default [] (buckets st !! Z.to_nat h) in
                set_state (Some (MkSpanState (<[Z.to_nat h := e :: old]> (buckets st))
                                   (source_names st) (enabled st) (state_block st)))
            end
        end
  end.

Definition fex_lookup_span (nd : Z) (s : Spans) : option FexSpan :=
  match span_state s with
  | None => None
  | Some st =>
      if negb (enabled st) then None
      else snd <$> list_find (fun e => node e = nd) (default [] (buckets st !! Z.to_nat (hash_ptr nd)))
  end.

(** ** Ownership *)

Definition entry_blocks (e : FexSpan) : list block :=
  (match source e with Some (_, b) => [b] | None => [] end) ++ [span_block e].
Definition bucket_blocks (b : list FexSpan) : list block := b ≫= entry_blocks.
Definition name_blocks (e : FexSourceName) : list block := [text_block e; name_block e].
Definition state_blocks (st : FexSpanState) : list block :=
  (buckets st ≫= bucket_blocks) ++ (source_names st ≫= name_blocks) ++ [state_block st].

(** Every entry sits in the bucket of its node. *)
Definition bucketed (st : FexSpanState) : Prop :=
  length (buckets st) = Z.to_nat BUCKETS /\
  forall h b e, buckets st !! h = Some b -> e ∈ b -> Z.to_nat (hash_ptr (node e)) = h.

Definition spans_ok (s : Spans) : Prop :=
  mem_ok (sp_mem s) /\
  forall st, span_state s = Some st -> bucketed st /\ owned (sp_mem s) (state_blocks st).

Lemma free_all_app bs1 bs2 m :
  tracked_free_all (bs1 ++ bs2) m = (tracked_free_all bs1 ;;; tracked_free_all bs2) m.
Proof.
  revert m. induction bs1 as [| b bs1 IH]; intros m; [done |].
  cbn [app tracked_free_all]. unfold bind in *. destruct (tracked_free _ m); [| done..].
  by rewrite IH.
Qed.

Lemma sp_lift_bind {A B} (m : comp Mem A) (k : A -> comp Mem B) s :
  sp_lift (bind m k) s = bind (sp_lift m) (fun a => sp_lift (k a)) s.
Proof. unfold sp_lift, bind. destruct (m (sp_mem s)); done. Qed.

Lemma sp_lift_free_last b s :
  sp_lift (tracked_free_all [b]) s = span_free (Some b) s.
Proof.
  unfold span_free, sp_lift. cbn [tracked_free_all]. unfold bind, ret.
  by destruct (tracked_free (Some b) (sp_mem s)) as [[] | | |].
Qed.

Lemma sp_lift_free_cons b bs s :
  sp_lift (tracked_free_all (b :: bs)) s
  = (span_free (Some b) ;;; sp_lift (tracked_free_all bs)) s.
Proof. cbn [tracked_free_all]. by rewrite sp_lift_bind. Qed.

Lemma free_span_eq e s : free_span e s = sp_lift (tracked_free_all (entry_blocks e)) s.
Proof.
  unfold free_span, entry_blocks. destruct (source e) as [[x b] |]; cbn [app].
  - rewrite sp_lift_free_cons. unfold bind. destruct (span_free (Some b) s); [| done..].
    by rewrite sp_lift_free_last.
  - by rewrite sp_lift_free_last.
Qed.

Lemma sp_lift_free_app bs1 bs2 s :
  sp_lift (tracked_free_all (bs1 ++ bs2)) s
  = (sp_lift (tracked_free_all bs1) ;;; sp_lift (tracked_free_all bs2)) s.
Proof. rewrite <- sp_lift_bind. unfold sp_lift. by rewrite free_all_app. Qed.

(** Freeing every element of a list frees the blocks of all of them. *)
Lemma free_all_eq {A} (f : A -> comp Spans unit) (g : A -> list block) l s :
  (forall a s, f a s = sp_lift (tracked_free_all (g a)) s) ->
  free_all f l s = sp_lift (tracked_free_all (l ≫= g)) s.
Proof.
  intros Hf. revert s. induction l as [| a l IH]; intros s.
  - by destruct s.
  - cbn [free_all]. rewrite bind_cons, sp_lift_free_app. unfold bind. rewrite Hf.
    destruct (sp_lift _ s); [| done..]. apply IH.
Qed.

Lemma sp_free_good bs s :
  mem_ok (sp_mem s) -> owned (sp_mem s) bs ->
  exists m', sp_lift (tracked_free_all bs) s = Done tt (MkSpans m' (span_state s)) /\
    mem_ok m' /\ blocks m' = without bs (blocks (sp_mem s)).
Proof.
  intros Hm Ho. destruct (tracked_free_all_good bs _ Hm Ho) as (m' & E & Hm' & _ & _ & Hb).
  exists m'. unfold sp_lift. by rewrite E.
Qed.

Lemma owned_sub m bs1 bs2 : owned m (bs1 ++ bs2) -> owned m bs1.
Proof.
  intros [(? & _ & _)%NoDup_app Hl]. split; [done |]. intros p Hp. apply Hl, elem_of_app. by left.
Qed.

Lemma owned_perm m bs1 bs2 : bs1 ≡ₚ bs2 -> owned m bs1 -> owned m bs2.
Proof.
  intros Hp [Hn Hl]. split; [by rewrite <- Hp |]. intros p. rewrite <- Hp. apply Hl.
Qed.

Lemma without_perm bs1 bs2 b : bs1 ≡ₚ bs2 -> without bs1 b = without bs2 b.
Proof.
  intros Hp. apply map_eq. intros p. rewrite !without_lookup. apply decide_ext. by rewrite Hp.
Qed.

(** ** Cleanup *)

Lemma span_cleanup_good s st :
  spans_ok s -> span_state s = Some st ->
  exists m', fex_span_cleanup s = Done tt (MkSpans m' None) /\ mem_ok m' /\
    blocks m' = without (state_blocks st) (blocks (sp_mem s)).
Proof.
  intros [Hm Hst] E. destruct (Hst st E) as [_ Ho]. unfold fex_span_cleanup.
  assert (forall s, (free_all (free_all free_span) (buckets st) ;;;
      free_all free_source_name (source_names st) ;;; span_free (Some (state_block st))) s
    = sp_lift (tracked_free_all (state_blocks st)) s) as Heq.
  { intros s0. unfold state_blocks. rewrite sp_lift_free_app. unfold bind.
    rewrite (free_all_eq (free_all free_span) bucket_blocks)
      by (intros; apply (free_all_eq free_span entry_blocks); apply free_span_eq).
    destruct (sp_lift _ s0) as [[] s1 | | |]; [| done..]. rewrite sp_lift_free_app. unfold bind.
    rewrite (free_all_eq free_source_name name_blocks).
    2:{ intros a s2. unfold name_blocks. rewrite sp_lift_free_cons. unfold free_source_name, bind.
        destruct (span_free _ s2); [| done..]. by rewrite sp_lift_free_last. }
    destruct (sp_lift _ s1) as [[] s2 | | |]; [| done..]. by rewrite sp_lift_free_last. }
  destruct (sp_free_good (state_blocks st) s Hm Ho) as (m' & E' & Hm' & Hb).
  exists m'. split; [| done]. specialize (Heq s). rewrite E' in Heq.
  unfold bind, get in *. rewrite E.
  destruct (free_all (free_all free_span) (buckets st) s) as [[] s1 | | |]; [| done..].
  destruct (free_all free_source_name (source_names st) s1) as [[] s2 | | |]; [| done..].
  by rewrite Heq.
Qed.

(** ** Pruning *)

Definition kept (live : Z -> bool) (b : list FexSpan) : list FexSpan :=
  filter (fun e => live (node e) = true) b.
Definition dead (live : Z -> bool) (b : list FexSpan) : list FexSpan :=
  filter (fun e => live (node e) <> true) b.

Lemma bucket_blocks_split live b :
  bucket_blocks b ≡ₚ bucket_blocks (dead live b) ++ bucket_blocks (kept live b).
Proof.
  induction b as [| e b IH]; [done |]. unfold bucket_blocks, dead, kept in *.
  rewrite bind_cons, !filter_cons. destruct (live (node e)) eqn:E.
  - rewrite (decide_False (P := true <> true)), (decide_True (P := true = true)) by congruence.
    rewrite bind_cons, IH. solve_Permutation.
  - rewrite (decide_True (P := false <> true)), (decide_False (P := false = true)) by done.
    rewrite bind_cons, IH. solve_Permutation.
Qed.

Lemma prune_bucket_good live b s :
  mem_ok (sp_mem s) -> owned (sp_mem s) (bucket_blocks (dead live b)) ->
  exists m', prune_bucket live b s = Done (kept live b) (MkSpans m' (span_state s)) /\ mem_ok m' /\
    blocks m' = without (bucket_blocks (dead live b)) (blocks (sp_mem s)).
Proof.
  revert s. induction b as [| e b IH]; intros s Hm Ho; cbn [prune_bucket].
  { exists (sp_mem s). split; [by destruct s |]. split; [done |]. simpl. by rewrite without_nil. }
  unfold kept, dead in *. rewrite filter_cons in Ho. rewrite !filter_cons.
  destruct (live (node e)) eqn:E.
  - rewrite (decide_False (P := true <> true)) in Ho |- * by congruence.
    rewrite (decide_True (P := true = true)) by done. unfold bind.
    destruct (IH s Hm Ho) as (m' & E' & ?). exists m'. rewrite E'. done.
  - rewrite (decide_True (P := false <> true)) in Ho |- * by done.
    rewrite (decide_False (P := false = true)) by done.
    unfold bind. rewrite free_span_eq. unfold bucket_blocks in *. rewrite bind_cons in *.
    destruct (sp_free_good (entry_blocks e) s Hm (owned_sub _ _ _ Ho)) as (m1 & E1 & Hm1 & Hb1).
    rewrite E1.
    destruct (IH (MkSpans m1 (span_state s)) Hm1 (owned_app _ _ _ _ Ho Hb1)) as (m2 & E2 & Hm2 & Hb2).
    exists m2. rewrite E2. split; [done |]. split; [done |]. by rewrite Hb2; simpl; rewrite Hb1, without_app.
Qed.

Lemma prune_buckets_good live bs s :
  mem_ok (sp_mem s) -> owned (sp_mem s) ((dead live <$> bs) ≫= bucket_blocks) ->
  exists m', prune_buckets live bs s = Done (kept live <$> bs) (MkSpans m' (span_state s)) /\
    mem_ok m' /\ blocks m' = without ((dead live <$> bs) ≫= bucket_blocks) (blocks (sp_mem s)).
Proof.
  revert s. induction bs as [| b bs IH]; intros s Hm Ho; cbn [prune_buckets].
  { exists (sp_mem s). split; [by destruct s |]. split; [done |]. simpl. by rewrite without_nil. }
  rewrite fmap_cons, bind_cons in Ho. unfold bind at 1.
  destruct (prune_bucket_good live b s Hm (owned_sub _ _ _ Ho)) as (m1 & E1 & Hm1 & Hb1).
  rewrite E1.
  destruct (IH (MkSpans m1 (span_state s)) Hm1 (owned_app _ _ _ _ Ho Hb1)) as (m2 & E2 & Hm2 & Hb2).
  exists m2. unfold bind. rewrite E2. split; [done |]. split; [done |].
  by rewrite Hb2, fmap_cons, bind_cons; simpl; rewrite Hb1, without_app.
Qed.

Lemma buckets_split live bs :
  bs ≫= bucket_blocks ≡ₚ
  ((dead live <$> bs) ≫= bucket_blocks) ++ ((kept live <$> bs) ≫= bucket_blocks).
Proof.
  induction bs as [| b bs IH]; [done |].
  rewrite !fmap_cons, !bind_cons, IH, (bucket_blocks_split live b). solve_Permutation.
Qed.

(** The dead entries' blocks of a table. *)
Definition dead_blocks (live : Z -> bool) (s : Spans) : list block :=
  match span_state s with
  | Some st => (dead live <$> buckets st) ≫= bucket_blocks
  | None => []
  end.

Lemma lookup_kept live b nd :
  list_find (fun e => node e = nd) (kept live b) ≫= (fun p => Some p.2) =
  if live nd then list_find (fun e => node e = nd) b ≫= (fun p => Some p.2) else None.
Proof.
  assert (forall e l, list_find (fun e => node e = nd) (e :: l) ≫= (fun p => Some p.2) =
    if decide (node e = nd) then Some e
    else list_find (fun e => node e = nd) l ≫= (fun p => Some p.2)) as Hc.
  { intros e l. simpl. case_decide; [done |].
    by destruct (list_find (fun e => node e = nd) l) as [[]|]. }
  unfold kept. induction b as [| e b IH]; [by destruct (live nd) |].
  rewrite filter_cons. case_decide as Hl; rewrite ?Hc; rewrite IH; case_decide as Hn; try done.
  - subst nd. by rewrite Hl.
  - subst nd. by destruct (live (node e)).
Qed.

Definition all_span_blocks (o : option FexSpanState) : list block :=
  match o with Some st => state_blocks st | None => [] end.

Lemma fex_span_prune_good live s :
  spans_ok s ->
  exists s', fex_span_prune live s = Done tt s' /\ spans_ok s' /\
    blocks (sp_mem s') = without (dead_blocks live s) (blocks (sp_mem s)) /\
    all_span_blocks (span_state s) ≡ₚ dead_blocks live s ++ all_span_blocks (span_state s') /\
    (forall nd, fex_lookup_span nd s' = if live nd then fex_lookup_span nd s else None).
Proof.
  intros [Hm Hst]. unfold fex_span_prune, bind, get, dead_blocks.
  destruct (span_state s) as [st |] eqn:E.
  2:{ exists s. split; [done |]. split; [split; [done | congruence] |].
      split; [by rewrite without_nil |]. rewrite E. split; [done |].
      intros nd. unfold fex_lookup_span. rewrite E. by destruct (live nd). }
  destruct (Hst st eq_refl) as [[Hlen Hbk] Ho].
  set (st' := MkSpanState (kept live <$> buckets st) (source_names st) (enabled st) (state_block st)).
  assert (state_blocks st ≡ₚ ((dead live <$> buckets st) ≫= bucket_blocks) ++ state_blocks st') as Hp.
  { unfold state_blocks. by rewrite (buckets_split live), <- app_assoc. }
  pose proof (owned_perm _ _ _ Hp Ho) as Ho'.
  destruct (prune_buckets_good live (buckets st) s Hm (owned_sub _ _ _ Ho'))
    as (m' & E' & Hm' & Hb'). rewrite E'. unfold set_state, modify.
  eexists. split; [done |]. split; [| split; [done | split; [exact Hp |]]].
  - split; [done |]. intros st0 [= <-]. split; [split |]; simpl.
    + by rewrite length_fmap.
    + intros h b e Hh He. apply list_lookup_fmap_Some in Hh as (b0 & -> & Hh).
      apply list_elem_of_filter in He as [_ He]. by eapply Hbk.
    + by eapply owned_app.
  - intros nd. unfold fex_lookup_span. rewrite E. simpl.
    destruct (enabled st); simpl; [| by destruct (live nd)].
    rewrite list_lookup_fmap. destruct (buckets st !! Z.to_nat (hash_ptr nd)) as [b |]; simpl;
      [| by destruct (live nd)].
    pose proof (lookup_kept live b nd) as Hk.
    by destruct (list_find (fun e => node e = nd) (kept live b)) as [[] |],
      (list_find (fun e => node e = nd) b) as [[] |], (live nd).
Qed.

(** ** Recording *)

Lemma hash_ptr_range p : 0 <= hash_ptr p < BUCKETS.
Proof.
  unfold hash_ptr, BUCKETS. change (8192 - 1) with (Z.ones 13). rewrite Z.land_ones by lia.
  apply Z.mod_pos_bound. lia.
Qed.

Lemma span_alloc_good size s :
  mem_ok (sp_mem s) -> 0 <= size ->
  exists r m', span_alloc size s = Done r (MkSpans m' (span_state s)) /\ mem_ok m' /\
    match r with
    | None => blocks m' = blocks (sp_mem s)
    | Some b => blocks (sp_mem s) !! b = None /\ blocks m' = <[b := size]> (blocks (sp_mem s))
    end.
Proof.
  intros Hm Hs. unfold span_alloc, sp_lift.
  destruct (tracked_alloc_good size _ Hm Hs) as (r & m' & -> & (Hm' & _) & Hr).
  exists r, m'. split; [done |]. split; [done |]. destruct r; naive_solver.
Qed.

Lemma owned_fresh m m' b size bs :
  owned m bs -> blocks m !! b = None -> blocks m' = <[b := size]> (blocks m) ->
  owned m' (b :: bs).
Proof.
  intros [Hn Hl] Hb Hb'. split.
  - constructor; [| done]. intros Hin. apply Hl in Hin as [? ?]. congruence.
  - intros p [-> | Hp]%elem_of_cons; rewrite Hb'; [by rewrite lookup_insert_eq |].
    rewrite lookup_insert_ne; [by apply Hl |]. intros ->. apply Hl in Hp as [? ?]. congruence.
Qed.

Lemma owned_blocks m m' bs : blocks m' = blocks m -> owned m bs -> owned m' bs.
Proof. unfold owned. by intros ->. Qed.

(** Giving back a block that was just allocated. *)
Lemma span_free_fresh b size bl s :
  mem_ok (sp_mem s) -> bl !! b = None -> blocks (sp_mem s) = <[b := size]> bl ->
  exists m', span_free (Some b) s = Done tt (MkSpans m' (span_state s)) /\ mem_ok m' /\
    blocks m' = bl.
Proof.
  intros Hm Hb E. unfold span_free, sp_lift.
  destruct (tracked_free_good b size _ Hm ltac:(by rewrite E, lookup_insert_eq))
    as (m' & -> & (Hm' & _) & Hb' & _).
  exists m'. split; [done |]. split; [done |]. rewrite Hb', E. by apply delete_insert_id.
Qed.

Definition shown_name (name : option chars) : chars :=
  match name with None | Some [] => str "<string>" | Some n => n end.

(** The interned name is the name; the table grows by at most one name. *)
Lemma intern_good st name s bs :
  mem_ok (sp_mem s) -> owned (sp_mem s) (state_blocks st ++ bs) ->
  exists r m', intern_source_name st name s = Done r (MkSpans m' (span_state s)) /\ mem_ok m' /\
    match r with
    | None => blocks m' = blocks (sp_mem s)
    | Some (n, st') => n = shown_name name /\ buckets st' = buckets st /\
        enabled st' = enabled st /\ owned m' (state_blocks st' ++ bs)
    end.
Proof.
  intros Hm Ho.
  assert (exists r m', (ret (Some (shown_name name, st)) : comp Spans _) s
    = Done r (MkSpans m' (span_state s)) /\ mem_ok m' /\
    match r with
    | None => blocks m' = blocks (sp_mem s)
    | Some (n, st') => n = shown_name name /\ buckets st' = buckets st /\
        enabled st' = enabled st /\ owned m' (state_blocks st' ++ bs)
    end) as Hsame.
  { exists (Some (shown_name name, st)), (sp_mem s). split; [by destruct s |]. done. }
  unfold intern_source_name. destruct name as [[| ch name] |]; [done | | done].
  cbn [shown_name] in *. set (n := ch :: name) in *.
  destruct (list_find (fun e => text e = n) (source_names st)) as [[i e] |] eqn:Ef.
  { apply list_find_Some in Ef as (_ & Et & _). by rewrite Et. }
  clear Hsame. unfold bind.
  destruct (span_alloc_good (Z.of_nat (length n) + 1) s Hm ltac:(lia)) as (r1 & m1 & -> & Hm1 & Hr1).
  destruct r1 as [copy |]; [| by eexists None, m1]. destruct Hr1 as [Hc1 Hb1].
  destruct (span_alloc_good SIZEOF_FexSourceName (MkSpans m1 (span_state s)) Hm1 ltac:(done))
    as (r2 & m2 & -> & Hm2 & Hr2).
  destruct r2 as [entry |].
  - destruct Hr2 as [Hc2 Hb2]. eexists (Some _), m2. split; [done |]. split; [done |].
    split; [done |]. split; [done |]. split; [done |].
    pose proof (owned_fresh _ _ _ _ _ (owned_fresh _ _ _ _ _ Ho Hc1 Hb1) Hc2 Hb2) as Ho2.
    eapply owned_perm; [| exact Ho2]. unfold state_blocks. simpl. unfold name_blocks at 2. simpl.
    rewrite <- !app_assoc. simpl. solve_Permutation.
  - simpl in Hr2. cbn [span_state]. destruct (span_free_fresh copy (Z.of_nat (length n) + 1) (blocks (sp_mem s))
      (MkSpans m2 (span_state s)) Hm2 Hc1) as (m3 & -> & Hm3 & Hb3); [cbn [sp_mem]; by rewrite Hr2 |].
    by eexists None, m3.
Qed.

(** Releasing the excerpt on an error path. *)
Lemma free_copy_good (copy : option (chars * block)) size bl s :
  mem_ok (sp_mem s) ->
  match copy with
  | Some (_, b) => bl !! b = None /\ blocks (sp_mem s) = <[b := size]> bl
  | None => blocks (sp_mem s) = bl
  end ->
  exists m', (match copy with Some (_, b) => span_free (Some b) | None => ret tt end) s
    = Done tt (MkSpans m' (span_state s)) /\ mem_ok m' /\ blocks m' = bl.
Proof.
  intros Hm H. destruct copy as [[x b] |].
  - destruct H. by eapply span_free_fresh.
  - exists (sp_mem s). split; [by destruct s | done].
Qed.

(** Pushing an entry on its bucket. *)
Definition push_entry (st : FexSpanState) (e : FexSpan) : FexSpanState :=
  let h := Z.to_nat (hash_ptr (node e)) in
  MkSpanState (<[h := e :: default [] (buckets st !! h)]> (buckets st))
    (source_names st) (enabled st) (state_block st).

Lemma hash_bucket st p : bucketed st -> exists b, buckets st !! Z.to_nat (hash_ptr p) = Some b.
Proof.
  intros [Hl _]. apply lookup_lt_is_Some_2. rewrite Hl. pose proof (hash_ptr_range p). lia.
Qed.

Lemma push_entry_bucketed st e : bucketed st -> bucketed (push_entry st e).
Proof.
  intros Hb. pose proof (hash_bucket st (node e) Hb) as [b0 Hb0]. destruct Hb as [Hl Hb].
  unfold push_entry. rewrite Hb0. simpl. split; [simpl; by rewrite length_insert |].
  simpl. intros h b x Hh Hx. apply list_lookup_insert_Some in Hh as [(<- & <- & _) | (_ & Hh)].
  - apply elem_of_cons in Hx as [-> | Hx]; [done | by eapply Hb].
  - by eapply Hb.
Qed.

Lemma push_entry_blocks st e :
  bucketed st -> state_blocks (push_entry st e) ≡ₚ entry_blocks e ++ state_blocks st.
Proof.
  intros Hb. pose proof (hash_bucket st (node e) Hb) as [b0 Hb0].
  unfold push_entry, state_blocks. rewrite Hb0. simpl.
  rewrite insert_take_drop by (by eapply lookup_lt_Some).
  rewrite <- (take_drop_middle _ _ _ Hb0) at 3.
  rewrite !bind_app, !bind_cons. unfold bucket_blocks at 2. rewrite bind_cons.
  fold (bucket_blocks b0). solve_Permutation.
Qed.

Lemma push_entry_lookup m st e nd :
  bucketed st -> enabled st = true ->
  fex_lookup_span nd (MkSpans m (Some (push_entry st e))) =
    if decide (nd = node e) then Some e else fex_lookup_span nd (MkSpans m (Some st)).
Proof.
  intros Hb Hen. pose proof (hash_bucket st (node e) Hb) as [b0 Hb0].
  unfold fex_lookup_span, push_entry. simpl. rewrite Hen, Hb0. simpl.
  destruct (decide (Z.to_nat (hash_ptr nd) = Z.to_nat (hash_ptr (node e)))) as [Eh | Eh].
  - rewrite Eh, list_lookup_insert_eq by (by eapply lookup_lt_Some). rewrite Hb0. simpl.
    destruct (decide (nd = node e)) as [-> | Hn]; [by rewrite decide_True |].
    rewrite (decide_False (P := node e = nd)) by congruence.
    by destruct (list_find (fun e => node e = nd) b0) as [[] |].
  - rewrite list_lookup_insert_ne by congruence.
    rewrite decide_False; [done | by intros ->].
Qed.

(** The excerpt copied by [fex_record_span]: refused, absent, or owned. *)
Lemma excerpt_good excerpt s :
  mem_ok (sp_mem s) ->
  let c := (match excerpt with
     | Some x =>
         let* c := copy_span_excerpt x in
         match c with
         | None => sp_lift (memory_error "out of memory (span excerpt)")
         | Some c => ret (Some c)
         end
     | None => ret None
     end) : comp Spans (option (chars * block)) in
  (exists msg m', c s = Raised msg (MkSpans m' (span_state s)) /\ mem_ok m' /\
     blocks m' = blocks (sp_mem s)) \/
  (exists copy size m', c s = Done copy (MkSpans m' (span_state s)) /\ mem_ok m' /\
     fst <$> copy = excerpt /\
     match copy with
     | Some (_, b) => blocks (sp_mem s) !! b = None /\ blocks m' = <[b := size]> (blocks (sp_mem s))
     | None => blocks m' = blocks (sp_mem s)
     end).
Proof.
  intros Hm c. subst c. destruct excerpt as [x |].
  2:{ right. exists None, 0, (sp_mem s). split; [by destruct s |]. done. }
  unfold bind, copy_span_excerpt, bind.
  destruct (span_alloc_good (Z.of_nat (length x) + 1) s Hm ltac:(lia)) as (r & m' & -> & Hm' & Hr).
  destruct r as [b |].
  - right. by exists (Some (x, b)), (Z.of_nat (length x) + 1), m'.
  - left. unfold ret, sp_lift, memory_error. eexists _, m'. done.
Qed.

Definition copy_blocks (copy : option (chars * block)) : list block :=
  match copy with Some (_, b) => [b] | None => [] end.

Lemma record_good s st nd name sl sc el ec excerpt :
  spans_ok s -> span_state s = Some st -> enabled st = true ->
  match fex_record_span nd name sl sc el ec excerpt s with
  | Done _ s' => exists e st', span_state s' = Some (push_entry st' e) /\ spans_ok s' /\
      bucketed st' /\ buckets st' = buckets st /\ enabled st' = true /\
      node e = nd /\ source_name e = shown_name name /\ fst <$> source e = excerpt /\
      start_line e = sl /\ start_col e = sc /\ end_line e = el /\ end_col e = ec
  | Raised _ s' => spans_ok s' /\ span_state s' = Some st /\ blocks (sp_mem s') = blocks (sp_mem s)
  | Stuck | NoFuel => False
  end.
Proof.
  intros [Hm Hst] E Hen. destruct (Hst st E) as [Hbk Ho].
  assert (forall m', mem_ok m' -> blocks m' = blocks (sp_mem s) ->
    spans_ok (MkSpans m' (span_state s)) /\ span_state s = Some st /\
    blocks (sp_mem (MkSpans m' (span_state s))) = blocks (sp_mem s)) as Hfail.
  { intros m' Hm' Hb. split; [| done]. split; [done |]. intros st0. simpl. rewrite E.
    intros [= <-]. split; [done |]. by eapply owned_blocks. }
  unfold fex_record_span. unfold bind at 1, get. rewrite E, Hen. cbn [negb]. unfold bind at 1.
  pose proof (excerpt_good excerpt s Hm) as Hx. cbv zeta in Hx.
  destruct Hx as [(msg & m1 & -> & Hm1 & Hb1) | (copy & size & m1 & -> & Hm1 & Hcp & Hb1)];
    [by apply Hfail |].
  cbv zeta. unfold bind at 1.
  destruct (span_alloc_good SIZEOF_FexSpan (MkSpans m1 (span_state s)) Hm1 ltac:(done))
    as (r2 & m2 & -> & Hm2 & Hr2). cbn [sp_mem span_state] in *.
  assert (owned m1 (copy_blocks copy ++ state_blocks st)) as Ho1.
  { destruct copy as [[x b] |]; [| by eapply owned_blocks].
    destruct Hb1 as [Hn Hb1]. by eapply owned_fresh. }
  destruct r2 as [entry |].
  2:{ unfold bind. destruct (free_copy_good copy size (blocks (sp_mem s)) (MkSpans m2 (span_state s)))
        as (m3 & -> & Hm3 & Hb3); [done | destruct copy as [[]|]; simpl; by rewrite Hr2 |].
      by apply Hfail. }
  destruct Hr2 as [Hn2 Hb2]. pose proof (owned_fresh _ _ _ _ _ Ho1 Hn2 Hb2) as Ho2.
  assert (owned m2 (state_blocks st ++ entry :: copy_blocks copy)) as Ho2'
    by (eapply owned_perm; [| exact Ho2]; solve_Permutation).
  unfold bind at 1.
  destruct (intern_good st name (MkSpans m2 (span_state s)) _ Hm2 Ho2')
    as (r3 & m3 & -> & Hm3 & Hr3). cbn [sp_mem span_state] in *.
  destruct r3 as [[n st'] |].
  - destruct Hr3 as (-> & Hbu & Hen' & Ho3). unfold set_state, modify.
    set (e := MkSpan nd copy (shown_name name) sl sc el ec entry).
    assert (bucketed st') as Hbk' by (unfold bucketed; by rewrite Hbu).
    exists e, st'. split; [done |]. split; [| by rewrite Hen'].
    split; [done |]. intros st0 [= <-]. split; [by apply (push_entry_bucketed st' e) |].
    eapply owned_perm; [| exact Ho3]. etransitivity; [| symmetry; apply (push_entry_blocks st' e Hbk')].
    unfold entry_blocks, copy_blocks. simpl. destruct copy as [[]|]; simpl; solve_Permutation.
  - unfold bind.
    destruct (free_copy_good copy size (<[entry := SIZEOF_FexSpan]> (blocks (sp_mem s)))
      (MkSpans m3 (span_state s))) as (m4 & -> & Hm4 & Hb4); [done | |].
    { simpl. rewrite Hr3, Hb2. destruct copy as [[x b] |]; [| by rewrite Hb1].
      destruct Hb1 as [Hn1 Hb1]. rewrite Hb1 in Hn2 |- *.
      assert (entry <> b) by (intros ->; by rewrite lookup_insert_eq in Hn2).
      split; [by rewrite lookup_insert_ne | by apply insert_insert_ne]. }
    cbn [sp_mem span_state].
    destruct (span_free_fresh entry SIZEOF_FexSpan (blocks (sp_mem s)) (MkSpans m4 (span_state s)))
      as (m5 & -> & Hm5 & Hb5); [done | | done |].
    { destruct copy as [[x b] |]; [| by rewrite <- Hb1]. destruct Hb1 as [Hn1 Hb1].
      rewrite Hb1 in Hn2. by apply lookup_insert_None in Hn2 as [? _]. }
    by apply Hfail.
Qed.

(** ** Properties *)

(** C29. Recording a span: afterwards the node's span is found with the given
    position, name and excerpt, every other node's span is what it was, and
    a refused allocation gives back everything the call had allocated. *)
Theorem span_record_lookup s st nd name sl sc el ec excerpt :
  spans_ok s -> span_state s = Some st -> enabled st = true ->
  match fex_record_span nd name sl sc el ec excerpt s with
  | Done _ s' => spans_ok s' /\
      (exists e, fex_lookup_span nd s' = Some e /\ source_name e = shown_name name /\
         fst <$> source e = excerpt /\
         start_line e = sl /\ start_col e = sc /\ end_line e = el /\ end_col e = ec) /\
      (forall nd', nd' <> nd -> fex_lookup_span nd' s' = fex_lookup_span nd' s)
  | Raised _ s' => spans_ok s' /\ span_state s' = Some st /\ blocks (sp_mem s') = blocks (sp_mem s)
  | Stuck | NoFuel => False
  end.
Proof.
  intros Hok E Hen. pose proof (record_good s st nd name sl sc el ec excerpt Hok E Hen) as H.
  destruct (fex_record_span _ _ _ _ _ _ _ s) as [[] [m' os] | | |]; [| done..].
  destruct H as (e & st' & [= ->] & Hok' & Hbk & Hbu & Hen' & <- & Hrest). split; [done |].
  split.
  - exists e. rewrite push_entry_lookup, decide_True by done. split; [done |]. apply Hrest.
  - intros nd' Hne. rewrite push_entry_lookup, decide_False by done.
    unfold fex_lookup_span. cbn [span_state]. by rewrite E, Hen, Hen', Hbu.
Qed.

(** C30. After a collection the table holds exactly the spans of live nodes,
    and the blocks of the others, and only those, are released; cleaning the
    table up releases every block it owns. *)
Theorem span_prune_and_cleanup live s :
  spans_ok s ->
  (exists s', fex_span_prune live s = Done tt s' /\ spans_ok s' /\
     blocks (sp_mem s') = without (dead_blocks live s) (blocks (sp_mem s)) /\
     forall nd, fex_lookup_span nd s' = if live nd then fex_lookup_span nd s else None) /\
  (forall st, span_state s = Some st ->
     exists m', fex_span_cleanup s = Done tt (MkSpans m' None) /\
       blocks m' = without (state_blocks st) (blocks (sp_mem s))).
Proof.
  intros Hok. split.
  { destruct (fex_span_prune_good live s Hok) as (s' & ? & ? & ? & _ & ?). eauto. }
  intros st E.
  destruct (span_cleanup_good s st Hok E) as (m' & E' & _ & Hb). eauto.
Qed.

(** ** A context without spans, in which they are then enabled *)

Definition example_spans : Spans :=
  MkSpans (MkMem 0 4096 4096 4096 false false ∅ 0%nat (fun _ => true) 0%nat) None.

Lemma example_spans_ok : spans_ok example_spans.
Proof.
  split; [| done]. unfold mem_ok, total. simpl. rewrite map_fold_empty. do 5 (split; [lia |]).
  intros p sz. by rewrite lookup_empty.
Qed.

Lemma no_spans_length : length no_spans = Z.to_nat BUCKETS.
Proof. apply length_replicate. Qed.

Lemma no_spans_bucket h b : no_spans !! h = Some b -> b = [].
Proof. unfold no_spans. generalize (Z.to_nat BUCKETS). by intros n [-> _]%lookup_replicate. Qed.

Lemma no_spans_blocks : no_spans ≫= bucket_blocks = [].
Proof.
  unfold no_spans. generalize (Z.to_nat BUCKETS).
  induction n as [| n IH]; [done |]. cbn [replicate]. by rewrite bind_cons, IH.
Qed.

Lemma init_good s :
  spans_ok s -> span_state s = None ->
  match fex_span_set_enabled true s with
  | Done _ s' => exists st, span_state s' = Some st /\ enabled st = true /\ spans_ok s'
  | Raised _ s' => spans_ok s' /\ span_state s' = None
  | _ => False
  end.
Proof.
  intros [Hm _] E. unfold fex_span_set_enabled, bind, get. rewrite E. cbn [when].
  unfold fex_span_init, bind.
  destruct (span_alloc_good SIZEOF_FexSpanState s Hm ltac:(done)) as (r & m' & -> & Hm' & Hr).
  destruct r as [b |].
  - destruct Hr as [Hn Hb]. unfold set_state, modify, ret. cbn [span_state sp_mem].
    eexists. split; [done |]. split; [done |]. split; [done |]. intros st [= <-].
    split; [split |].
    + apply no_spans_length.
    + intros h l e Hh He. cbn [buckets] in Hh. apply no_spans_bucket in Hh as ->.
      by apply not_elem_of_nil in He.
    + unfold state_blocks. cbn [buckets source_names state_block]. rewrite no_spans_blocks. simpl.
      eapply owned_fresh; [| done | done]. split; [constructor |]. by intros ? ?%not_elem_of_nil.
  - unfold ret. cbn [span_state]. rewrite E. unfold sp_lift, memory_error. split; [| done].
    split; [done |]. by intros ? [=].
Qed.

Lemma example_enabled :
  exists s st, spans_ok s /\ span_state s = Some st /\ enabled st = true.
Proof.
  pose proof (init_good example_spans example_spans_ok eq_refl) as H.
  destruct (fex_span_set_enabled true example_spans) as [[] s' | msg s' | |] eqn:E; [| | done..].
  - destruct H as (st & E1 & E2 & Hok). eauto.
  - exfalso. unfold fex_span_set_enabled, bind, get in E. cbn [span_state example_spans when] in E.
    unfold fex_span_init, bind, span_alloc, sp_lift in E.
    destruct (tracked_alloc SIZEOF_FexSpanState (sp_mem example_spans)) as [[b |] m | | |] eqn:Ea;
      [done | vm_compute in Ea; discriminate..].
Qed.

Lemma span_record_lookup_witness :
  exists s, spans_ok s /\
    match fex_record_span 4096 None 3 7 3 9 (Some (str "x")) s with
    | Done _ s' => spans_ok s'
    | Raised _ s' => blocks (sp_mem s') = blocks (sp_mem s)
    | _ => False
    end.
Proof.
  destruct example_enabled as (s & st & Hok & E & Hen). exists s. split; [exact Hok |].
  pose proof (span_record_lookup s st 4096 None 3 7 3 9 (Some (str "x")) Hok E Hen) as H.
  destruct (fex_record_span 4096 None 3 7 3 9 (Some (str "x")) s) as [[] s' | msg s' | |].
  - exact (proj1 H).
  - exact (proj2 (proj2 H)).
  - exact H.
  - exact H.
Defined.

Lemma span_prune_and_cleanup_witness :
  exists s', fex_span_prune (fun _ => false) example_spans = Done tt s' /\ spans_ok s'.
Proof.
  destruct (span_prune_and_cleanup (fun _ => false) example_spans example_spans_ok)
    as [(s' & E & Hok & _) _].
  exists s'. split; [exact E | exact Hok].
Defined.
