(* ===== verification/Host.v ===== *)
(** * Embedding state (src/fex.h: FexStatus, FexError; src/fe.c: the import
    fields of struct fe_Context; src/fex.c: FexTryScope)

    What the context keeps for the module loader and for protected calls.  A
    C string of the tracked allocator is its text and its block. *)

From Stdlib Require Import ZArith Ascii String.
From stdpp Require Import base list.
From S2P Require Import Prelude Sfc32 Memory.

Abbreviation cstr := (chars * block)%type.

(** ** String arrays and the module loader *)

Record StrArray := MkArr { items : list cstr; capacity : Z; arr_block : option block }.
Definition empty_array : StrArray := MkArr [] 0 None.
Definition arr_count (a : StrArray) : Z := Z.of_nat (length (items a)).

(** The values of the loaded modules are roots and stay with the objects of
    the context. *)
Record Loader := MkLoader {
  import_paths : StrArray;
  source_dirs : StrArray;
  source_buffers : StrArray;
  loading_modules : StrArray;
  loaded_modules : StrArray;
  loaded_value_capacity : Z;
  loaded_value_block : option block
}.
Definition empty_loader : Loader :=
  MkLoader empty_array empty_array empty_array empty_array empty_array 0 None.

Definition with_import_paths (v : StrArray) (l : Loader) : Loader :=
  MkLoader v (source_dirs l) (source_buffers l) (loading_modules l) (loaded_modules l)
    (loaded_value_capacity l) (loaded_value_block l).
Definition with_source_dirs (v : StrArray) (l : Loader) : Loader :=
  MkLoader (import_paths l) v (source_buffers l) (loading_modules l) (loaded_modules l)
    (loaded_value_capacity l) (loaded_value_block l).
Definition with_source_buffers (v : StrArray) (l : Loader) : Loader :=
  MkLoader (import_paths l) (source_dirs l) v (loading_modules l) (loaded_modules l)
    (loaded_value_capacity l) (loaded_value_block l).
Definition with_loading_modules (v : StrArray) (l : Loader) : Loader :=
  MkLoader (import_paths l) (source_dirs l) (source_buffers l) v (loaded_modules l)
    (loaded_value_capacity l) (loaded_value_block l).
Definition with_loaded_modules (v : StrArray) (l : Loader) : Loader :=
  MkLoader (import_paths l) (source_dirs l) (source_buffers l) (loading_modules l) v
    (loaded_value_capacity l) (loaded_value_block l).
Definition with_loaded_values (cap : Z) (b : option block) (l : Loader) : Loader :=
  MkLoader (import_paths l) (source_dirs l) (source_buffers l) (loading_modules l)
    (loaded_modules l) cap b.

(** ** Errors of protected calls *)

Inductive FexStatus :=
| FEX_STATUS_OK | FEX_STATUS_COMPILE_ERROR | FEX_STATUS_RUNTIME_ERROR | FEX_STATUS_IO_ERROR.
#[export] Instance FexStatus_eq_dec : EqDecision FexStatus.
Proof. solve_decision. Defined.

Definition FEX_ERROR_MESSAGE_MAX : nat := 256.
Definition FEX_ERROR_SOURCE_NAME_MAX : nat := 260.
Definition FEX_ERROR_EXPRESSION_MAX : nat := 128.
Definition FEX_ERROR_TRACE_MAX : nat := 8.

(** Character arrays are their contents before the NUL. *)
Record FexErrorFrame := MkFrame {
  frame_name : chars; frame_line : Z; frame_column : Z; frame_expression : chars
}.
(** [frame_count] is the length of [frames]. *)
Record FexError := MkFexError {
  status : FexStatus;
  fe_message : chars;
  fe_source : chars;
  fe_line : Z;
  fe_column : Z;
  frames : list FexErrorFrame
}.

(** A protected call in progress: whether its caller wants the error, and the
    source name. *)
Record FexTryScope := MkTry { wants_error : bool; try_source : chars }.

(** The error handler of the context: none, the one fex_init installs, the
    one of protected calls. *)
Inductive fe_ErrorFn := NoHandler | FexOnError | FexTryOnError.
#[export] Instance fe_ErrorFn_eq_dec : EqDecision fe_ErrorFn.
Proof. solve_decision. Defined.

(** The static generator of the random builtins and its flag. *)
Record Rng := MkRng { seeded : bool; rng_state : sfc32_state }.

(** ** The operating system *)

(** What the program has asked of the system, with the answers that change
    what comes later.  Descriptors are numbers; a directory, an environment
    and a clock are outside. *)
Inductive MkdirAnswer := Made | Already | Refused.
Inductive Event :=
| EStat (path : chars)
| EMkdir (path : chars) (r : MkdirAnswer)
| EReadDir (path : chars)
| EOpenRead (path : chars)
| EOpenWrite (path : chars) (opened : bool)
| EWrite (path : chars) (data : chars) (written : nat)
| EClose (path : chars)
| EGetcwd | EChdir (path : chars) (ok : bool) | EGetenv (name : chars) | ETime | EExit (code : Z)
| EPipe (fds : option (nat * nat))
| EOpenNull (fd : option nat)
| EFcntl (fd : nat)
| ECloseFd (fd : nat)
| EFork (argv : list chars) (cwd : option chars) (env : option (list chars)) (pid : option positive)
| EWait (pid : positive) (reaped : bool)
| EKill (pid : positive)
| ESelect
| ERead (fd : nat) (data : chars)
| EWriteFd (fd : nat) (data : chars).

(** [jump_error] is the error of the longjmp that is under way, when it was
    not raised by fe_error; [stdin] is what is left of the standard input;
    [events] are the calls of the system, the last one first. *)
Record Host := MkHost {
  loader : Loader;
  try_scopes : list FexTryScope;     (* g_try_scope and the scopes below it *)
  error_fn : fe_ErrorFn;
  jump_error : option FexError;
  rng : Rng;
  stdin : chars;
  events : list Event
}.
Definition new_host : Host := MkHost empty_loader [] NoHandler None (MkRng false (SFC 0 0 0 0)) [] [].
Definition with_loader (v : Loader) (h : Host) : Host :=
  MkHost v (try_scopes h) (error_fn h) (jump_error h) (rng h) (stdin h) (events h).
Definition with_try (scopes : list FexTryScope) (fn : fe_ErrorFn) (e : option FexError) (h : Host) : Host :=
  MkHost (loader h) scopes fn e (rng h) (stdin h) (events h).
Definition with_error_fn (v : fe_ErrorFn) (h : Host) : Host :=
  MkHost (loader h) (try_scopes h) v (jump_error h) (rng h) (stdin h) (events h).
Definition with_jump_error (v : option FexError) (h : Host) : Host :=
  MkHost (loader h) (try_scopes h) (error_fn h) v (rng h) (stdin h) (events h).
Definition with_rng (v : Rng) (h : Host) : Host :=
  MkHost (loader h) (try_scopes h) (error_fn h) (jump_error h) v (stdin h) (events h).
Definition with_stdin (v : chars) (h : Host) : Host :=
  MkHost (loader h) (try_scopes h) (error_fn h) (jump_error h) (rng h) v (events h).
Definition with_events (v : list Event) (h : Host) : Host :=
  MkHost (loader h) (try_scopes h) (error_fn h) (jump_error h) (rng h) (stdin h) v.
