(* ===== verification/Ctx.v ===== *)
(** * The interpreter context (src/fe.c: fe_Object, Value, struct fe_Context)

    Objects are cells of an array; a [fe_Object*] is nil, an immediate, a
    reference to a cell, the null pointer or the reader's static [rparen].
    The untyped unions [car] and [cdr] are a sum type, and reading one at the
    wrong member is [Stuck]. *)

From Stdlib Require Import ZArith Lia Ascii String.
From stdpp Require Import base list.
From S2P Require Import Prelude Number Memory Budget MapTable Slab Span Host.

Inductive fe_type :=
| FE_TPAIR | FE_TFREE | FE_TNIL | FE_TNUMBER | FE_TSYMBOL | FE_TSTRING | FE_TBYTES
| FE_TFUNC | FE_TMACRO | FE_TPRIM | FE_TCFUNC | FE_TPTR | FE_TMAP | FE_TBOOLEAN.
#[export] Instance fe_type_eq_dec : EqDecision fe_type.
Proof. solve_decision. Defined.

Inductive primop :=
| P_LET | P_SET | P_IF | P_FN | P_MAC | P_WHILE | P_RETURN | P_MODULE | P_EXPORT | P_IMPORT
| P_GET | P_PUT | P_QUOTE | P_AND | P_OR | P_DO | P_CONS | P_CAR | P_CDR | P_SETCAR | P_SETCDR
| P_LIST | P_NOT | P_IS | P_ATOM | P_PRINT | P_LT | P_LTE | P_GT | P_GTE | P_ADD | P_SUB
| P_MUL | P_DIV.
#[export] Instance primop_eq_dec : EqDecision primop.
Proof. solve_decision. Defined.

Inductive obj :=
| Nil
| Fix (n : Z)
| Boolean (b : bool)
| Ref (i : nat)
| NULL
| rparen.
#[export] Instance obj_eq_dec : EqDecision obj.
Proof. solve_decision. Defined.

Inductive Value :=
| VObj (o : obj)
| VNum (n : double)
| VPrim (p : primop)
| VCFunc (f : nat)
| VMap (m : option (@fe_Map obj obj))
| VSlab (off : Z)
| VPtr (p : Z)
| VAny.

Record cell := MkCell { ty : fe_type; gcmark : bool; car : Value; cdr : Value }.

Record Syms := MkSyms {
  t_sym : obj; return_sym : obj; frame_sym : obj; do_sym : obj; let_sym : obj;
  quote_sym : obj; fn_sym : obj; mac_sym : obj
}.

Record fe_Context := MkCtx {
  cells : list cell;     (* the object array *)
  freelist : obj;
  gcstack : list obj;     (* its length is gcstack_idx; the top is last *)
  modulestack : obj;
  symlist : obj;
  loaded_module_values : list obj;
  calllist : list obj;     (* the forms of the C stack cells, innermost first *)
  syms : Syms;
  str_arena : StrArena;
  rt : Rt;     (* memory accounting and budget *)
  spans : option FexSpanState;
  live_count : Z;
  allocs_since_gc : Z;
  gc_threshold : Z;
  byte_threshold : Z;
  gc_runs : Z;
  object_allocations_total : Z;
  objects : Z;     (* address of the object array *)
  nextchr : Z;
  current_eval_depth : Z;
  max_eval_depth : Z;
  current_read_depth : Z;
  max_read_depth : Z;
  out : chars;     (* what was written to stdout *)
  error_calls : list obj;     (* the call list fe_error gave to its handler *)
  host : Host
}.

Definition with_cells (v : list cell) (c : fe_Context) : fe_Context :=
  MkCtx v (freelist c) (gcstack c) (modulestack c) (symlist c) (loaded_module_values c)
    (calllist c) (syms c) (str_arena c) (rt c) (spans c) (live_count c) (allocs_since_gc c)
    (gc_threshold c) (byte_threshold c) (gc_runs c) (object_allocations_total c) (objects c)
    (nextchr c) (current_eval_depth c) (max_eval_depth c) (current_read_depth c) (max_read_depth
    c) (out c) (error_calls c) (host c).
Definition with_freelist (v : obj) (c : fe_Context) : fe_Context :=
  MkCtx (cells c) v (gcstack c) (modulestack c) (symlist c) (loaded_module_values c) (calllist
    c) (syms c) (str_arena c) (rt c) (spans c) (live_count c) (allocs_since_gc c) (gc_threshold
    c) (byte_threshold c) (gc_runs c) (object_allocations_total c) (objects c) (nextchr c)
    (current_eval_depth c) (max_eval_depth c) (current_read_depth c) (max_read_depth c) (out c) (error_calls c) (host c).
Definition with_gcstack (v : list obj) (c : fe_Context) : fe_Context :=
  MkCtx (cells c) (freelist c) v (modulestack c) (symlist c) (loaded_module_values c) (calllist
    c) (syms c) (str_arena c) (rt c) (spans c) (live_count c) (allocs_since_gc c) (gc_threshold
    c) (byte_threshold c) (gc_runs c) (object_allocations_total c) (objects c) (nextchr c)
    (current_eval_depth c) (max_eval_depth c) (current_read_depth c) (max_read_depth c) (out c) (error_calls c) (host c).
Definition with_modulestack (v : obj) (c : fe_Context) : fe_Context :=
  MkCtx (cells c) (freelist c) (gcstack c) v (symlist c) (loaded_module_values c) (calllist c)
    (syms c) (str_arena c) (rt c) (spans c) (live_count c) (allocs_since_gc c) (gc_threshold c)
    (byte_threshold c) (gc_runs c) (object_allocations_total c) (objects c) (nextchr c)
    (current_eval_depth c) (max_eval_depth c) (current_read_depth c) (max_read_depth c) (out c) (error_calls c) (host c).
Definition with_symlist (v : obj) (c : fe_Context) : fe_Context :=
  MkCtx (cells c) (freelist c) (gcstack c) (modulestack c) v (loaded_module_values c) (calllist
    c) (syms c) (str_arena c) (rt c) (spans c) (live_count c) (allocs_since_gc c) (gc_threshold
    c) (byte_threshold c) (gc_runs c) (object_allocations_total c) (objects c) (nextchr c)
    (current_eval_depth c) (max_eval_depth c) (current_read_depth c) (max_read_depth c) (out c) (error_calls c) (host c).
Definition with_loaded_module_values (v : list obj) (c : fe_Context) : fe_Context :=
  MkCtx (cells c) (freelist c) (gcstack c) (modulestack c) (symlist c) v (calllist c) (syms c)
    (str_arena c) (rt c) (spans c) (live_count c) (allocs_since_gc c) (gc_threshold c)
    (byte_threshold c) (gc_runs c) (object_allocations_total c) (objects c) (nextchr c)
    (current_eval_depth c) (max_eval_depth c) (current_read_depth c) (max_read_depth c) (out c) (error_calls c) (host c).
Definition with_calllist (v : list obj) (c : fe_Context) : fe_Context :=
  MkCtx (cells c) (freelist c) (gcstack c) (modulestack c) (symlist c) (loaded_module_values c)
    v (syms c) (str_arena c) (rt c) (spans c) (live_count c) (allocs_since_gc c) (gc_threshold
    c) (byte_threshold c) (gc_runs c) (object_allocations_total c) (objects c) (nextchr c)
    (current_eval_depth c) (max_eval_depth c) (current_read_depth c) (max_read_depth c) (out c) (error_calls c) (host c).
Definition with_syms (v : Syms) (c : fe_Context) : fe_Context :=
  MkCtx (cells c) (freelist c) (gcstack c) (modulestack c) (symlist c) (loaded_module_values c)
    (calllist c) v (str_arena c) (rt c) (spans c) (live_count c) (allocs_since_gc c)
    (gc_threshold c) (byte_threshold c) (gc_runs c) (object_allocations_total c) (objects c)
    (nextchr c) (current_eval_depth c) (max_eval_depth c) (current_read_depth c) (max_read_depth
    c) (out c) (error_calls c) (host c).
Definition with_str_arena (v : StrArena) (c : fe_Context) : fe_Context :=
  MkCtx (cells c) (freelist c) (gcstack c) (modulestack c) (symlist c) (loaded_module_values c)
    (calllist c) (syms c) v (rt c) (spans c) (live_count c) (allocs_since_gc c) (gc_threshold c)
    (byte_threshold c) (gc_runs c) (object_allocations_total c) (objects c) (nextchr c)
    (current_eval_depth c) (max_eval_depth c) (current_read_depth c) (max_read_depth c) (out c) (error_calls c) (host c).
Definition with_rt (v : Rt) (c : fe_Context) : fe_Context :=
  MkCtx (cells c) (freelist c) (gcstack c) (modulestack c) (symlist c) (loaded_module_values c)
    (calllist c) (syms c) (str_arena c) v (spans c) (live_count c) (allocs_since_gc c)
    (gc_threshold c) (byte_threshold c) (gc_runs c) (object_allocations_total c) (objects c)
    (nextchr c) (current_eval_depth c) (max_eval_depth c) (current_read_depth c) (max_read_depth
    c) (out c) (error_calls c) (host c).
Definition with_spans (v : option FexSpanState) (c : fe_Context) : fe_Context :=
  MkCtx (cells c) (freelist c) (gcstack c) (modulestack c) (symlist c) (loaded_module_values c)
    (calllist c) (syms c) (str_arena c) (rt c) v (live_count c) (allocs_since_gc c)
    (gc_threshold c) (byte_threshold c) (gc_runs c) (object_allocations_total c) (objects c)
    (nextchr c) (current_eval_depth c) (max_eval_depth c) (current_read_depth c) (max_read_depth
    c) (out c) (error_calls c) (host c).
Definition with_live_count (v : Z) (c : fe_Context) : fe_Context :=
  MkCtx (cells c) (freelist c) (gcstack c) (modulestack c) (symlist c) (loaded_module_values c)
    (calllist c) (syms c) (str_arena c) (rt c) (spans c) v (allocs_since_gc c) (gc_threshold c)
    (byte_threshold c) (gc_runs c) (object_allocations_total c) (objects c) (nextchr c)
    (current_eval_depth c) (max_eval_depth c) (current_read_depth c) (max_read_depth c) (out c) (error_calls c) (host c).
Definition with_allocs_since_gc (v : Z) (c : fe_Context) : fe_Context :=
  MkCtx (cells c) (freelist c) (gcstack c) (modulestack c) (symlist c) (loaded_module_values c)
    (calllist c) (syms c) (str_arena c) (rt c) (spans c) (live_count c) v (gc_threshold c)
    (byte_threshold c) (gc_runs c) (object_allocations_total c) (objects c) (nextchr c)
    (current_eval_depth c) (max_eval_depth c) (current_read_depth c) (max_read_depth c) (out c) (error_calls c) (host c).
Definition with_gc_threshold (v : Z) (c : fe_Context) : fe_Context :=
  MkCtx (cells c) (freelist c) (gcstack c) (modulestack c) (symlist c) (loaded_module_values c)
    (calllist c) (syms c) (str_arena c) (rt c) (spans c) (live_count c) (allocs_since_gc c) v
    (byte_threshold c) (gc_runs c) (object_allocations_total c) (objects c) (nextchr c)
    (current_eval_depth c) (max_eval_depth c) (current_read_depth c) (max_read_depth c) (out c) (error_calls c) (host c).
Definition with_byte_threshold (v : Z) (c : fe_Context) : fe_Context :=
  MkCtx (cells c) (freelist c) (gcstack c) (modulestack c) (symlist c) (loaded_module_values c)
    (calllist c) (syms c) (str_arena c) (rt c) (spans c) (live_count c) (allocs_since_gc c)
    (gc_threshold c) v (gc_runs c) (object_allocations_total c) (objects c) (nextchr c)
    (current_eval_depth c) (max_eval_depth c) (current_read_depth c) (max_read_depth c) (out c) (error_calls c) (host c).
Definition with_gc_runs (v : Z) (c : fe_Context) : fe_Context :=
  MkCtx (cells c) (freelist c) (gcstack c) (modulestack c) (symlist c) (loaded_module_values c)
    (calllist c) (syms c) (str_arena c) (rt c) (spans c) (live_count c) (allocs_since_gc c)
    (gc_threshold c) (byte_threshold c) v (object_allocations_total c) (objects c) (nextchr c)
    (current_eval_depth c) (max_eval_depth c) (current_read_depth c) (max_read_depth c) (out c) (error_calls c) (host c).
Definition with_object_allocations_total (v : Z) (c : fe_Context) : fe_Context :=
  MkCtx (cells c) (freelist c) (gcstack c) (modulestack c) (symlist c) (loaded_module_values c)
    (calllist c) (syms c) (str_arena c) (rt c) (spans c) (live_count c) (allocs_since_gc c)
    (gc_threshold c) (byte_threshold c) (gc_runs c) v (objects c) (nextchr c)
    (current_eval_depth c) (max_eval_depth c) (current_read_depth c) (max_read_depth c) (out c) (error_calls c) (host c).
Definition with_objects (v : Z) (c : fe_Context) : fe_Context :=
  MkCtx (cells c) (freelist c) (gcstack c) (modulestack c) (symlist c) (loaded_module_values c)
    (calllist c) (syms c) (str_arena c) (rt c) (spans c) (live_count c) (allocs_since_gc c)
    (gc_threshold c) (byte_threshold c) (gc_runs c) (object_allocations_total c) v (nextchr c)
    (current_eval_depth c) (max_eval_depth c) (current_read_depth c) (max_read_depth c) (out c) (error_calls c) (host c).
Definition with_nextchr (v : Z) (c : fe_Context) : fe_Context :=
  MkCtx (cells c) (freelist c) (gcstack c) (modulestack c) (symlist c) (loaded_module_values c)
    (calllist c) (syms c) (str_arena c) (rt c) (spans c) (live_count c) (allocs_since_gc c)
    (gc_threshold c) (byte_threshold c) (gc_runs c) (object_allocations_total c) (objects c) v
    (current_eval_depth c) (max_eval_depth c) (current_read_depth c) (max_read_depth c) (out c) (error_calls c) (host c).
Definition with_current_eval_depth (v : Z) (c : fe_Context) : fe_Context :=
  MkCtx (cells c) (freelist c) (gcstack c) (modulestack c) (symlist c) (loaded_module_values c)
    (calllist c) (syms c) (str_arena c) (rt c) (spans c) (live_count c) (allocs_since_gc c)
    (gc_threshold c) (byte_threshold c) (gc_runs c) (object_allocations_total c) (objects c)
    (nextchr c) v (max_eval_depth c) (current_read_depth c) (max_read_depth c) (out c) (error_calls c) (host c).
Definition with_max_eval_depth (v : Z) (c : fe_Context) : fe_Context :=
  MkCtx (cells c) (freelist c) (gcstack c) (modulestack c) (symlist c) (loaded_module_values c)
    (calllist c) (syms c) (str_arena c) (rt c) (spans c) (live_count c) (allocs_since_gc c)
    (gc_threshold c) (byte_threshold c) (gc_runs c) (object_allocations_total c) (objects c)
    (nextchr c) (current_eval_depth c) v (current_read_depth c) (max_read_depth c) (out c) (error_calls c) (host c).
Definition with_current_read_depth (v : Z) (c : fe_Context) : fe_Context :=
  MkCtx (cells c) (freelist c) (gcstack c) (modulestack c) (symlist c) (loaded_module_values c)
    (calllist c) (syms c) (str_arena c) (rt c) (spans c) (live_count c) (allocs_since_gc c)
    (gc_threshold c) (byte_threshold c) (gc_runs c) (object_allocations_total c) (objects c)
    (nextchr c) (current_eval_depth c) (max_eval_depth c) v (max_read_depth c) (out c) (error_calls c) (host c).
Definition with_max_read_depth (v : Z) (c : fe_Context) : fe_Context :=
  MkCtx (cells c) (freelist c) (gcstack c) (modulestack c) (symlist c) (loaded_module_values c)
    (calllist c) (syms c) (str_arena c) (rt c) (spans c) (live_count c) (allocs_since_gc c)
    (gc_threshold c) (byte_threshold c) (gc_runs c) (object_allocations_total c) (objects c)
    (nextchr c) (current_eval_depth c) (max_eval_depth c) (current_read_depth c) v (out c) (error_calls c) (host c).
Definition with_out (v : chars) (c : fe_Context) : fe_Context :=
  MkCtx (cells c) (freelist c) (gcstack c) (modulestack c) (symlist c) (loaded_module_values c)
    (calllist c) (syms c) (str_arena c) (rt c) (spans c) (live_count c) (allocs_since_gc c)
    (gc_threshold c) (byte_threshold c) (gc_runs c) (object_allocations_total c) (objects c)
    (nextchr c) (current_eval_depth c) (max_eval_depth c) (current_read_depth c) (max_read_depth
    c) v (error_calls c) (host c).
Definition with_error_calls (v : list obj) (c : fe_Context) : fe_Context :=
  MkCtx (cells c) (freelist c) (gcstack c) (modulestack c) (symlist c) (loaded_module_values c)
    (calllist c) (syms c) (str_arena c) (rt c) (spans c) (live_count c) (allocs_since_gc c)
    (gc_threshold c) (byte_threshold c) (gc_runs c) (object_allocations_total c) (objects c)
    (nextchr c) (current_eval_depth c) (max_eval_depth c) (current_read_depth c) (max_read_depth
    c) (out c) v (host c).
Definition with_host (v : Host) (c : fe_Context) : fe_Context :=
  MkCtx (cells c) (freelist c) (gcstack c) (modulestack c) (symlist c) (loaded_module_values c)
    (calllist c) (syms c) (str_arena c) (rt c) (spans c) (live_count c) (allocs_since_gc c)
    (gc_threshold c) (byte_threshold c) (gc_runs c) (object_allocations_total c) (objects c)
    (nextchr c) (current_eval_depth c) (max_eval_depth c) (current_read_depth c) (max_read_depth
    c) (out c) (error_calls c) v.

#[export] Program Instance HasArena_ctx : HasArena fe_Context :=
  {| arena := str_arena; set_arena := with_str_arena |}.
Next Obligation. done. Qed.
Next Obligation. done. Qed.
Next Obligation. by intros []. Qed.

(** ** Errors

    The resets of fe_error; the scratch allocations of the compiler it also
    releases are not part of this state. *)
Definition ctx_error_reset (c : fe_Context) : fe_Context :=
  let c := with_error_calls (calllist c) c in
  let c := with_calllist [] c in
  let c := with_current_eval_depth 0 c in
  let c := with_current_read_depth 0 c in
  with_rt (MkRt (rt_mem (rt c)) (error_reset (rt_bud (rt c)))) c.

Definition fe_error {A} (msg : string) : comp fe_Context A := fun c =>
  Raised msg (ctx_error_reset c).

(** The resets on the error exit of a computation. *)
Definition error_resets {A} (m : comp fe_Context A) : comp fe_Context A := fun c =>
  match m c with Raised e c => Raised e (ctx_error_reset c) | r => r end.

(** Running a computation of a component; an error it raises has gone
    through fe_error. *)
Definition lift_rt {A} (m : comp Rt A) : comp fe_Context A := fun c =>
  match m (rt c) with
  | Done a r => Done a (with_rt r c)
  | Raised e r => Raised e (ctx_error_reset (with_rt r c))
  | Stuck => Stuck
  | NoFuel => NoFuel
  end.
Definition lift_budget {A} (m : comp Budget A) : comp fe_Context A := lift_rt (lift_bud m).
Definition lift_memory {A} (m : comp Mem A) : comp fe_Context A := lift_rt (lift_mem m).
Definition lift_spans {A} (m : comp Spans A) : comp fe_Context A := fun c =>
  match m (MkSpans (rt_mem (rt c)) (spans c)) with
  | Done a s => Done a (with_spans (span_state s) (with_rt (MkRt (sp_mem s) (rt_bud (rt c))) c))
  | Raised e s =>
      Raised e (ctx_error_reset
                  (with_spans (span_state s) (with_rt (MkRt (sp_mem s) (rt_bud (rt c))) c)))
  | Stuck => Stuck
  | NoFuel => NoFuel
  end.

(** ** Access *)

Definition read_cell (i : nat) : comp fe_Context cell := fun c =>
  match cells c !! i with Some x => Done x c | None => Stuck end.
Definition write_cell (i : nat) (x : cell) : comp fe_Context unit := fun c =>
  match cells c !! i with
  | Some _ => Done tt (with_cells (<[i := x]> (cells c)) c)
  | None => Stuck
  end.

(** The [type] macro.  The static [rparen] has all-zero flags. *)
Definition type_of (o : obj) : comp fe_Context fe_type :=
  match o with
  | Fix _ => ret FE_TNUMBER
  | Boolean _ => ret FE_TBOOLEAN
  | Nil => ret FE_TNIL
  | rparen => ret FE_TPAIR
  | NULL => stuck
  | Ref i => let* x := read_cell i in ret (ty x)
  end.

Definition as_obj (v : Value) : comp fe_Context obj :=
  match v with VObj o => ret o | _ => stuck end.

(** The [car] and [cdr] macros; both fields of the static nil are null. *)
Definition car_of (o : obj) : comp fe_Context obj :=
  match o with
  | Ref i => let* x := read_cell i in as_obj (car x)
  | Nil | rparen => ret NULL
  | _ => stuck
  end.
Definition cdr_of (o : obj) : comp fe_Context obj :=
  match o with
  | Ref i => let* x := read_cell i in as_obj (cdr x)
  | Nil | rparen => ret NULL
  | _ => stuck
  end.

Definition settype (o : obj) (t : fe_type) : comp fe_Context unit :=
  match o with
  | Ref i => let* x := read_cell i in write_cell i (MkCell t false (car x) (cdr x))
  | _ => stuck
  end.
Definition setcar (o : obj) (v : Value) : comp fe_Context unit :=
  match o with
  | Ref i => let* x := read_cell i in write_cell i (MkCell (ty x) (gcmark x) v (cdr x))
  | _ => stuck
  end.
Definition setcdr (o : obj) (v : Value) : comp fe_Context unit :=
  match o with
  | Ref i => let* x := read_cell i in write_cell i (MkCell (ty x) (gcmark x) (car x) v)
  | _ => stuck
  end.

Definition isnil (o : obj) : bool := bool_decide (o = Nil).
Definition fe_truthy (o : obj) : bool := negb (bool_decide (o = Boolean false)) && negb (isnil o).

(** ** The root stack *)

Definition GCSTACKSIZE : nat := 1024.

Definition fe_pushgc (o : obj) : comp fe_Context unit :=
  match o with
  | Fix _ | Boolean _ | Nil => ret tt
  | _ =>
      let* c := get in
      if decide (length (gcstack c) = GCSTACKSIZE) then fe_error "gc stack overflow"
      else put (with_gcstack (gcstack c ++ [o]) c)
  end.

(** A saved index never exceeds the current one. *)
Definition fe_restoregc (idx : nat) : comp fe_Context unit := fun c =>
  if decide (idx <= length (gcstack c))%nat
  then Done tt (with_gcstack (take idx (gcstack c)) c) else Stuck.

Definition fe_savegc : comp fe_Context nat := gets (fun c => length (gcstack c)).
