(* ===== verification/Gc.v ===== *)
(** * The collector and the object constructors (src/fe.c)

    [fe_mark] keeps its 256-entry explicit stack and falls back to recursion
    when the stack is full.  The host's mark and gc handlers are not
    installed (no code of the program sets them). *)

From Stdlib Require Import ZArith Lia Ascii String.
From stdpp Require Import base list.
From S2P Require Import Prelude Number Memory Budget MapTable Slab Span Ctx.

(** ** Marking *)

Definition MARK_STACK_SIZE : nat := 256.

Definition set_gcmark (b : bool) (x : cell) : cell := MkCell (ty x) b (car x) (cdr x).

(** The key and value objects of the used slots, in slot order. *)
Definition slot_objs (s : @slot obj obj) : list obj :=
  match s with MAP_USED k v => [k; v] | _ => [] end.

(** The objects a cell refers to; the marker pushes all of them, the last
    one being followed directly for pairs, functions, macros and symbols. *)
Definition children (x : cell) : option (list obj) :=
  match ty x with
  | FE_TPAIR =>
      match car x, cdr x with VObj a, VObj d => Some [a; d] | _, _ => None end
  | FE_TFUNC | FE_TMACRO | FE_TSYMBOL =>
      match cdr x with VObj d => Some [d] | _ => None end
  | FE_TPTR =>
      match cdr x with VPtr 0 => Some [] | _ => None end
  | FE_TMAP =>
      match cdr x with
      | VMap (Some m) => Some (slots m ≫= slot_objs)
      | VMap None => Some []
      | _ => None
      end
  | _ => Some []
  end.

(** Pushing one child, or marking it at once when the stack is full. *)
Definition push_child (rec : obj -> comp (list cell) unit) (o : obj) (stack : list obj)
    : comp (list cell) (list obj) :=
  if decide (length stack < MARK_STACK_SIZE)%nat then ret (o :: stack)
  else rec o ;;; ret stack.

Fixpoint push_children (rec : obj -> comp (list cell) unit) (os : list obj) (stack : list obj)
    : comp (list cell) (list obj) :=
  match os with
  | [] => ret stack
  | o :: os =>
      let* stack := push_child rec o stack in
      push_children rec os stack
  end.

(** The loop of fe_mark with the current object [o] and the stack, top first. *)
Fixpoint mark_loop (fuel : nat) (stack : list obj) (o : obj) : comp (list cell) unit :=
  match fuel with
  | O => no_fuel
  | S f =>
      let pop stack :=
        match stack with
        | [] => ret tt
        | o :: stack => mark_loop f stack o
        end in
      match o with
      | Ref i => fun cs =>
          match cs !! i with
          | None => pop stack cs                         (* a rogue pointer *)
          | Some x =>
              if gcmark x then pop stack cs
              else
                let cs := <[i := set_gcmark true x]> cs in
                match ty x with
                | FE_TPAIR =>
                    match car x, cdr x with
                    | VObj a, VObj d =>
                        (let* stack := push_child (mark_loop f []) a stack in
                         mark_loop f stack d) cs
                    | _, _ => Stuck
                    end
                | FE_TFUNC | FE_TMACRO | FE_TSYMBOL =>
                    match cdr x with
                    | VObj d => mark_loop f stack d cs
                    | _ => Stuck
                    end
                | FE_TPTR =>
                    (* falls through to the map case *)
                    match cdr x with VPtr 0 => pop stack cs | _ => Stuck end
                | FE_TMAP =>
                    match cdr x with
                    | VMap None => pop stack cs
                    | VMap (Some m) =>
                        (let* stack := push_children (mark_loop f []) (slots m ≫= slot_objs) stack in
                         pop stack) cs
                    | _ => Stuck
                    end
                | _ => pop stack cs
                end
          end
      | _ => pop stack
      end
  end.

(** Enough rounds for the whole heap: one per unmarked cell and one per
    reference out of it. *)
Definition cell_weight (x : cell) : nat :=
  if gcmark x then 0 else S (length (default [] (children x))).
Definition weight (cs : list cell) : nat := sum_list (cell_weight <$> cs).

Definition fe_mark (o : obj) : comp (list cell) unit := fun cs =>
  mark_loop (S (weight cs)) [] o cs.

Fixpoint mark_each (os : list obj) : comp (list cell) unit :=
  match os with
  | [] => ret tt
  | o :: os => fe_mark o ;;; mark_each os
  end.

Definition lift_cells {A} (m : comp (list cell) A) : comp fe_Context A := fun c =>
  match m (cells c) with
  | Done a cs => Done a (with_cells cs c)
  | Raised e cs => Raised e (with_cells cs c)
  | Stuck => Stuck
  | NoFuel => NoFuel
  end.

(** [if (!FE_IS_FIXNUM(o) && o != &nil)] *)
Definition stack_root (o : obj) : bool :=
  match o with Fix _ | Nil => false | _ => true end.

(** ** Sweeping *)

Definition free_string (x : cell) : comp fe_Context unit :=
  match ty x with
  | FE_TSTRING | FE_TBYTES =>
      match cdr x with
      | VSlab off =>
          let* c := get in
          lift_arena (str_free_chain (length (slabs (str_arena c))) off)
      | _ => stuck
      end
  | _ => ret tt
  end.

Definition free_map (x : cell) : comp fe_Context unit :=
  match ty x with
  | FE_TMAP =>
      match cdr x with
      | VMap (Some m) =>
          lift_memory (free_blocks (drop 1 (map_blocks m) ++ take 1 (map_blocks m)))
      | VMap None => ret tt
      | _ => stuck
      end
  | _ => ret tt
  end.

(** The sweep of the [n] cells from index [i] on; the result is the number
    of live objects. *)
Fixpoint sweep (n : nat) (i : nat) (live : Z) : comp fe_Context Z :=
  match n with
  | O => ret live
  | S n =>
      let* x := read_cell i in
      if decide (ty x = FE_TFREE) then sweep n (S i) live
      else if gcmark x then
        write_cell i (set_gcmark false x) ;;;
        sweep n (S i) (live + 1)
      else
        free_string x ;;;
        free_map x ;;;
        settype (Ref i) FE_TFREE ;;;
        let* c := get in
        setcdr (Ref i) (VObj (freelist c)) ;;;
        modify (with_freelist (Ref i)) ;;;
        sweep n (S i) live
  end.

(** sizeof(fe_Object) *)
Definition SIZEOF_OBJECT : Z := 24.

Definition obj_addr (c : fe_Context) (o : obj) : Z :=
  match o with Ref i => objects c + SIZEOF_OBJECT * Z.of_nat i | _ => 0 end.

(** fe_ctx_object_is_live, on an address. *)
Definition fe_ctx_object_is_live (c : fe_Context) (p : Z) : bool :=
  let d := p - objects c in
  if (0 <=? d) && (d mod SIZEOF_OBJECT =? 0)
  then match cells c !! Z.to_nat (d / SIZEOF_OBJECT) with
       | Some x => negb (bool_decide (ty x = FE_TFREE))
       | None => false
       end
  else false.

Definition GC_GROWTH_FACTOR : Z := 2.
Definition GC_MIN_THRESHOLD : Z := 1024.

Definition collectgarbage : comp fe_Context unit :=
  let* c := get in
  lift_cells (mark_each (List.filter stack_root (gcstack c))) ;;;
  lift_cells (fe_mark (modulestack c)) ;;;
  lift_cells (fe_mark (symlist c)) ;;;
  lift_cells (mark_each (loaded_module_values c)) ;;;
  let* live := sweep (length (cells c)) 0 0 in
  let* c := get in
  lift_spans (fex_span_prune (fe_ctx_object_is_live c)) ;;;
  modify (fun c =>
    let c := with_live_count live c in
    let c := with_allocs_since_gc 0 c in
    let c := with_str_arena (MkArena (slabs (str_arena c)) (str_freelist (str_arena c)) 0) c in
    let th := i32 (live * GC_GROWTH_FACTOR) in
    let c := with_gc_threshold (if th <? GC_MIN_THRESHOLD then GC_MIN_THRESHOLD else th) c in
    with_gc_runs (u64 (gc_runs c + 1)) c).

(** ** Allocation *)

Definition object : comp fe_Context obj :=
  let* c := get in
  (if (gc_threshold c <=? allocs_since_gc c)
      || (byte_threshold c <=? bytes_since_gc (str_arena c)) || isnil (freelist c)
   then collectgarbage ;;;
        let* c := get in
        if isnil (freelist c) then fe_error "out of memory" else ret tt
   else ret tt) ;;;
  let* c := get in
  let o := freelist c in
  let* nxt := cdr_of o in
  modify (fun c => with_freelist nxt c) ;;;
  modify (fun c => with_allocs_since_gc (i32 (allocs_since_gc c + 1)) c) ;;;
  modify (fun c => with_object_allocations_total (u64 (object_allocations_total c + 1)) c) ;;;
  fe_pushgc o ;;;
  ret o.

Definition fe_cons (a d : obj) : comp fe_Context obj :=
  let* o := object in
  settype o FE_TPAIR ;;;
  setcar o (VObj a) ;;;
  setcdr o (VObj d) ;;;
  ret o.

Definition fe_number (n : double) : comp fe_Context obj :=
  let* o := object in
  settype o FE_TNUMBER ;;;
  setcdr o (VNum n) ;;;
  ret o.

(** [src] is the source buffer, or [len] copies of the fill character. *)
Definition make_data_obj (type_tag : fe_type) (src : chars) : comp fe_Context obj :=
  let* o := object in
  settype o type_tag ;;;
  setcar o (VObj (Fix (Z.of_nat (length src)))) ;;;
  let* off := error_resets (str_alloc collectgarbage src) in
  setcdr o (VSlab off) ;;;
  ret o.

Definition fe_string (s : chars) : comp fe_Context obj := make_data_obj FE_TSTRING s.
Definition fe_string_raw (len : nat) (fill_char : ascii) : comp fe_Context obj :=
  make_data_obj FE_TSTRING (replicate len fill_char).
Definition fe_bytes (s : chars) : comp fe_Context obj := make_data_obj FE_TBYTES s.
Definition fe_bytes_raw (len : nat) (fill_byte : ascii) : comp fe_Context obj :=
  make_data_obj FE_TBYTES (replicate len fill_byte).

Definition fe_cfunc (fn : nat) : comp fe_Context obj :=
  let* o := object in
  settype o FE_TCFUNC ;;;
  setcdr o (VCFunc fn) ;;;
  ret o.

Definition fe_ptr (p : Z) : comp fe_Context obj :=
  let* o := object in
  settype o FE_TPTR ;;;
  setcdr o (VPtr p) ;;;
  ret o.

Definition fe_map : comp fe_Context obj :=
  let* o := object in
  let* m := lift_memory (map_alloc 8) in
  match m with
  | None => lift_memory (memory_error "out of memory (map)")
  | Some m =>
      settype o FE_TMAP ;;;
      setcar o (VObj Nil) ;;;
      setcdr o (VMap (Some m)) ;;;
      ret o
  end.

(** [objs] backwards: the C loop counts down. *)
Fixpoint list_loop (rev_objs : list obj) (res : obj) : comp fe_Context obj :=
  match rev_objs with
  | [] => ret res
  | o :: rest => let* res := fe_cons o res in list_loop rest res
  end.
Definition fe_list (objs : list obj) : comp fe_Context obj := list_loop (rev objs) Nil.
