(* ===== verification/GcMark.v ===== *)
(** * Marking computes reachability

    [fe_mark] on a heap whose marked cells only point to marked cells marks,
    besides them, exactly the cells reachable from its argument, and the fuel
    given to it is always enough. *)

From Stdlib Require Import ZArith Lia Ascii String.
From stdpp Require Import base list sets.
From S2P Require Import Prelude Number Memory Budget MapTable Slab Span Ctx Gc.

Definition marked (cs : list cell) (i : nat) : Prop :=
  exists x, cs !! i = Some x /\ gcmark x = true.

(** Nothing is left to do for [o]: it is not a cell, or it is marked. *)
Definition settled (cs : list cell) (o : obj) : Prop :=
  match o with Ref i => cs !! i = None \/ marked cs i | _ => True end.

(** Every child of a marked cell is settled or still to be visited. *)
Definition closed (cs : list cell) (P : list obj) : Prop :=
  forall i x l o, cs !! i = Some x -> gcmark x = true -> children x = Some l -> o ∈ l ->
    settled cs o \/ o ∈ P.

(** Every cell's union fields hold the members its type says. *)
Definition typed (cs : list cell) : Prop :=
  forall i x, cs !! i = Some x -> is_Some (children x).

Inductive reach (cs : list cell) (P : list obj) : nat -> Prop :=
| reach_root i : Ref i ∈ P -> is_Some (cs !! i) -> reach cs P i
| reach_step j x l i : reach cs P j -> cs !! j = Some x -> children x = Some l ->
    Ref i ∈ l -> is_Some (cs !! i) -> reach cs P i.

(** [cs'] is [cs] with more marks. *)
Definition grows (cs cs' : list cell) : Prop :=
  forall i, match cs !! i, cs' !! i with
            | Some x, Some x' => set_gcmark false x = set_gcmark false x' /\
                (gcmark x = true -> gcmark x' = true)
            | None, None => True
            | _, _ => False
            end.

Lemma children_mark x x' :
  set_gcmark false x = set_gcmark false x' -> children x = children x'.
Proof. destruct x, x'. intros [=]. by subst. Qed.

Lemma grows_refl cs : grows cs cs.
Proof. intros i. by destruct (cs !! i). Qed.

Lemma grows_trans a b c : grows a b -> grows b c -> grows a c.
Proof.
  intros H1 H2 i. specialize (H1 i). specialize (H2 i).
  destruct (a !! i), (b !! i), (c !! i); try done.
  destruct H1 as [E1 M1], H2 as [E2 M2]. split; [congruence | auto].
Qed.

Lemma grows_lookup cs cs' i x :
  grows cs cs' -> cs !! i = Some x ->
  exists x', cs' !! i = Some x' /\ children x' = children x /\ (gcmark x = true -> gcmark x' = true).
Proof.
  intros H E. specialize (H i). rewrite E in H. destruct (cs' !! i) as [x' |]; [| done].
  destruct H as [Hs Hm]. exists x'. split; [done |]. split; [by apply children_mark | done].
Qed.

Lemma grows_lookup_back cs cs' i x' :
  grows cs cs' -> cs' !! i = Some x' ->
  exists x, cs !! i = Some x /\ children x = children x' /\ (gcmark x = true -> gcmark x' = true).
Proof.
  intros H E. specialize (H i). rewrite E in H. destruct (cs !! i) as [x |]; [| done].
  destruct H as [Hs Hm]. exists x. split; [done |]. split; [by apply children_mark | done].
Qed.

Lemma grows_is_Some cs cs' i : grows cs cs' -> is_Some (cs !! i) <-> is_Some (cs' !! i).
Proof.
  intros H. specialize (H i). destruct (cs !! i), (cs' !! i); try done.
Qed.

Lemma grows_marked cs cs' i : grows cs cs' -> marked cs i -> marked cs' i.
Proof. intros H (x & E & M). destruct (grows_lookup _ _ _ _ H E) as (x' & ? & _ & ?). exists x'. auto. Qed.

Lemma grows_settled cs cs' o : grows cs cs' -> settled cs o -> settled cs' o.
Proof.
  intros H. destruct o as [| | | i | |]; simpl; try done. intros [E | M].
  - left. apply eq_None_not_Some. rewrite <- (grows_is_Some _ _ _ H). by apply eq_None_not_Some.
  - right. by eapply grows_marked.
Qed.

Lemma grows_typed cs cs' : grows cs cs' -> typed cs -> typed cs'.
Proof.
  intros H Ht i x' E. destruct (grows_lookup_back _ _ _ _ H E) as (x & Ex & <- & _). by eapply Ht.
Qed.

Lemma grows_reach cs cs' P i : grows cs cs' -> reach cs' P i -> reach cs P i.
Proof.
  intros H. induction 1 as [i Hi Hs | j x' l i _ IH E Hl Hin Hs].
  - apply reach_root; [done | by apply (grows_is_Some _ _ _ H)].
  - destruct (grows_lookup_back _ _ _ _ H E) as (x & Ex & Ec & _).
    eapply reach_step; [done | done | by rewrite Ec | done | by apply (grows_is_Some _ _ _ H)].
Qed.

Lemma reach_mono cs P Q i : P ⊆ Q -> reach cs P i -> reach cs Q i.
Proof.
  intros Hs. induction 1 as [i Hi ? | j x l i _ IH ? ? ? ?].
  - apply reach_root; [by apply Hs | done].
  - by eapply reach_step.
Qed.

(** Reaching from something reachable. *)
Lemma reach_trans cs P Q i :
  (forall j, Ref j ∈ Q -> is_Some (cs !! j) -> reach cs P j) -> reach cs Q i -> reach cs P i.
Proof.
  intros HQ. induction 1 as [i Hi ? | j x l i _ IH ? ? ? ?]; [by apply HQ |]. by eapply reach_step.
Qed.

Lemma closed_weaken cs P Q :
  (forall o, o ∈ P -> settled cs o \/ o ∈ Q) -> closed cs P -> closed cs Q.
Proof.
  intros HPQ H i x l o E M Hl Ho. destruct (H i x l o E M Hl Ho) as [? | Hin]; [by left |].
  by apply HPQ.
Qed.

(** ** Weights *)

Lemma weight_insert cs i x x' :
  cs !! i = Some x -> (weight (<[i := x']> cs) + cell_weight x = weight cs + cell_weight x')%nat.
Proof.
  intros E. unfold weight.
  rewrite insert_take_drop by (by eapply lookup_lt_Some).
  rewrite <- (take_drop_middle cs i x E) at 3.
  rewrite !fmap_app, !fmap_cons, !sum_list_with_app. simpl. lia.
Qed.

Lemma grows_weight cs cs' : grows cs cs' -> (weight cs' <= weight cs)%nat.
Proof.
  unfold weight. revert cs'. induction cs as [| x cs IH]; intros [| x' cs'] H.
  - done.
  - by specialize (H 0%nat).
  - by specialize (H 0%nat).
  - change (cell_weight x' + sum_list (cell_weight <$> cs')
            <= cell_weight x + sum_list (cell_weight <$> cs))%nat.
    pose proof (H 0%nat) as [Hs Hm]. pose proof (IH cs' (fun i => H (S i))).
    assert (cell_weight x' <= cell_weight x)%nat; [| lia].
    unfold cell_weight. rewrite (children_mark _ _ Hs).
    destruct (gcmark x); [rewrite Hm by done; done |]. destruct (gcmark x'); lia.
Qed.

(** ** One cell *)

Lemma mark_cell_grows cs i x : cs !! i = Some x -> grows cs (<[i := set_gcmark true x]> cs).
Proof.
  intros E j. destruct (decide (j = i)) as [-> | Hne].
  - rewrite E, list_lookup_insert_eq by (by eapply lookup_lt_Some). done.
  - rewrite list_lookup_insert_ne by done. by destruct (cs !! j).
Qed.

Lemma mark_cell_marked cs i x j :
  cs !! i = Some x -> marked (<[i := set_gcmark true x]> cs) j <-> j = i \/ marked cs j.
Proof.
  intros E. unfold marked. destruct (decide (j = i)) as [-> | Hne].
  - rewrite list_lookup_insert_eq by (by eapply lookup_lt_Some). split; [by left |]. intros _.
    by eexists.
  - rewrite list_lookup_insert_ne by done. naive_solver.
Qed.

(** Marking a cell moves its children to the pending objects. *)
Lemma mark_cell_closed cs i x l P :
  cs !! i = Some x -> children x = Some l -> closed cs (Ref i :: P) ->
  closed (<[i := set_gcmark true x]> cs) (l ++ P).
Proof.
  intros E Hl Hc j y k o Ej Mj Hk Ho. pose proof (mark_cell_grows cs i x E) as Hg.
  assert (settled (<[i := set_gcmark true x]> cs) (Ref i)) as Hi
    by (right; apply (mark_cell_marked cs i x i E); by left).
  destruct (decide (j = i)) as [-> | Hne].
  - rewrite list_lookup_insert_eq in Ej by (by eapply lookup_lt_Some). injection Ej as <-.
    rewrite (children_mark _ x) in Hk by done. simplify_eq. right. apply elem_of_app. by left.
  - rewrite list_lookup_insert_ne in Ej by done.
    destruct (Hc j y k o Ej Mj Hk Ho) as [Hs | [-> | Hin]%elem_of_cons].
    + left. by eapply grows_settled.
    + by left.
    + right. apply elem_of_app. by right.
Qed.

Lemma mark_cell_weight cs i x l :
  cs !! i = Some x -> gcmark x = false -> children x = Some l ->
  (weight (<[i := set_gcmark true x]> cs) + S (length l) = weight cs)%nat.
Proof.
  intros E M Hl. pose proof (weight_insert cs i x (set_gcmark true x) E) as H.
  unfold cell_weight in H. rewrite M, Hl in H. simpl in H. lia.
Qed.

(** ** The loop *)

(** What a run of the marker from the objects [os], with [P] pending
    elsewhere, achieves. *)
Definition mark_post (os P : list obj) (cs cs' : list cell) : Prop :=
  grows cs cs' /\ closed cs' P /\ (forall o, o ∈ os -> settled cs' o) /\
  (forall i, marked cs' i -> marked cs i \/ reach cs os i).

Definition marks (f : nat) (rec : obj -> comp (list cell) unit) : Prop :=
  forall o P cs, typed cs -> (weight cs < f)%nat -> closed cs (o :: P) ->
    exists cs', rec o cs = Done tt cs' /\ mark_post [o] P cs cs'.

Lemma push_child_spec f rec o stack P cs :
  marks f rec -> typed cs -> (weight cs < f)%nat -> closed cs (o :: stack ++ P) ->
  exists stack' cs', push_child rec o stack cs = Done stack' cs' /\ grows cs cs' /\
    closed cs' (stack' ++ P) /\ (length stack' <= S (length stack))%nat /\
    (forall x, x ∈ o :: stack -> x ∈ stack' \/ settled cs' x) /\
    (forall x, x ∈ stack' -> x ∈ o :: stack) /\
    (forall i, marked cs' i -> marked cs i \/ reach cs [o] i).
Proof.
  intros Hrec Ht Hw Hc. unfold push_child. case_decide.
  - exists (o :: stack), cs. split; [done |]. split; [apply grows_refl |]. split; [done |].
    split; [done |]. naive_solver.
  - destruct (Hrec o (stack ++ P) cs Ht Hw Hc) as (cs' & E & Hg & Hc' & Hs & Hr).
    unfold bind. rewrite E. exists stack, cs'. split; [done |]. split; [done |]. split; [done |].
    split; [lia |]. split; [| split; [| done]].
    + intros x [-> | Hx]%elem_of_cons; [right; apply Hs; by left | by left].
    + intros x Hx. by right.
Qed.

Lemma push_children_spec f rec os stack P cs :
  marks f rec -> typed cs -> (weight cs < f)%nat -> closed cs (os ++ stack ++ P) ->
  exists stack' cs', push_children rec os stack cs = Done stack' cs' /\ grows cs cs' /\
    closed cs' (stack' ++ P) /\ (length stack' <= length os + length stack)%nat /\
    (forall x, x ∈ os ++ stack -> x ∈ stack' \/ settled cs' x) /\
    (forall x, x ∈ stack' -> x ∈ os ++ stack) /\
    (forall i, marked cs' i -> marked cs i \/ reach cs os i).
Proof.
  intros Hrec. revert stack cs. induction os as [| o os IH]; intros stack cs Ht Hw Hc.
  { exists stack, cs. split; [done |]. split; [apply grows_refl |]. split; [done |].
    split; [done |]. naive_solver. }
  cbn [push_children]. unfold bind.
  destruct (push_child_spec f rec o stack (os ++ P) cs Hrec Ht Hw)
    as (st1 & cs1 & E1 & Hg1 & Hc1 & Hl1 & Hin1 & Hsub1 & Hr1).
  { eapply closed_weaken; [| exact Hc]. intros x Hx. right. set_solver. }
  rewrite E1. pose proof (grows_weight _ _ Hg1) as Hgw.
  destruct (IH st1 cs1) as (st2 & cs2 & E2 & Hg2 & Hc2 & Hl2 & Hin2 & Hsub2 & Hr2).
  { by eapply grows_typed. }
  { lia. }
  { eapply closed_weaken; [| exact Hc1]. intros x Hx. right. set_solver. }
  exists st2, cs2. split; [done |]. split; [by eapply grows_trans |]. split; [done |].
  split; [simpl; lia |]. split; [| split].
  - intros x Hx. cbn [app] in Hx. apply elem_of_cons in Hx as [-> | [Hx | Hx]%elem_of_app].
    + destruct (Hin1 o ltac:(by left)) as [H | H]; [apply Hin2; set_solver |].
      right. by eapply grows_settled.
    + apply Hin2. set_solver.
    + destruct (Hin1 x ltac:(by right)) as [H | H]; [apply Hin2; set_solver |].
      right. by eapply grows_settled.
  - intros x [Hx | Hx]%Hsub2%elem_of_app; [set_solver |]. apply Hsub1 in Hx. set_solver.
  - intros i [H | H]%Hr2.
    + apply Hr1 in H as [H | H]; [by left | right]. eapply reach_mono; [| exact H]. set_solver.
    + right. eapply reach_mono; [| by eapply grows_reach]. set_solver.
Qed.

(** Continuing with the stack when the current object needs nothing more. *)
Lemma pop_spec f stack P cs :
  (forall stack o P cs, typed cs -> (weight cs + length stack < f)%nat ->
     closed cs (o :: stack ++ P) ->
     exists cs', mark_loop f stack o cs = Done tt cs' /\ mark_post (o :: stack) P cs cs') ->
  typed cs -> (weight cs + length stack < S f)%nat -> closed cs (stack ++ P) ->
  exists cs', (match stack with [] => ret tt | o :: st => mark_loop f st o end) cs = Done tt cs' /\
    mark_post stack P cs cs'.
Proof.
  intros IH Ht Hw Hc. destruct stack as [| o1 st].
  - exists cs. split; [done |]. split; [apply grows_refl |]. split; [done |]. split; [| by left].
    by intros x Hx%not_elem_of_nil.
  - apply (IH st o1 P cs Ht); [simpl in Hw; lia | done].
Qed.

Lemma mark_post_settled o stack P cs cs' :
  settled cs o -> mark_post stack P cs cs' -> mark_post (o :: stack) P cs cs'.
Proof.
  intros Ho (Hg & Hc & Hs & Hr). split; [done |]. split; [done |]. split.
  - intros x [-> | Hx]%elem_of_cons; [by eapply grows_settled | by apply Hs].
  - intros i [H | H]%Hr; [by left | right]. eapply reach_mono; [| exact H]. set_solver.
Qed.

(** Composition: [cs] is marked at [i] giving [cs1], whose run from [os1]
    gives [cs']. *)
Lemma mark_post_cell cs i x l stack os1 P cs1 cs2 cs' :
  cs !! i = Some x -> children x = Some l -> cs1 = <[i := set_gcmark true x]> cs ->
  grows cs1 cs2 -> mark_post os1 P cs2 cs' ->
  (forall j, marked cs2 j -> marked cs1 j \/ reach cs1 l j) ->
  (forall o, o ∈ os1 -> o ∈ l ++ stack) ->
  (forall o, o ∈ stack -> o ∈ os1 \/ settled cs2 o) ->
  mark_post (Ref i :: stack) P cs cs'.
Proof.
  intros E Hl -> Hg12 (Hg & Hc & Hs & Hr) Hr2 Hsub Hst.
  pose proof (mark_cell_grows cs i x E) as Hg1.
  assert (grows cs cs2) as Hg02 by (by eapply grows_trans).
  split; [by eapply grows_trans |]. split; [done |]. split.
  - intros o [-> | Ho]%elem_of_cons.
    + right. apply (grows_marked cs2); [done |]. eapply grows_marked; [exact Hg12 |].
      apply (mark_cell_marked _ _ _ _ E). by left.
    + destruct (Hst o Ho); [by apply Hs | by eapply grows_settled].
  - assert (forall j, reach cs l j -> reach cs (Ref i :: stack) j) as Hfrom.
    { intros j Hj. eapply reach_trans; [| exact Hj]. intros k Hk Hks.
      eapply (reach_step _ _ i); [| done | done | done | done]. apply reach_root; [by left | by eexists]. }
    intros j [H | H]%Hr.
    + apply Hr2 in H as [H | H].
      * apply (mark_cell_marked _ _ _ _ E) in H as [-> | H]; [right | by left].
        apply reach_root; [by left | by eexists].
      * right. apply Hfrom. eapply grows_reach; [exact Hg1 | exact H].
    + right. eapply (grows_reach cs cs2) in H; [| done].
      eapply reach_trans; [| exact H]. intros k Hk Hks. apply Hsub, elem_of_app in Hk as [Hk | Hk].
      * apply Hfrom. by apply reach_root.
      * apply reach_root; [by right | done].
Qed.

Lemma mark_loop_spec fuel stack o P cs :
  typed cs -> (weight cs + length stack < fuel)%nat -> closed cs (o :: stack ++ P) ->
  exists cs', mark_loop fuel stack o cs = Done tt cs' /\ mark_post (o :: stack) P cs cs'.
Proof.
  revert stack o P cs. induction fuel as [| f IH]; intros stack o P cs Ht Hw Hc; [lia |].
  assert (forall o, settled cs o -> closed cs (o :: stack ++ P) ->
    exists cs', (match stack with [] => ret tt | o :: st => mark_loop f st o end) cs = Done tt cs' /\
      mark_post (o :: stack) P cs cs') as Hpop.
  { intros o' Ho Hc'. destruct (pop_spec f stack P cs IH Ht Hw) as (cs' & E & Hp).
    - eapply closed_weaken; [| exact Hc']. intros y [-> | Hy]%elem_of_cons; [by left | by right].
    - exists cs'. split; [done | by apply mark_post_settled]. }
  cbn [mark_loop]. destruct o as [| n | b | i | |]; try by apply Hpop.
  destruct (cs !! i) as [x |] eqn:E; [| apply Hpop; [by left | done]].
  destruct (gcmark x) eqn:M; [apply Hpop; [by right; exists x | done] |].
  destruct (Ht i x E) as [l Hl]. set (cs1 := <[i := set_gcmark true x]> cs).
  pose proof (mark_cell_grows cs i x E) as Hg1. fold cs1 in Hg1.
  pose proof (mark_cell_weight cs i x l E M Hl) as Hw1. fold cs1 in Hw1.
  pose proof (mark_cell_closed cs i x l (stack ++ P) E Hl Hc) as Hc1. fold cs1 in Hc1.
  pose proof (grows_typed _ _ Hg1 Ht) as Ht1.
  assert (forall os1 cs2 cs', grows cs1 cs2 -> mark_post os1 P cs2 cs' ->
    (forall j, marked cs2 j -> marked cs1 j \/ reach cs1 l j) ->
    (forall o, o ∈ os1 -> o ∈ l ++ stack) -> (forall o, o ∈ stack -> o ∈ os1 \/ settled cs2 o) ->
    mark_post (Ref i :: stack) P cs cs') as Hpost
    by (intros; by eapply (mark_post_cell cs i x l stack os1 P cs1 cs2)).
  assert (marks f (mark_loop f [])) as Hrec.
  { intros o' P' cs2 Ht2 Hw2 Hc2. apply (IH [] o' P' cs2 Ht2); [simpl; lia | done]. }
  (* after the children were pushed on the stack [st2] *)
  assert (forall st2 cs2, grows cs1 cs2 -> closed cs2 (st2 ++ P) ->
    (length st2 <= length l + length stack)%nat ->
    (forall x, x ∈ l ++ stack -> x ∈ st2 \/ settled cs2 x) ->
    (forall x, x ∈ st2 -> x ∈ l ++ stack) ->
    (forall j, marked cs2 j -> marked cs1 j \/ reach cs1 l j) ->
    exists cs', (match st2 with [] => ret tt | o :: st => mark_loop f st o end) cs2 = Done tt cs' /\
      mark_post (Ref i :: stack) P cs cs') as Hcont.
  { intros st2 cs2 Hg2 Hc2 Hlen Hin Hsub Hr2.
    destruct (pop_spec f st2 P cs2 IH (grows_typed _ _ Hg2 Ht1)) as (cs' & E' & Hp'); [| done |].
    - pose proof (grows_weight _ _ Hg2). lia.
    - exists cs'. split; [done |]. apply (Hpost st2 cs2); try done.
      intros y Hy. apply Hin, elem_of_app. by right. }
  assert (l = [] -> exists cs', (match stack with [] => ret tt | o :: st => mark_loop f st o end) cs1
    = Done tt cs' /\ mark_post (Ref i :: stack) P cs cs') as Hleaf.
  { intros ->. apply (Hcont stack cs1 (grows_refl _)); naive_solver. }
  assert (forall d, l = [d] -> exists cs', mark_loop f stack d cs1 = Done tt cs' /\
    mark_post (Ref i :: stack) P cs cs') as Hsingle.
  { intros d ->. apply (Hcont (d :: stack) cs1 (grows_refl _)); naive_solver. }
  unfold children in Hl.
  destruct (ty x) eqn:Ety; simplify_eq; try by apply Hleaf.
  - destruct (car x) as [a | | | | | | |], (cdr x) as [d | | | | | | |]; simplify_eq.
    destruct (push_child_spec f (mark_loop f []) a stack (d :: P) cs1 Hrec Ht1)
      as (st2 & cs2 & E2 & Hg2 & Hc2 & Hlen & Hin & Hsub & Hr2); [simpl in Hw1; lia | |].
    { eapply closed_weaken; [| exact Hc1]. intros y Hy. right. set_solver. }
    unfold bind. rewrite E2. apply (Hcont (d :: st2) cs2 Hg2).
    + eapply closed_weaken; [| exact Hc2]. intros y Hy. right. set_solver.
    + simpl. lia.
    + intros y Hy. destruct (decide (y = d)) as [-> | Hyd]; [left; by left |].
      destruct (Hin y) as [H | H]; [set_solver | left; by right | by right].
    + intros y [-> | Hy]%elem_of_cons; [set_solver |]. apply Hsub in Hy. set_solver.
    + intros j [H | H]%Hr2; [by left | right]. eapply reach_mono; [| exact H]. set_solver.
  - destruct (cdr x); simplify_eq. by apply Hsingle.
  - destruct (cdr x); simplify_eq. by apply Hsingle.
  - destruct (cdr x); simplify_eq. by apply Hsingle.
  - destruct (cdr x) as [| | | | | | [| p | p] |]; simplify_eq. by apply Hleaf.
  - destruct (cdr x) as [| | | | [m |] | | |]; simplify_eq; [| by apply Hleaf].
    destruct (push_children_spec f (mark_loop f []) (slots m ≫= slot_objs) stack P cs1 Hrec Ht1)
      as (st2 & cs2 & E2 & Hg2 & Hc2 & Hlen & Hin & Hsub & Hr2); [lia | done |].
    unfold bind. rewrite E2. by apply (Hcont st2 cs2).
Qed.

(** ** Roots *)

Lemma fe_mark_spec o cs :
  typed cs -> closed cs [] -> exists cs', fe_mark o cs = Done tt cs' /\ mark_post [o] [] cs cs'.
Proof.
  intros Ht Hc. apply mark_loop_spec; [done | simpl; lia |].
  eapply closed_weaken; [| exact Hc]. by intros ? ?%not_elem_of_nil.
Qed.

Lemma mark_post_app os1 os2 cs cs1 cs2 :
  mark_post os1 [] cs cs1 -> mark_post os2 [] cs1 cs2 -> mark_post (os1 ++ os2) [] cs cs2.
Proof.
  intros (Hg1 & _ & Hs1 & Hr1) (Hg2 & Hc2 & Hs2 & Hr2).
  split; [by eapply grows_trans |]. split; [done |]. split.
  - intros o [Ho | Ho]%elem_of_app; [eapply grows_settled; [exact Hg2 | by apply Hs1] | by apply Hs2].
  - intros i [[H | H]%Hr1 | H]%Hr2; [by left | right | right].
    + eapply reach_mono; [| exact H]. set_solver.
    + eapply reach_mono; [| eapply grows_reach; [exact Hg1 | exact H]]. set_solver.
Qed.

Lemma mark_each_spec os cs :
  typed cs -> closed cs [] -> exists cs', mark_each os cs = Done tt cs' /\ mark_post os [] cs cs'.
Proof.
  revert cs. induction os as [| o os IH]; intros cs Ht Hc; cbn [mark_each].
  { exists cs. split; [done |]. split; [apply grows_refl |]. split; [done |].
    split; [by intros ? ?%not_elem_of_nil | by left]. }
  destruct (fe_mark_spec o cs Ht Hc) as (cs1 & E1 & Hp1). unfold bind. rewrite E1.
  destruct Hp1 as (Hg1 & Hc1 & Hrest).
  destruct (IH cs1 (grows_typed _ _ Hg1 Ht) Hc1) as (cs2 & E2 & Hp2).
  exists cs2. split; [done |]. by apply (mark_post_app [o] os cs cs1 cs2).
Qed.

(** Exactly the reachable cells are marked. *)
Lemma mark_post_exact os cs cs' i :
  mark_post os [] cs cs' -> marked cs' i <-> marked cs i \/ reach cs os i.
Proof.
  intros (Hg & Hc & Hs & Hr). split; [apply Hr |]. intros [H | H]; [by eapply grows_marked |].
  induction H as [i Hi Hsome | j x l i _ IH E Hl Hin Hsome].
  - destruct (Hs _ Hi) as [E | M]; [| done]. apply (grows_is_Some _ _ _ Hg) in Hsome.
    rewrite E in Hsome. by destruct Hsome.
  - destruct IH as (y & Ey & My). destruct (grows_lookup _ _ _ _ Hg E) as (y' & Ey' & Ec & _).
    simplify_eq. destruct (Hc j y l (Ref i) Ey My ltac:(by rewrite Ec) Hin) as [[E' | M] | H];
      [| done | by apply not_elem_of_nil in H].
    apply (grows_is_Some _ _ _ Hg) in Hsome. rewrite E' in Hsome. by destruct Hsome.
Qed.
