(* ===== verification/GcSweep.v ===== *)
(** * Sweeping releases exactly the unmarked objects *)

From Stdlib Require Import ZArith Lia Ascii String.
From stdpp Require Import base list sets gmap.
From S2P Require Import Prelude Number Memory Budget MapTable Slab SlabSpec Span Ctx Gc GcMark.

(** ** What an object owns *)

Definition is_data (t : fe_type) : bool :=
  match t with FE_TSTRING | FE_TBYTES => true | _ => false end.

Definition cell_blocks (x : cell) : list block :=
  match ty x, cdr x with
  | FE_TMAP, VMap (Some m) => omap id (map_blocks m)
  | _, _ => []
  end.
Definition blocks_at (cs : list cell) (i : nat) : list block :=
  match cs !! i with Some x => cell_blocks x | None => [] end.

(** The four blocks of a map are all present. *)
Definition map_cell_ok (x : cell) : Prop :=
  forall m, ty x = FE_TMAP -> cdr x = VMap (Some m) ->
    map_blocks m = Some <$> cell_blocks x.

(** A string or byte object holds a string in the slabs [os]. *)
Definition data_cell_ok (A : StrArena) (os : list Z) (x : cell) : Prop :=
  is_data (ty x) = true ->
  exists off s, cdr x = VSlab off /\ car x = VObj (Fix (Z.of_nat (length s))) /\ holds A off os s.

(** The free list. *)
Inductive fchain (cs : list cell) : obj -> list nat -> Prop :=
| fchain_nil : fchain cs Nil []
| fchain_cons i x o fl : cs !! i = Some x -> ty x = FE_TFREE -> cdr x = VObj o ->
    fchain cs o fl -> fchain cs (Ref i) (i :: fl).

Lemma fchain_frame cs cs' o fl :
  (forall i, i ∈ fl -> cs' !! i = cs !! i) -> fchain cs o fl -> fchain cs' o fl.
Proof.
  intros Hs H. induction H as [| i x o fl E Ht Hd _ IH]; [constructor |].
  econstructor; [rewrite Hs by (by left); done | done | done |]. apply IH. intros j Hj. apply Hs. by right.
Qed.

Lemma fchain_free cs o fl i : fchain cs o fl -> i ∈ fl -> exists x, cs !! i = Some x /\ ty x = FE_TFREE.
Proof.
  induction 1 as [| j x o fl E Ht _ _ IH]; [by intros ?%not_elem_of_nil |].
  intros [-> | ?]%elem_of_cons; eauto.
Qed.

(** ** The fate of a cell *)

Definition dies (cs : list cell) (i : nat) : bool :=
  match cs !! i with
  | Some x => negb (bool_decide (ty x = FE_TFREE)) && negb (gcmark x)
  | None => false
  end.
Definition lives (cs : list cell) (i : nat) : bool :=
  match cs !! i with
  | Some x => negb (bool_decide (ty x = FE_TFREE)) && gcmark x
  | None => false
  end.

Definition spared (cs : list cell) (l : list nat) : list nat := filter (fun j => dies cs j = false) l.
Definition reclaimed (cs : list cell) (l : list nat) : list nat := filter (fun j => dies cs j = true) l.

(** What the sweep leaves of a cell. *)
Definition swept (cs : list cell) (i : nat) (r : option cell) : Prop :=
  match cs !! i with
  | None => r = None
  | Some x =>
      if dies cs i then exists o, r = Some (MkCell FE_TFREE false (car x) (VObj o))
      else if lives cs i then r = Some (set_gcmark false x)
      else r = Some x
  end.

(** The parts of the context the sweep changes. *)
Definition upd (cs : list cell) (f : obj) (A : StrArena) (m : Mem) (c : fe_Context) : fe_Context :=
  with_cells cs (with_freelist f (with_str_arena A (with_rt (MkRt m (rt_bud (rt c))) c))).

(** ** Releasing what a dead object owns *)

Lemma free_blocks_some bs m : free_blocks (Some <$> bs) m = tracked_free_all bs m.
Proof.
  revert m. induction bs as [| b bs IH]; intros m; [done |].
  cbn [fmap list_fmap free_blocks tracked_free_all]. unfold bind.
  destruct (tracked_free (Some b) m); [| done..]. apply IH.
Qed.

Lemma NoDup_bounded (l : list nat) n : NoDup l -> (forall x, x ∈ l -> (x < n)%nat) -> (length l <= n)%nat.
Proof.
  intros Hnd Hlt. rewrite <- (length_seq n 0). apply submseteq_length, NoDup_submseteq; [done |].
  intros x Hx. apply elem_of_seq. specialize (Hlt x Hx). lia.
Qed.

(** A chain is never longer than the arena. *)
Lemma chain_bound A fl kept os : own A fl kept -> os ⊆ kept -> NoDup os -> (length os <= length (slabs A))%nat.
Proof.
  intros (_ & _ & _ & Hk) Hsub Hnd.
  rewrite <- (length_fmap (fun o => Z.to_nat (o / FE_SLAB_SIZE))).
  assert (forall o, o ∈ os -> exists sl, slab_at A o = Some sl) as Hs
    by (intros o Ho; destruct (Hk o (Hsub o Ho)) as [sl ?]; eauto).
  apply NoDup_bounded.
  - apply NoDup_fmap_2_strong; [| done]. intros o1 o2 H1 H2 E.
    destruct (Hs o1 H1) as [s1 E1], (Hs o2 H2) as [s2 E2].
    apply slab_at_valid in E1 as [? ?], E2 as [? ?]. unfold FE_SLAB_SIZE in *.
    pose proof (Z.div_mod o1 64 ltac:(done)). pose proof (Z.div_mod o2 64 ltac:(done)).
    apply Z2Nat.inj in E; [lia | apply Z.div_pos; lia..].
  - intros x (o & -> & Ho)%list_elem_of_fmap. destruct (Hs o Ho) as [sl E].
    unfold slab_at in E. case_decide; [| done]. by eapply lookup_lt_Some.
Qed.

Lemma free_string_spec x os c sfl kept :
  own (str_arena c) sfl (os ++ kept) -> data_cell_ok (str_arena c) os x ->
  (is_data (ty x) = false -> os = []) ->
  exists A' sfl', free_string x c = Done tt (with_str_arena A' c) /\
    own A' sfl' kept /\ same_on (str_arena c) A' kept.
Proof.
  intros Hown Hd Hn. unfold free_string.
  assert (is_data (ty x) = false -> exists A' sfl', Done tt c = Done tt (with_str_arena A' c) /\
    own A' sfl' kept /\ same_on (str_arena c) A' kept) as Hno.
  { intros Hf. rewrite (Hn Hf) in Hown. exists (str_arena c), sfl. split; [by destruct c | done]. }
  assert (is_data (ty x) = true -> exists A' sfl',
    match cdr x with
    | VSlab off => let* c := get in lift_arena (str_free_chain (length (slabs (str_arena c))) off)
    | _ => stuck
    end c = Done tt (with_str_arena A' c) /\ own A' sfl' kept /\ same_on (str_arena c) A' kept) as Hyes.
  { intros Ht. destruct (Hd Ht) as (off & s & -> & _ & Hh). unfold bind, get, lift_arena.
    assert (NoDup os) as Hos by (by destruct Hown as (_ & _ & (_ & _ & (? & _ & _)%NoDup_app)%NoDup_app & _)).
    destruct (free_chain_spec (str_arena c) off os s sfl kept (length (slabs (str_arena c))))
      as (A' & E & Ho' & Hs'); [done | done | |].
    { eapply chain_bound; [exact Hown | | done]. set_solver. }
    cbn [arena HasArena_ctx]. rewrite E. by exists A', (rev os ++ sfl). }
  destruct (ty x); solve [by apply Hno | by apply Hyes].
Qed.

Lemma free_map_spec x c keptb :
  mem_ok (rt_mem (rt c)) -> owned (rt_mem (rt c)) (cell_blocks x ++ keptb) -> map_cell_ok x ->
  (ty x = FE_TMAP -> exists o, cdr x = VMap o) ->
  exists m', free_map x c = Done tt (with_rt (MkRt m' (rt_bud (rt c))) c) /\ mem_ok m' /\
    blocks m' = without (cell_blocks x) (blocks (rt_mem (rt c))).
Proof.
  intros Hm Ho Hmap Hty. unfold free_map.
  assert (cell_blocks x = [] -> exists m', Done tt c = Done tt (with_rt (MkRt m' (rt_bud (rt c))) c) /\
    mem_ok m' /\ blocks m' = without (cell_blocks x) (blocks (rt_mem (rt c)))) as Hno.
  { intros ->. exists (rt_mem (rt c)). rewrite without_nil. split; [| done].
    destruct c. simpl. by destruct rt. }
  destruct (decide (ty x = FE_TMAP)) as [E | E].
  2:{ assert (cell_blocks x = []) as Hb by (unfold cell_blocks; by destruct (ty x)).
      destruct (ty x); try done; by apply Hno. }
  rewrite E. destruct (Hty E) as [[m |] Ec]; rewrite Ec.
  2:{ apply Hno. unfold cell_blocks. by rewrite E, Ec. }
  rewrite (Hmap m E Ec).
  set (bs := cell_blocks x) in *.
  assert (bs ≡ₚ drop 1 bs ++ take 1 bs) as Hp.
  { rewrite <- (take_drop 1 bs) at 1. solve_Permutation. }
  replace (drop 1 (Some <$> bs) ++ take 1 (Some <$> bs)) with (Some <$> (drop 1 bs ++ take 1 bs))
    by (rewrite fmap_app, fmap_drop, fmap_take; done).
  destruct (tracked_free_all_good (drop 1 bs ++ take 1 bs) (rt_mem (rt c)) Hm)
    as (m' & E' & Hm' & _ & _ & Hb').
  { eapply Span.owned_sub, Span.owned_perm; [| exact Ho]. by rewrite Hp at 1. }
  unfold lift_memory, lift_rt, lift_mem. rewrite free_blocks_some, E'. exists m'.
  split; [done |]. split; [done |]. rewrite Hb'.
  apply without_perm. by symmetry.
Qed.

(** ** The loop

    [cs0] is the heap when the sweep starts; from index [i] on the cells are
    still as they were.  [ch j] are the slabs of the object [j], and [X] are
    the objects under construction, which are marked. *)
Section Sweep.
Context (cs0 : list cell) (ch : nat -> list Z) (X : list nat) (c0 : fe_Context).
Hypothesis typed0 : typed cs0.
Hypothesis maps0 : forall j x, cs0 !! j = Some x -> map_cell_ok x.
Hypothesis ch_other : forall j x, cs0 !! j = Some x -> is_data (ty x) = false -> ch j = [].
Hypothesis X_marked : forall j x, j ∈ X -> cs0 !! j = Some x -> gcmark x = true.

Definition strings_ok (A : StrArena) (i : nat) : Prop :=
  forall j x, (i <= j)%nat -> cs0 !! j = Some x -> j ∉ X -> data_cell_ok A (ch j) x.

Definition sweep_post (n i : nat) (live : Z) (cs : list cell) (fl : list nat) (A : StrArena)
    (ks : list Z) (kb : list block) (r : outcome fe_Context Z) : Prop :=
  exists cs' f' A' m' sfl',
    r = Done (live + Z.of_nat (length (filter (fun j => lives cs0 j = true) (seq i n))))
             (upd cs' f' A' m' c0) /\
    (forall j, (j < i)%nat -> cs' !! j = cs !! j) /\
    (forall j, (i <= j < i + n)%nat -> swept cs0 j (cs' !! j)) /\
    length cs' = length cs /\
    fchain cs' f' (rev (reclaimed cs0 (seq i n)) ++ fl) /\
    own A' sfl' ((spared cs0 (seq i n) ≫= ch) ++ ks) /\
    same_on A A' ((spared cs0 (seq i n) ≫= ch) ++ ks) /\
    mem_ok m' /\ owned m' ((spared cs0 (seq i n) ≫= blocks_at cs0) ++ kb).

Lemma map_value x : is_Some (children x) -> ty x = FE_TMAP -> exists o, cdr x = VMap o.
Proof.
  unfold children. intros [l H] E. rewrite E in H. destruct (cdr x) as [| | | | [m |] | | |]; eauto; done.
Qed.

Lemma data_cell_same A A' os x :
  same_on A A' os -> data_cell_ok A os x -> data_cell_ok A' os x.
Proof.
  intros Hs H Ht. destruct (H Ht) as (off & s & E1 & E2 & Hh). exists off, s.
  split; [done |]. split; [done |]. by eapply holds_frame.
Qed.

Lemma own_perm A sfl k1 k2 : k1 ≡ₚ k2 -> own A sfl k1 -> own A sfl k2.
Proof.
  intros Hp (? & ? & ? & Hk). split; [done |]. split; [done |].
  split; [by rewrite <- Hp |]. intros o. rewrite <- Hp. apply Hk.
Qed.

Lemma read_cell_upd cs f A m j x :
  cs !! j = Some x -> read_cell j (upd cs f A m c0) = Done x (upd cs f A m c0).
Proof. intros E. unfold read_cell. simpl. by rewrite E. Qed.

Lemma write_cell_upd cs f A m j x y :
  cs !! j = Some x -> write_cell j y (upd cs f A m c0) = Done tt (upd (<[j := y]> cs) f A m c0).
Proof. intros E. unfold write_cell. simpl. by rewrite E. Qed.

(** From the rest of the sweep to the sweep with a spared cell in front. *)
Lemma sweep_post_spare n i live cs cs1 fl A ks kb x r :
  cs0 !! i = Some x -> dies cs0 i = false ->
  length cs1 = length cs -> (forall j, j <> i -> cs1 !! j = cs !! j) -> swept cs0 i (cs1 !! i) ->
  sweep_post n (S i) (live + if lives cs0 i then 1 else 0) cs1 fl A (ch i ++ ks) (blocks_at cs0 i ++ kb) r ->
  sweep_post (S n) i live cs fl A ks kb r.
Proof.
  intros E Hd Hlen Hcs Hsw (cs' & f' & A' & m' & sfl' & -> & Hlt & Hge & Hl & Hfl & Hown & Hsame & Hm & Hob).
  assert (spared cs0 (seq i (S n)) = i :: spared cs0 (seq (S i) n)) as Hsp.
  { unfold spared. cbn [seq]. by rewrite filter_cons_True. }
  assert (reclaimed cs0 (seq i (S n)) = reclaimed cs0 (seq (S i) n)) as Hre.
  { unfold reclaimed. cbn [seq]. by rewrite filter_cons_False by congruence. }
  exists cs', f', A', m', sfl'. rewrite Hsp, Hre, !bind_cons.
  assert (forall {B} (a b k : list B), b ++ a ++ k ≡ₚ (a ++ b) ++ k) as Hperm
    by (intros; solve_Permutation).
  split; [| split; [| split; [| split; [congruence | split; [done |]]]]].
  - f_equal. cbn [seq]. rewrite filter_cons. destruct (lives cs0 i) eqn:El.
    + rewrite decide_True by done. cbn [length]. lia.
    + rewrite decide_False by done. lia.
  - intros j Hj. rewrite Hlt, Hcs by lia. done.
  - intros j Hj. destruct (decide (j = i)) as [-> | Hne]; [by rewrite Hlt by lia | apply Hge; lia].
  - split; [eapply own_perm; [apply Hperm | done] |]. split.
    + intros o Ho. apply Hsame. by rewrite Hperm.
    + split; [done |]. eapply owned_perm; [apply Hperm | done].
Qed.

(** ... and with a reclaimed cell in front. *)
Lemma sweep_post_die n i live cs x fl f A A1 ks kb r :
  cs0 !! i = Some x -> dies cs0 i = true -> cs !! i = Some x ->
  same_on A A1 ((seq (S i) n ≫= ch) ++ ks) ->
  sweep_post n (S i) live (<[i := MkCell FE_TFREE false (car x) (VObj f)]> cs) (i :: fl) A1 ks kb r ->
  sweep_post (S n) i live cs fl A ks kb r.
Proof.
  intros E Hd Ei Hs1 (cs' & f' & A' & m' & sfl' & -> & Hlt & Hge & Hl & Hfl & Hown & Hsame & Hm & Hob).
  assert (spared cs0 (seq i (S n)) = spared cs0 (seq (S i) n)) as Hsp.
  { unfold spared. cbn [seq]. by rewrite filter_cons_False by congruence. }
  assert (reclaimed cs0 (seq i (S n)) = i :: reclaimed cs0 (seq (S i) n)) as Hre.
  { unfold reclaimed. cbn [seq]. by rewrite filter_cons_True. }
  assert (lives cs0 i = false) as Hnl.
  { unfold dies in Hd. unfold lives. rewrite E in *. by destruct (bool_decide _), (gcmark x). }
  exists cs', f', A', m', sfl'. rewrite Hsp, Hre. cbn [rev].
  split; [| split; [| split; [| split; [by rewrite Hl, length_insert | split]]]].
  - f_equal. cbn [seq]. by rewrite filter_cons_False by congruence.
  - intros j Hj. rewrite Hlt by lia. by rewrite list_lookup_insert_ne by lia.
  - intros j Hj. destruct (decide (j = i)) as [-> | Hne]; [| apply Hge; lia].
    rewrite Hlt by lia. rewrite list_lookup_insert_eq by (by eapply lookup_lt_Some).
    unfold swept. rewrite E, Hd. by eexists.
  - by rewrite <- app_assoc.
  - split; [done |]. split; [| done]. intros o Ho. rewrite Hsame by done. apply Hs1.
    apply elem_of_app in Ho as [Ho | Ho]; [| set_solver]. apply elem_of_app. left.
    apply list_elem_of_bind in Ho as (j & Hj & Hin). apply list_elem_of_bind. exists j. split; [done |].
    by apply list_elem_of_filter in Hin as [_ ?].
Qed.

Lemma sweep_spec n i live cs f fl A sfl m ks kb :
  (i + n = length cs)%nat -> (forall j, (i <= j)%nat -> cs !! j = cs0 !! j) ->
  fchain cs f fl -> own A sfl ((seq i n ≫= ch) ++ ks) -> strings_ok A i ->
  mem_ok m -> owned m ((seq i n ≫= blocks_at cs0) ++ kb) ->
  sweep_post n i live cs fl A ks kb (sweep n i live (upd cs f A m c0)).
Proof.
  revert i live cs f fl A sfl m ks kb.
  induction n as [| n IH]; intros i live cs f fl A sfl m ks kb Hn Hcs Hfl Hown Hstr Hm Hob.
  { exists cs, f, A, m, sfl. split; [unfold ret; f_equal; simpl; lia |]. simpl in *.
    split; [done |]. split; [lia |]. done. }
  destruct (lookup_lt_is_Some_2 cs i) as [x Ei]; [lia |].
  assert (cs0 !! i = Some x) as E by (by rewrite <- Hcs).
  cbn [sweep]. unfold bind at 1. rewrite (read_cell_upd _ _ _ _ _ _ Ei).
  assert (strings_ok A (S i)) as Hstr' by (intros j y Hj; apply Hstr; lia).
  change (seq i (S n)) with (i :: seq (S i) n) in Hown, Hob.
  rewrite bind_cons in Hown. rewrite bind_cons in Hob.
  assert (forall {B} (a b k : list B), (a ++ b) ++ k ≡ₚ b ++ a ++ k) as Hperm
    by (intros; solve_Permutation).
  case_decide as Hfree.
  { assert (dies cs0 i = false /\ lives cs0 i = false) as [Hd Hl].
    { unfold dies, lives. rewrite E, bool_decide_eq_true_2 by done. done. }
    eapply (sweep_post_spare n i live cs cs); [exact E | done | done | done | |].
    - unfold swept. by rewrite E, Hd, Hl, Ei.
    - rewrite Hl, Z.add_0_r. eapply IH; [lia | intros j Hj; apply Hcs; lia | done | | done | done |].
      + eapply own_perm; [apply Hperm | exact Hown].
      + eapply owned_perm; [apply Hperm | exact Hob]. }
  destruct (gcmark x) eqn:Hmk.
  { assert (dies cs0 i = false /\ lives cs0 i = true) as [Hd Hl].
    { unfold dies, lives. rewrite E, bool_decide_eq_false_2, Hmk by done. done. }
    unfold bind. rewrite (write_cell_upd _ _ _ _ _ _ _ Ei).
    eapply (sweep_post_spare n i live cs (<[i := set_gcmark false x]> cs));
      [exact E | done | apply length_insert | | |].
    - intros j Hj. by rewrite list_lookup_insert_ne.
    - rewrite list_lookup_insert_eq by (by eapply lookup_lt_Some). unfold swept. by rewrite E, Hd, Hl.
    - rewrite Hl. eapply IH; [rewrite length_insert; lia | | | | done | done |].
      + intros j Hj. rewrite list_lookup_insert_ne by lia. apply Hcs. lia.
      + eapply fchain_frame; [| exact Hfl]. intros j Hj. apply list_lookup_insert_ne. intros ->.
        apply (fchain_free _ _ _ _ Hfl) in Hj as (y & Ey & Hty). congruence.
      + eapply own_perm; [apply Hperm | exact Hown].
      + eapply owned_perm; [apply Hperm | exact Hob]. }
  assert (dies cs0 i = true) as Hd.
  { unfold dies. rewrite E, bool_decide_eq_false_2, Hmk by done. done. }
  rewrite <- app_assoc in Hown, Hob.
  destruct (free_string_spec x (ch i) (upd cs f A m c0) sfl ((seq (S i) n ≫= ch) ++ ks) Hown)
    as (A1 & sfl1 & E1 & Hown1 & Hsame1).
  { apply (Hstr i x); [lia | done |]. intros HX. rewrite (X_marked _ _ HX E) in Hmk. done. }
  { by apply (ch_other i x). }
  unfold bind. rewrite E1.
  unfold blocks_at in Hob at 1. rewrite E in Hob.
  destruct (free_map_spec x (with_str_arena A1 (upd cs f A m c0)) _ Hm Hob (maps0 i x E))
    as (m1 & E2 & Hm1 & Hb1).
  { apply map_value. by eapply typed0. }
  rewrite E2. unfold settype, setcdr, get, modify, bind.
  change (with_rt (MkRt m1 (rt_bud (rt (with_str_arena A1 (upd cs f A m c0)))))
    (with_str_arena A1 (upd cs f A m c0))) with (upd cs f A1 m1 c0).
  rewrite (read_cell_upd _ _ _ _ _ _ Ei), (write_cell_upd _ _ _ _ _ _ _ Ei).
  rewrite (read_cell_upd _ _ _ _ i (MkCell FE_TFREE false (car x) (cdr x)))
    by (apply list_lookup_insert_eq; by eapply lookup_lt_Some).
  cbn [freelist upd with_cells with_freelist ty gcmark car].
  erewrite write_cell_upd by (apply list_lookup_insert_eq; by eapply lookup_lt_Some).
  rewrite list_insert_insert_eq.
  change (with_freelist (Ref i) (upd ?a f A1 m1 c0)) with (upd a (Ref i) A1 m1 c0).
  set (cs1 := <[i := MkCell FE_TFREE false (car x) (VObj f)]> cs).
  eapply (sweep_post_die n i live cs x fl f A A1); [done | done | done | exact Hsame1 |].
  eapply (IH (S i) live cs1 (Ref i) (i :: fl) A1 sfl1 m1);
    [unfold cs1; rewrite length_insert; lia | | | done | | done |].
  - intros j Hj. unfold cs1. rewrite list_lookup_insert_ne by lia. apply Hcs. lia.
  - econstructor; [apply list_lookup_insert_eq; by eapply lookup_lt_Some | done | done |].
    eapply fchain_frame; [| exact Hfl]. intros j Hj. apply list_lookup_insert_ne. intros ->.
    apply (fchain_free _ _ _ _ Hfl) in Hj as (y & Ey & Hty). congruence.
  - intros j y Hj Ej HX. eapply data_cell_same; [| apply (Hstr j y); [lia | done | done]].
    intros o Ho. apply Hsame1, elem_of_app. left. apply list_elem_of_bind. exists j.
    split; [done |]. apply elem_of_seq. rewrite <- Hcs in Ej by lia.
    apply lookup_lt_Some in Ej. lia.
  - by eapply owned_app.
Qed.

End Sweep.
