(* ===== verification/GcSpec.v ===== *)
(** * The collector keeps what is reachable and reclaims the rest

    [heap_ok c X fl ch sfl ex]: the context [c] is well formed, its free
    list is [fl], the string object [j] owns the slabs [ch j], the free
    slabs are [sfl], and [ex] are slabs of a chain under construction.  The
    objects [X] are under construction: they are on the root stack, and
    their fields need not be set yet. *)

From Stdlib Require Import ZArith Lia Ascii String.
From stdpp Require Import base list sets gmap.
From S2P Require Import Prelude Number Memory Budget MapTable MapSpec Slab SlabSpec Span Ctx Gc GcMark GcSweep.

Definition gc_roots (c : fe_Context) : list obj :=
  List.filter stack_root (gcstack c) ++ [modulestack c] ++ [symlist c] ++ loaded_module_values c.

Definition indices (c : fe_Context) : list nat := seq 0 (length (cells c)).

Record heap_ok (c : fe_Context) (X : list nat) (fl : list nat) (ch : nat -> list Z)
    (sfl ex : list Z) : Prop := MkHeapOk {
  ho_typed : typed (cells c);
  ho_unmarked i x : cells c !! i = Some x -> ty x <> FE_TFREE -> gcmark x = false;
  ho_free : fchain (cells c) (freelist c) fl;
  ho_free_nodup : NoDup fl;
  ho_maps j x : cells c !! j = Some x -> map_cell_ok x;
  ho_ch j x : cells c !! j = Some x -> is_data (ty x) = false -> ch j = [];
  ho_X j : j ∈ X -> Ref j ∈ gcstack c /\ ch j = [] /\
    exists x, cells c !! j = Some x /\ ty x <> FE_TFREE;
  ho_strings j x : cells c !! j = Some x -> j ∉ X -> data_cell_ok (str_arena c) (ch j) x;
  ho_slabs : own (str_arena c) sfl ((indices c ≫= ch) ++ ex);
  ho_mem : mem_ok (rt_mem (rt c));
  ho_blocks : owned (rt_mem (rt c)) ((indices c ≫= blocks_at (cells c)) ++ all_span_blocks (spans c));
  ho_spans st : spans c = Some st -> bucketed st
}.

(** ** From marks to cells *)

Lemma heap_closed c X fl ch sfl ex : heap_ok c X fl ch sfl ex -> closed (cells c) [].
Proof.
  intros H i x l o E M Hl Ho. destruct (decide (ty x = FE_TFREE)) as [Hf | Hf].
  - unfold children in Hl. rewrite Hf in Hl. simplify_eq. by apply not_elem_of_nil in Ho.
  - by rewrite (ho_unmarked _ _ _ _ _ _ H i x E Hf) in M.
Qed.

Lemma grows_fields cs cs' j x :
  grows cs cs' -> cs' !! j = Some x ->
  exists y, cs !! j = Some y /\ ty y = ty x /\ car y = car x /\ cdr y = cdr x.
Proof.
  intros H E. specialize (H j). rewrite E in H. destruct (cs !! j) as [y |]; [| done].
  exists y. destruct y, x, H as [[=] _]. by subst.
Qed.

Lemma grows_fields_fwd cs cs' j x :
  grows cs cs' -> cs !! j = Some x ->
  exists y, cs' !! j = Some y /\ ty y = ty x /\ car y = car x /\ cdr y = cdr x.
Proof.
  intros H E. specialize (H j). rewrite E in H. destruct (cs' !! j) as [y |]; [| done].
  exists y. destruct y, x, H as [[=] _]. by subst.
Qed.

Lemma grows_length cs cs' : grows cs cs' -> length cs' = length cs.
Proof.
  intros H. apply Nat.le_antisymm; apply Nat.nlt_ge; intros Hlt.
  - apply lookup_lt_is_Some in Hlt. apply (grows_is_Some _ _ _ H) in Hlt.
    apply lookup_lt_is_Some in Hlt. lia.
  - apply lookup_lt_is_Some in Hlt. apply (grows_is_Some _ _ _ H) in Hlt.
    apply lookup_lt_is_Some in Hlt. lia.
Qed.

Lemma cell_blocks_fields x y : ty y = ty x -> cdr y = cdr x -> cell_blocks y = cell_blocks x.
Proof. unfold cell_blocks. by intros -> ->. Qed.

Lemma grows_blocks cs cs' j : grows cs cs' -> blocks_at cs' j = blocks_at cs j.
Proof.
  intros H. unfold blocks_at. destruct (cs' !! j) as [x |] eqn:E.
  - destruct (grows_fields _ _ _ _ H E) as (y & -> & Ht & _ & Hd). symmetry. by apply cell_blocks_fields.
  - destruct (cs !! j) eqn:E'; [| done].
    destruct (grows_fields_fwd _ _ _ _ H E') as (y & ? & _). congruence.
Qed.

Lemma map_cell_fields x y : ty y = ty x -> cdr y = cdr x -> map_cell_ok x -> map_cell_ok y.
Proof. intros Et Ed H m Hm Hc. rewrite (cell_blocks_fields x y Et Ed). apply H; congruence. Qed.

Lemma data_cell_fields A os x y :
  ty y = ty x -> car y = car x -> cdr y = cdr x -> data_cell_ok A os x -> data_cell_ok A os y.
Proof. unfold data_cell_ok. by intros -> -> ->. Qed.

Lemma fchain_grows cs cs' o fl : grows cs cs' -> fchain cs o fl -> fchain cs' o fl.
Proof.
  intros H. induction 1 as [| i x o fl E Ht Hd _ IH]; [constructor |].
  destruct (grows_fields_fwd _ _ _ _ H E) as (y & Ey & Ety & _ & Edy).
  apply (fchain_cons _ i y o); congruence || done.
Qed.

(** Marking from the roots of the context. *)
Lemma mark_phase c X fl ch sfl ex :
  heap_ok c X fl ch sfl ex ->
  exists cs1, mark_post (gc_roots c) [] (cells c) cs1 /\
    forall {B} (k : comp fe_Context B),
      (lift_cells (mark_each (List.filter stack_root (gcstack c))) ;;;
       lift_cells (fe_mark (modulestack c)) ;;;
       lift_cells (fe_mark (symlist c)) ;;;
       lift_cells (mark_each (loaded_module_values c)) ;;; k) c = k (with_cells cs1 c).
Proof.
  intros H. pose proof (ho_typed _ _ _ _ _ _ H) as Ht. pose proof (heap_closed _ _ _ _ _ _ H) as Hc.
  destruct (mark_each_spec (List.filter stack_root (gcstack c)) _ Ht Hc) as (a & Ea & Ha).
  pose proof Ha as (Ga & Ca & _). pose proof (grows_typed _ _ Ga Ht) as Ta.
  destruct (fe_mark_spec (modulestack c) a Ta Ca) as (b & Eb & Hb).
  pose proof Hb as (Gb & Cb & _). pose proof (grows_typed _ _ Gb Ta) as Tb.
  destruct (fe_mark_spec (symlist c) b Tb Cb) as (d & Ed & Hd).
  pose proof Hd as (Gd & Cd & _). pose proof (grows_typed _ _ Gd Tb) as Td.
  destruct (mark_each_spec (loaded_module_values c) d Td Cd) as (e & Ee & He).
  exists e. split.
  - unfold gc_roots. eapply mark_post_app; [exact Ha |]. eapply mark_post_app; [exact Hb |].
    eapply mark_post_app; [exact Hd | exact He].
  - intros B k. unfold bind, lift_cells. rewrite Ea. cbn [cells with_cells]. rewrite Eb.
    cbn [cells with_cells]. rewrite Ed. cbn [cells with_cells]. rewrite Ee. done.
Qed.

Section Collect.
Context (c : fe_Context) (X fl : list nat) (ch : nat -> list Z) (sfl ex : list Z) (cs1 : list cell).
Hypothesis Hok : heap_ok c X fl ch sfl ex.
Hypothesis Hmark : mark_post (gc_roots c) [] (cells c) cs1.

Let Hg : grows (cells c) cs1 := proj1 Hmark.

(** After marking, a cell in use is marked exactly when it is reachable. *)
Lemma marked_iff i x x1 :
  cells c !! i = Some x -> cs1 !! i = Some x1 -> ty x <> FE_TFREE ->
  gcmark x1 = true <-> reach (cells c) (gc_roots c) i.
Proof.
  intros E E1 Hf. pose proof (mark_post_exact _ _ _ i Hmark) as Hex.
  assert (gcmark x1 = true <-> marked cs1 i) as ->.
  { unfold marked. rewrite E1. naive_solver. }
  rewrite Hex. split; [| by right]. intros [(y & Ey & My) | ?]; [| done]. simplify_eq.
  by rewrite (ho_unmarked _ _ _ _ _ _ Hok i x E Hf) in My.
Qed.

Lemma dies_iff i :
  dies cs1 i = true <->
  exists x, cells c !! i = Some x /\ ty x <> FE_TFREE /\ ~ reach (cells c) (gc_roots c) i.
Proof.
  unfold dies. destruct (cs1 !! i) as [x1 |] eqn:E1.
  - destruct (grows_fields _ _ _ _ Hg E1) as (x & E & Et & _ & _).
    destruct (decide (ty x = FE_TFREE)) as [Hf | Hf].
    + rewrite bool_decide_eq_true_2 by congruence. split; [done |]. intros (y & ? & ? & _). congruence.
    + rewrite bool_decide_eq_false_2 by congruence. cbn [negb andb].
      pose proof (marked_iff i x x1 E E1 Hf) as Hm. rewrite negb_true_iff. split.
      * intros Hfalse. exists x. split; [done |]. split; [done |]. rewrite <- Hm. by rewrite Hfalse.
      * intros (y & _ & _ & Hn). rewrite <- Hm in Hn. by destruct (gcmark x1).
  - split; [done |]. intros (x & E & _). destruct (grows_fields_fwd _ _ _ _ Hg E) as (? & ? & _).
    congruence.
Qed.

Lemma lives_iff i :
  lives cs1 i = true <->
  exists x, cells c !! i = Some x /\ ty x <> FE_TFREE /\ reach (cells c) (gc_roots c) i.
Proof.
  unfold lives. destruct (cs1 !! i) as [x1 |] eqn:E1.
  - destruct (grows_fields _ _ _ _ Hg E1) as (x & E & Et & _ & _).
    destruct (decide (ty x = FE_TFREE)) as [Hf | Hf].
    + rewrite bool_decide_eq_true_2 by congruence. split; [done |]. intros (y & ? & ? & _). congruence.
    + rewrite bool_decide_eq_false_2 by congruence. cbn [negb andb].
      rewrite (marked_iff i x x1 E E1 Hf). naive_solver.
  - split; [done |]. intros (x & E & _). destruct (grows_fields_fwd _ _ _ _ Hg E) as (? & ? & _).
    congruence.
Qed.

Lemma seq_bind_ext {B} (f g : nat -> list B) l : (forall j, f j = g j) -> l ≫= f = l ≫= g.
Proof. intros H. induction l as [| j l IH]; [done |]. by rewrite !bind_cons, IH, H. Qed.

Lemma X_roots j : j ∈ X -> Ref j ∈ gc_roots c.
Proof.
  intros Hj. destruct (ho_X _ _ _ _ _ _ Hok j Hj) as [Hin _]. apply elem_of_app. left.
  apply list_elem_of_In, filter_In. split; [by apply list_elem_of_In | done].
Qed.

Lemma sweep_phase :
  sweep_post cs1 ch c (length (cells c)) 0 0 cs1 fl (str_arena c) ex (all_span_blocks (spans c))
    (sweep (length (cells c)) 0 0 (with_cells cs1 c)).
Proof.
  replace (with_cells cs1 c) with (upd cs1 (freelist c) (str_arena c) (rt_mem (rt c)) c)
    by (destruct c; simpl; unfold upd, with_cells; simpl; by destruct rt).
  apply (sweep_spec cs1 ch X c) with (sfl := sfl).
  - by eapply grows_typed; [| apply Hok].
  - intros j x E. destruct (grows_fields _ _ _ _ Hg E) as (y & Ey & Et & _ & Ed).
    eapply map_cell_fields; [symmetry; done | symmetry; done |]. by eapply (ho_maps _ _ _ _ _ _ Hok).
  - intros j x E Hd. destruct (grows_fields _ _ _ _ Hg E) as (y & Ey & Et & _ & _).
    eapply (ho_ch _ _ _ _ _ _ Hok); [done | congruence].
  - intros j x Hj E. destruct (grows_fields _ _ _ _ Hg E) as (y & Ey & _).
    assert (marked cs1 j) as (x' & ? & ?); [| congruence].
    apply (mark_post_exact _ _ _ j Hmark). right. apply reach_root; [by apply X_roots | by eexists].
  - rewrite (grows_length _ _ Hg). done.
  - done.
  - eapply fchain_grows; [exact Hg | apply Hok].
  - apply Hok.
  - intros j x _ E HX. destruct (grows_fields _ _ _ _ Hg E) as (y & Ey & Et & Ec & Ed).
    eapply data_cell_fields; [symmetry; done.. |]. by eapply (ho_strings _ _ _ _ _ _ Hok).
  - apply Hok.
  - rewrite (seq_bind_ext _ (blocks_at (cells c))) by (intros; by apply grows_blocks). apply Hok.
Qed.

(** The slabs of an object after the collection. *)
Definition ch_after (j : nat) : list Z := if dies cs1 j then [] else ch j.

Lemma bind_spared {B} (f : nat -> list B) l :
  spared cs1 l ≫= f = l ≫= (fun j => if dies cs1 j then [] else f j).
Proof.
  unfold spared. induction l as [| j l IH]; [done |]. rewrite bind_cons, filter_cons.
  destruct (dies cs1 j) eqn:E.
  - rewrite (decide_False (P := true = false)) by done. by rewrite IH.
  - rewrite (decide_True (P := false = false)) by done. by rewrite bind_cons, IH.
Qed.
End Collect.

(** The cells after the sweep, in terms of the cells before the collection. *)
Lemma swept_cases c X fl ch sfl ex cs1 i r :
  heap_ok c X fl ch sfl ex -> mark_post (gc_roots c) [] (cells c) cs1 -> swept cs1 i r ->
  match cells c !! i with
  | None => r = None
  | Some x =>
      if dies cs1 i then exists y, r = Some y /\ ty y = FE_TFREE
      else exists y, r = Some y /\ ty y = ty x /\ car y = car x /\ cdr y = cdr x /\
                     (ty x <> FE_TFREE -> y = x)
  end.
Proof.
  intros Hok Hmark Hs. pose proof (proj1 Hmark) as Hg. unfold swept in Hs.
  destruct (cells c !! i) as [x |] eqn:E.
  - destruct (grows_fields_fwd _ _ _ _ Hg E) as (x1 & E1 & Et & Ec & Ed). rewrite E1 in Hs.
    destruct (dies cs1 i) eqn:Hd; [destruct Hs as [o ->]; by eexists |].
    destruct (lives cs1 i) eqn:Hl; subst r; eexists; (split; [done |]).
    + simpl. rewrite Et, Ec, Ed. do 3 (split; [done |]). intros Hf.
      pose proof (ho_unmarked _ _ _ _ _ _ Hok i x E Hf) as Hm. destruct x, x1; simpl in *. by subst.
    + rewrite Et, Ec, Ed. do 3 (split; [done |]). intros Hf. exfalso.
      unfold dies, lives in *. rewrite E1, bool_decide_eq_false_2 in * by congruence.
      by destruct (gcmark x1).
  - destruct (cs1 !! i) eqn:E1; [| done].
    destruct (grows_fields _ _ _ _ Hg E1) as (? & ? & _). congruence.
Qed.

(** A heap after a sweep, with the context's other fields [c'] may change. *)
Lemma heap_ok_after c X fl ch sfl ex cs1 c' sfl' :
  heap_ok c X fl ch sfl ex -> mark_post (gc_roots c) [] (cells c) cs1 ->
  length (cells c') = length (cells c) -> gcstack c' = gcstack c ->
  (forall i, (i < length (cells c))%nat -> swept cs1 i (cells c' !! i)) ->
  fchain (cells c') (freelist c') (rev (reclaimed cs1 (indices c)) ++ fl) ->
  own (str_arena c') sfl' ((indices c ≫= ch_after ch cs1) ++ ex) ->
  same_on (str_arena c) (str_arena c') ((indices c ≫= ch_after ch cs1) ++ ex) ->
  mem_ok (rt_mem (rt c')) ->
  owned (rt_mem (rt c')) ((spared cs1 (indices c) ≫= blocks_at cs1) ++ all_span_blocks (spans c')) ->
  (forall st, spans c' = Some st -> bucketed st) ->
  heap_ok c' X (rev (reclaimed cs1 (indices c)) ++ fl) (ch_after ch cs1) sfl' ex.
Proof.
  intros Hok Hmark Hlen Hgs Hsw Hfl Hown Hsame Hm Hob Hsp.
  assert (forall i x', cells c' !! i = Some x' -> exists x, cells c !! i = Some x /\
    ((dies cs1 i = true /\ ty x' = FE_TFREE) \/
     (dies cs1 i = false /\ ty x' = ty x /\ car x' = car x /\ cdr x' = cdr x /\
      (ty x <> FE_TFREE -> x' = x)))) as Hcell.
  { intros i x' E'. pose proof (lookup_lt_Some _ _ _ E') as Hi. rewrite Hlen in Hi.
    pose proof (swept_cases _ _ _ _ _ _ _ _ _ Hok Hmark (Hsw i Hi)) as H. rewrite E' in H.
    destruct (cells c !! i) as [x |]; [| done]. exists x. split; [done |].
    destruct (dies cs1 i); destruct H as (y & [= <-] & H); [by left | by right]. }
  pose proof (proj1 Hmark) as Hg.
  split.
  - intros i x' E'. destruct (Hcell i x' E') as (x & E & [[_ Ht] | (_ & Ht & Hc & Hd & _)]).
    + unfold children. by rewrite Ht.
    + destruct (ho_typed _ _ _ _ _ _ Hok i x E) as [l Hl]. exists l.
      unfold children in *. by rewrite Ht, Hc, Hd.
  - intros i x' E' Hf. destruct (Hcell i x' E') as (x & E & [[_ Ht] | (_ & Ht & _ & _ & Heq)]); [done |].
    rewrite Heq by congruence. eapply (ho_unmarked _ _ _ _ _ _ Hok); [done | congruence].
  - done.
  - apply NoDup_app. split; [| split; [| apply Hok]].
    + rewrite <- Permutation_rev. apply NoDup_filter, NoDup_seq.
    + intros i Hi Hin. rewrite <- Permutation_rev in Hi. apply list_elem_of_filter in Hi as [Hd _].
      apply (dies_iff _ _ _ _ _ _ _ Hok Hmark) in Hd as (x & E & Hf & _).
      destruct (fchain_free _ _ _ _ (ho_free _ _ _ _ _ _ Hok) Hin) as (y & ? & ?). congruence.
  - intros i x' E'. destruct (Hcell i x' E') as (x & E & [[_ Ht] | (_ & Ht & _ & Hd & _)]).
    + intros m Hm'. congruence.
    + eapply map_cell_fields; [done | done |]. by eapply (ho_maps _ _ _ _ _ _ Hok).
  - intros i x' E' Hnd. unfold ch_after.
    destruct (Hcell i x' E') as (x & E & [[-> _] | (-> & Ht & _)]); [done |].
    eapply (ho_ch _ _ _ _ _ _ Hok); [done | congruence].
  - intros j Hj. rewrite Hgs. destruct (ho_X _ _ _ _ _ _ Hok j Hj) as (? & Hc & x & Ex & Hx).
    split; [done |]. split; [unfold ch_after; rewrite Hc; by destruct (dies cs1 j) |].
    assert (dies cs1 j = false) as Hd.
    { apply not_true_is_false. rewrite (dies_iff _ _ _ _ _ _ _ Hok Hmark). intros (? & _ & _ & Hn).
      apply Hn, reach_root; [by eapply X_roots | by eexists]. }
    pose proof (swept_cases _ _ _ _ _ _ _ _ _ Hok Hmark (Hsw j ltac:(by eapply lookup_lt_Some))) as Hsc.
    rewrite Ex, Hd in Hsc. destruct Hsc as (y & -> & Hty & _). exists y. by rewrite Hty.
  - intros i x' E' HX. destruct (Hcell i x' E') as (x & E & [[_ Ht] | (Hd & Ht & Hc & Hdr & _)]).
    + intros Hdata. by rewrite Ht in Hdata.
    + unfold ch_after. rewrite Hd.
      eapply data_cell_same; [| eapply data_cell_fields; [done.. |]; by eapply (ho_strings _ _ _ _ _ _ Hok)].
      intros o Ho. apply Hsame, elem_of_app. left. apply list_elem_of_bind. exists i.
      unfold ch_after. rewrite Hd. split; [done |]. apply elem_of_seq.
      apply lookup_lt_Some in E. lia.
  - unfold indices. by rewrite Hlen.
  - done.
  - unfold indices. rewrite Hlen. fold (indices c).
    rewrite (bind_spared cs1 (blocks_at cs1)) in Hob.
    rewrite (seq_bind_ext _ (fun j => if dies cs1 j then [] else blocks_at cs1 j)); [done |].
    intros j. rewrite (grows_blocks (cells c) cs1 j Hg). unfold blocks_at.
    destruct (cells c' !! j) as [x' |] eqn:E'.
    + destruct (Hcell j x' E') as (x & -> & [[-> Ht] | (-> & Ht & _ & Hd & _)]).
      * unfold cell_blocks. by rewrite Ht.
      * by apply cell_blocks_fields.
    + destruct (cells c !! j) as [x |] eqn:E; [| by destruct (dies cs1 j)].
      apply lookup_lt_Some in E. apply lookup_ge_None in E'. lia.
  - done.
Qed.

(** The spans that remain own blocks apart from those of the objects. *)
Lemma prune_phase live m bs o :
  mem_ok m -> owned m (bs ++ all_span_blocks o) -> (forall st, o = Some st -> bucketed st) ->
  exists m' o', fex_span_prune live (MkSpans m o) = Done tt (MkSpans m' o') /\ mem_ok m' /\
    owned m' (bs ++ all_span_blocks o') /\ (forall st, o' = Some st -> bucketed st).
Proof.
  intros Hm Ho Hb.
  assert (owned m (all_span_blocks o)) as Hso.
  { eapply owned_sub, owned_perm; [| exact Ho]. apply Permutation_app_comm. }
  destruct (fex_span_prune_good live (MkSpans m o)) as ([m' o'] & E & [Hm' Hok'] & Hbl & Hp & _).
  { split; [done |]. cbn [span_state sp_mem]. intros st ->. split; [by apply Hb | exact Hso]. }
  cbn [span_state sp_mem] in *. exists m', o'. split; [done |]. split; [done |]. split.
  - eapply owned_app; [| exact Hbl]. eapply owned_perm; [| exact Ho]. rewrite Hp.
    rewrite !(Permutation_app_comm bs). by rewrite <- app_assoc.
  - intros st Hst. by destruct (Hok' st Hst).
Qed.

(** What a collection does.  [gc_effect] relates the context before and
    after: reachable objects are untouched, exactly the others join the free
    list, and the strings of the survivors are unchanged. *)
Definition gc_effect (c c' : fe_Context) (fl fl' : list nat) (ch ch' : nat -> list Z) (ex : list Z) : Prop :=
  (forall i x, cells c !! i = Some x -> ty x <> FE_TFREE ->
     reach (cells c) (gc_roots c) i -> cells c' !! i = Some x /\ ch' i = ch i) /\
  (forall i, i ∈ fl' <-> i ∈ fl \/
     exists x, cells c !! i = Some x /\ ty x <> FE_TFREE /\ ~ reach (cells c) (gc_roots c) i) /\
  (forall i, i ∈ fl' -> exists x, cells c' !! i = Some x /\ ty x = FE_TFREE) /\
  same_on (str_arena c) (str_arena c') ((indices c ≫= ch') ++ ex) /\
  (indices c ≫= ch') ⊆ (indices c ≫= ch) /\
  (exists alive, NoDup alive /\ live_count c' = Z.of_nat (length alive) /\
     forall i, i ∈ alive <->
       exists x, cells c !! i = Some x /\ ty x <> FE_TFREE /\ reach (cells c) (gc_roots c) i) /\
  gcstack c' = gcstack c /\ modulestack c' = modulestack c /\ symlist c' = symlist c /\
  loaded_module_values c' = loaded_module_values c /\ length (cells c') = length (cells c).

Lemma collect_spec c X fl ch sfl ex :
  heap_ok c X fl ch sfl ex ->
  exists c' fl' ch' sfl', collectgarbage c = Done tt c' /\
    heap_ok c' X fl' ch' sfl' ex /\ gc_effect c c' fl fl' ch ch' ex.
Proof.
  intros Hok. destruct (mark_phase _ _ _ _ _ _ Hok) as (cs1 & Hmark & Hrun).
  unfold collectgarbage. unfold bind at 1, get at 1. rewrite Hrun.
  destruct (sweep_phase _ _ _ _ _ _ _ Hok Hmark)
    as (cs' & f' & A' & m' & sfl' & E & _ & Hsw & Hlen & Hfl & Hown & Hsame & Hm & Hob).
  unfold bind at 1. rewrite E. unfold bind at 1, get. unfold bind at 1, lift_spans.
  set (c2 := upd cs' f' A' m' c) in *.
  destruct (prune_phase (fe_ctx_object_is_live c2) m' _ (spans c) Hm Hob
    (ho_spans _ _ _ _ _ _ Hok)) as (m3 & o3 & E3 & Hm3 & Hob3 & Hb3).
  change (rt_mem (rt c2)) with m'. change (spans c2) with (spans c). rewrite E3.
  unfold modify. eexists _, _, (ch_after ch cs1), sfl'. split; [done |].
  fold (indices c) in Hsw, Hfl, Hown, Hsame, Hob3, E. rewrite (bind_spared cs1 ch) in Hown, Hsame.
  fold (ch_after ch cs1) in Hown, Hsame.
  pose proof (grows_length _ _ (proj1 Hmark)) as Hlen1.
  match goal with |- heap_ok ?c' _ _ _ _ _ /\ _ => set (cf := c') end.
  assert (cells cf = cs' /\ freelist cf = f' /\ slabs (str_arena cf) = slabs A' /\
    str_freelist (str_arena cf) = str_freelist A' /\ rt_mem (rt cf) = m3 /\ spans cf = o3 /\
    gcstack cf = gcstack c) as (Ec & Ef & Es & Esf & Em & Eo & Eg) by done.
  assert (forall o, slab_at (str_arena cf) o = slab_at A' o) as Hsl by done.
  split.
  - eapply heap_ok_after; [exact Hok | exact Hmark | congruence | done | | | | | | |].
    + intros i Hi. rewrite Ec. apply Hsw. lia.
    + rewrite Ec, Ef. exact Hfl.
    + destruct Hown as (Ho1 & Ho2 & Ho3 & Ho4). split; [exact Ho1 |]. split; [| done].
      rewrite Esf. eapply flist_frame; [| exact Ho2]. done.
    + intros o Ho. rewrite Hsl. by apply Hsame.
    + by rewrite Em.
    + by rewrite Em, Eo.
    + by rewrite Eo.
  - split; [| split; [| split; [| split; [| split; [| split]]]]].
    + intros i x Ei Hf Hr. rewrite Ec.
      assert (dies cs1 i = false) as Hd.
      { apply not_true_is_false. rewrite (dies_iff _ _ _ _ _ _ _ Hok Hmark). naive_solver. }
      pose proof (swept_cases _ _ _ _ _ _ _ _ _ Hok Hmark (Hsw i ltac:(apply lookup_lt_Some in Ei; lia))) as H.
      rewrite Ei, Hd in H. destruct H as (y & -> & _ & _ & _ & Heq).
      split; [by rewrite Heq | unfold ch_after; by rewrite Hd].
    + intros i. rewrite elem_of_app, <- Permutation_rev. unfold reclaimed.
      rewrite list_elem_of_filter, (dies_iff _ _ _ _ _ _ _ Hok Hmark). unfold indices.
      rewrite elem_of_seq. split; [naive_solver |]. intros [H | (x & Ei & H)]; [by right | left].
      split; [by exists x |]. apply lookup_lt_Some in Ei. lia.
    + intros i Hi. rewrite Ec. by eapply fchain_free.
    + intros o Ho. rewrite Hsl. by apply Hsame.
    + intros o (i & Ho & Hi)%list_elem_of_bind. apply list_elem_of_bind. exists i.
      unfold ch_after in Ho. by destruct (dies cs1 i); [apply not_elem_of_nil in Ho |].
    + exists (filter (fun j => lives cs1 j = true) (indices c)).
      split; [apply NoDup_filter, NoDup_seq |]. split; [done |].
      intros i. rewrite list_elem_of_filter, (lives_iff _ _ _ _ _ _ _ Hok Hmark). unfold indices.
      rewrite elem_of_seq. split; [naive_solver |]. intros (x & Ei & H).
      split; [by exists x |]. apply lookup_lt_Some in Ei. lia.
    + do 4 (split; [done |]). rewrite Ec. congruence.
Qed.

(** ** What a sequence of collections preserves

    [since c0 ch0 c ch]: [c] came from [c0] by collections and string
    allocations; the objects reachable in [c0] are the same and own the same
    slabs. *)
Record since (c0 : fe_Context) (ch0 : nat -> list Z) (c : fe_Context) (ch : nat -> list Z) : Prop :=
  MkSince {
  si_roots : gc_roots c = gc_roots c0;
  si_gcstack : gcstack c = gcstack c0;
  si_length : length (cells c) = length (cells c0);
  si_cells j x : cells c0 !! j = Some x -> ty x <> FE_TFREE ->
    reach (cells c0) (gc_roots c0) j -> cells c !! j = Some x /\ ch j = ch0 j
}.

Lemma since_refl c ch : since c ch c ch.
Proof. by split. Qed.

Lemma since_reach c0 ch0 c ch j x :
  since c0 ch0 c ch -> cells c0 !! j = Some x -> ty x <> FE_TFREE ->
  reach (cells c0) (gc_roots c0) j -> reach (cells c) (gc_roots c) j.
Proof.
  intros Hs Ex Hf H. rewrite (si_roots _ _ _ _ Hs). revert x Ex Hf.
  induction H as [i Hi _ | i y l j Hr IH Ey Hl Hin _]; intros x Ex Hf.
  - apply reach_root; [done |]. destruct (si_cells _ _ _ _ Hs i x Ex Hf) as [-> _]; [| by eexists].
    apply reach_root; [done | by eexists].
  - assert (ty y <> FE_TFREE) as Hfy.
    { intros Hy. unfold children in Hl. rewrite Hy in Hl. simplify_eq. by apply not_elem_of_nil in Hin. }
    destruct (si_cells _ _ _ _ Hs i y Ey Hfy Hr) as [Ey' _].
    destruct (si_cells _ _ _ _ Hs j x Ex Hf) as [Ex' _].
    { eapply reach_step; [exact Hr | done | done | done | by eexists]. }
    eapply reach_step; [by eapply IH | done | done | done | by eexists].
Qed.

Lemma since_gc c0 ch0 c ch c' fl fl' ch' ex :
  since c0 ch0 c ch -> gc_effect c c' fl fl' ch ch' ex -> since c0 ch0 c' ch'.
Proof.
  intros Hs (Hkeep & _ & _ & _ & _ & _ & Hg & Hm & Hsy & Hlo & Hlen).
  assert (gc_roots c' = gc_roots c) as Hr by (unfold gc_roots; by rewrite Hg, Hm, Hsy, Hlo).
  split.
  - rewrite Hr. apply Hs.
  - rewrite Hg. apply Hs.
  - rewrite Hlen. apply Hs.
  - intros j x Ex Hf Hreach. destruct (si_cells _ _ _ _ Hs j x Ex Hf Hreach) as [Ej Hch].
    destruct (Hkeep j x Ej Hf) as [? ?]; [by eapply since_reach | split; [done | congruence]].
Qed.

(** The collector as the string allocator sees it. *)
Program Definition SlabClient_since (c0 : fe_Context) (X : list nat) (ch0 : nat -> list Z)
  : SlabClient fe_Context collectgarbage :=
  {| slab_inv c live sfl ex := exists fl ch, heap_ok c X fl ch sfl ex /\ live = indices c ≫= ch /\
       since c0 ch0 c ch |}.
Next Obligation. intros c0 X ch0 c live sfl ex (fl & ch & H & -> & _). apply H. Qed.
Next Obligation.
  intros c0 X ch0 c live sfl ex A' sfl' ex' (fl & ch & H & -> & Hs) Hown Hsame.
  exists fl, ch. split; [| split; [done |]].
  - destruct H. split; try done.
    intros j x E HX. eapply data_cell_same; [| by eapply ho_strings0].
    intros o Ho. apply Hsame, list_elem_of_bind. exists j. split; [done |].
    apply elem_of_seq. apply lookup_lt_Some in E. simpl in E. lia.
  - destruct Hs. by split.
Qed.
Next Obligation.
  intros c0 X ch0 c live sfl ex (fl & ch & H & -> & Hs).
  destruct (collect_spec _ _ _ _ _ _ H) as (c' & fl' & ch' & sfl' & E & Hok' & Heff).
  pose proof (since_gc _ _ _ _ _ _ _ _ _ Hs Heff) as Hs'.
  destruct Heff as (_ & _ & _ & Hsame & Hsub & _ & _ & _ & _ & _ & Hlen).
  assert (indices c' = indices c) as Hi by (unfold indices; by rewrite Hlen).
  exists c', (indices c' ≫= ch'), sfl'. split; [done |].
  split; [by exists fl', ch' |]. by rewrite Hi.
Qed.
