(* ===== verification/GcAlloc.v ===== *)
(** * Allocation returns fresh objects and disturbs no reachable one *)

From Stdlib Require Import ZArith Lia Ascii String.
From stdpp Require Import base list sets gmap.
From S2P Require Import Prelude Number Memory Budget MapTable MapSpec Slab SlabSpec Span Ctx Gc GcMark GcSweep GcSpec.

(** Reachable objects, their slabs and the contents of their slabs are the
    same in [c'] as in [c]. *)
Definition preserves (c : fe_Context) (ch : nat -> list Z) (c' : fe_Context) (ch' : nat -> list Z) : Prop :=
  length (cells c') = length (cells c) /\
  forall j x, cells c !! j = Some x -> ty x <> FE_TFREE -> reach (cells c) (gc_roots c) j ->
    cells c' !! j = Some x /\ ch' j = ch j /\ same_on (str_arena c) (str_arena c') (ch j).

(** No reachable object in use has the index [i]. *)
Definition fresh (c : fe_Context) (i : nat) : Prop :=
  forall x, cells c !! i = Some x -> ty x <> FE_TFREE -> ~ reach (cells c) (gc_roots c) i.

Lemma ch_in_slabs c (ch : nat -> list Z) j x :
  cells c !! j = Some x -> forall o, o ∈ ch j -> o ∈ indices c ≫= ch.
Proof.
  intros E o Ho. apply list_elem_of_bind. exists j. split; [done |]. apply elem_of_seq.
  apply lookup_lt_Some in E. lia.
Qed.

Lemma preserves_gc c c' fl fl' ch ch' ex : gc_effect c c' fl fl' ch ch' ex -> preserves c ch c' ch'.
Proof.
  intros (Hkeep & _ & _ & Hsame & _ & _ & _ & _ & _ & _ & Hlen). split; [done |].
  intros j x E Hf Hr. destruct (Hkeep j x E Hf Hr) as [E' Hch]. split; [done |]. split; [done |].
  intros o Ho. apply Hsame, elem_of_app. left. eapply ch_in_slabs; [exact E |]. by rewrite Hch.
Qed.

(** Popping the head of the free list. *)
Lemma pop_free c X fl ch sfl ex i nxt :
  heap_ok c X fl ch sfl ex -> freelist c = Ref i -> cdr_of (Ref i) c = Done nxt c ->
  exists fl' x, fl = i :: fl' /\ cells c !! i = Some x /\ ty x = FE_TFREE /\ i ∉ fl' /\
    heap_ok (with_freelist nxt c) X fl' ch sfl ex.
Proof.
  intros H E Hn. pose proof (ho_free _ _ _ _ _ _ H) as Hfl. rewrite E in Hfl.
  inversion Hfl as [| ? x o fl' Ex Ht Hd Hr]; subst.
  assert (nxt = o) as ->.
  { unfold cdr_of, bind, read_cell in Hn. rewrite Ex, Hd in Hn. by inversion Hn. }
  pose proof (ho_free_nodup _ _ _ _ _ _ H) as [Hni Hnd]%NoDup_cons.
  exists fl', x. split; [done |]. split; [done |]. split; [done |]. split; [done |].
  destruct H. by split.
Qed.

(** Fields the well-formedness of the heap does not read, and a longer root
    stack. *)
Lemma heap_ok_fields c X fl ch sfl ex c' :
  heap_ok c X fl ch sfl ex -> cells c' = cells c -> freelist c' = freelist c ->
  str_arena c' = str_arena c -> rt_mem (rt c') = rt_mem (rt c) -> spans c' = spans c ->
  gcstack c ⊆ gcstack c' -> heap_ok c' X fl ch sfl ex.
Proof.
  intros H E1 E2 E3 E4 E5 Hs. pose proof (ho_X _ _ _ _ _ _ H) as HX. destruct H.
  split; unfold indices in *; rewrite ?E1, ?E2, ?E3, ?E4, ?E5; try done.
  intros j Hj. destruct (HX j Hj) as [? ?]. split; [by apply Hs | done].
Qed.

Lemma free_head c X fl ch sfl ex :
  heap_ok c X fl ch sfl ex -> freelist c <> Nil ->
  exists i o, freelist c = Ref i /\ cdr_of (Ref i) c = Done o c.
Proof.
  intros H Hn. pose proof (ho_free _ _ _ _ _ _ H) as Hfl.
  inversion Hfl as [E | i x o fl' Ex Ht Hd Hr E]; [congruence |]. exists i, o. split; [done |].
  unfold cdr_of, bind, read_cell. by rewrite Ex, Hd.
Qed.

(** What an allocation without initialisation returns. *)
Definition allocated (c : fe_Context) (ch : nat -> list Z) (X : list nat) (ex : list Z)
    (i : nat) (c' : fe_Context) : Prop :=
  exists fl' ch' sfl' x, heap_ok c' X fl' ch' sfl' ex /\ cells c' !! i = Some x /\
    ty x = FE_TFREE /\ i ∉ fl' /\ gcstack c' = gcstack c ++ [Ref i] /\
    gc_roots c ⊆ gc_roots c' /\ preserves c ch c' ch' /\ fresh c i.

Lemma object_tail c0 ch0 c X fl ch sfl ex :
  heap_ok c X fl ch sfl ex -> freelist c <> Nil -> gcstack c = gcstack c0 ->
  gc_roots c = gc_roots c0 -> preserves c0 ch0 c ch -> (forall i, i ∈ fl -> fresh c0 i) ->
  let r := (let o := freelist c in
    let* nxt := cdr_of o in
    modify (fun c => with_freelist nxt c) ;;;
    modify (fun c => with_allocs_since_gc (i32 (allocs_since_gc c + 1)) c) ;;;
    modify (fun c => with_object_allocations_total (u64 (object_allocations_total c + 1)) c) ;;;
    fe_pushgc o ;;; ret o) c in
  (exists i c', r = Done (Ref i) c' /\ allocated c0 ch0 X ex i c') \/
  (length (gcstack c0) = GCSTACKSIZE /\ exists c', r = Raised "gc stack overflow" c').
Proof.
  intros H Hn Hg Hgr Hp Hfr r. subst r.
  destruct (free_head _ _ _ _ _ _ H Hn) as (i & o & Ei & Ec).
  destruct (pop_free _ _ _ _ _ _ _ _ H Ei Ec) as (fl' & x & -> & Ex & Ht & Hni & H').
  cbv zeta. rewrite Ei. unfold bind. rewrite Ec. unfold modify, fe_pushgc, bind, get, put, ret.
  set (c1 := with_object_allocations_total _ _).
  assert (gcstack c1 = gcstack c0) as Hg1 by (by rewrite <- Hg).
  rewrite Hg1. case_decide as Hov; [right; split; [done | by eexists] | left].
  exists i. eexists. split; [done |]. exists fl', ch, sfl, x.
  split; [| split; [done | split; [done | split; [done | split; [done | split; [| split]]]]]].
  - eapply heap_ok_fields; [exact H' | done.. |]. simpl. rewrite Hg. set_solver.
  - rewrite <- Hgr. unfold gc_roots. simpl. rewrite Hg, List.filter_app. set_solver.
  - done.
  - apply Hfr. by left.
Qed.

Lemma object_spec c X fl ch sfl ex :
  heap_ok c X fl ch sfl ex ->
  (exists i c', object c = Done (Ref i) c' /\ allocated c ch X ex i c') \/
  (exists c', object c = Raised "gc stack overflow" c' /\ length (gcstack c) = GCSTACKSIZE) \/
  (exists c', object c = Raised "out of memory" c' /\ fl = [] /\
     forall i x, cells c !! i = Some x -> ty x <> FE_TFREE -> ~ fresh c i).
Proof.
  intros H. unfold object, bind, get. cbv beta.
  destruct ((gc_threshold c <=? allocs_since_gc c) || _ || _) eqn:Htrig.
  - destruct (collect_spec _ _ _ _ _ _ H) as (c1 & fl1 & ch1 & sfl1 & E1 & H1 & Heff).
    rewrite E1.
    destruct (isnil (freelist c1)) eqn:Hnil.
    + right; right. unfold fe_error. eexists. split; [done |].
      apply bool_decide_eq_true in Hnil. pose proof (ho_free _ _ _ _ _ _ H1) as Hfl. rewrite Hnil in Hfl.
      inversion Hfl; subst. destruct Heff as (_ & Hiff & _). split.
      * destruct fl as [| i fl]; [done |]. exfalso. apply (not_elem_of_nil i), Hiff. left. by left.
      * intros i x E Hf Hfr. apply (not_elem_of_nil i), Hiff. right. exists x. eauto.
    + apply bool_decide_eq_false in Hnil. 
      pose proof (preserves_gc _ _ _ _ _ _ _ Heff) as Hp.
      destruct Heff as (_ & Hiff & _ & _ & _ & _ & Hg & Hms & Hsy & Hlo & _).
      assert (gc_roots c1 = gc_roots c) as Hgr by (unfold gc_roots; congruence).
      destruct (object_tail c ch c1 X fl1 ch1 sfl1 ex H1 Hnil Hg Hgr Hp) as [Hr | [Hl [c' Hr]]].
      * intros i [Hi | (x & E & Hf & Hn)]%Hiff x' E' Hf'.
        -- destruct (fchain_free _ _ _ _ (ho_free _ _ _ _ _ _ H) Hi) as (? & ? & ?). congruence.
        -- by simplify_eq.
      * left. exact Hr.
      * right; left. exists c'. by split.
  - apply orb_false_iff in Htrig as [_ Hnil]. apply bool_decide_eq_false in Hnil.
    
    destruct (object_tail c ch c X fl ch sfl ex H Hnil eq_refl eq_refl) as [Hr | [Hl [c' Hr]]].
    + split; [done |]. done.
    + intros i Hi x E Hf. destruct (fchain_free _ _ _ _ (ho_free _ _ _ _ _ _ H) Hi) as (? & ? & ?). congruence.
    + left. exact Hr.
    + right; left. exists c'. by split.
Qed.

(** ** Initialising a fresh cell *)

Lemma bind_blocks_same cs i x y :
  cs !! i = Some x -> cell_blocks x = [] -> cell_blocks y = [] ->
  forall j, blocks_at (<[i := y]> cs) j = blocks_at cs j.
Proof.
  intros E Hx Hy j. unfold blocks_at. destruct (decide (j = i)) as [-> | Hne].
  - rewrite list_lookup_insert_eq by (by eapply lookup_lt_Some). by rewrite E, Hx, Hy.
  - by rewrite list_lookup_insert_ne.
Qed.

Lemma fchain_insert cs o fl i y : i ∉ fl -> fchain cs o fl -> fchain (<[i := y]> cs) o fl.
Proof.
  intros Hi. apply fchain_frame. intros j Hj. apply list_lookup_insert_ne. by intros ->.
Qed.

(** An object without slabs and blocks, stored in a free cell; when it is a
    string or byte object it is under construction. *)
Lemma heap_ok_store c X X' fl ch sfl ex i x y :
  heap_ok c X fl ch sfl ex -> cells c !! i = Some x -> ty x = FE_TFREE -> i ∉ fl ->
  gcmark y = false -> is_Some (children y) -> ty y <> FE_TMAP ->
  X ⊆ X' -> (is_data (ty y) = true -> i ∈ X') ->
  (forall j, j ∈ X' -> j ∈ X \/ (j = i /\ Ref i ∈ gcstack c /\ ty y <> FE_TFREE)) ->
  heap_ok (with_cells (<[i := y]> (cells c)) c) X' fl ch sfl ex.
Proof.
  intros H E Ht Hi Hm Hc Hmap Hsub HX HX'. pose proof (ho_ch _ _ _ _ _ _ H i x E) as Hch.
  assert (forall j z, <[i := y]> (cells c) !! j = Some z ->
    (j = i /\ z = y) \/ (j <> i /\ cells c !! j = Some z)) as Hlk.
  { intros j z [(-> & -> & _) | (? & ?)]%list_lookup_insert_Some; [by left | by right]. }
  assert (forall A (f : nat -> list A),
    indices (with_cells (<[i := y]> (cells c)) c) ≫= f = indices c ≫= f) as Hidx.
  { intros A f. unfold indices. simpl. by rewrite length_insert. }
  destruct H as [H1 H2 H3 H4 H5 H6 H7 H8 H9 H10 H11 H12]. split; rewrite ?Hidx; simpl; try done.
  - intros j z [(-> & ->) | (_ & ?)]%Hlk; [done | by eapply H1].
  - intros j z [(-> & ->) | (_ & ?)]%Hlk; [done | by eapply H2].
  - by apply fchain_insert.
  - intros j z [(-> & ->) | (_ & ?)]%Hlk; [by intros ? ? | by eapply H5].
  - intros j z [(-> & ->) | (_ & ?)]%Hlk; [| by eapply H6].
    intros _. apply Hch. by rewrite Ht.
  - intros j [Hj | (-> & Hg & Hty)]%HX'.
    + destruct (H7 j Hj) as (? & ? & z & Ez & ?). split; [done |]. split; [done |]. exists z.
      rewrite list_lookup_insert_ne; [done |]. intros ->. congruence.
    + split; [done |]. split; [apply Hch; by rewrite Ht |]. exists y. split; [| done].
      apply list_lookup_insert_eq. by eapply lookup_lt_Some.
  - intros j z [(-> & ->) | (_ & ?)]%Hlk HnX.
    + intros Hd. by destruct (HnX (HX Hd)).
    + eapply H8; [done |]. intros ?. by apply HnX, Hsub.
  - rewrite (seq_bind_ext _ (blocks_at (cells c))); [done |].
    eapply bind_blocks_same; [exact E | | ].
    + unfold cell_blocks. by rewrite Ht.
    + unfold cell_blocks. by destruct (ty y).
Qed.

Lemma preserves_store c ch c' ch' i y :
  preserves c ch c' ch' -> fresh c i -> preserves c ch (with_cells (<[i := y]> (cells c')) c') ch'.
Proof.
  intros [Hl Hp] Hf. split; [simpl; by rewrite length_insert |]. intros j x E Ht Hr.
  destruct (Hp j x E Ht Hr) as (E' & ? & ?). split; [| done]. simpl.
  rewrite list_lookup_insert_ne; [done |]. intros ->. by apply (Hf x).
Qed.

Lemma init_cell i t v w c x :
  cells c !! i = Some x ->
  (settype (Ref i) t ;;; setcar (Ref i) v ;;; setcdr (Ref i) w) c
  = Done tt (with_cells (<[i := MkCell t false v w]> (cells c)) c).
Proof.
  intros E. pose proof (lookup_lt_Some _ _ _ E) as Hi.
  unfold settype, setcar, setcdr, bind, read_cell, write_cell.
  repeat (rewrite E || rewrite list_lookup_insert_eq by (rewrite ?length_insert; done);
    cbn [cells with_cells ty gcmark car cdr]).
  unfold with_cells. cbn [cells]. by rewrite !list_insert_insert_eq.
Qed.

(** What a constructor that leaves [y] in a fresh cell returns. *)
Definition constructed (c : fe_Context) (ch : nat -> list Z) (X : list nat) (ex : list Z) (y : cell)
    (r : outcome fe_Context obj) : Prop :=
  match r with
  | Done o c' => exists i fl' ch' sfl', o = Ref i /\ heap_ok c' X fl' ch' sfl' ex /\
      cells c' !! i = Some y /\ gcstack c' = gcstack c ++ [Ref i] /\
      gc_roots c ⊆ gc_roots c' /\ preserves c ch c' ch' /\ fresh c i
  | Raised msg _ => msg = "out of memory"%string \/ msg = "gc stack overflow"%string
  | Stuck | NoFuel => False
  end.

Lemma store_constructed c ch X ex i c1 y :
  allocated c ch X ex i c1 -> gcmark y = false -> is_Some (children y) ->
  is_data (ty y) = false -> ty y <> FE_TMAP ->
  constructed c ch X ex y (Done (Ref i) (with_cells (<[i := y]> (cells c1)) c1)).
Proof.
  intros (fl' & ch' & sfl' & x & H & E & Ht & Hi & Hg & Hgr & Hp & Hf) Hm Hc Hd Hmap.
  exists i, fl', ch', sfl'. split; [done |]. split; [| split; [| split; [done | split; [done | split]]]].
  - eapply heap_ok_store; [exact H | exact E | done | done | done | done | done | done | congruence |].
    intros j Hj. by left.
  - simpl. apply list_lookup_insert_eq. by eapply lookup_lt_Some.
  - by apply preserves_store.
  - done.
Qed.

Lemma fe_cons_constructed a d c X fl ch sfl ex :
  heap_ok c X fl ch sfl ex ->
  constructed c ch X ex (MkCell FE_TPAIR false (VObj a) (VObj d)) (fe_cons a d c).
Proof.
  intros H. unfold fe_cons. destruct (object_spec c X fl ch sfl ex H)
    as [(i & c1 & E1 & Ha) | [(c1 & E1 & _) | (c1 & E1 & _ & _)]]; unfold bind at 1; rewrite E1;
    [| by right | by left].
  pose proof Ha as (_ & _ & _ & x & _ & Ex & _).
  assert ((settype (Ref i) FE_TPAIR ;;; setcar (Ref i) (VObj a) ;;; setcdr (Ref i) (VObj d) ;;;
    ret (Ref i)) c1 = Done (Ref i) (with_cells (<[i := MkCell FE_TPAIR false (VObj a) (VObj d)]> (cells c1)) c1))
    as ->.
  { pose proof (init_cell i FE_TPAIR (VObj a) (VObj d) c1 x Ex) as Hi. unfold bind in *.
    destruct (settype _ _ c1); [| done..]. destruct (setcar _ _ _); [| done..]. by rewrite Hi. }
  by apply store_constructed.
Qed.

(** ** Strings and byte buffers *)

Definition own_slabs (ch : nat -> list Z) (i : nat) (os : list Z) (j : nat) : list Z :=
  if decide (j = i) then os else ch j.

Lemma bind_own_slabs (ch : nat -> list Z) i os l :
  NoDup l -> i ∈ l -> ch i = [] -> l ≫= own_slabs ch i os ≡ₚ (l ≫= ch) ++ os.
Proof.
  intros Hnd Hi Hc. induction Hnd as [| j l Hj Hnd IH]; [by apply not_elem_of_nil in Hi |].
  assert (i ∉ l -> l ≫= own_slabs ch i os = l ≫= ch) as Hsame.
  { clear -Hc. induction l as [| k l IH]; intros Hn; [done |]. apply not_elem_of_cons in Hn as [? Hn].
    rewrite !bind_cons, (IH Hn). unfold own_slabs. by rewrite decide_False. }
  rewrite !bind_cons. unfold own_slabs at 1. destruct (decide (j = i)) as [-> | Hne].
  - rewrite Hsame by done. rewrite Hc. simpl. apply Permutation_app_comm.
  - apply elem_of_cons in Hi as [-> | Hi]; [done |]. rewrite (IH Hi). by rewrite app_assoc.
Qed.

(** Completing an object under construction with its chain. *)
Lemma heap_ok_finish c X fl ch sfl i x os off s :
  heap_ok c (i :: X) fl ch sfl os -> i ∉ X -> cells c !! i = Some x -> is_data (ty x) = true ->
  car x = VObj (Fix (Z.of_nat (length s))) -> holds (str_arena c) off os s ->
  heap_ok (with_cells (<[i := MkCell (ty x) false (car x) (VSlab off)]> (cells c)) c)
    X fl (own_slabs ch i os) sfl [].
Proof.
  intros H HiX E Hd Hcar Hh. set (y := MkCell (ty x) false (car x) (VSlab off)).
  assert (forall j z, <[i := y]> (cells c) !! j = Some z ->
    (j = i /\ z = y) \/ (j <> i /\ cells c !! j = Some z)) as Hlk.
  { intros j z [(-> & -> & _) | (? & ?)]%list_lookup_insert_Some; [by left | by right]. }
  assert (forall A (f : nat -> list A),
    indices (with_cells (<[i := y]> (cells c)) c) ≫= f = indices c ≫= f) as Hidx.
  { intros A f. unfold indices. simpl. by rewrite length_insert. }
  assert (ty x <> FE_TFREE /\ ty x <> FE_TMAP) as [Hnf Hnm] by (by destruct (ty x)).
  destruct (ho_X _ _ _ _ _ _ H i ltac:(by left)) as (_ & Hci & _).
  assert (i ∉ fl) as Hifl.
  { intros Hin. destruct (fchain_free _ _ _ _ (ho_free _ _ _ _ _ _ H) Hin) as (? & ? & ?). congruence. }
  destruct H as [H1 H2 H3 H4 H5 H6 H7 H8 H9 H10 H11 H12]. split; rewrite ?Hidx; simpl; try done.
  - intros j z [(-> & ->) | (_ & ?)]%Hlk; [| by eapply H1]. unfold children; simpl. by destruct (ty x).
  - intros j z [(-> & ->) | (_ & ?)]%Hlk; [done | by eapply H2].
  - by apply fchain_insert.
  - intros j z [(-> & ->) | (_ & ?)]%Hlk; [by intros ? ? | by eapply H5].
  - intros j z [(-> & ->) | (? & ?)]%Hlk Hnd; [simpl in Hnd; congruence |].
    unfold own_slabs. rewrite decide_False by done. by eapply H6.
  - intros j Hj. destruct (H7 j ltac:(by right)) as (? & ? & z & Ez & ?).
    assert (j <> i) by (by intros ->). unfold own_slabs. rewrite decide_False by done.
    split; [done |]. split; [done |]. exists z. by rewrite list_lookup_insert_ne.
  - intros j z [(-> & ->) | (? & ?)]%Hlk HnX; unfold own_slabs.
    + rewrite decide_True by done. intros _. exists off, s. done.
    + rewrite decide_False by done. eapply H8; [done |]. set_solver.
  - rewrite app_nil_r. eapply own_perm; [| exact H9]. symmetry. apply bind_own_slabs; [| | done].
    + apply NoDup_seq.
    + apply elem_of_seq. apply lookup_lt_Some in E. lia.
  - rewrite (seq_bind_ext _ (blocks_at (cells c))); [done |].
    eapply bind_blocks_same; [exact E | | ].
    + unfold cell_blocks. by destruct (ty x).
    + unfold cell_blocks; simpl. by destruct (ty x).
Qed.

Lemma preserves_reach c ch c' ch' j x :
  preserves c ch c' ch' -> gc_roots c ⊆ gc_roots c' -> cells c !! j = Some x -> ty x <> FE_TFREE ->
  reach (cells c) (gc_roots c) j -> reach (cells c') (gc_roots c') j.
Proof.
  intros [_ Hp] Hsub Ex Hf H. revert x Ex Hf.
  induction H as [i Hi _ | i y l j Hr IH Ey Hl Hin _]; intros x Ex Hf.
  - apply reach_root; [by apply Hsub |]. destruct (Hp i x Ex Hf) as [-> _]; [| by eexists].
    apply reach_root; [done | by eexists].
  - assert (ty y <> FE_TFREE) as Hfy.
    { intros Hy. unfold children in Hl. rewrite Hy in Hl. simplify_eq. by apply not_elem_of_nil in Hin. }
    destruct (Hp i y Ey Hfy Hr) as [Ey' _].
    destruct (Hp j x Ex Hf) as [Ex' _].
    { eapply reach_step; [exact Hr | done | done | done | by eexists]. }
    eapply reach_step; [by eapply IH | done | done | done | by eexists].
Qed.

Lemma preserves_trans a cha b chb d chd :
  preserves a cha b chb -> gc_roots a ⊆ gc_roots b -> preserves b chb d chd -> preserves a cha d chd.
Proof.
  intros Hab Hsub [Hl2 Hp2]. pose proof Hab as [Hl1 Hp1]. split; [congruence |].
  intros j x E Hf Hr. destruct (Hp1 j x E Hf Hr) as (E1 & Hc1 & Hs1).
  destruct (Hp2 j x E1 Hf) as (E2 & Hc2 & Hs2); [by eapply preserves_reach |].
  split; [done |]. split; [congruence |]. intros o Ho. rewrite Hs2 by (by rewrite Hc1). by apply Hs1.
Qed.

Lemma since_preserves c ch c' ch' live' :
  since c ch c' ch' -> live' = indices c' ≫= ch' -> same_on (str_arena c) (str_arena c') live' ->
  preserves c ch c' ch'.
Proof.
  intros Hs -> Hsame. split; [apply Hs |]. intros j x E Hf Hr.
  destruct (si_cells _ _ _ _ Hs j x E Hf Hr) as [E' Hch]. split; [done |]. split; [done |].
  intros o Ho. apply Hsame. eapply ch_in_slabs; [exact E' |]. by rewrite Hch.
Qed.

(** What a constructor of a string or byte object returns. *)
Definition data_constructed (c : fe_Context) (ch : nat -> list Z) (X : list nat) (tag : fe_type)
    (s : chars) (r : outcome fe_Context obj) : Prop :=
  match r with
  | Done o c' => exists i fl' ch' sfl' off, o = Ref i /\ heap_ok c' X fl' ch' sfl' [] /\
      cells c' !! i = Some (MkCell tag false (VObj (Fix (Z.of_nat (length s)))) (VSlab off)) /\
      holds (str_arena c') off (ch' i) s /\ gcstack c' = gcstack c ++ [Ref i] /\
      gc_roots c ⊆ gc_roots c' /\ preserves c ch c' ch' /\ fresh c i
  | Raised msg _ =>
      msg = "out of memory"%string \/ msg = "gc stack overflow"%string \/ msg = OOM
  | Stuck | NoFuel => False
  end.

Lemma gc_roots_cells cs c : gc_roots (with_cells cs c) = gc_roots c.
Proof. done. Qed.

Lemma with_cells_twice i x y c :
  with_cells (<[i := x]> (cells (with_cells (<[i := y]> (cells c)) c))) (with_cells (<[i := y]> (cells c)) c)
  = with_cells (<[i := x]> (cells c)) c.
Proof. unfold with_cells. cbn [cells]. by rewrite list_insert_insert_eq. Qed.

Lemma setcdr_run i w c x :
  cells c !! i = Some x ->
  setcdr (Ref i) w c = Done tt (with_cells (<[i := MkCell (ty x) (gcmark x) (car x) w]> (cells c)) c).
Proof. intros E. unfold setcdr, bind, read_cell, write_cell. by rewrite !E. Qed.

Lemma set_type_car i t v c x :
  cells c !! i = Some x ->
  (settype (Ref i) t ;;; setcar (Ref i) v) c
  = Done tt (with_cells (<[i := MkCell t false v (cdr x)]> (cells c)) c).
Proof.
  intros E. pose proof (lookup_lt_Some _ _ _ E) as Hi.
  unfold settype, setcar, bind, read_cell, write_cell.
  repeat (rewrite E || rewrite list_lookup_insert_eq by (rewrite ?length_insert; done);
    cbn [cells with_cells ty gcmark car cdr]).
  unfold with_cells. cbn [cells]. by rewrite !list_insert_insert_eq.
Qed.

Lemma make_data_obj_constructed tag s c X fl ch sfl :
  is_data tag = true -> heap_ok c X fl ch sfl [] ->
  data_constructed c ch X tag s (make_data_obj tag s c).
Proof.
  intros Htag H. unfold make_data_obj.
  destruct (object_spec c X fl ch sfl [] H)
    as [(i & c1 & E1 & Ha) | [(c1 & E1 & _) | (c1 & E1 & _ & _)]]; unfold bind at 1; rewrite E1;
    [| by right; left | by left].
  destruct Ha as (fl1 & ch1 & sfl1 & x & H1 & Ex & Ht & Hi1 & Hg1 & Hgr1 & Hp1 & Hf1).
  set (v := VObj (Fix (Z.of_nat (length s)))).
  pose proof (set_type_car i tag v c1 x Ex) as Est. set (y := MkCell tag false v (cdr x)) in *.
  set (c2 := with_cells (<[i := y]> (cells c1)) c1) in *.
  unfold bind in Est |- *. destruct (settype (Ref i) tag c1); [| done..]. rewrite Est.
  assert (i ∉ X) as HiX.
  { intros HX. destruct (ho_X _ _ _ _ _ _ H1 i HX) as (_ & _ & z & Ez & Hz). congruence. }
  assert (tag <> FE_TFREE /\ tag <> FE_TMAP) as [Hnf Hnm] by (by destruct tag).
  assert (heap_ok c2 (i :: X) fl1 ch1 sfl1 []) as H2.
  { eapply heap_ok_store; [exact H1 | exact Ex | done | done | done | | done | set_solver | by left |].
    - unfold children; simpl. by destruct tag.
    - intros j [-> | Hj]%elem_of_cons; [right | by left]. split; [done |]. split; [| done].
      rewrite Hg1. set_solver. }
  assert (cells c2 !! i = Some y) as Ey
    by (simpl; apply list_lookup_insert_eq; by eapply lookup_lt_Some).
  assert (preserves c ch c2 ch1) as Hp2 by (by apply preserves_store).
  destruct (alloc_spec collectgarbage (SlabClient0 := SlabClient_since c2 (i :: X) ch1) c2
    (indices c2 ≫= ch1) sfl1 s) as [(off & c3 & live' & sfl3 & os & E3 & Hinv & Hsub & Hh & Hsame) | (_ & _ & c3 & E3)].
  { exists fl1, ch1. split; [done |]. split; [done | apply since_refl]. }
  2:{ unfold error_resets. rewrite E3. by right; right. }
  unfold error_resets. rewrite E3. destruct Hinv as (fl3 & ch3 & H3 & Hlive & Hsince).
  pose proof (since_preserves _ _ _ _ _ Hsince Hlive Hsame) as Hp3.
  destruct (si_cells _ _ _ _ Hsince i y Ey Hnf) as [Ey3 _].
  { apply reach_root; [| by eexists]. eapply X_roots; [exact H2 | by left]. }
  rewrite (setcdr_run i (VSlab off) c3 y Ey3). unfold ret.
  exists i, fl3, (own_slabs ch3 i os), sfl3, off.
  split; [done |]. split; [by apply (heap_ok_finish c3 X fl3 ch3 sfl3 i y os off s) |].
  split; [simpl; apply list_lookup_insert_eq; by eapply lookup_lt_Some |].
  split; [unfold own_slabs; by rewrite decide_True |].
  split; [simpl; rewrite (si_gcstack _ _ _ _ Hsince); done |].
  split; [rewrite gc_roots_cells, (si_roots _ _ _ _ Hsince); done |].
  split; [| done].
  assert (preserves c ch c3 ch3) as [Hl Hp] by (eapply preserves_trans; [exact Hp2 | exact Hgr1 | exact Hp3]).
  split; [simpl; by rewrite length_insert |]. intros j z Ez Hz Hr.
  destruct (Hp j z Ez Hz Hr) as (E' & Hc' & Hs'). assert (j <> i) by (intros ->; by apply (Hf1 z)).
  unfold own_slabs. rewrite decide_False by done. split; [| done]. simpl. by rewrite list_lookup_insert_ne.
Qed.
