(* ===== verification/GcProps.v ===== *)
(** * The collector: initial heap, properties and examples *)

From Stdlib Require Import ZArith Lia Ascii String.
From stdpp Require Import base list sets gmap.
From S2P Require Import Prelude Number Memory Budget MapTable MapSpec Slab SlabSpec Span Host Ctx Gc GcMark GcSweep GcSpec GcAlloc.

(** ** The free list built by fe_open *)

(** [for (i = ...; i < object_count; i++)]: [n] objects from index [i] on. *)
Fixpoint populate_objects (n i : nat) : comp fe_Context unit :=
  match n with
  | O => ret tt
  | S n =>
      settype (Ref i) FE_TFREE ;;;
      let* c := get in
      setcdr (Ref i) (VObj (freelist c)) ;;;
      modify (with_freelist (Ref i)) ;;;
      populate_objects n (S i)
  end.

Definition GC_INITIAL_DIVISOR : Z := 4.
Definition FE_DEFAULT_MAX_EVAL_DEPTH : Z := 512.
Definition FE_DEFAULT_MAX_READ_DEPTH : Z := 512.

(** The context of fe_open before the two free lists are linked: zeroed
    fields, objects with unspecified contents. *)
Definition blank_context (n : nat) (A : StrArena) (m : Mem) (b : Budget) (base : Z) : fe_Context :=
  let th := Z.of_nat n / GC_INITIAL_DIVISOR in
  MkCtx (replicate n (MkCell FE_TPAIR false VAny VAny)) Nil [] Nil Nil [] []
    (MkSyms NULL NULL NULL NULL NULL NULL NULL NULL) A (MkRt m b) None
    0 0 (if th <? GC_MIN_THRESHOLD then GC_MIN_THRESHOLD else th)
    (Z.of_nat n * SIZEOF_OBJECT / 3) 0 0 base 0
    0 FE_DEFAULT_MAX_EVAL_DEPTH 0 FE_DEFAULT_MAX_READ_DEPTH [] [] new_host.

Definition open_heap (n : nat) (A : StrArena) (m : Mem) (b : Budget) (base : Z)
    : outcome fe_Context unit :=
  populate_objects n 0 (blank_context n A m b base).

(** The indices [i-1], ..., [0]. *)
Fixpoint down (i : nat) : list nat := match i with O => [] | S i => i :: down i end.

Lemma elem_of_down i j : j ∈ down i <-> (j < i)%nat.
Proof.
  induction i as [| i IH]; cbn [down]; [rewrite elem_of_nil; lia |].
  rewrite elem_of_cons, IH. lia.
Qed.

Lemma NoDup_down i : NoDup (down i).
Proof. induction i; cbn [down]; constructor; [| done]. rewrite elem_of_down. lia. Qed.

Definition all_free (cs : list cell) (i : nat) : Prop :=
  forall j x, (j < i)%nat -> cs !! j = Some x -> ty x = FE_TFREE.

Lemma populate_objects_spec n i c :
  (i + n = length (cells c))%nat -> fchain (cells c) (freelist c) (down i) -> all_free (cells c) i ->
  exists cs f, populate_objects n i c = Done tt (with_cells cs (with_freelist f c)) /\
    length cs = length (cells c) /\ fchain cs f (down (i + n)) /\ all_free cs (i + n).
Proof.
  revert i c. induction n as [| n IH]; intros i c Hn Hfl Hfree; cbn [populate_objects].
  { exists (cells c), (freelist c). rewrite Nat.add_0_r. split; [by destruct c | done]. }
  destruct (lookup_lt_is_Some_2 (cells c) i) as [x Ex]; [lia |].
  unfold bind, get, modify.
  assert (settype (Ref i) FE_TFREE c = Done tt (with_cells (<[i := MkCell FE_TFREE false (car x) (cdr x)]> (cells c)) c)) as ->.
  { unfold settype, bind, read_cell, write_cell. by rewrite !Ex. }
  erewrite setcdr_run by (apply list_lookup_insert_eq; by eapply lookup_lt_Some).
  rewrite with_cells_twice. cbn [ty gcmark car freelist with_cells].
  set (y := MkCell FE_TFREE false (car x) (VObj (freelist c))).
  destruct (IH (S i) (with_freelist (Ref i) (with_cells (<[i := y]> (cells c)) c)))
    as (cs & f & E & Hl & Hc & Hf).
  - simpl. rewrite length_insert. lia.
  - simpl. apply (fchain_cons _ i y (freelist c));
      [apply list_lookup_insert_eq; by eapply lookup_lt_Some | done | done |].
    apply fchain_insert; [rewrite elem_of_down; lia | done].
  - intros j z Hj. simpl. intros [(_ & <- & _) | (Hne & Ez)]%list_lookup_insert_Some; [reflexivity |].
    apply (Hfree j z); [lia | done].
  - exists cs, f. rewrite E. replace (i + S n)%nat with (S i + n)%nat by lia.
    split; [done |]. split; [rewrite Hl; simpl; apply length_insert | done].
Qed.

(** The heap fe_open sets up is well formed: every cell is on the free list. *)
Lemma open_heap_ok n A m b base sfl :
  own A sfl [] -> mem_ok m ->
  exists c, open_heap n A m b base = Done tt c /\ heap_ok c [] (down n) (fun _ => []) sfl [].
Proof.
  intros HA Hm. unfold open_heap. set (c0 := blank_context n A m b base).
  destruct (populate_objects_spec n 0 c0) as (cs & f & E & Hl & Hc & Hf).
  - simpl. by rewrite length_replicate.
  - constructor.
  - intros j x Hj. lia.
  - exists (with_cells cs (with_freelist f c0)). split; [done |].
    simpl in Hl, Hc, Hf. rewrite length_replicate in Hl.
    assert (forall j x, cs !! j = Some x -> ty x = FE_TFREE) as Hall.
    { intros j x Ej. apply (Hf j x); [| done]. apply lookup_lt_Some in Ej. lia. }
    assert (forall l, l ≫= (fun _ : nat => @nil Z) = []) as Hnil by (by induction l).
    split; cbn [cells freelist str_arena rt spans with_cells with_freelist c0 blank_context rt_mem gcstack].
    + intros j x Ej. unfold children. by rewrite (Hall j x Ej).
    + intros j x Ej Hx. by destruct (Hx (Hall j x Ej)).
    + done.
    + apply NoDup_down.
    + intros j x Ej m' Hm'. by rewrite (Hall j x Ej) in Hm'.
    + done.
    + by intros j ?%not_elem_of_nil.
    + intros j x Ej _ Hd. by rewrite (Hall j x Ej) in Hd.
    + by rewrite Hnil.
    + done.
    + assert (forall l, l ≫= blocks_at cs = []) as ->.
      { induction l as [| j l IH]; [done |]. rewrite bind_cons, IH. unfold blocks_at.
        destruct (cs !! j) eqn:Ej; [| done]. unfold cell_blocks. by rewrite (Hall _ _ Ej). }
      split; [constructor |]. by intros ? ?%not_elem_of_nil.
    + done.
Qed.

(** ** Properties *)

(** C14. Garbage collection: in a well-formed heap the collector returns,
    the heap stays well formed, every reachable object and its string data
    are untouched, exactly the unreachable objects join the free list, and
    [live_count] is the number of reachable objects. *)
Theorem collectgarbage_correct c X fl ch sfl ex :
  heap_ok c X fl ch sfl ex ->
  exists c' fl' ch' sfl', collectgarbage c = Done tt c' /\
    heap_ok c' X fl' ch' sfl' ex /\ gc_effect c c' fl fl' ch ch' ex.
Proof. apply collect_spec. Qed.

(** Marking: started on a heap whose marked cells point to marked cells
    only, the marker terminates and marks exactly what is reachable from its
    argument, whatever the nesting depth. *)
Theorem fe_mark_marks_reachable o cs :
  typed cs -> closed cs [] ->
  exists cs', fe_mark o cs = Done tt cs' /\ grows cs cs' /\ closed cs' [] /\
    forall i, marked cs' i <-> marked cs i \/ reach cs [o] i.
Proof.
  intros Ht Hc. destruct (fe_mark_spec o cs Ht Hc) as (cs' & E & Hp). pose proof Hp as (Hg & Hc' & _).
  exists cs'. split; [done |]. split; [done |]. split; [done |]. intros i. by apply mark_post_exact.
Qed.

(** C15. Allocation of a cell: [object] returns a cell that no reachable object
    occupies, rooted on the stack, with everything reachable preserved; it
    fails only when the root stack is full or when every cell is in use and
    reachable. *)
Theorem object_allocates_fresh c X fl ch sfl ex :
  heap_ok c X fl ch sfl ex ->
  (exists i c', object c = Done (Ref i) c' /\ allocated c ch X ex i c') \/
  (exists c', object c = Raised "gc stack overflow" c' /\ length (gcstack c) = GCSTACKSIZE) \/
  (exists c', object c = Raised "out of memory" c' /\ fl = [] /\
     forall i x, cells c !! i = Some x -> ty x <> FE_TFREE -> ~ fresh c i).
Proof. apply object_spec. Qed.

(** C16. Constructors: [fe_cons] stores its two arguments in a fresh pair and
    [fe_string] its bytes in a fresh string object from whose slabs they are
    read back; both keep the heap well formed and everything reachable
    unchanged. *)
Theorem constructors_correct a d s c X fl ch sfl :
  heap_ok c X fl ch sfl [] ->
  constructed c ch X [] (MkCell FE_TPAIR false (VObj a) (VObj d)) (fe_cons a d c) /\
  data_constructed c ch X FE_TSTRING s (fe_string s c) /\
  data_constructed c ch X FE_TBYTES s (fe_bytes s c).
Proof.
  intros H. split; [by eapply fe_cons_constructed |].
  split; by eapply make_data_obj_constructed.
Qed.

(** ** Examples: a heap of eight objects and one slab *)

Definition example_context : outcome fe_Context unit :=
  match populate_slabs 1 0 64 (raw_arena 1) with
  | Done _ A => open_heap 8 A example_mem (rt_bud example_rt) 4096
  | _ => Stuck
  end.

Lemma example_context_ok :
  exists c, example_context = Done tt c /\ heap_ok c [] (down 8) (fun _ => []) (offsets 1) [].
Proof.
  destruct (populate_raw_arena 1) as (A & E & Ho); [done |].
  unfold example_context. change (FE_SLAB_SIZE * Z.of_nat 1) with 64 in E. rewrite E.
  apply open_heap_ok; [done | apply example_mem_ok].
Qed.

Lemma collectgarbage_correct_witness :
  exists c c', example_context = Done tt c /\ collectgarbage c = Done tt c'.
Proof.
  destruct example_context_ok as (c & E & H).
  destruct (collectgarbage_correct c [] (down 8) (fun _ => []) (offsets 1) [] H)
    as (c' & _ & _ & _ & E' & _).
  exists c, c'. split; [exact E | exact E'].
Defined.

(** A pair whose car is itself and whose cdr is a symbol cell. *)
Definition example_cells : list cell :=
  [MkCell FE_TPAIR false (VObj (Ref 0)) (VObj (Ref 1)); MkCell FE_TSYMBOL false VAny (VObj Nil)].

Lemma example_cells_typed : typed example_cells /\ closed example_cells [].
Proof.
  split.
  - intros [| [| i]] x [= <-]; by eexists.
  - intros [| [| i]] x l o [= <-]; by intros [=].
Qed.

Lemma fe_mark_marks_reachable_witness :
  exists cs', fe_mark (Ref 0) example_cells = Done tt cs' /\ marked cs' 1.
Proof.
  destruct (fe_mark_marks_reachable (Ref 0) example_cells (proj1 example_cells_typed)
    (proj2 example_cells_typed)) as (cs' & E & _ & _ & H).
  exists cs'. split; [exact E |]. apply H. right.
  eapply reach_step; [apply reach_root; [by left | by eexists] | reflexivity | reflexivity | | by eexists].
  right. by left.
Defined.

Lemma object_allocates_fresh_witness :
  exists c, example_context = Done tt c /\
    ((exists i c', object c = Done (Ref i) c') \/ exists msg c', object c = Raised msg c').
Proof.
  destruct example_context_ok as (c & E & H). exists c. split; [exact E |].
  destruct (object_allocates_fresh c [] (down 8) (fun _ => []) (offsets 1) [] H)
    as [(i & c' & E' & _) | [(c' & E' & _) | (c' & E' & _)]].
  - left. exists i, c'. exact E'.
  - right. exists "gc stack overflow"%string, c'. exact E'.
  - right. exists "out of memory"%string, c'. exact E'.
Defined.

Lemma constructors_correct_witness :
  exists c, example_context = Done tt c /\
    constructed c (fun _ => []) [] [] (MkCell FE_TPAIR false (VObj (Fix 1)) (VObj Nil))
      (fe_cons (Fix 1) Nil c).
Proof.
  destruct example_context_ok as (c & E & H). exists c. split; [exact E |].
  exact (proj1 (constructors_correct (Fix 1) Nil (str "ab") c [] (down 8) (fun _ => []) (offsets 1) H)).
Defined.

(** ** Two gaps

    A string object whose slabs could not be allocated is left behind with
    its type set and its data field unset: once it is no longer rooted, the
    next collection frees a chain that does not exist.  And a pointer object
    is treated as a map by the marker, which dereferences the host's
    pointer. *)
Definition string_oom_then_collect : outcome fe_Context unit :=
  match example_context with
  | Done _ c =>
      match fe_string (replicate 70 (chr 97)) c with
      | Raised "out of memory (string slab)" c1 => (fe_restoregc 0 ;;; collectgarbage) c1
      | _ => NoFuel
      end
  | _ => NoFuel
  end.

Lemma string_oom_corrupts_next_collection : string_oom_then_collect = Stuck.
Proof. by vm_compute. Qed.

Definition ptr_then_collect (p : Z) : outcome fe_Context unit :=
  match example_context with
  | Done _ c => (fe_ptr p ;;; collectgarbage) c
  | _ => NoFuel
  end.

Lemma ptr_object_marked_as_map : ptr_then_collect 4096 = Stuck.
Proof. by vm_compute. Qed.
