(* ===== verification/Objects.v ===== *)
(** * Operations on objects (src/fe.c: equal, fe_symbol, map access, lists)

    Loops over the interpreter's own lists run on fuel one more than the
    number of cells, which no acyclic list exceeds. *)

From Stdlib Require Import ZArith Lia Ascii String SpecFloat.
From stdpp Require Import base list.
From S2P Require Import Prelude Number Memory Budget MapTable Slab Span Ctx Gc.

Definition typename (t : fe_type) : string :=
  match t with
  | FE_TPAIR => "pair" | FE_TFREE => "free" | FE_TNIL => "nil" | FE_TNUMBER => "number"
  | FE_TSYMBOL => "symbol" | FE_TSTRING => "string" | FE_TBYTES => "bytes" | FE_TFUNC => "func"
  | FE_TMACRO => "macro" | FE_TPRIM => "prim" | FE_TCFUNC => "cfunc" | FE_TPTR => "ptr"
  | FE_TMAP => "map" | FE_TBOOLEAN => "boolean"
  end.

Definition fe_nextarg (arg : obj) : comp fe_Context (obj * obj) :=
  let* t := type_of arg in
  if decide (t <> FE_TPAIR)
  then if isnil arg then fe_error "too few arguments" else fe_error "dotted pair in argument list"
  else let* d := cdr_of arg in
       let* a := car_of arg in
       ret (a, d).

Definition checktype (o : obj) (expected : fe_type) : comp fe_Context obj :=
  let* actual := type_of o in
  if decide (actual <> expected)
  then fe_error ("expected " ++ typename expected ++ ", got " ++ typename actual)
  else ret o.

Definition checknum (o : obj) : comp fe_Context obj :=
  match o with Fix _ => ret o | _ => checktype o FE_TNUMBER end.

(** fe_num_value *)
Definition nval (o : obj) : comp fe_Context double :=
  match o with
  | Fix n => ret (double_of_Z n)
  | Ref i =>
      let* x := read_cell i in
      match cdr x with VNum n => ret n | _ => stuck end
  | _ => stuck
  end.

(** [oob] is the platform's out-of-range double conversion. *)
Definition make_number (oob : double -> Z) (v : double) : comp fe_Context obj :=
  match fe_make_number oob v with
  | Fixnum i => ret (Fix i)
  | Boxed v => fe_number v
  end.

(** ** Strings *)

(** FE_STR_LEN and the slab offset of a string or byte object. *)
Definition str_fields (o : obj) : comp fe_Context (nat * Z) :=
  match o with
  | Ref i =>
      let* x := read_cell i in
      match car x, cdr x with
      | VObj (Fix n), VSlab off => ret (Z.to_nat n, off)
      | _, _ => stuck
      end
  | _ => stuck
  end.

Definition streq (o : obj) (s : chars) : comp fe_Context bool :=
  let* '(len, off) := str_fields o in
  lift_arena (streq_slab len off s).

Definition string_contains_nul (o : obj) : comp fe_Context bool :=
  let* '(len, off) := str_fields o in
  lift_arena (fe_string_contains_nul len off).

(** The bytes of a string object, as the write loops visit them. *)
Definition string_chars (o : obj) : comp fe_Context chars :=
  let* '(len, off) := str_fields o in
  lift_arena (read_chain len off len).

Definition equal (a b : obj) : comp fe_Context bool :=
  if decide (a = b) then ret true
  else
    let* ta := type_of a in
    let* tb := type_of b in
    if decide (ta <> tb) then ret false
    else match ta with
         | FE_TNUMBER =>
             let* x := nval a in
             let* y := nval b in
             ret (SFeqb x y)
         | FE_TSTRING | FE_TBYTES =>
             let* '(la, oa) := str_fields a in
             let* '(lb, ob) := str_fields b in
             if decide (la <> lb) then ret false
             else lift_arena (equal_slab la oa ob)
         | _ => ret false
         end.

(** The name string of a symbol: [car(cdr(sym))]. *)
Definition symbol_name (sym : obj) : comp fe_Context obj :=
  let* d := cdr_of sym in car_of d.

Definition fe_symbol_name_eq (sym : obj) (s : chars) : comp fe_Context bool :=
  let* t := type_of sym in
  if decide (t <> FE_TSYMBOL) then ret false
  else let* nm := symbol_name sym in streq nm s.

(** ** Symbols *)

Definition list_fuel (c : fe_Context) : nat := S (length (cells c)).

Fixpoint find_symbol_obj (fuel : nat) (l name_obj : obj) : comp fe_Context (option obj) :=
  if isnil l then ret None
  else match fuel with
       | O => no_fuel
       | S f =>
           let* sym := car_of l in
           let* nm := symbol_name sym in
           let* e := equal nm name_obj in
           if e then ret (Some sym)
           else let* l := cdr_of l in find_symbol_obj f l name_obj
       end.

Definition fe_symbol_from_string_obj (name_obj : obj) : comp fe_Context obj :=
  checktype name_obj FE_TSTRING ;;;
  let* gc_save := fe_savegc in
  fe_pushgc name_obj ;;;
  let* c := get in
  let* r := find_symbol_obj (list_fuel c) (symlist c) name_obj in
  match r with
  | Some sym => fe_restoregc gc_save ;;; ret sym
  | None =>
      let* o := object in
      settype o FE_TSYMBOL ;;;
      let* p := fe_cons name_obj Nil in
      setcdr o (VObj p) ;;;
      let* c := get in
      let* l := fe_cons o (symlist c) in
      modify (with_symlist l) ;;;
      fe_restoregc gc_save ;;;
      ret o
  end.

Fixpoint find_symbol (fuel : nat) (l : obj) (name : chars) (countdown : Z)
    : comp fe_Context (option obj) :=
  if isnil l then ret None
  else match fuel with
       | O => no_fuel
       | S f =>
           let* countdown := lift_budget (poll_io countdown) in
           let* sym := car_of l in
           let* nm := symbol_name sym in
           let* e := streq nm name in
           if e then ret (Some sym)
           else let* l := cdr_of l in find_symbol f l name countdown
       end.

Definition fe_symbol (name : chars) : comp fe_Context obj :=
  let* c := get in
  let* r := find_symbol (list_fuel c) (symlist c) name FE_IO_ABORT_CHECK_INTERVAL in
  match r with
  | Some sym => ret sym
  | None =>
      let* o := object in
      settype o FE_TSYMBOL ;;;
      let* s := fe_string name in
      let* p := fe_cons s Nil in
      setcdr o (VObj p) ;;;
      let* c := get in
      let* l := fe_cons o (symlist c) in
      modify (with_symlist l) ;;;
      ret o
  end.

(** ** Maps *)

Definition normalize_map_key (key : obj) : comp fe_Context obj :=
  let* t := type_of key in
  match t with
  | FE_TSYMBOL => symbol_name key
  | FE_TSTRING => ret key
  | _ => fe_error "map keys must be strings or symbols"
  end.

Definition mapdata (o : obj) : comp fe_Context (@fe_Map obj obj) :=
  match o with
  | Ref i =>
      let* x := read_cell i in
      match cdr x with VMap (Some m) => ret m | _ => stuck end
  | _ => stuck
  end.

(** The bytes of a key object in the current heap. *)
Definition key_data (c : fe_Context) (o : obj) : chars :=
  match string_chars o c with Done s _ => s | _ => [] end.

(** The common start of the map operations: the table and the key. *)
Definition map_args (map_obj key : obj) : comp fe_Context (@fe_Map obj obj * obj) :=
  checktype map_obj FE_TMAP ;;;
  let* key := normalize_map_key key in
  let* m := mapdata map_obj in
  ret (m, key).

Definition map_set (map_obj key value : obj) : comp fe_Context unit :=
  let* '(m, key) := map_args map_obj key in
  let* c := get in
  let* r := lift_rt (map_ensure_capacity (key_data c) m) in
  match r with
  | None => lift_memory (memory_error "out of memory (map)")
  | Some m =>
      setcdr map_obj (VMap (Some m)) ;;;
      let* m := lift_rt (map_store (key_data c) m key value) in
      setcdr map_obj (VMap (Some m))
  end.

Definition map_has (map_obj key : obj) : comp fe_Context bool :=
  let* '(m, key) := map_args map_obj key in
  let* c := get in
  lift_budget (fe_map_has (key_data c) m key).

Definition map_get (map_obj key : obj) : comp fe_Context obj :=
  let* '(m, key) := map_args map_obj key in
  let* c := get in
  let* r := lift_budget (fe_map_get (key_data c) m key) in
  ret (default Nil r).

Definition map_delete (map_obj key : obj) : comp fe_Context bool :=
  let* '(m, key) := map_args map_obj key in
  let* c := get in
  let* '(b, m) := lift_budget (fe_map_delete (key_data c) m key) in
  setcdr map_obj (VMap (Some m)) ;;;
  ret b.

Definition map_count (map_obj : obj) : comp fe_Context Z :=
  checktype map_obj FE_TMAP ;;;
  let* m := mapdata map_obj in
  ret (fe_map_count m).

(** The loop over the slots from the last one, and the keys it found. *)
Fixpoint map_keys_loop (gc_save : nat) (map_obj : obj) (rev_slots : list (@slot obj obj)) (result : obj) (countdown : Z)
    : comp fe_Context obj :=
  match rev_slots with
  | [] => ret result
  | s :: rest =>
      let* countdown := lift_budget (poll_io countdown) in
      let* result :=
        match s with
        | MAP_USED k _ =>
            fe_restoregc gc_save ;;;
            fe_pushgc map_obj ;;;
            fe_pushgc result ;;;
            fe_cons k result
        | _ => ret result
        end in
      map_keys_loop gc_save map_obj rest result countdown
  end.

Definition map_keys (map_obj : obj) : comp fe_Context obj :=
  checktype map_obj FE_TMAP ;;;
  let* gc_save := fe_savegc in
  fe_pushgc map_obj ;;;
  fe_pushgc Nil ;;;
  let* m := mapdata map_obj in
  let* result := map_keys_loop gc_save map_obj (rev (slots m)) Nil FE_IO_ABORT_CHECK_INTERVAL in
  fe_restoregc gc_save ;;;
  ret result.

(** ** Pairs *)

Definition fe_car (o : obj) : comp fe_Context obj :=
  if isnil o then ret o
  else let* o := checktype o FE_TPAIR in car_of o.
Definition fe_cdr (o : obj) : comp fe_Context obj :=
  if isnil o then ret o
  else let* o := checktype o FE_TPAIR in cdr_of o.

(** The cell whose cdr is pointed to. *)
Definition fe_cdr_ptr (o : obj) : comp fe_Context obj :=
  if isnil o then fe_error "cannot get cdr pointer of nil" else checktype o FE_TPAIR.

(** A list under construction: [head] and the cell [tail] points into
    ([None]: the variable [head] itself); [*tail = cell] and the new tail. *)
Definition append_cell (l : obj * option obj) (cell : obj) : comp fe_Context (obj * option obj) :=
  let '(head, tail) := l in
  match tail with
  | None => let* t := fe_cdr_ptr cell in ret (cell, Some t)
  | Some t => setcdr t (VObj cell) ;;; let* t := fe_cdr_ptr cell in ret (head, Some t)
  end.

Fixpoint list_has (fuel : nat) (l item : obj) : comp fe_Context bool :=
  if isnil l then ret false
  else match fuel with
       | O => no_fuel
       | S f =>
           let* a := car_of l in
           if decide (a = item) then ret true
           else let* l := cdr_of l in list_has f l item
       end.

(** ** Environments *)

(** The binding with the key [sym] in an association list. *)
Fixpoint assoc_loop (fuel : nat) (sym l : obj) : comp fe_Context (option obj) :=
  if isnil l then ret None
  else match fuel with
       | O => no_fuel
       | S f =>
           let* x := car_of l in
           let* k := car_of x in
           if decide (k = sym) then ret (Some x)
           else let* l := cdr_of l in assoc_loop f sym l
       end.

Definition is_frame (env : obj) : comp fe_Context bool :=
  let* t := type_of env in
  if decide (t = FE_TPAIR) then
    let* a := car_of env in
    let* c := get in
    ret (bool_decide (a = frame_sym (syms c)))
  else ret false.

Definition getbound (sym env : obj) : comp fe_Context obj :=
  let* c := get in
  let fuel := list_fuel c in
  let* fr := is_frame env in
  let* r :=
    (if fr then
       let* d := cdr_of env in
       let* locals := car_of d in
       let* upvals := cdr_of d in
       let* r := assoc_loop fuel sym locals in
       match r with
       | Some x => ret (Some x)
       | None => assoc_loop fuel sym upvals
       end
     else assoc_loop fuel sym env) in
  match r with
  | Some x => ret x
  | None => cdr_of sym
  end.

Definition fe_set (sym v : obj) : comp fe_Context unit :=
  let* b := getbound sym Nil in
  setcdr b (VObj v).

(** The binding, and whether [env] is an association list. *)
Fixpoint find_assoc_loop (fuel : nat) (sym p : obj) : comp fe_Context (option obj * bool) :=
  if isnil p then ret (None, true)
  else match fuel with
       | O => no_fuel
       | S f =>
           let* t := type_of p in
           if decide (t <> FE_TPAIR) then ret (None, false)
           else
             let* entry := car_of p in
             let* te := type_of entry in
             if decide (te <> FE_TPAIR) then ret (None, false)
             else
               let* k := car_of entry in
               if decide (k = sym) then ret (Some entry, true)
               else let* p := cdr_of p in find_assoc_loop f sym p
       end.
Definition find_assoc_binding (sym env : obj) : comp fe_Context (option obj * bool) :=
  let* t := type_of env in
  if decide (t <> FE_TPAIR) then ret (None, false)
  else let* c := get in find_assoc_loop (list_fuel c) sym env.

Definition is_return_obj (o : obj) : comp fe_Context bool :=
  let* t := type_of o in
  if decide (t = FE_TPAIR) then
    let* a := car_of o in
    let* c := get in
    ret (bool_decide (a = return_sym (syms c)))
  else ret false.
