(* ===== verification/Writer.v ===== *)
(** * The printer (src/fe.c: fe_write, fe_tostring)

    [fn] is the character callback and [B] the data it works on.  The
    formats [%.7g] and [%p] of the C library are the parameters [fmt_g7] and
    [fmt_p]. *)

From Stdlib Require Import ZArith Lia Ascii String.
From stdpp Require Import base list pretty.
From S2P Require Import Prelude Number Memory Budget MapTable Slab SlabSpec Span Ctx Gc Objects.

Definition dec (z : Z) : chars := str (pretty z).

Definition hexdigit (n : Z) : ascii :=
  nth (Z.to_nat n) (str "0123456789abcdef") "0"%char.

Section Write.
Context {B : Type} (fn : ascii -> B -> B).
Context (fmt_g7 : double -> chars) (fmt_p : obj -> chars).

Abbreviation W := (fe_Context * B)%type.

Definition in_ctx {A} (m : comp fe_Context A) : comp W A := fun '(c, b) =>
  match m c with
  | Done a c => Done a (c, b)
  | Raised e c => Raised e (c, b)
  | Stuck => Stuck
  | NoFuel => NoFuel
  end.

Definition poll (countdown : Z) : comp W Z := in_ctx (lift_budget (poll_io countdown)).

Definition write_checked (chr : ascii) (countdown : Z) : comp W Z :=
  let* countdown := poll countdown in
  modify (fun '(c, b) => (c, fn chr b)) ;;;
  ret countdown.

Fixpoint writestr (s : chars) (countdown : Z) : comp W Z :=
  match s with
  | [] => ret countdown
  | ch :: s => let* countdown := write_checked ch countdown in writestr s countdown
  end.

Definition write_hex_byte (byte : ascii) (countdown : Z) : comp W Z :=
  let* countdown := write_checked (hexdigit (Z.land (Z.shiftr (code byte) 4) 15)) countdown in
  write_checked (hexdigit (Z.land (code byte) 15)) countdown.

Definition quote_char : ascii := ascii_of_nat 34.
Definition backslash : ascii := ascii_of_nat 92.

(** The loops over the characters of a string and the bytes of a buffer. *)
Fixpoint write_string_chars (s : chars) (qt : bool) (countdown : Z) : comp W Z :=
  match s with
  | [] => ret countdown
  | ch :: s =>
      let* countdown :=
        (if qt && bool_decide (ch = quote_char) then write_checked backslash countdown
         else ret countdown) in
      let* countdown := write_checked ch countdown in
      write_string_chars s qt countdown
  end.

Fixpoint write_bytes_chars (s : chars) (first : bool) (countdown : Z) : comp W Z :=
  match s with
  | [] => ret countdown
  | ch :: s =>
      let* countdown := (if first then ret countdown else write_checked " " countdown) in
      let* countdown := write_hex_byte ch countdown in
      write_bytes_chars s false countdown
  end.

Fixpoint fe_write (fuel : nat) (o : obj) (qt : bool) : comp W unit :=
  match fuel with
  | O => no_fuel
  | S f =>
      let cd := FE_IO_ABORT_CHECK_INTERVAL in
      let* t := in_ctx (type_of o) in
      match t with
      | FE_TNIL => writestr (str "nil") cd ;;; ret tt
      | FE_TBOOLEAN =>
          writestr (str (if decide (o = Boolean true) then "true" else "false")) cd ;;; ret tt
      | FE_TNUMBER =>
          match o with
          | Fix n => writestr (dec n) cd ;;; ret tt
          | _ => let* v := in_ctx (nval o) in writestr (fmt_g7 v) cd ;;; ret tt
          end
      | FE_TPAIR =>
          let* c := gets fst in
          let* a := in_ctx (car_of o) in
          if decide (a = frame_sym (syms c)) then writestr (str "[env frame]") cd ;;; ret tt
          else
            let* cd := write_checked "(" cd in
            let* '(rest, cd) := write_items f o cd in
            let* cd :=
              (if isnil rest then ret cd
               else let* cd := writestr (str " . ") cd in
                    fe_write f rest true ;;; ret cd) in
            write_checked ")" cd ;;; ret tt
      | FE_TSYMBOL => let* nm := in_ctx (symbol_name o) in fe_write f nm false
      | FE_TSTRING =>
          let* cd := (if qt then write_checked quote_char cd else ret cd) in
          let* s := in_ctx (string_chars o) in
          let* cd := write_string_chars s qt cd in
          (if qt then write_checked quote_char cd else ret cd) ;;; ret tt
      | FE_TBYTES =>
          let* cd := writestr (str "#bytes[") cd in
          let* s := in_ctx (string_chars o) in
          let* cd := write_bytes_chars s true cd in
          write_checked "]" cd ;;; ret tt
      | FE_TMAP =>
          let* cd := write_checked "{" cd in
          match o with
          | Ref i =>
              let* x := in_ctx (read_cell i) in
              match cdr x with
              | VMap (Some m) =>
                  let* '(_, cd) := write_slots f (slots m) true cd in
                  write_checked "}" cd ;;; ret tt
              | VMap None => write_checked "}" cd ;;; ret tt
              | _ => stuck
              end
          | _ => stuck
          end
      | _ =>
          writestr (str "[" ++ str (typename t) ++ str " " ++ fmt_p o ++ str "]") cd ;;; ret tt
      end
  end

(** The elements of a list from the pair [o] on; the result is what ends
    the list. *)
with write_items (fuel : nat) (o : obj) (countdown : Z) : comp W (obj * Z) :=
  match fuel with
  | O => no_fuel
  | S f =>
      let* countdown := poll countdown in
      let* a := in_ctx (car_of o) in
      fe_write f a true ;;;
      let* o := in_ctx (cdr_of o) in
      let* t := in_ctx (type_of o) in
      if decide (t <> FE_TPAIR) then ret (o, countdown)
      else
        let* countdown := write_checked " " countdown in
        write_items f o countdown
  end

with write_slots (fuel : nat) (l : list (@slot obj obj)) (first : bool) (countdown : Z)
    : comp W (bool * Z) :=
  match fuel with
  | O => no_fuel
  | S f =>
      match l with
      | [] => ret (first, countdown)
      | s :: l =>
          let* countdown := poll countdown in
          match s with
          | MAP_USED k v =>
              let* countdown := (if first then ret countdown else writestr (str ", ") countdown) in
              fe_write f k true ;;;
              let* countdown := writestr (str ": ") countdown in
              fe_write f v true ;;;
              write_slots f l false countdown
          | _ => write_slots f l first countdown
          end
      end
  end.

End Write.

(** fe_writefp on stdout. *)
Definition fe_writefp (fmt_g7 : double -> chars) (fmt_p : obj -> chars) (fuel : nat) (o : obj)
    : comp fe_Context unit := fun c =>
  let append c b := with_out (out c ++ b) c in
  match fe_write (fun ch b => b ++ [ch]) fmt_g7 fmt_p fuel o false (c, []) with
  | Done _ (c, b) => Done tt (append c b)
  | Raised e (c, b) => Raised e (append c b)
  | Stuck => Stuck
  | NoFuel => NoFuel
  end.

(** writebuf: [n] characters of room are left. *)
Definition writebuf (chr : ascii) (x : chars * Z) : chars * Z :=
  let '(p, n) := x in
  if n =? 0 then (p, n) else (p ++ [chr], n - 1).

(** The characters stored before the terminating NUL, and the result. *)
Definition fe_tostring (fmt_g7 : double -> chars) (fmt_p : obj -> chars) (fuel : nat) (o : obj)
    (size : Z) : comp fe_Context (chars * Z) := fun c =>
  match fe_write writebuf fmt_g7 fmt_p fuel o false (c, ([], size - 1)) with
  | Done _ (c, (p, n)) => Done (p, size - n - 1) c
  | Raised e (c, _) => Raised e c
  | Stuck => Stuck
  | NoFuel => NoFuel
  end.
