(* ===== verification/Reader.v ===== *)
(** * The reader (src/fe.c: read_, fe_read)

    The read callback is a source of characters that ends in NULs; what is
    left of it is part of the state.  [symbol_first] is the order in which
    the compiler evaluates the two arguments of the outer [fe_cons] of a
    quotation, which C leaves open. *)

From Stdlib Require Import ZArith Lia Ascii String SpecFloat.
From stdpp Require Import base list.
From S2P Require Import Prelude Number Strtod Memory Budget MapTable Slab Span Ctx Gc Objects Writer.

Definition NUL : ascii := zero.
Definition delimiter : chars := [" "; ascii_of_nat 10; ascii_of_nat 9; ascii_of_nat 13; "("; ")"; ";"]%char.
Definition blanks : chars := [" "; ascii_of_nat 10; ascii_of_nat 9; ascii_of_nat 13]%char.

(** [strchr(set, chr)] also finds the terminator. *)
Definition strchr (set : chars) (ch : ascii) : bool := bool_decide (ch ∈ set) || bool_decide (ch = NUL).

Definition FE_MAX_LITERAL_SZ : nat := 256.
Definition SYMBOL_BUF : nat := 64.

Section Read.
Context (oob : double -> Z) (symbol_first : bool).

Abbreviation R := (fe_Context * chars)%type.

(** [fn(ctx, udata)] *)
Definition next_char : comp R ascii := fun '(c, s) =>
  match s with [] => Done NUL (c, []) | ch :: s => Done ch (c, s) end.

Definition fe_make : double -> comp R obj := fun v => in_ctx (make_number oob v).

(** The first character: the pushed back one, or a new one. *)
Definition first_char : comp R ascii :=
  let* k := in_ctx (gets nextchr) in
  let* ch := (if k =? 0 then next_char else ret (chr k)) in
  in_ctx (modify (with_nextchr 0)) ;;;
  ret ch.

(** Loops over input run on its length: they stop at its end. *)
Definition input_fuel : comp R nat := gets (fun '(_, s) => S (length s)).

Fixpoint skip_blanks (fuel : nat) (ch : ascii) (cd : Z) : comp R (ascii * Z) :=
  if negb (bool_decide (ch = NUL)) && strchr blanks ch then
    match fuel with
    | O => no_fuel
    | S f =>
        let* cd := poll cd in
        let* ch := next_char in
        skip_blanks f ch cd
    end
  else ret (ch, cd).

Fixpoint skip_comment (fuel : nat) (ch : ascii) (cd : Z) : comp R Z :=
  if negb (bool_decide (ch = NUL)) && negb (bool_decide (ch = ascii_of_nat 10)) then
    match fuel with
    | O => no_fuel
    | S f =>
        let* cd := poll cd in
        let* ch := next_char in
        skip_comment f ch cd
    end
  else ret cd.

Definition unescape (ch : ascii) : ascii :=
  if decide (ch = "n"%char) then ascii_of_nat 10
  else if decide (ch = "r"%char) then ascii_of_nat 13
  else if decide (ch = "t"%char) then ascii_of_nat 9
  else ch.

(** The characters of a string literal up to the closing quote. *)
Fixpoint read_string (fuel : nat) (buf : chars) (cd : Z) : comp R chars :=
  match fuel with
  | O => no_fuel
  | S f =>
      let* ch := next_char in
      if decide (ch = quote_char) then ret buf
      else
        let* cd := poll cd in
        if decide (ch = NUL) then in_ctx (fe_error "unclosed string")
        else
          let* ch := (if decide (ch = backslash)
                      then let* ch := next_char in ret (unescape ch) else ret ch) in
          if decide (FE_MAX_LITERAL_SZ - 1 <= length buf)%nat
          then in_ctx (fe_error "string literal too long")
          else read_string f (buf ++ [ch]) cd
  end.

(** The characters of a number or symbol from [ch] on, and the delimiter
    after them. *)
Fixpoint read_atom (fuel : nat) (ch : ascii) (buf : chars) (cd : Z) : comp R (chars * ascii) :=
  match fuel with
  | O => no_fuel
  | S f =>
      let* cd := poll cd in
      if decide (length buf = SYMBOL_BUF - 1)%nat then in_ctx (fe_error "symbol too long")
      else
        let buf := buf ++ [ch] in
        let* ch := next_char in
        if negb (bool_decide (ch = NUL)) && negb (strchr delimiter ch)
        then read_atom f ch buf cd else ret (buf, ch)
  end.

(** What the characters of an atom stand for. *)
Definition atom (buf : chars) : comp R obj :=
  let '(v, rest) := strtod buf in
  if negb (bool_decide (length rest = length buf)) && strchr delimiter (default NUL (head rest))
  then fe_make v
  else if decide (buf = str "nil") then ret Nil
  else if decide (buf = str "true") then ret (Boolean true)
  else if decide (buf = str "false") then ret (Boolean false)
  else in_ctx (fe_symbol buf).

Definition deeper : comp R unit :=
  let* c := gets fst in
  if (0 <? max_read_depth c) && (max_read_depth c <=? current_read_depth c)
  then in_ctx (fe_error "read nesting depth limit exceeded")
  else in_ctx (modify (with_current_read_depth (i32 (current_read_depth c + 1)))).
Definition shallower : comp R unit :=
  in_ctx (modify (fun c => with_current_read_depth (i32 (current_read_depth c - 1)) c)).

Definition not_rparen (o : obj) : comp R obj :=
  if decide (o = rparen) then in_ctx (fe_error "stray ')'") else ret o.

(** [v] is the symbol [.] *)
Definition is_dot (v : obj) : comp R bool := in_ctx (
  let* t := type_of v in
  if decide (t = FE_TSYMBOL) then let* nm := symbol_name v in streq nm (str ".") else ret false).

(** [(quote v)] *)
Definition quotation (v : obj) : comp R obj := in_ctx (
  if symbol_first then
    let* q := fe_symbol (str "quote") in
    let* l := fe_cons v Nil in
    fe_cons q l
  else
    let* l := fe_cons v Nil in
    let* q := fe_symbol (str "quote") in
    fe_cons q l).

Fixpoint read_ (fuel : nat) : comp R obj :=
  match fuel with
  | O => no_fuel
  | S f =>
      let* ch := first_char in
      let* n := input_fuel in
      let* '(ch, cd) := skip_blanks n ch FE_IO_ABORT_CHECK_INTERVAL in
      let* n := input_fuel in
      if decide (ch = NUL) then ret NULL
      else if decide (ch = ";"%char) then
        skip_comment n ch cd ;;;
        read_ f
      else if decide (ch = ")"%char) then ret rparen
      else if decide (ch = "("%char) then
        deeper ;;;
        let* gc := in_ctx fe_savegc in
        in_ctx (fe_pushgc Nil) ;;;
        let* res := read_list f gc Nil None cd in
        shallower ;;;
        ret res
      else if decide (ch = "'"%char) then
        deeper ;;;
        let* v := read_ f in
        let* v := not_rparen v in
        if decide (v = NULL) then in_ctx (fe_error "stray '''")
        else
          shallower ;;;
          quotation v
      else if decide (ch = quote_char) then
        let* s := read_string n [] cd in
        in_ctx (make_data_obj FE_TSTRING s)
      else
        let* '(buf, ch) := read_atom n ch [] cd in
        in_ctx (modify (with_nextchr (code ch))) ;;;
        atom buf
  end

(** The rest of a list.  [tail] is [None] while it points to [res], and the
    last pair after. *)
with read_list (fuel : nat) (gc : nat) (res : obj) (tail : option obj) (cd : Z) : comp R obj :=
  match fuel with
  | O => no_fuel
  | S f =>
      let* v := read_ f in
      if decide (v = rparen) then ret res
      else
        let* cd := poll cd in
        if decide (v = NULL) then in_ctx (fe_error "unclosed list")
        else
          let* dot := is_dot v in
          let* '(res, tail) :=
            (if dot then
               let* d := read_ f in
               let* d := not_rparen d in
               match tail with
               | None => ret (d, tail)
               | Some t => in_ctx (setcdr t (VObj d)) ;;; ret (res, tail)
               end
             else
               let* p := in_ctx (fe_cons v Nil) in
               match tail with
               | None => ret (p, Some p)
               | Some t => in_ctx (setcdr t (VObj p)) ;;; ret (res, Some p)
               end) in
          in_ctx (fe_restoregc gc) ;;;
          in_ctx (fe_pushgc res) ;;;
          read_list f gc res tail cd
  end.

Definition fe_read (fuel : nat) : comp R obj :=
  let* o := read_ fuel in not_rparen o.
End Read.
