(* ===== verification/WriterSpec.v ===== *)
(** * The printer prints the value it is given

    [repr c o e]: in the context [c] the object [o] is the (finite) value
    [e].  [show] is the textual form of a value. *)

From Stdlib Require Import ZArith Lia Ascii String.
From stdpp Require Import base list pretty.
From S2P Require Import Prelude Number Memory Budget MapTable MapSpec Slab SlabSpec Span Ctx Gc GcProps Objects Writer.

Inductive sexp :=
| SNil
| SBool (b : bool)
| SInt (n : Z)
| SNum (d : double)
| SSym (s : chars)
| SStr (s : chars)
| SBytes (s : chars)
| SPair (a d : sexp).

(** ** Values in the heap *)

Definition string_at (c : fe_Context) (t : fe_type) (o : obj) (s : chars) : Prop :=
  exists i x off os, o = Ref i /\ cells c !! i = Some x /\ ty x = t /\
    car x = VObj (Fix (Z.of_nat (length s))) /\ cdr x = VSlab off /\ holds (str_arena c) off os s.

Definition pair_at (c : fe_Context) (o a d : obj) : Prop :=
  exists i x, o = Ref i /\ cells c !! i = Some x /\ ty x = FE_TPAIR /\
    car x = VObj a /\ cdr x = VObj d.

Inductive repr (c : fe_Context) : obj -> sexp -> Prop :=
| repr_nil : repr c Nil SNil
| repr_bool b : repr c (Boolean b) (SBool b)
| repr_int n : repr c (Fix n) (SInt n)
| repr_num i x v : cells c !! i = Some x -> ty x = FE_TNUMBER -> cdr x = VNum v ->
    repr c (Ref i) (SNum v)
| repr_sym i x p nm v s : cells c !! i = Some x -> ty x = FE_TSYMBOL -> cdr x = VObj p ->
    pair_at c p nm v -> string_at c FE_TSTRING nm s -> repr c (Ref i) (SSym s)
| repr_str o s : string_at c FE_TSTRING o s -> repr c o (SStr s)
| repr_bytes o s : string_at c FE_TBYTES o s -> repr c o (SBytes s)
| repr_pair o a d ea ed : pair_at c o a d -> a <> frame_sym (syms c) ->
    repr c a ea -> repr c d ed -> repr c o (SPair ea ed).

(** ** Textual form *)

Section Show.
Context (fmt_g7 : double -> chars).

Definition escape (s : chars) : chars :=
  s ≫= (fun ch => if decide (ch = quote_char) then [backslash; ch] else [ch]).

Definition hex_byte (ch : ascii) : chars :=
  [hexdigit (Z.land (Z.shiftr (code ch) 4) 15); hexdigit (Z.land (code ch) 15)].

Fixpoint show_bytes (s : chars) (first : bool) : chars :=
  match s with
  | [] => []
  | ch :: s => (if first then [] else str " ") ++ hex_byte ch ++ show_bytes s false
  end.

Fixpoint show (qt : bool) (e : sexp) : chars :=
  match e with
  | SNil => str "nil"
  | SBool b => str (if b then "true" else "false")
  | SInt n => dec n
  | SNum v => fmt_g7 v
  | SSym s => s
  | SStr s => if qt then [quote_char] ++ escape s ++ [quote_char] else s
  | SBytes s => str "#bytes[" ++ show_bytes s true ++ str "]"
  | SPair a d =>
      str "(" ++ show true a ++
      (fix tail (d : sexp) : chars :=
         match d with
         | SNil => []
         | SPair a d => str " " ++ show true a ++ tail d
         | e => str " . " ++ show true e
         end) d ++ str ")"
  end.

(** The elements of a list and what ends it. *)
Fixpoint show_items (e : sexp) : chars :=
  match e with
  | SPair a d =>
      show true a ++ match d with SPair _ _ => str " " ++ show_items d | _ => [] end
  | _ => []
  end.
Fixpoint last_cdr (e : sexp) : sexp :=
  match e with
  | SPair _ d => match d with SPair _ _ => last_cdr d | _ => d end
  | _ => e
  end.
Definition show_end (e : sexp) : chars :=
  match e with SNil => [] | _ => str " . " ++ show true e end.

Lemma show_pair qt a d :
  show qt (SPair a d)
  = str "(" ++ show_items (SPair a d) ++ show_end (last_cdr (SPair a d)) ++ str ")".
Proof.
  cbn [show]. f_equal. rewrite app_assoc, app_assoc. f_equal.
  set (tail := fix tail (d : sexp) : chars := _).
  assert (forall d a, show true a ++ tail d = show_items (SPair a d) ++ show_end (last_cdr (SPair a d)))
    as H; [| apply H].
  clear. intros d. induction d as [| | | | | | | a' _ d' IH]; intros a;
    try (cbn [show_items last_cdr show_end tail]; by rewrite ?app_nil_r).
  change (tail (SPair a' d')) with (str " " ++ show true a' ++ tail d'). rewrite IH.
  cbn [show_items last_cdr]. by rewrite <- !app_assoc.
Qed.

Fixpoint ssize (e : sexp) : nat :=
  match e with SPair a d => S (S (ssize a + ssize d)) | _ => 2 end.

(** ** Emission *)

Context {B : Type} (fn : ascii -> B -> B) (fmt_p : obj -> chars).
Abbreviation W := (fe_Context * B)%type.

Definition emit (s : chars) (b : B) : B := fold_left (fun b ch => fn ch b) s b.

Lemma emit_app s1 s2 b : emit (s1 ++ s2) b = emit s2 (emit s1 b).
Proof. apply fold_left_app. Qed.

Context (c : fe_Context) (Hq : quiet (rt_bud (rt c))).

(** [m] returns a value satisfying [Q] after emitting exactly [s], leaving
    the context as it is. *)
Definition emits {A} (m : comp W A) (s : chars) (Q : A -> Prop) : Prop :=
  forall b, exists a, m (c, b) = Done a (c, emit s b) /\ Q a.

Lemma emits_ret {A} (a : A) (Q : A -> Prop) : Q a -> emits (ret a) [] Q.
Proof. intros H b. by exists a. Qed.

Lemma emits_bind {A A'} (m : comp W A) (k : A -> comp W A') s1 s2 Q R :
  emits m s1 Q -> (forall a, Q a -> emits (k a) s2 R) -> emits (bind m k) (s1 ++ s2) R.
Proof.
  intros Hm Hk b. unfold bind. destruct (Hm b) as (a & -> & Ha).
  destruct (Hk a Ha (emit s1 b)) as (a' & -> & Ha'). exists a'. by rewrite emit_app.
Qed.

(** Reading the context. *)
Lemma emits_read {A A'} (m : comp fe_Context A) (k : A -> comp W A') a s R :
  m c = Done a c -> emits (k a) s R -> emits (bind (in_ctx m) k) s R.
Proof.
  intros Hm Hk b. unfold bind, in_ctx. rewrite Hm. apply Hk.
Qed.

Definition any {A} : A -> Prop := fun _ => True.

Lemma poll_quiet cd : exists cd', lift_budget (poll_io cd) c = Done cd' c.
Proof.
  unfold lift_budget, lift_rt, lift_bud. destruct Hq as [Ht Hi].
  assert (exists cd', poll_io cd (rt_bud (rt c)) = Done cd' (rt_bud (rt c))) as (cd' & ->).
  { unfold poll_io, poll_io_abort. destruct (1 <? cd); [by eexists |].
    unfold fe_poll_abort, poll_eval_abort, poll_timeout, poll_interrupt, bind, get, ret.
    rewrite (proj2 (Z.ltb_ge _ _) Ht), Hi. by eexists. }
  exists cd'. f_equal. destruct c. simpl. by destruct rt.
Qed.

Lemma emits_poll cd : emits (poll cd) [] any.
Proof. intros b. unfold poll, in_ctx. destruct (poll_quiet cd) as (cd' & ->). by exists cd'. Qed.

Lemma emits_char ch cd : emits (write_checked fn ch cd) [ch] any.
Proof.
  apply (emits_bind _ _ [] [ch] any any); [apply emits_poll |]. intros cd' _ b.
  unfold bind, modify, ret. by exists cd'.
Qed.

Lemma emits_str s cd : emits (writestr fn s cd) s any.
Proof.
  revert cd. induction s as [| ch s IH]; intros cd; cbn [writestr]; [by apply emits_ret |].
  apply (emits_bind _ _ [ch] s any any); [apply emits_char |]. intros cd' _. apply IH.
Qed.

Lemma emits_string_chars s qt cd :
  emits (write_string_chars fn s qt cd) (if qt then escape s else s) any.
Proof.
  revert cd. induction s as [| ch s IH]; intros cd; cbn [write_string_chars].
  { destruct qt; by apply emits_ret. }
  destruct qt; cbn [andb].
  - unfold escape. rewrite bind_cons. fold (escape s).
    by_decide (ch = quote_char) Hc.
    + apply (emits_bind _ _ [backslash] (ch :: escape s) any any); [apply emits_char |]. intros cd1 _.
      apply (emits_bind _ _ [ch] (escape s) any any); [apply emits_char |]. intros cd2 _. apply IH.
    + apply (emits_bind _ _ [] (ch :: escape s) any any); [by apply emits_ret |]. intros cd1 _.
      apply (emits_bind _ _ [ch] (escape s) any any); [apply emits_char |]. intros cd2 _. apply IH.
  - apply (emits_bind _ _ [] (ch :: s) any any); [by apply emits_ret |]. intros cd1 _.
    apply (emits_bind _ _ [ch] s any any); [apply emits_char |]. intros cd2 _. apply IH.
Qed.

Lemma emits_bytes_chars s first cd :
  emits (write_bytes_chars fn s first cd) (show_bytes s first) any.
Proof.
  revert first cd. induction s as [| ch s IH]; intros first cd; cbn [write_bytes_chars show_bytes].
  { by apply emits_ret. }
  eapply (emits_bind _ _ _ _ any any); [destruct first; [by apply emits_ret | apply emits_char] |].
  intros cd1 _. eapply (emits_bind _ _ _ _ any any); [| intros cd2 _; apply IH].
  unfold write_hex_byte, hex_byte.
  eapply (emits_bind _ _ [_] [_] any any); [apply emits_char |]. intros cd3 _. apply emits_char.
Qed.

(** ** The printer *)

Lemma string_at_type t o s : string_at c t o s -> type_of o c = Done t c.
Proof.
  intros (i & x & off & os & -> & E & <- & _). unfold type_of, bind, read_cell. by rewrite E.
Qed.

Lemma string_at_chars t o s : string_at c t o s -> string_chars o c = Done s c.
Proof.
  intros (i & x & off & os & -> & E & _ & Ec & Ed & Hh).
  unfold string_chars, str_fields, bind, read_cell. rewrite E, Ec, Ed. unfold ret, lift_arena.
  rewrite Nat2Z.id. cbn [arena HasArena_ctx]. rewrite (read_chain_holds _ _ _ _ _ Hh) by lia.
  f_equal. by destruct c.
Qed.

Lemma pair_at_type o a d : pair_at c o a d -> type_of o c = Done FE_TPAIR c.
Proof. intros (i & x & -> & E & <- & _). unfold type_of, bind, read_cell. by rewrite E. Qed.
Lemma pair_at_car o a d : pair_at c o a d -> car_of o c = Done a c.
Proof. intros (i & x & -> & E & _ & Ea & _). unfold car_of, bind, read_cell. by rewrite E, Ea. Qed.
Lemma pair_at_cdr o a d : pair_at c o a d -> cdr_of o c = Done d c.
Proof. intros (i & x & -> & E & _ & _ & Ed). unfold cdr_of, bind, read_cell. by rewrite E, Ed. Qed.

(** The type a value's object has. *)
Definition type_for (e : sexp) : fe_type :=
  match e with
  | SNil => FE_TNIL | SBool _ => FE_TBOOLEAN | SInt _ | SNum _ => FE_TNUMBER
  | SSym _ => FE_TSYMBOL | SStr _ => FE_TSTRING | SBytes _ => FE_TBYTES | SPair _ _ => FE_TPAIR
  end.

Lemma repr_type o e : repr c o e -> type_of o c = Done (type_for e) c.
Proof.
  destruct 1 as [| | | i x v E Et _ | i x p nm v s E Et _ _ _ | o s H | o s H | o a d ea ed H _ _ _];
    try done.
  - unfold type_of, bind, read_cell. by rewrite E, Et.
  - unfold type_of, bind, read_cell. by rewrite E, Et.
  - by eapply string_at_type.
  - by eapply string_at_type.
  - by eapply pair_at_type.
Qed.

Lemma emits_string o s qt f :
  string_at c FE_TSTRING o s ->
  emits (fe_write fn fmt_g7 fmt_p (S f) o qt) (show qt (SStr s)) any.
Proof.
  intros H. cbn [fe_write]. eapply emits_read; [by eapply string_at_type |]. cbv iota.
  assert (emits (if qt then write_checked fn quote_char FE_IO_ABORT_CHECK_INTERVAL
    else ret FE_IO_ABORT_CHECK_INTERVAL) (if qt then [quote_char] else []) any) as H1
    by (destruct qt; [apply emits_char | by apply emits_ret]).
  replace (show qt (SStr s)) with
    ((if qt then [quote_char] else []) ++ (if qt then escape s else s) ++ (if qt then [quote_char] else []))
    by (destruct qt; [done | cbn [show]; by rewrite app_nil_r]).
  eapply emits_bind; [exact H1 |]. intros cd1 _. eapply emits_read; [by eapply string_at_chars |].
  eapply emits_bind; [apply emits_string_chars |]. intros cd2 _.
  rewrite <- (app_nil_r (if qt then [quote_char] else [])).
  eapply (emits_bind _ _ _ _ any); [| intros; by apply emits_ret].
  destruct qt; [apply emits_char | by apply emits_ret].
Qed.

(** Text that is followed by nothing. *)
Lemma emits_str_end s cd : emits (writestr fn s cd ;;; ret tt) s any.
Proof.
  rewrite <- (app_nil_r s) at 2. eapply emits_bind; [apply emits_str |]. intros. by apply emits_ret.
Qed.

Definition prints (e : sexp) : Prop :=
  forall o qt f, repr c o e -> (ssize e <= f)%nat ->
    emits (fe_write fn fmt_g7 fmt_p f o qt) (show qt e) any.

Definition prints_items (e : sexp) : Prop :=
  forall o f cd, repr c o e -> (exists a d, e = SPair a d) -> (ssize e <= S f)%nat ->
    emits (write_items fn fmt_g7 fmt_p f o cd) (show_items e) (fun r => repr c (fst r) (last_cdr e)).

Lemma ssize_last e : (ssize (last_cdr e) <= ssize e)%nat.
Proof.
  induction e as [| | | | | | | a _ d IH]; try done.
  cbn [last_cdr]. destruct d; cbn [ssize] in *; lia.
Qed.

Lemma repr_Nil e : repr c Nil e -> e = SNil.
Proof.
  inversion 1 as [| | | | | ? ? H1 | ? ? H1 | ? ? ? ? ? H1]; subst; try done.
  - by destruct H1 as (? & ? & ? & ? & ? & _).
  - by destruct H1 as (? & ? & ? & ? & ? & _).
  - by destruct H1 as (? & ? & ? & _).
Qed.

Lemma repr_not_Nil o e : repr c o e -> o <> Nil -> show_end e = str " . " ++ show true e.
Proof. intros H Hn. destruct e; try done. by inversion H; subst. Qed.

Lemma ssize_last_lt a d : (ssize (last_cdr (SPair a d)) < ssize (SPair a d))%nat.
Proof.
  cbn [last_cdr]. destruct d; cbn [ssize]; try lia.
  pose proof (ssize_last (SPair d1 d2)). cbn [ssize] in *. lia.
Qed.

Lemma print_pair a d :
  prints_items (SPair a d) -> prints (last_cdr (SPair a d)) -> prints (SPair a d).
Proof.
  intros Hitems Hlast o qt f Hr Hf. destruct f as [| f]; [simpl in Hf; lia |]. rewrite show_pair.
  cbn [fe_write]. eapply emits_read; [by apply (repr_type _ _ Hr) |]. cbn [type_for].
  inversion Hr as [| | | | | | | o' a' d' ea ed Hp Hfr Ha Hd]; subst.
  intros b. unfold bind at 1, gets. cbn [fst].
  eapply emits_read; [by eapply pair_at_car |]. rewrite decide_False by done.
  eapply emits_bind; [apply emits_char |]. intros cd1 _.
  eapply emits_bind; [by apply Hitems; [done | eauto |] |]. intros [rest cd2] Hrest. cbn [fst] in Hrest.
  eapply (emits_bind _ _ _ _ any).
  - destruct (isnil rest) eqn:Hn.
    + apply bool_decide_eq_true in Hn. subst rest. rewrite (repr_Nil _ Hrest). by apply emits_ret.
    + apply bool_decide_eq_false in Hn. rewrite (repr_not_Nil _ _ Hrest Hn).
      eapply emits_bind; [apply emits_str |]. intros cd3 _.
      rewrite <- (app_nil_r (show true _)). eapply (emits_bind _ _ _ _ any).
      * apply Hlast; [done |]. pose proof (ssize_last_lt a d). lia.
      * intros. by apply emits_ret.
  - intros cd3 _. rewrite <- (app_nil_r (str ")")).
    eapply emits_bind; [apply emits_char |]. intros. by apply emits_ret.
Qed.

Lemma print_items a d : prints a -> prints_items d -> prints_items (SPair a d).
Proof.
  intros Ha Hd o f cd Hr _ Hf. destruct f as [| f]; [simpl in Hf; lia |]. cbn [ssize] in Hf.
  inversion Hr as [| | | | | | | o' oa od ea ed Hp Hfr Hra Hrd]; subst.
  cbn [write_items show_items last_cdr].
  eapply (emits_bind _ _ [] _ any); [apply emits_poll |]. intros cd1 _.
  eapply emits_read; [by eapply pair_at_car |].
  eapply (emits_bind _ _ _ _ any); [apply Ha; [done | lia] |]. intros [] _.
  eapply emits_read; [by eapply pair_at_cdr |].
  eapply emits_read; [by apply (repr_type _ _ Hrd) |].
  destruct d as [| | | | | | | a2 d2]; cbn [type_for];
    try (rewrite decide_True by done; apply emits_ret; exact Hrd).
  rewrite decide_False by (intros H; by apply H).
  eapply (emits_bind _ _ _ _ any); [apply emits_char |]. intros cd2 _.
  apply Hd; [done | by eauto | cbn [ssize] in *; lia].
Qed.

Lemma print_leaf e : (forall a d, e <> SPair a d) -> prints e.
Proof.
  intros Hl o qt f Hr Hf. destruct f as [| f]; [destruct e; simpl in Hf; lia |].
  inversion Hr as [| | | i x v E Et Ev | i x p nm v s E Et Ed Hp Hs | o' s Hs | o' s Hs
    | o' a d ea ed]; subst.
  - cbn [fe_write]. eapply emits_read; [done |]. apply emits_str_end.
  - cbn [fe_write]. eapply emits_read; [done |]. destruct b; apply emits_str_end.
  - cbn [fe_write]. eapply emits_read; [done |]. apply emits_str_end.
  - cbn [fe_write]. eapply emits_read; [by apply (repr_type _ _ Hr) |]. cbn [type_for].
    eapply emits_read; [| apply emits_str_end].
    unfold nval, bind, read_cell. by rewrite E, Ev.
  - cbn [fe_write]. eapply emits_read; [by apply (repr_type _ _ Hr) |]. cbn [type_for].
    eapply emits_read.
    + unfold symbol_name, cdr_of, bind, read_cell. rewrite E, Ed. unfold ret. by eapply pair_at_car.
    + destruct f; [simpl in Hf; lia |]. by apply (emits_string nm s false).
  - by apply emits_string.
  - cbn [fe_write]. eapply emits_read; [by apply (repr_type _ _ Hr) |]. cbn [type_for show].
    eapply (emits_bind _ _ _ _ any); [apply emits_str |]. intros cd1 _.
    eapply emits_read; [by eapply string_at_chars |].
    eapply (emits_bind _ _ _ _ any); [apply emits_bytes_chars |]. intros cd2 _.
    rewrite <- (app_nil_r (str "]")).
    eapply (emits_bind _ _ _ _ any); [apply emits_char |]. intros. by apply emits_ret.
  - by destruct (Hl ea ed).
Qed.

Lemma print_all e : prints e /\ prints_items e /\ prints (last_cdr e).
Proof.
  induction e as [| | | | | | | a (Ha & _ & _) d (Hd & Hdi & Hdl)];
    try (split_and!; [by apply print_leaf | by intros ? ? ? ? (? & ? & ?) | by apply print_leaf]).
  assert (prints_items (SPair a d)) by (by apply print_items).
  assert (prints (last_cdr (SPair a d))) by (cbn [last_cdr]; by destruct d).
  split_and!; [by apply print_pair | done | done].
Qed.
End Show.

(** [writebuf] keeps the first characters, as many as there is room for. *)
Lemma emit_writebuf s p n : 0 <= n ->
  emit writebuf s (p, n)
  = (p ++ take (Z.to_nat n) s, n - Z.min n (Z.of_nat (length s))).
Proof.
  unfold emit. revert p n. induction s as [| ch s IH]; intros p n Hn; cbn [fold_left].
  { rewrite firstn_nil, app_nil_r. f_equal. simpl length. lia. }
  unfold writebuf at 2. destruct (Z.eqb_spec n 0) as [-> | Hz].
  { rewrite IH by lia. rewrite !take_0. f_equal. lia. }
  rewrite IH by lia. replace (Z.to_nat n) with (S (Z.to_nat (n - 1))) by lia.
  rewrite firstn_cons, <- app_assoc. f_equal. cbn [length]. lia.
Qed.

(** C13. Printing a finite value (atoms, strings, byte buffers, proper and
    improper lists, nested to any depth) with no step, time or interrupt
    abort pending writes exactly its textual form to the callback, in order,
    and leaves the context as it was; fuel in proportion to the size of the
    value is enough, so the printer terminates on every such value.  With a
    buffer of [size] bytes, fe_tostring stores the longest prefix that fits
    with its terminator and returns its length. *)
Theorem fe_write_prints_value {B} (fn : ascii -> B -> B) fmt_g7 fmt_p c o e fuel
    (Hquiet : quiet (rt_bud (rt c))) (Hrepr : repr c o e) (Hfuel : (ssize e <= fuel)%nat) :
  (forall qt b, fe_write fn fmt_g7 fmt_p fuel o qt (c, b)
     = Done tt (c, fold_left (fun b ch => fn ch b) (show fmt_g7 qt e) b)) /\
  (forall size, 1 <= size ->
     let text := show fmt_g7 false e in
     let stored := take (Z.to_nat (size - 1)) text in
     fe_tostring fmt_g7 fmt_p fuel o size c = Done (stored, Z.of_nat (length stored)) c).
Proof.
  assert (forall B (fn : ascii -> B -> B) qt b, fe_write fn fmt_g7 fmt_p fuel o qt (c, b)
    = Done tt (c, emit fn (show fmt_g7 qt e) b)) as Hw.
  { intros B' fn' qt b. destruct (print_all fmt_g7 fn' fmt_p c Hquiet e) as (Hp & _ & _).
    destruct (Hp o qt fuel Hrepr Hfuel b) as ([] & H & _). exact H. }
  split; [intros; apply Hw |]. intros size Hs text stored. unfold fe_tostring. rewrite Hw.
  rewrite emit_writebuf by lia. cbn [app]. f_equal. f_equal. unfold stored, text.
  rewrite length_take. lia.
Qed.

(** A heap with the list [(1 "hi" . true)]. *)
Definition print_context : fe_Context :=
  with_cells
    [MkCell FE_TPAIR false (VObj (Fix 1)) (VObj (Ref 1));
     MkCell FE_TPAIR false (VObj (Ref 2)) (VObj (Boolean true));
     MkCell FE_TSTRING false (VObj (Fix 2)) (VSlab 0)]
    (blank_context 3 (MkArena [MkSlab FE_SLAB_NULL (str "hi")] FE_SLAB_NULL 0)
       example_mem (rt_bud example_rt) 4096).

Definition print_value : sexp := SPair (SInt 1) (SPair (SStr (str "hi")) (SBool true)).

Lemma print_context_repr : repr print_context (Ref 0) print_value.
Proof.
  assert (string_at print_context FE_TSTRING (Ref 2) (str "hi")).
  { exists 2%nat, (MkCell FE_TSTRING false (VObj (Fix 2)) (VSlab 0)), 0, [0].
    split_and!; try done. apply (holds_cons _ _ (MkSlab FE_SLAB_NULL (str "hi"))); [done.. |]. constructor. }
  apply (repr_pair _ _ (Fix 1) (Ref 1)); [by do 2 eexists | done | constructor |].
  apply (repr_pair _ _ (Ref 2) (Boolean true)); [by do 2 eexists | done | by constructor | constructor].
Qed.

Lemma fe_write_prints_value_witness :
  fe_tostring (fun _ => []) (fun _ => []) 10 (Ref 0) 6 print_context
  = Done (str "(1 " ++ [quote_char; "h"%char], 5) print_context.
Proof.
  exact (proj2 (fe_write_prints_value (B := unit) (fun _ b => b) (fun _ => []) (fun _ => []) print_context (Ref 0)
    print_value 10 (conj (Z.le_refl 0) eq_refl) print_context_repr ltac:(simpl; lia)) 6 ltac:(lia)).
Defined.
