(* ===== verification/Eval.v ===== *)
(** * The evaluator (src/fe.c: analyze, evallist, dolist, argstoenv, eval, fe_eval)

    [eval] is cut into one definition per case of its switch, each over the
    evaluator [ev] of the next round and the bound [n] on the loops of the
    case; [eval] closes the recursion on fuel.  The C variable [newenv]
    points to the caller's environment variable: here its value goes in and
    the value it is left with comes out ([None] is a null [newenv]).
    [goto tail_call] is a call of [ev] with the locals it jumps with.

    Registered C functions are the parameter [cfunc], the module loader is
    [import_module].  [lhs_first] is the order in which the compiler
    evaluates the two sides of an assignment, which C leaves open. *)

From Stdlib Require Import ZArith Lia Ascii String SpecFloat.
From stdpp Require Import base list.
From S2P Require Import Prelude Number Memory Budget MapTable Slab Span Ctx Gc Objects Writer.

Definition is_pair (o : obj) : comp fe_Context bool :=
  let* t := type_of o in ret (bool_decide (t = FE_TPAIR)).

(** [type(o) == FE_TPAIR && car(o) == sym] *)
Definition has_head (o sym : obj) : comp fe_Context bool :=
  let* p := is_pair o in
  if p then let* a := car_of o in ret (bool_decide (a = sym)) else ret false.

Fixpoint pushgcs (os : list obj) : comp fe_Context unit :=
  match os with [] => ret tt | o :: os => fe_pushgc o ;;; pushgcs os end.

(** ** Free variables of a function body *)

(** The loop that prepends the elements of [p]. *)
Fixpoint cons_params (fuel : nat) (p bound : obj) : comp fe_Context obj :=
  if isnil p then ret bound
  else match fuel with
       | O => no_fuel
       | S f =>
           let* a := car_of p in
           let* bound := fe_cons a bound in
           let* p := cdr_of p in
           cons_params f p bound
       end.

Fixpoint analyze (fuel : nat) (node bound free_vars : obj) : comp fe_Context obj :=
  match fuel with
  | O => no_fuel
  | S f =>
      let* c := get in
      let* t := type_of node in
      if decide (t <> FE_TPAIR) then
        if decide (t = FE_TSYMBOL) then
          let* b := list_has (list_fuel c) bound node in
          if b then ret free_vars
          else let* b := list_has (list_fuel c) free_vars node in
               if b then ret free_vars else fe_cons node free_vars
        else ret free_vars
      else
        let* op := car_of node in
        let* args := cdr_of node in
        if decide (op = quote_sym (syms c)) then ret free_vars
        else if decide (op = do_sym (syms c)) then
          let* gc := fe_savegc in
          fe_pushgc bound ;;;
          let* free_vars := analyze_do f gc args bound free_vars in
          fe_restoregc gc ;;;
          ret free_vars
        else if decide (op = fn_sym (syms c) \/ op = mac_sym (syms c)) then
          let* params := car_of args in
          let* d := cdr_of args in
          let* body := car_of d in
          let* gc := fe_savegc in
          fe_pushgc Nil ;;;
          let* inner_bound := cons_params f params Nil in
          fe_pushgc Nil ;;;
          let* inner_free := analyze f body inner_bound Nil in
          fe_restoregc gc ;;;
          fe_pushgc inner_free ;;;
          let* free_vars := analyze_each f inner_free bound free_vars in
          fe_restoregc gc ;;;
          ret free_vars
        else
          let* free_vars := analyze f op bound free_vars in
          analyze_args f args bound free_vars
  end

(** The statements of a [do]. *)
with analyze_do (fuel : nat) (gc : nat) (p local_bound free_vars : obj) : comp fe_Context obj :=
  match fuel with
  | O => no_fuel
  | S f =>
      if isnil p then ret free_vars
      else
        let* c := get in
        let* stmt := car_of p in
        let* l := has_head stmt (let_sym (syms c)) in
        let* '(local_bound, free_vars) :=
          (if l then
             let* let_args := cdr_of stmt in
             let* var := car_of let_args in
             let* d := cdr_of let_args in
             let* expr := car_of d in
             let* free_vars := analyze f expr local_bound free_vars in
             let* local_bound := fe_cons var local_bound in
             fe_restoregc gc ;;;
             fe_pushgc local_bound ;;;
             ret (local_bound, free_vars)
           else
             let* free_vars := analyze f stmt local_bound free_vars in
             ret (local_bound, free_vars)) in
        let* p := cdr_of p in
        analyze_do f gc p local_bound free_vars
  end

(** The inner function's free variables, in the outer scope. *)
with analyze_each (fuel : nat) (p bound free_vars : obj) : comp fe_Context obj :=
  match fuel with
  | O => no_fuel
  | S f =>
      if isnil p then ret free_vars
      else
        let* a := car_of p in
        let* free_vars := analyze f a bound free_vars in
        let* p := cdr_of p in
        analyze_each f p bound free_vars
  end

(** The arguments of a call, which may end in a dotted tail. *)
with analyze_args (fuel : nat) (p bound free_vars : obj) : comp fe_Context obj :=
  match fuel with
  | O => no_fuel
  | S f =>
      if isnil p then ret free_vars
      else
        let* isp := is_pair p in
        if isp then
          let* a := car_of p in
          let* free_vars := analyze f a bound free_vars in
          let* p := cdr_of p in
          analyze_args f p bound free_vars
        else analyze f p bound free_vars
  end.

(** ** Parameter binding *)

Fixpoint argstoenv_loop (fuel : nat) (save : nat) (prm arg env : obj) : comp fe_Context obj :=
  if isnil prm then ret env
  else match fuel with
       | O => no_fuel
       | S f =>
           let* isp := is_pair prm in
           if negb isp then
             fe_restoregc save ;;;
             pushgcs [prm; arg; env] ;;;
             let* binding := fe_cons prm arg in
             fe_restoregc save ;;;
             pushgcs [env; binding] ;;;
             fe_cons binding env
           else
             fe_restoregc save ;;;
             pushgcs [prm; arg; env] ;;;
             let* k := car_of prm in
             let* v := fe_car arg in
             let* binding := fe_cons k v in
             fe_restoregc save ;;;
             pushgcs [prm; arg; env; binding] ;;;
             let* env := fe_cons binding env in
             let* prm := cdr_of prm in
             let* arg := fe_cdr arg in
             argstoenv_loop f save prm arg env
       end.
Definition argstoenv (prm arg env : obj) : comp fe_Context obj :=
  let* save := fe_savegc in
  let* c := get in
  let* env := argstoenv_loop (list_fuel c) save prm arg env in
  fe_restoregc save ;;;
  ret env.

(** ** Cases of eval *)

Section Step.
Context (oob : double -> Z) (fmt_g7 : double -> chars) (fmt_p : obj -> chars).
Context (cfunc : nat -> obj -> comp fe_Context obj).
Context (import_module : obj -> comp fe_Context obj).
Context (lhs_first : bool).

(** An evaluator: form, environment, newenv and whether the form is in the
    tail position of a function. *)
Definition evaluator : Type := obj -> obj -> option obj -> bool -> comp fe_Context (obj * option obj).

Context (ev : evaluator) (n : nat).

(** [eval(ctx, o, env, NULL)] *)
Definition eval_null (o env : obj) : comp fe_Context obj :=
  let* '(v, _) := ev o env None false in ret v.
(** [res = eval(ctx, o, env, &env)]: the result and the variable. *)
Definition eval_env (o env : obj) : comp fe_Context (obj * obj) :=
  let* '(v, e) := ev o env (Some env) false in
  match e with Some env => ret (v, env) | None => stuck end.

(** evalarg(): the value and the remaining arguments. *)
Definition evalarg (arg env : obj) : comp fe_Context (obj * obj) :=
  let* '(a, arg) := fe_nextarg arg in
  let* v := eval_null a env in
  ret (v, arg).

(** [tail] is [None] while it points to [res], and the last pair after. *)
Fixpoint evallist_loop (fuel : nat) (save : nat) (lst env res : obj) (tail : option obj)
    : comp fe_Context obj :=
  if isnil lst then ret res
  else match fuel with
       | O => no_fuel
       | S f =>
           fe_restoregc save ;;;
           pushgcs [res; lst; env] ;;;
           let* '(a, lst) := fe_nextarg lst in
           let* value := eval_null a env in
           fe_restoregc save ;;;
           pushgcs [res; lst; env; value] ;;;
           let* p := fe_cons value Nil in
           match tail with
           | None => evallist_loop f save lst env p (Some p)
           | Some t => setcdr t (VObj p) ;;; evallist_loop f save lst env res (Some p)
           end
       end.
Definition evallist (lst env : obj) : comp fe_Context obj :=
  let* save := fe_savegc in
  let* res := evallist_loop n save lst env Nil None in
  fe_restoregc save ;;;
  ret res.

Fixpoint dolist_loop (fuel : nat) (save : nat) (lst env res : obj) : comp fe_Context obj :=
  if isnil lst then ret res
  else match fuel with
       | O => no_fuel
       | S f =>
           fe_restoregc save ;;;
           pushgcs [lst; env] ;;;
           let* '(a, lst) := fe_nextarg lst in
           let* '(res, env) := eval_env a env in
           let* r := is_return_obj res in
           if r then ret res else dolist_loop f save lst env res
       end.
Definition dolist (lst env : obj) : comp fe_Context obj :=
  let* save := fe_savegc in
  dolist_loop n save lst env Nil.

(** *** Modules *)

Definition module_name (name_obj : obj) : comp fe_Context obj :=
  let* t := type_of name_obj in
  match t with
  | FE_TSYMBOL => ret name_obj
  | FE_TSTRING =>
      let* b := string_contains_nul name_obj in
      if b then fe_error "module: name strings cannot contain NUL bytes"
      else fe_symbol_from_string_obj name_obj
  | _ => checktype name_obj FE_TSTRING ;;; ret Nil
  end.

Definition eval_module (arg env : obj) : comp fe_Context obj :=
  let* '(name_obj, arg) := fe_nextarg arg in
  let* '(body, _) := fe_nextarg arg in
  let* name_sym := module_name name_obj in
  let* exports := fe_map in
  fe_pushgc exports ;;;
  let* c := get in
  let* m := fe_cons exports (modulestack c) in
  modify (with_modulestack m) ;;;
  let* '(_, env) := eval_env body env in
  let* c := get in
  let* exports := car_of (modulestack c) in
  let* m := cdr_of (modulestack c) in
  modify (with_modulestack m) ;;;
  fe_set name_sym exports ;;;
  ret exports.

(** The last expression of a [do], the name it exports. *)
Fixpoint last_expr (fuel : nat) (tail_exprs : obj) : comp fe_Context obj :=
  match fuel with
  | O => no_fuel
  | S f =>
      let* isp := is_pair tail_exprs in
      if isp && negb (isnil tail_exprs) then
        let* d := cdr_of tail_exprs in
        if isnil d then car_of tail_exprs else last_expr f d
      else ret NULL
  end.

Definition export_name (decl : obj) : comp fe_Context obj :=
  let* c := get in
  let* t := type_of decl in
  let* l := has_head decl (let_sym (syms c)) in
  let* d := has_head decl (do_sym (syms c)) in
  if decide (t = FE_TSYMBOL) then ret decl
  else if l then let* x := fe_cdr decl in fe_car x
  else if d then
    let* exprs := cdr_of decl in
    let* set_sym := fe_symbol (str "=") in
    let* isp := is_pair exprs in
    let* name_sym :=
      (if isp then
         let* first := car_of exprs in
         let* s := has_head first set_sym in
         if s then let* x := fe_cdr first in fe_car x else ret NULL
       else ret NULL) in
    if decide (name_sym = NULL) then last_expr n exprs else ret name_sym
  else ret NULL.

Definition eval_export (arg env : obj) : comp fe_Context obj :=
  let* c := get in
  if isnil (modulestack c) then fe_error "export outside of module"
  else
    let* '(decl, _) := fe_nextarg arg in
    let* exports := fe_car (modulestack c) in
    let* name_sym := export_name decl in
    checktype name_sym FE_TSYMBOL ;;;
    let* '(res, _) := eval_env decl env in
    map_set exports name_sym res ;;;
    ret res.

(** *** Property access *)

Definition eval_get (arg env : obj) : comp fe_Context obj :=
  let* '(va, arg) := evalarg arg env in
  let* '(vb, _) := fe_nextarg arg in
  checktype vb FE_TSYMBOL ;;;
  let* t := type_of va in
  if decide (t = FE_TMAP) then map_get va vb
  else
    let* '(binding, is_table) := find_assoc_binding vb va in
    match binding with
    | Some b => cdr_of b
    | None =>
        if negb is_table && bool_decide (t = FE_TPAIR) then
          let* h := fe_symbol_name_eq vb (str "head") in
          let* h := (if h then ret true else fe_symbol_name_eq vb (str "first")) in
          if h then car_of va
          else
            let* h := fe_symbol_name_eq vb (str "tail") in
            let* h := (if h then ret true else fe_symbol_name_eq vb (str "rest")) in
            if h then cdr_of va
            else fe_error "Only .head, .first, .tail, and .rest are valid on pairs"
        else if is_table then ret Nil
        else fe_error "property access is only supported on maps/modules and pairs"
    end.

Definition eval_put (arg env : obj) : comp fe_Context obj :=
  let* '(va, arg) := evalarg arg env in
  let* '(vb, arg) := fe_nextarg arg in
  let* '(res, _) := evalarg arg env in
  map_set va vb res ;;;
  ret res.

(** *** Binding *)

Definition eval_return (arg env : obj) : comp fe_Context obj :=
  let* va := (if isnil arg then ret Nil else let* '(v, _) := evalarg arg env in ret v) in
  let* c := get in
  fe_cons (return_sym (syms c)) va.

(** A new binding in front of the environment, in its frame if it is one. *)
Definition extend_env (binding env : obj) : comp fe_Context obj :=
  let* c := get in
  let* fr := has_head env (frame_sym (syms c)) in
  if fr then
    let* d := cdr_of env in
    let* locals := car_of d in
    let* upvals := cdr_of d in
    let* new_locals := fe_cons binding locals in
    let* new_frame_env := fe_cons new_locals upvals in
    fe_cons (frame_sym (syms c)) new_frame_env
  else fe_cons binding env.

Definition eval_let (arg env : obj) (newenv : option obj) : comp fe_Context (obj * option obj) :=
  let* '(a, arg) := fe_nextarg arg in
  let* sym := checktype a FE_TSYMBOL in
  let* '(val_expr, _) := fe_nextarg arg in
  match newenv with
  | Some ne =>
      let* binding := fe_cons sym Nil in
      let* ne := extend_env binding ne in
      let* val := eval_null val_expr ne in
      setcdr binding (VObj val) ;;;
      ret (val, Some ne)
  | None =>
      let* val := eval_null val_expr env in
      fe_set sym val ;;;
      ret (val, None)
  end.

Definition eval_set (arg env : obj) : comp fe_Context obj :=
  let* '(a, arg) := fe_nextarg arg in
  let* va := checktype a FE_TSYMBOL in
  (if lhs_first then
     let* b := getbound va env in
     let* '(v, _) := evalarg arg env in
     setcdr b (VObj v)
   else
     let* '(v, _) := evalarg arg env in
     let* b := getbound va env in
     setcdr b (VObj v)) ;;;
  ret Nil.

(** *** Control *)

(** How a case ends: [break] out of the switch with [res] (and [newenv]), or
    [goto tail_call] with new values of [obj], [env] and [in_func_tail]. *)
Inductive next :=
| Break (res : obj) (newenv : option obj)
| TailCall (obj env : obj) (in_func_tail : bool).

(** The exit of the current form: the root stack, the call list and the
    depth are those of its entry. *)
Definition leave (gc : nat) (cl : list obj) : comp fe_Context unit :=
  fe_restoregc gc ;;;
  modify (with_calllist cl) ;;;
  modify (fun c => with_current_eval_depth (i32 (current_eval_depth c - 1)) c).

Fixpoint eval_if (fuel : nat) (gc : nat) (cl : list obj) (arg env : obj) (newenv : option obj)
    (ift : bool) : comp fe_Context next :=
  if isnil arg then ret (Break Nil newenv)
  else match fuel with
       | O => no_fuel
       | S f =>
           let* d := cdr_of arg in
           if isnil d then
             let* '(o, _) := fe_nextarg arg in
             leave gc cl ;;;
             ret (TailCall o env ift)
           else
             let* '(va, arg) := evalarg arg env in
             if fe_truthy va then
               let* '(o, _) := fe_nextarg arg in
               leave gc cl ;;;
               ret (TailCall o env ift)
             else if isnil arg then ret (Break Nil newenv)
             else let* arg := cdr_of arg in eval_if f gc cl arg env newenv ift
       end.

(** The parameters of a new function, rooting only the list built so far. *)
Fixpoint fn_bound (fuel : nat) (s : nat) (p bound : obj) : comp fe_Context obj :=
  if isnil p then ret bound
  else match fuel with
       | O => no_fuel
       | S f =>
           fe_restoregc s ;;;
           fe_pushgc bound ;;;
           let* a := car_of p in
           let* bound := fe_cons a bound in
           let* p := cdr_of p in
           fn_bound f s p bound
       end.

(** [(def_env free_vars params body)] in a function or macro object. *)
Definition eval_fn (prim : primop) (arg env : obj) : comp fe_Context obj :=
  let* '(params, arg) := fe_nextarg arg in
  let* body := fe_car arg in
  let* s := fe_savegc in
  fe_pushgc Nil ;;;
  let* bound := fn_bound n s params Nil in
  fe_pushgc Nil ;;;
  let* free_vars := analyze n body bound Nil in
  fe_restoregc s ;;;
  pushgcs [free_vars; params; body; env] ;;;
  let* va := fe_cons body Nil in
  fe_restoregc s ;;;
  pushgcs [free_vars; params; body; env; va] ;;;
  let* va := fe_cons params va in
  fe_restoregc s ;;;
  pushgcs [free_vars; params; body; env; va] ;;;
  let* va := fe_cons free_vars va in
  fe_restoregc s ;;;
  pushgcs [free_vars; params; body; env; va] ;;;
  let* va := fe_cons env va in
  fe_restoregc s ;;;
  fe_pushgc va ;;;
  let* res := object in
  settype res (if decide (prim = P_FN) then FE_TFUNC else FE_TMACRO) ;;;
  setcdr res (VObj va) ;;;
  ret res.

(** One run of the body of a [while]: the last result and [env]. *)
Fixpoint while_body (fuel : nat) (wsave : nat) (arg body_cur env res : obj)
    : comp fe_Context (obj * obj) :=
  if isnil body_cur then ret (res, env)
  else match fuel with
       | O => no_fuel
       | S f =>
           let* '(expr, body_cur) := fe_nextarg body_cur in
           if isnil body_cur then
             fe_restoregc wsave ;;;
             pushgcs [arg; env] ;;;
             eval_env expr env
           else
             fe_restoregc wsave ;;;
             pushgcs [body_cur; env] ;;;
             let* '(res, env) := eval_env expr env in
             let* r := is_return_obj res in
             if r then ret (res, env) else while_body f wsave arg body_cur env res
       end.

Fixpoint while_loop (fuel : nat) (save : nat) (cond_expr arg env res : obj) : comp fe_Context obj :=
  match fuel with
  | O => no_fuel
  | S f =>
      let* v := eval_null cond_expr env in
      if fe_truthy v then
        let* wsave := fe_savegc in
        let* '(res, env) := while_body n wsave arg arg env res in
        let* r := is_return_obj res in
        if r then ret res
        else fe_restoregc save ;;; while_loop f save cond_expr arg env res
      else ret res
  end.
Definition eval_while (arg env : obj) : comp fe_Context obj :=
  let* '(cond_expr, arg) := fe_nextarg arg in
  let* save := fe_savegc in
  while_loop n save cond_expr arg env Nil.

(** [and] stops at the first false value, [or] at the first true one. *)
Fixpoint eval_logic (fuel : nat) (stop : bool) (arg env res : obj) : comp fe_Context obj :=
  if isnil arg then ret res
  else match fuel with
       | O => no_fuel
       | S f =>
           let* '(res, arg) := evalarg arg env in
           if Bool.eqb (fe_truthy res) stop then ret res else eval_logic f stop arg env res
       end.

Fixpoint eval_do (fuel : nat) (gc : nat) (cl : list obj) (save : nat) (arg env res : obj)
    (newenv : option obj) (ift : bool) : comp fe_Context next :=
  if isnil arg then ret (Break res newenv)
  else match fuel with
       | O => no_fuel
       | S f =>
           let* '(expr, arg) := fe_nextarg arg in
           if isnil arg then
             leave gc cl ;;;
             ret (TailCall expr env ift)
           else
             fe_restoregc save ;;;
             pushgcs [arg; env] ;;;
             let* '(res, env) := eval_env expr env in
             let* r := is_return_obj res in
             if r then ret (Break res newenv)
             else eval_do f gc cl save arg env res newenv ift
       end.

(** *** Data *)

Definition eval_cons (arg env : obj) : comp fe_Context obj :=
  let* '(va, arg) := evalarg arg env in
  let* '(vb, _) := evalarg arg env in
  fe_cons va vb.

Definition eval_setfield (set : obj -> Value -> comp fe_Context unit) (arg env : obj)
    : comp fe_Context obj :=
  let* '(v, arg) := evalarg arg env in
  let* va := checktype v FE_TPAIR in
  let* '(v, _) := evalarg arg env in
  set va (VObj v) ;;;
  ret Nil.

Definition eval_is (arg env : obj) : comp fe_Context obj :=
  let* '(va, arg) := evalarg arg env in
  let* '(vb, _) := evalarg arg env in
  let* b := equal va vb in
  ret (Boolean b).

Definition eval_atom (arg env : obj) : comp fe_Context obj :=
  let* '(v, _) := evalarg arg env in
  let* t := type_of v in
  ret (Boolean (negb (bool_decide (t = FE_TPAIR)))).

Definition puts (s : string) : comp fe_Context unit :=
  modify (fun c => with_out (out c ++ str s) c).

Fixpoint eval_print (fuel : nat) (arg env : obj) : comp fe_Context unit :=
  if isnil arg then puts (String (ascii_of_nat 10) "")
  else match fuel with
       | O => no_fuel
       | S f =>
           let* '(v, arg) := evalarg arg env in
           fe_writefp fmt_g7 fmt_p n v ;;;
           (if isnil arg then ret tt else puts " ") ;;;
           eval_print f arg env
       end.

(** *** Arithmetic *)

(** [nval(checknum(ctx, evalarg()))] *)
Definition evalnum (arg env : obj) : comp fe_Context (double * obj) :=
  let* '(v, arg) := evalarg arg env in
  let* o := checknum v in
  let* x := nval o in
  ret (x, arg).

Definition numcmpop (op : double -> double -> bool) (arg env : obj) : comp fe_Context obj :=
  let* '(v, arg) := evalarg arg env in
  let* va := checknum v in
  let* '(v, _) := evalarg arg env in
  let* vb := checknum v in
  let* x := nval va in
  let* y := nval vb in
  ret (Boolean (op x y)).

Fixpoint arith_loop (fuel : nat) (op : double -> double -> comp fe_Context double) (x : double)
    (arg env : obj) : comp fe_Context double :=
  if isnil arg then ret x
  else match fuel with
       | O => no_fuel
       | S f =>
           let* '(y, arg) := evalnum arg env in
           let* x := op x y in
           arith_loop f op x arg env
       end.

Definition arithop (op : double -> double -> comp fe_Context double) (arg env : obj)
    : comp fe_Context obj :=
  let* '(x, arg) := evalnum arg env in
  let* x := arith_loop n op x arg env in
  make_number oob x.

Definition add (x y : double) : comp fe_Context double := ret (SFadd prec emax x y).
Definition sub (x y : double) : comp fe_Context double := ret (SFsub prec emax x y).
Definition mul (x y : double) : comp fe_Context double := ret (SFmul prec emax x y).
Definition div (x d : double) : comp fe_Context double :=
  if SFeqb d (S754_zero false) then fe_error "division by zero"
  else ret (SFdiv prec emax x d).

Definition eval_sub (arg env : obj) : comp fe_Context obj :=
  if isnil arg then make_number oob (S754_zero false)
  else
    let* '(x, arg) := evalnum arg env in
    if isnil arg then make_number oob (SFopp x)
    else let* x := arith_loop n sub x arg env in make_number oob x.

(** *** Calls *)

(** The bindings of the free variables in the definition environment. *)
Fixpoint capture_loop (fuel : nat) (s : nat) (p def_env arg upvals : obj) : comp fe_Context obj :=
  if isnil p then ret upvals
  else match fuel with
       | O => no_fuel
       | S f =>
           let* sym := car_of p in
           let* binding := getbound sym def_env in
           fe_restoregc s ;;;
           pushgcs [upvals; def_env; arg; binding] ;;;
           let* upvals := fe_cons binding upvals in
           let* p := cdr_of p in
           capture_loop f s p def_env arg upvals
       end.
Definition capture (free_vars def_env arg : obj) : comp fe_Context obj :=
  let* s := fe_savegc in
  pushgcs [Nil; def_env; arg] ;;;
  let* upvals := capture_loop n s free_vars def_env arg Nil in
  fe_restoregc s ;;;
  ret upvals.

(** The frame [(frame locals . upvals)] of a call. *)
Definition make_frame (params arg upvals : obj) : comp fe_Context obj :=
  let* frame_save := fe_savegc in
  pushgcs [upvals; arg] ;;;
  let* locals := argstoenv params arg Nil in
  fe_pushgc locals ;;;
  let* frame := fe_cons locals upvals in
  fe_pushgc frame ;;;
  let* c := get in
  let* frame := fe_cons (frame_sym (syms c)) frame in
  fe_restoregc frame_save ;;;
  ret frame.

(** The fields of a function object: environment, free variables,
    parameters and body. *)
Definition fn_fields (fn : obj) : comp fe_Context (obj * obj * obj * obj) :=
  let* fn_guts := cdr_of fn in
  let* def_env := car_of fn_guts in
  let* fn_guts := cdr_of fn_guts in
  let* free_vars := car_of fn_guts in
  let* params_body := cdr_of fn_guts in
  let* params := car_of params_body in
  let* body := cdr_of params_body in
  ret (def_env, free_vars, params, body).

Fixpoint call_body (fuel : nat) (gc : nat) (cl : list obj) (save : nat) (body_cur frame res : obj)
    (newenv : option obj) : comp fe_Context next :=
  if isnil body_cur then ret (Break res newenv)
  else match fuel with
       | O => no_fuel
       | S f =>
           let* '(expr, body_cur) := fe_nextarg body_cur in
           if isnil body_cur then
             leave gc cl ;;;
             ret (TailCall expr frame true)
           else
             fe_restoregc save ;;;
             pushgcs [body_cur; frame] ;;;
             let* '(res, frame) := eval_env expr frame in
             let* r := is_return_obj res in
             if r then let* res := cdr_of res in ret (Break res newenv)
             else call_body f gc cl save body_cur frame res newenv
       end.

Definition eval_call (gc : nat) (cl : list obj) (fn arg env : obj) (newenv : option obj)
    : comp fe_Context next :=
  let* arg := evallist arg env in
  let* '(def_env, free_vars, params, body) := fn_fields fn in
  let* upvals := capture free_vars def_env arg in
  pushgcs [upvals; arg] ;;;
  let* frame := make_frame params arg upvals in
  let* save := fe_savegc in
  call_body n gc cl save body frame Nil newenv.

(** [*obj = *src] *)
Definition copy_object (o src : obj) : comp fe_Context unit :=
  match o, src with
  | Ref i, Ref j => let* x := read_cell j in write_cell i x
  | Ref i, Nil => write_cell i (MkCell FE_TNIL false (VObj NULL) (VObj NULL))
  | _, _ => stuck
  end.

Definition eval_macro (gc : nat) (cl : list obj) (o fn arg env : obj) : comp fe_Context obj :=
  let* '(def_env, free_vars, params, body) := fn_fields fn in
  let* upvals := capture free_vars def_env arg in
  let* frame := make_frame params arg upvals in
  let* save := fe_savegc in
  fe_pushgc frame ;;;
  let* r := dolist body frame in
  copy_object o r ;;;
  fe_restoregc save ;;;
  leave gc cl ;;;
  eval_null o env.

(** *** The switch on primitives *)

Definition plain (newenv : option obj) (m : comp fe_Context obj) : comp fe_Context next :=
  let* res := m in ret (Break res newenv).

Definition eval_prim (gc : nat) (cl : list obj) (prim : primop) (arg env : obj)
    (newenv : option obj) (ift : bool) : comp fe_Context next :=
  let one f := let* '(v, _) := evalarg arg env in f v in
  match prim with
  | P_MODULE => plain newenv (eval_module arg env)
  | P_EXPORT => plain newenv (eval_export arg env)
  | P_IMPORT => plain newenv (let* '(vb, _) := fe_nextarg arg in import_module vb)
  | P_GET => plain newenv (eval_get arg env)
  | P_PUT => plain newenv (eval_put arg env)
  | P_RETURN => plain newenv (eval_return arg env)
  | P_LET => let* '(res, newenv) := eval_let arg env newenv in ret (Break res newenv)
  | P_SET => plain newenv (eval_set arg env)
  | P_IF => eval_if n gc cl arg env newenv ift
  | P_FN | P_MAC => plain newenv (eval_fn prim arg env)
  | P_WHILE => plain newenv (eval_while arg env)
  | P_QUOTE => plain newenv (let* '(v, _) := fe_nextarg arg in ret v)
  | P_AND => plain newenv (eval_logic n false arg env Nil)
  | P_OR => plain newenv (eval_logic n true arg env Nil)
  | P_DO => let* save := fe_savegc in eval_do n gc cl save arg env Nil newenv ift
  | P_CONS => plain newenv (eval_cons arg env)
  | P_CAR => plain newenv (one fe_car)
  | P_CDR => plain newenv (one fe_cdr)
  | P_SETCAR => plain newenv (eval_setfield setcar arg env)
  | P_SETCDR => plain newenv (eval_setfield setcdr arg env)
  | P_LIST => plain newenv (evallist arg env)
  | P_NOT => plain newenv (one (fun v => ret (Boolean (negb (fe_truthy v)))))
  | P_IS => plain newenv (eval_is arg env)
  | P_ATOM => plain newenv (eval_atom arg env)
  | P_PRINT => plain newenv (eval_print n arg env ;;; ret Nil)
  | P_LT => plain newenv (numcmpop SFltb arg env)
  | P_LTE => plain newenv (numcmpop SFleb arg env)
  | P_GT => plain newenv (numcmpop (fun x y => SFltb y x) arg env)
  | P_GTE => plain newenv (numcmpop (fun x y => SFleb y x) arg env)
  | P_ADD => plain newenv (arithop add arg env)
  | P_SUB => plain newenv (eval_sub arg env)
  | P_MUL => plain newenv (arithop mul arg env)
  | P_DIV => plain newenv (arithop div arg env)
  end.

(** After the switch: the result becomes a root of the caller, and a
    [return] in the tail position of a function is unwrapped. *)
Definition finish (gc : nat) (cl : list obj) (res : obj) (newenv : option obj) (ift : bool)
    : comp fe_Context (obj * option obj) :=
  fe_restoregc gc ;;;
  fe_pushgc res ;;;
  modify (with_calllist cl) ;;;
  modify (fun c => with_current_eval_depth (i32 (current_eval_depth c - 1)) c) ;;;
  if ift then
    let* r := is_return_obj res in
    if r then let* res := cdr_of res in ret (res, newenv) else ret (res, newenv)
  else ret (res, newenv).

Definition proceed (gc : nat) (cl : list obj) (newenv : option obj) (ift : bool) (x : next)
    : comp fe_Context (obj * option obj) :=
  match x with
  | Break res newenv => finish gc cl res newenv ift
  | TailCall o env ift => ev o env newenv ift
  end.

(** The form [obj] after the label [tail_call] has stripped a [return] in
    tail position. *)
Definition strip_return (o : obj) (ift : bool) : comp fe_Context obj :=
  let* c := get in
  if ift then
    let* r := has_head o (return_sym (syms c)) in
    if r then
      let* ret_args := cdr_of o in
      if isnil ret_args then ret Nil else car_of ret_args
    else ret o
  else ret o.

(** The call of the pair [o]. *)
Definition eval_pair (o env : obj) (newenv : option obj) (ift : bool)
    : comp fe_Context (obj * option obj) :=
  let* cl := gets calllist in
  modify (with_calllist (o :: cl)) ;;;
  let* gc := fe_savegc in
  fe_pushgc env ;;;
  fe_pushgc o ;;;
  let* a := car_of o in
  let* fn := eval_null a env in
  let* arg := cdr_of o in
  let* t := type_of fn in
  match fn, t with
  | Ref i, FE_TPRIM =>
      let* x := read_cell i in
      match cdr x with
      | VPrim prim =>
          let* x := eval_prim gc cl prim arg env newenv ift in
          proceed gc cl newenv ift x
      | _ => stuck
      end
  | Ref i, FE_TCFUNC =>
      let* arg := evallist arg env in
      fe_pushgc arg ;;;
      let* x := read_cell i in
      match cdr x with
      | VCFunc f => let* res := cfunc f arg in finish gc cl res newenv ift
      | _ => stuck
      end
  | _, FE_TFUNC =>
      let* x := eval_call gc cl fn arg env newenv in
      proceed gc cl newenv ift x
  | _, FE_TMACRO =>
      let* res := eval_macro gc cl o fn arg env in
      ret (res, newenv)
  | _, _ => fe_error "tried to call non-callable value"
  end.

Definition eval_step : evaluator := fun o env newenv ift =>
  let* o := strip_return o ift in
  lift_budget check_eval_budget ;;;
  let* c := get in
  if (0 <? max_eval_depth c) && (max_eval_depth c <=? current_eval_depth c)
  then fe_error "eval recursion depth limit exceeded"
  else
    let down := modify (fun c => with_current_eval_depth (i32 (current_eval_depth c - 1)) c) in
    modify (with_current_eval_depth (i32 (current_eval_depth c + 1))) ;;;
    let* t := type_of o in
    if decide (t = FE_TSYMBOL) then
      down ;;;
      let* b := getbound o env in
      let* v := cdr_of b in
      ret (v, newenv)
    else if decide (t <> FE_TPAIR) then down ;;; ret (o, newenv)
    else eval_pair o env newenv ift.
End Step.

Section Eval.
Context (oob : double -> Z) (fmt_g7 : double -> chars) (fmt_p : obj -> chars).
Context (cfunc : nat -> obj -> comp fe_Context obj).
Context (import_module : obj -> comp fe_Context obj).
Context (lhs_first : bool).

Fixpoint eval (fuel : nat) : evaluator :=
  match fuel with
  | O => fun _ _ _ _ => no_fuel
  | S f => eval_step oob fmt_g7 fmt_p cfunc import_module lhs_first (eval f) f
  end.

Definition fe_eval (fuel : nat) (o : obj) : comp fe_Context obj :=
  lift_budget begin_eval_run ;;;
  let* '(res, _) := eval fuel o Nil None false in
  lift_budget (modify end_eval_run) ;;;
  ret res.
End Eval.
