(* ===== verification/Frame.v ===== *)
(** * What operations do to the evaluator's stacks

    The C call list, the evaluation depth and the root stack of a context
    are its control state.  An [inert] operation leaves it as it is; one
    that [keeps k] may push roots, but the first [k] roots, the call list
    and the depth are the same when it returns.  Every error leaves an
    empty call list and depth zero. *)

From Stdlib Require Import ZArith Lia Ascii String.
From stdpp Require Import base list.
From S2P Require Import Prelude Number Memory Budget MapTable Slab Span Host Ctx Gc Objects Writer.

(** ** Computations that raise no error *)

Definition never_raises {S A} (m : comp S A) : Prop := forall s e s', m s <> Raised e s'.

Lemma nr_ret {S A} (a : A) : never_raises (ret (S := S) a).
Proof. done. Qed.
Lemma nr_bind {S A B} (m : comp S A) (f : A -> comp S B) :
  never_raises m -> (forall a, never_raises (f a)) -> never_raises (bind m f).
Proof.
  intros Hm Hf s e s'. unfold bind. specialize (Hm s). destruct (m s); try done.
  - apply Hf.
  - by destruct (Hm msg s0).
Qed.
Lemma nr_basic {S A} :
  never_raises (@get S) /\ never_raises (@stuck S A) /\ never_raises (@no_fuel S A) /\
  forall f, never_raises (@modify S f).
Proof. done. Qed.

Create HintDb nr.
#[export] Hint Resolve nr_ret : nr.
#[export] Hint Extern 0 (never_raises get) => exact (proj1 (@nr_basic _ unit)) : nr.
#[export] Hint Extern 0 (never_raises stuck) => exact (proj1 (proj2 nr_basic)) : nr.
#[export] Hint Extern 0 (never_raises no_fuel) => exact (proj1 (proj2 (proj2 nr_basic))) : nr.
#[export] Hint Extern 0 (never_raises (modify _)) =>
  exact (proj2 (proj2 (proj2 (@nr_basic _ unit))) _) : nr.

Ltac nr :=
  repeat (cbv beta iota zeta; match goal with
    | |- never_raises (bind _ _) => apply nr_bind; [| intros ?]
    | |- never_raises (match ?x with _ => _ end) => destruct x
    | |- never_raises _ => by auto with nr
    end).

Lemma nr_read_slab o : never_raises (read_slab o).
Proof. intros A e A'. unfold read_slab. by destruct (slab_at A o). Qed.
Lemma nr_write_slab o s : never_raises (write_slab o s).
Proof. intros A e A'. unfold write_slab. by destruct (slab_at A o). Qed.
#[export] Hint Resolve nr_read_slab nr_write_slab : nr.

Lemma nr_set_next o n : never_raises (set_next o n).
Proof. unfold set_next. nr. Qed.
Lemma nr_set_freelist o : never_raises (set_freelist o).
Proof. unfold set_freelist. nr. Qed.
Lemma nr_set_data o bytes : never_raises (set_data o bytes).
Proof. unfold set_data. nr. Qed.
#[export] Hint Resolve nr_set_next nr_set_freelist nr_set_data : nr.
Lemma nr_str_slab_free o : never_raises (str_slab_free o).
Proof. unfold str_slab_free. nr. Qed.
#[export] Hint Resolve nr_str_slab_free : nr.

Lemma nr_str_free_chain f o : never_raises (str_free_chain f o).
Proof. revert o. induction f as [| f IH]; intros o; cbn [str_free_chain]; nr. Qed.
Lemma nr_equal_slab n a b : never_raises (equal_slab n a b).
Proof.
  unfold equal_slab. generalize n at 2. revert a b.
  induction n as [| n IH]; intros a b m; cbn [equal_slab_loop]; nr.
Qed.
Lemma nr_streq_slab n a s : never_raises (streq_slab n a s).
Proof.
  unfold streq_slab. assert (forall f a m s, never_raises (streq_slab_loop f a m s)).
  { clear. induction f as [| f IH]; intros a m s; cbn [streq_slab_loop]; nr. }
  nr.
Qed.
Lemma nr_contains_nul n a : never_raises (fe_string_contains_nul n a).
Proof.
  unfold fe_string_contains_nul. generalize n at 2. revert a.
  induction n as [| n IH]; intros a m; cbn [contains_nul_loop]; nr.
Qed.
Lemma nr_read_chain f a n : never_raises (read_chain f a n).
Proof. revert a n. induction f as [| f IH]; intros a n; cbn [read_chain]; nr. Qed.
#[export] Hint Resolve nr_str_free_chain nr_equal_slab nr_streq_slab nr_contains_nul nr_read_chain : nr.

Lemma nr_push_children rec os stack :
  (forall o, never_raises (rec o)) -> never_raises (push_children rec os stack).
Proof.
  intros Hrec. revert stack. induction os as [| o os IH]; intros stack; cbn [push_children]; [done |].
  apply nr_bind; [unfold push_child; case_decide; nr | done].
Qed.
Lemma nr_mark_loop f stack o : never_raises (mark_loop f stack o).
Proof.
  revert stack o. induction f as [| f IH]; intros stack o; cbn [mark_loop]; [done |].
  assert (never_raises (match stack with [] => ret tt | o :: stack => mark_loop f stack o end)) as Hpop
    by (by destruct stack).
  destruct o; try done. intros cs e cs'. destruct (cs !! i) as [x |]; [| apply Hpop].
  destruct (gcmark x); [apply Hpop |]. destruct (ty x); try apply Hpop.
  - destruct (car x), (cdr x); try done.
    apply nr_bind; [unfold push_child; case_decide; nr | done].
  - destruct (cdr x); try done. apply IH.
  - destruct (cdr x); try done. apply IH.
  - destruct (cdr x); try done. apply IH.
  - destruct (cdr x) as [| | | | | | p |]; try done. destruct p; try done; apply Hpop.
  - destruct (cdr x) as [| | | | [m |] | | |]; try done.
    apply nr_bind; [by apply nr_push_children |]. intros st. by destruct st.
Qed.
Lemma nr_fe_mark o : never_raises (fe_mark o).
Proof. intros cs. apply nr_mark_loop. Qed.
#[export] Hint Resolve nr_fe_mark : nr.
Lemma nr_mark_each os : never_raises (mark_each os).
Proof. induction os; cbn [mark_each]; nr. Qed.
#[export] Hint Resolve nr_mark_each : nr.

(** *** Releasing memory, and the collector *)

Lemma nr_tracked_free b : never_raises (tracked_free b).
Proof. intros m e m'. unfold tracked_free. destruct b as [p |]; [by destruct (blocks m !! p) | done]. Qed.
#[export] Hint Resolve nr_tracked_free : nr.
Lemma nr_free_blocks l : never_raises (free_blocks l).
Proof. induction l; cbn [free_blocks]; nr. Qed.
Lemma nr_span_free b : never_raises (span_free b).
Proof.
  intros s e s'. unfold span_free, sp_lift. pose proof (nr_tracked_free b (sp_mem s)) as H.
  destruct (tracked_free _ _) eqn:E; try done. by edestruct H.
Qed.
#[export] Hint Resolve nr_free_blocks nr_span_free : nr.
Lemma nr_prune_bucket live b : never_raises (prune_bucket live b).
Proof. induction b; cbn [prune_bucket]; unfold free_span; nr. Qed.
#[export] Hint Resolve nr_prune_bucket : nr.
Lemma nr_prune_buckets live bs : never_raises (prune_buckets live bs).
Proof. induction bs; cbn [prune_buckets]; nr. Qed.
#[export] Hint Resolve nr_prune_buckets : nr.
Lemma nr_span_prune live : never_raises (fex_span_prune live).
Proof. unfold fex_span_prune, set_state. nr. Qed.
#[export] Hint Resolve nr_span_prune : nr.

Lemma nr_lift_memory {A} (m : comp Mem A) : never_raises m -> never_raises (lift_memory m).
Proof.
  intros H c e c'. unfold lift_memory, lift_rt, lift_mem. pose proof (H (rt_mem (rt c))) as Hm.
  destruct (m _) eqn:E; try done. by edestruct Hm.
Qed.
Lemma nr_lift_spans {A} (m : comp Spans A) : never_raises m -> never_raises (lift_spans m).
Proof.
  intros H c e c'. unfold lift_spans. specialize (H (MkSpans (rt_mem (rt c)) (spans c))).
  destruct (m _) eqn:E; try done. by edestruct H.
Qed.
Lemma nr_lift_cells {A} (m : comp (list cell) A) : never_raises m -> never_raises (lift_cells m).
Proof.
  intros H c e c'. unfold lift_cells. specialize (H (cells c)). destruct (m _) eqn:E; try done. by edestruct H.
Qed.
Lemma nr_lift_arena {A} (m : comp StrArena A) : never_raises m -> never_raises (lift_arena (S := fe_Context) m).
Proof.
  intros H c e c'. unfold lift_arena. specialize (H (arena c)). destruct (m _) eqn:E; try done. by edestruct H.
Qed.
#[export] Hint Extern 1 (never_raises (lift_memory _)) => apply nr_lift_memory; auto with nr : nr.
#[export] Hint Extern 1 (never_raises (lift_spans _)) => apply nr_lift_spans; auto with nr : nr.
#[export] Hint Extern 1 (never_raises (lift_cells _)) => apply nr_lift_cells; auto with nr : nr.
#[export] Hint Extern 1 (never_raises (lift_arena _)) => apply nr_lift_arena; auto with nr : nr.

Lemma nr_cell i x : never_raises (read_cell i) /\ never_raises (write_cell i x).
Proof. split; intros c e c'; [unfold read_cell | unfold write_cell]; by destruct (cells c !! i). Qed.
Lemma nr_set o t v : never_raises (settype o t) /\ never_raises (setcdr o v).
Proof.
  split; [unfold settype | unfold setcdr]; destruct o; nr; first [apply (nr_cell _ (MkCell t false v v)) | apply nr_cell].
Qed.
Lemma nr_sweep n i live : never_raises (sweep n i live).
Proof.
  revert i live. induction n as [| n IH]; intros i live; cbn [sweep]; [by auto with nr |].
  apply nr_bind; [apply (nr_cell _ (MkCell FE_TFREE false VAny VAny)) |]. intros x. case_decide; [done |].
  destruct (gcmark x); [apply nr_bind; [apply nr_cell | by intros _] |].
  unfold free_string, free_map. nr; try apply nr_set with (v := VAny); try apply nr_set with (t := FE_TFREE); try apply IH.
Qed.
#[export] Hint Resolve nr_sweep : nr.
Lemma nr_collectgarbage : never_raises collectgarbage.
Proof. unfold collectgarbage. nr. Qed.
#[export] Hint Resolve nr_collectgarbage : nr.

(** ** Inert operations *)

Record same (c c' : fe_Context) : Prop := {
  sm_calllist : calllist c' = calllist c;
  sm_depth : current_eval_depth c' = current_eval_depth c;
  sm_max : max_eval_depth c' = max_eval_depth c;
  sm_gcstack : gcstack c' = gcstack c;
  sm_host : host c' = host c
}.
#[global] Instance same_preorder : PreOrder same.
Proof. split; [by split | intros c1 c2 c3 [] []; split; congruence]. Qed.

(** The state after an error: fe_error has reset it, unless the error is a
    longjmp that did not go through fe_error. *)
Definition was_reset (c : fe_Context) : Prop :=
  jump_error (host c) = None -> calllist c = [] /\ current_eval_depth c = 0.

(** The state after an error of an inert operation: the roots and the host's
    state are still there. *)
Record lost (c c' : fe_Context) : Prop := {
  ls_reset : calllist c' = [] /\ current_eval_depth c' = 0;
  ls_calls : error_calls c' = calllist c;
  ls_gcstack : gcstack c' = gcstack c;
  ls_host : host c' = host c
}.
Lemma same_lost c c1 c2 : same c c1 -> lost c1 c2 -> lost c c2.
Proof. intros [] []. split; congruence. Qed.

Definition inert {A} (m : comp fe_Context A) : Prop := forall c,
  match m c with Done _ c' => same c c' | Raised _ c' => lost c c' | _ => True end.

Create HintDb inert.

Lemma inert_ret {A} (a : A) : inert (ret a).
Proof. by intros c. Qed.
Lemma inert_bind {A B} (m : comp fe_Context A) (f : A -> comp fe_Context B) :
  inert m -> (forall a, inert (f a)) -> inert (bind m f).
Proof.
  intros Hm Hf c. unfold bind. specialize (Hm c). destruct (m c) as [a c1 | | |]; try done.
  specialize (Hf a c1). destruct (f a c1); try done; [by etrans | by eapply same_lost].
Qed.
Lemma inert_get : inert get.
Proof. by intros c. Qed.
Lemma inert_stuck {A} : inert (@stuck _ A).
Proof. by intros c. Qed.
Lemma inert_no_fuel {A} : inert (@no_fuel _ A).
Proof. by intros c. Qed.
Lemma inert_error {A} msg : inert (@Ctx.fe_error A msg).
Proof. by intros c. Qed.
Lemma inert_gets {A} (f : fe_Context -> A) : inert (gets f).
Proof. by intros c. Qed.
Lemma inert_modify f : (forall c, same c (f c)) -> inert (modify f).
Proof. intros H c. apply H. Qed.
Lemma inert_read_cell i : inert (read_cell i).
Proof. intros c. unfold read_cell. by destruct (cells c !! i). Qed.
Lemma inert_write_cell i x : inert (write_cell i x).
Proof. intros c. unfold write_cell. by destruct (cells c !! i). Qed.
Lemma inert_lift_rt {A} (m : comp Rt A) : inert (lift_rt m).
Proof. intros c. unfold lift_rt. by destruct (m (rt c)). Qed.
Lemma inert_lift_spans {A} (m : comp Spans A) : inert (lift_spans m).
Proof. intros c. unfold lift_spans. by destruct (m _). Qed.
Lemma inert_lift_arena {A} (m : comp StrArena A) : never_raises m -> inert (lift_arena m).
Proof.
  intros H c. unfold lift_arena. specialize (H (arena c)). destruct (m (arena c)); try done.
  by destruct (H msg s).
Qed.
Lemma inert_lift_cells {A} (m : comp (list cell) A) : never_raises m -> inert (lift_cells m).
Proof.
  intros H c. unfold lift_cells. specialize (H (cells c)). destruct (m (cells c)); try done.
  by destruct (H msg s).
Qed.
#[export] Hint Resolve inert_ret inert_get inert_stuck inert_no_fuel inert_error inert_gets
  inert_read_cell inert_write_cell inert_lift_rt inert_lift_spans : inert.
#[export] Hint Extern 1 (inert (lift_budget _)) => apply inert_lift_rt : inert.
#[export] Hint Extern 1 (inert (lift_memory _)) => apply inert_lift_rt : inert.
#[export] Hint Extern 1 (inert (lift_arena _)) => apply inert_lift_arena; auto with nr : inert.
#[export] Hint Extern 1 (inert (lift_cells _)) => apply inert_lift_cells; auto with nr : inert.
#[export] Hint Extern 1 (inert (modify _)) => apply inert_modify; by intros ? : inert.

Ltac inert :=
  repeat (cbv beta iota zeta; match goal with
    | |- inert (bind _ _) => apply inert_bind; [| intros ?]
    | |- inert (match ?x with _ => _ end) => destruct x
    | |- inert _ => by auto with inert
    end).

Lemma inert_type_of o : inert (type_of o).
Proof. unfold type_of. inert. Qed.
Lemma inert_as_obj v : inert (as_obj v).
Proof. unfold as_obj. inert. Qed.
#[export] Hint Resolve inert_type_of inert_as_obj : inert.
Lemma inert_car_of o : inert (car_of o).
Proof. unfold car_of. inert. Qed.
Lemma inert_cdr_of o : inert (cdr_of o).
Proof. unfold cdr_of. inert. Qed.
Lemma inert_settype o t : inert (settype o t).
Proof. unfold settype. inert. Qed.
Lemma inert_setcar o v : inert (setcar o v).
Proof. unfold setcar. inert. Qed.
Lemma inert_setcdr o v : inert (setcdr o v).
Proof. unfold setcdr. inert. Qed.
#[export] Hint Resolve inert_car_of inert_cdr_of inert_settype inert_setcar inert_setcdr : inert.

Lemma inert_sweep n i live : inert (sweep n i live).
Proof.
  revert i live. induction n as [| n IH]; intros i live; cbn [sweep]; [by auto with inert |].
  apply inert_bind; [by auto with inert |]. intros x. case_decide; [done |].
  destruct (gcmark x); [by inert; apply IH |].
  unfold free_string, free_map. inert; try apply IH.
Qed.
#[export] Hint Resolve inert_sweep : inert.
Lemma inert_collectgarbage : inert collectgarbage.
Proof. unfold collectgarbage. inert. Qed.
#[export] Hint Resolve inert_collectgarbage : inert.

(** The slab allocator, before fe_error's resets are added. *)
Definition silent {A} (m : comp fe_Context A) : Prop := forall c,
  match m c with
  | Done _ c' => same c c'
  | Raised _ c' => calllist c' = calllist c /\ gcstack c' = gcstack c /\ host c' = host c
  | _ => True
  end.
Lemma inert_error_resets {A} (m : comp fe_Context A) : silent m -> inert (error_resets m).
Proof. intros H c. unfold error_resets. specialize (H c). destruct (m c); try done. by destruct H as (? & ? & ?). Qed.
Lemma inert_silent {A} (m : comp fe_Context A) : inert m -> never_raises m -> silent m.
Proof. intros H Hn c. specialize (H c). destruct (m c) eqn:E; try done. by edestruct Hn. Qed.
Lemma silent_bind {A B} (m : comp fe_Context A) (f : A -> comp fe_Context B) :
  silent m -> (forall a, silent (f a)) -> silent (bind m f).
Proof.
  intros Hm Hf c. unfold bind. specialize (Hm c). destruct (m c) as [a c1 | | |]; try done.
  specialize (Hf a c1). destruct (f a c1); try done; [by etrans |]. destruct Hm, Hf as (? & ? & ?). split_and!; congruence.
Qed.
Lemma silent_str_slab_alloc : silent (str_slab_alloc collectgarbage).
Proof.
  unfold str_slab_alloc. apply silent_bind; [apply inert_silent; [inert | nr] |]. intros s.
  apply silent_bind; [| intros _; apply inert_silent; [inert | nr]].
  destruct (_ =? _); [| apply inert_silent; [inert | nr]].
  apply silent_bind; [apply inert_silent; [inert | nr] |]. intros _.
  apply silent_bind; [apply inert_silent; [inert | nr] |]. intros c1.
  by destruct (_ =? _); [| apply inert_silent; [inert | nr]].
Qed.
Lemma silent_str_fill f o p : silent (str_fill collectgarbage f o p).
Proof.
  revert o p. induction f as [| f IH]; intros o p; cbn [str_fill]; [done |].
  apply silent_bind; [apply inert_silent; [inert | nr] |]. intros _.
  case_decide; [| apply inert_silent; [inert | nr]].
  apply silent_bind; [apply silent_str_slab_alloc |]. intros x.
  apply silent_bind; [apply inert_silent; [inert | nr] |]. intros _.
  apply silent_bind; [apply IH |]. intros y. apply inert_silent; [inert | nr].
Qed.
Lemma inert_str_alloc s : inert (error_resets (str_alloc collectgarbage s)).
Proof.
  apply inert_error_resets. unfold str_alloc.
  case_decide; [apply inert_silent; [inert | nr] |].
  apply silent_bind; [apply silent_str_slab_alloc |]. intros o.
  apply silent_bind; [apply silent_str_fill |]. intros k. apply inert_silent; [inert | nr].
Qed.
#[export] Hint Resolve inert_str_alloc : inert.

(** *** Operations on objects *)

Lemma inert_fe_nextarg o : inert (fe_nextarg o).
Proof. unfold fe_nextarg. inert. Qed.
Lemma inert_checktype o t : inert (checktype o t).
Proof. unfold checktype. inert. Qed.
#[export] Hint Resolve inert_fe_nextarg inert_checktype : inert.
Lemma inert_checknum o : inert (checknum o).
Proof. unfold checknum. inert. Qed.
Lemma inert_nval o : inert (nval o).
Proof. unfold nval. inert. Qed.
Lemma inert_str_fields o : inert (str_fields o).
Proof. unfold str_fields. inert. Qed.
#[export] Hint Resolve inert_checknum inert_nval inert_str_fields : inert.
Lemma inert_streq o s : inert (streq o s).
Proof. unfold streq. inert. Qed.
Lemma inert_string_contains_nul o : inert (string_contains_nul o).
Proof. unfold string_contains_nul. inert. Qed.
Lemma inert_string_chars o : inert (string_chars o).
Proof. unfold string_chars. inert. Qed.
Lemma inert_equal a b : inert (equal a b).
Proof. unfold equal. inert. Qed.
Lemma inert_symbol_name o : inert (symbol_name o).
Proof. unfold symbol_name. inert. Qed.
#[export] Hint Resolve inert_streq inert_string_contains_nul inert_string_chars inert_equal
  inert_symbol_name : inert.
Lemma inert_fe_symbol_name_eq o s : inert (fe_symbol_name_eq o s).
Proof. unfold fe_symbol_name_eq. inert. Qed.
Lemma inert_find_symbol_obj f l o : inert (find_symbol_obj f l o).
Proof. revert l. induction f as [| f IH]; intros l; cbn [find_symbol_obj]; inert. Qed.
Lemma inert_find_symbol f l s cd : inert (find_symbol f l s cd).
Proof. revert l cd. induction f as [| f IH]; intros l cd; cbn [find_symbol]; inert. Qed.
Lemma inert_normalize_map_key o : inert (normalize_map_key o).
Proof. unfold normalize_map_key. inert. Qed.
Lemma inert_mapdata o : inert (mapdata o).
Proof. unfold mapdata. inert. Qed.
#[export] Hint Resolve inert_fe_symbol_name_eq inert_find_symbol_obj inert_find_symbol
  inert_normalize_map_key inert_mapdata : inert.
Lemma inert_map_args o k : inert (map_args o k).
Proof. unfold map_args. inert. Qed.
#[export] Hint Resolve inert_map_args : inert.
Lemma inert_map_set o k v : inert (map_set o k v).
Proof. unfold map_set. inert. Qed.
Lemma inert_map_get o k : inert (map_get o k).
Proof. unfold map_get. inert. Qed.
Lemma inert_fe_car o : inert (fe_car o).
Proof. unfold fe_car. inert. Qed.
Lemma inert_fe_cdr o : inert (fe_cdr o).
Proof. unfold fe_cdr. inert. Qed.
Lemma inert_list_has f l o : inert (list_has f l o).
Proof. revert l. induction f as [| f IH]; intros l; cbn [list_has]; inert. Qed.
Lemma inert_assoc_loop f s l : inert (assoc_loop f s l).
Proof. revert l. induction f as [| f IH]; intros l; cbn [assoc_loop]; inert. Qed.
Lemma inert_find_assoc_loop f s l : inert (find_assoc_loop f s l).
Proof. revert l. induction f as [| f IH]; intros l; cbn [find_assoc_loop]; inert. Qed.
Lemma inert_is_frame o : inert (is_frame o).
Proof. unfold is_frame. inert. Qed.
#[export] Hint Resolve inert_map_set inert_map_get inert_fe_car inert_fe_cdr inert_list_has
  inert_assoc_loop inert_find_assoc_loop inert_is_frame : inert.
Lemma inert_getbound s env : inert (getbound s env).
Proof. unfold getbound. inert. Qed.
#[export] Hint Resolve inert_getbound : inert.
Lemma inert_fe_set s v : inert (fe_set s v).
Proof. unfold fe_set. inert. Qed.
Lemma inert_find_assoc_binding s env : inert (find_assoc_binding s env).
Proof. unfold find_assoc_binding. inert. Qed.
Lemma inert_is_return_obj o : inert (is_return_obj o).
Proof. unfold is_return_obj. inert. Qed.
#[export] Hint Resolve inert_fe_set inert_find_assoc_binding inert_is_return_obj : inert.

(** *** The printer *)

Section Print.
Context {B : Type} (fn : ascii -> B -> B) (fmt_g7 : double -> chars) (fmt_p : obj -> chars).

Definition w_inert {A} (m : comp (fe_Context * B) A) : Prop := forall c b,
  match m (c, b) with
  | Done _ (c', _) => same c c' | Raised _ (c', _) => lost c c' | _ => True
  end.
Lemma wi_ret {A} (a : A) : w_inert (ret a).
Proof. by intros c b. Qed.
Lemma wi_stuck {A} : w_inert (@stuck _ A).
Proof. by intros c b. Qed.
Lemma wi_no_fuel {A} : w_inert (@no_fuel _ A).
Proof. by intros c b. Qed.
Lemma wi_gets {A} (f : fe_Context * B -> A) : w_inert (gets f).
Proof. by intros c b. Qed.
Lemma wi_bind {A A'} (m : comp (fe_Context * B) A) (k : A -> comp (fe_Context * B) A') :
  w_inert m -> (forall a, w_inert (k a)) -> w_inert (bind m k).
Proof.
  intros Hm Hk c b. unfold bind. specialize (Hm c b). destruct (m (c, b)) as [a [c1 b1] | | |]; try done.
  specialize (Hk a c1 b1). destruct (k a (c1, b1)) as [? [??] | ? [??] | |]; try done; [by etrans | by eapply same_lost].
Qed.
Lemma wi_in_ctx {A} (m : comp fe_Context A) : inert m -> w_inert (in_ctx m).
Proof. intros H c b. unfold in_ctx. specialize (H c). by destruct (m c). Qed.
Lemma wi_write_checked ch cd : w_inert (write_checked fn ch cd).
Proof.
  unfold write_checked, poll. apply wi_bind; [apply wi_in_ctx; inert |]. intros cd1 c b. done.
Qed.

Ltac wi :=
  repeat (cbv beta iota zeta; match goal with
    | |- w_inert (bind _ _) => apply wi_bind; [| intros ?]
    | |- w_inert (match ?x with _ => _ end) => destruct x
    | |- w_inert (in_ctx _) => apply wi_in_ctx; inert
    | |- w_inert (poll _) => apply wi_in_ctx; inert
    | |- w_inert (ret _) => apply wi_ret
    | |- w_inert stuck => apply wi_stuck
    | |- w_inert no_fuel => apply wi_no_fuel
    | |- w_inert (gets _) => apply wi_gets
    | |- w_inert (write_checked _ _ _) => apply wi_write_checked
    | H : context [w_inert] |- _ => apply H
    end).

Lemma wi_writestr s cd : w_inert (writestr fn s cd).
Proof. revert cd. induction s as [| ch s IH]; intros cd; cbn [writestr]; wi. Qed.
Lemma wi_string_chars s qt cd : w_inert (write_string_chars fn s qt cd).
Proof. revert cd. induction s as [| ch s IH]; intros cd; cbn [write_string_chars]; wi. Qed.
Lemma wi_bytes_chars s first cd : w_inert (write_bytes_chars fn s first cd).
Proof.
  revert first cd. induction s as [| ch s IH]; intros first cd; cbn [write_bytes_chars];
    unfold write_hex_byte; wi.
Qed.

Lemma wi_fe_write f :
  (forall o qt, w_inert (fe_write fn fmt_g7 fmt_p f o qt)) /\
  (forall o cd, w_inert (write_items fn fmt_g7 fmt_p f o cd)) /\
  (forall l first cd, w_inert (write_slots fn fmt_g7 fmt_p f l first cd)).
Proof.
  pose proof wi_writestr. pose proof wi_string_chars. pose proof wi_bytes_chars.
  induction f as [| f (IH1 & IH2 & IH3)]; [by split_and! |].
  split_and!; intros; cbn [fe_write write_items write_slots]; wi.
Qed.
End Print.

Lemma inert_fe_writefp fmt_g7 fmt_p f o : inert (fe_writefp fmt_g7 fmt_p f o).
Proof.
  intros c. unfold fe_writefp.
  pose proof (proj1 (wi_fe_write (fun ch b => b ++ [ch]) fmt_g7 fmt_p f) o false c []) as H.
  destruct (fe_write _ _ _ _ _ _ _) as [[] [c1 b1] | msg [c1 b1] | |]; try done;
    by destruct H.
Qed.
#[export] Hint Resolve inert_fe_writefp : inert.

(** ** Operations that push roots *)

(** What a finished operation leaves of the loader and of the protected
    calls. *)
Record unwound (h h' : Host) : Prop := {
  uw_scopes : try_scopes h' = try_scopes h;
  uw_error_fn : error_fn h' = error_fn h;
  uw_jump : jump_error h = None -> jump_error h' = None;
  uw_paths : items (import_paths (loader h')) = items (import_paths (loader h));
  uw_dirs : items (source_dirs (loader h')) = items (source_dirs (loader h));
  uw_buffers : items (source_buffers (loader h')) = items (source_buffers (loader h));
  uw_loading : items (loading_modules (loader h')) = items (loading_modules (loader h))
}.
#[global] Instance unwound_preorder : PreOrder unwound.
Proof. split; [by split | intros h1 h2 h3 [] []; split; try congruence; auto]. Qed.

Record stable (k : nat) (c c' : fe_Context) : Prop := {
  st_calllist : calllist c' = calllist c;
  st_depth : current_eval_depth c' = current_eval_depth c;
  st_max : max_eval_depth c' = max_eval_depth c;
  st_len : (k <= length (gcstack c'))%nat;
  st_roots : take k (gcstack c') = take k (gcstack c);
  st_host : unwound (host c) (host c')
}.
Lemma stable_trans k c1 c2 c3 : stable k c1 c2 -> stable k c2 c3 -> stable k c1 c3.
Proof. intros [] []. split; try congruence. by etransitivity. Qed.
Lemma same_stable k c c' : (k <= length (gcstack c))%nat -> same c c' -> stable k c c'.
Proof. intros Hk [? ? ? Hg Hh]. split; try congruence. by rewrite Hh. Qed.

(** An error report within the arrays of its structs. *)
Definition frame_fits (f : FexErrorFrame) : Prop :=
  (length (frame_name f) < FEX_ERROR_SOURCE_NAME_MAX)%nat /\
  (length (frame_expression f) < FEX_ERROR_EXPRESSION_MAX)%nat.
Definition fits (e : FexError) : Prop :=
  (length (fe_message e) < FEX_ERROR_MESSAGE_MAX)%nat /\
  (length (fe_source e) < FEX_ERROR_SOURCE_NAME_MAX)%nat /\
  (length (frames e) <= FEX_ERROR_TRACE_MAX)%nat /\ Forall frame_fits (frames e).

(** What is left of the control state after an error. *)
Record aborted (k : nat) (c c' : fe_Context) : Prop := {
  ab_reset : was_reset c';
  ab_depth : in_s 32 (current_eval_depth c');
  ab_len : (k <= length (gcstack c'))%nat;
  ab_roots : take k (gcstack c') = take k (gcstack c);
  ab_scopes : try_scopes (host c') = try_scopes (host c);
  ab_jump : forall e, jump_error (host c') = Some e -> fits e
}.
Lemma stable_aborted k c c1 c2 : stable k c c1 -> aborted k c1 c2 -> aborted k c c2.
Proof. intros [? ? ? ? ? []] []. split; try done; congruence. Qed.
Lemma lost_aborted k c c' :
  (k <= length (gcstack c))%nat -> jump_error (host c) = None -> lost c c' -> aborted k c c'.
Proof.
  intros Hk Hj [[? Hd] ? Hg Hh].
  split; [by intros _ | by rewrite Hd | rewrite ?Hg, ?Hh; done.. |]. by rewrite Hh, Hj.
Qed.
Lemma aborted_below k c c' :
  (k <= length (gcstack c))%nat -> aborted (length (gcstack c)) c c' -> aborted k c c'.
Proof.
  intros Hk [? ? Hl Hr ?]. split; try done; [lia |]. rewrite firstn_all in Hr.
  by rewrite <- Hr, take_take, Nat.min_l by done.
Qed.

(** No longjmp is under way. *)
Definition idle (c : fe_Context) : Prop := in_s 32 (current_eval_depth c) /\ jump_error (host c) = None.
Definition ready (k : nat) (c : fe_Context) : Prop := (k <= length (gcstack c))%nat /\ idle c.

(** [m] ends in [R] from every context that is [ready k]. *)
Definition follows {A} (k : nat) (R : A -> fe_Context -> fe_Context -> Prop) (m : comp fe_Context A)
    : Prop := forall c, ready k c ->
  match m c with Done a c' => R a c c' | Raised _ c' => aborted k c c' | _ => True end.
Definition keeps {A} (k : nat) (m : comp fe_Context A) : Prop := follows k (fun _ => stable k) m.

Lemma keeps_inert {A} k (m : comp fe_Context A) : inert m -> keeps k m.
Proof.
  intros H c (Hk & _ & Hj). specialize (H c).
  destruct (m c); try done; [by apply same_stable | by apply lost_aborted].
Qed.

Lemma same_idle c c' : same c c' -> idle c -> idle c'.
Proof. intros [? ? ? ? Hh] []. split; [congruence | by rewrite Hh]. Qed.
Lemma stable_ready k c c' : ready k c -> stable k c c' -> ready k c'.
Proof. intros (_ & Hd & Hj) [? ? ? ? ? []]. split; [done |]. split; [congruence | auto]. Qed.

(** [R] does not look at what happened before, up to [stable]. *)
Class Transparent {A} (k : nat) (R : A -> fe_Context -> fe_Context -> Prop) : Prop :=
  transparent : forall a c c1 c2, stable k c c1 -> R a c1 c2 -> R a c c2.
#[global] Instance transparent_stable A k : Transparent k (fun _ : A => stable k).
Proof. intros a c c1 c2. apply stable_trans. Qed.

Lemma follows_bind {A B} k (R : B -> _ -> _ -> Prop) `{!Transparent k R} (m : comp fe_Context A)
    (f : A -> comp fe_Context B) :
  keeps k m -> (forall a, follows k R (f a)) -> follows k R (bind m f).
Proof.
  intros Hm Hf c Hc. unfold bind. specialize (Hm c Hc). destruct (m c) as [a c1 | | |]; try done.
  specialize (Hf a c1 (stable_ready _ _ _ Hc Hm)).
  destruct (f a c1); try done; [by eapply transparent | by eapply stable_aborted].
Qed.
Lemma keeps_bind {A B} k (m : comp fe_Context A) (f : A -> comp fe_Context B) :
  keeps k m -> (forall a, keeps k (f a)) -> keeps k (bind m f).
Proof. intros. by apply (follows_bind _ _). Qed.
Lemma follows_savegc {B} k (R : B -> _ -> _ -> Prop) (f : nat -> comp fe_Context B) :
  (forall s, (k <= s)%nat -> follows k R (f s)) -> follows k R (bind fe_savegc f).
Proof. intros Hf c Hc. unfold bind, fe_savegc, gets. by apply Hf; [apply Hc |]. Qed.
Lemma keeps_savegc {B} k (f : nat -> comp fe_Context B) :
  (forall s, (k <= s)%nat -> keeps k (f s)) -> keeps k (bind fe_savegc f).
Proof. apply follows_savegc. Qed.

Lemma keeps_restoregc k s : (k <= s)%nat -> keeps k (fe_restoregc s).
Proof.
  intros Hks c [Hk _]. unfold fe_restoregc. destruct (decide _) as [Hs | ?]; [| done].
  split; try done.
  - cbn [gcstack with_gcstack]. rewrite length_take. lia.
  - cbn [gcstack with_gcstack]. rewrite take_take. f_equal. lia.
Qed.
Lemma keeps_pushgc k o : keeps k (fe_pushgc o).
Proof.
  intros c Hc. unfold fe_pushgc.
  destruct o; try (by apply (keeps_inert k (ret tt) (inert_ret tt) c Hc)); destruct Hc as (Hk & _ & Hj);
    unfold bind, get; (destruct (decide _); [by apply lost_aborted |]); unfold put;
    (split; try done; cbn [gcstack with_gcstack]; rewrite ?length_app; [simpl; lia | by apply take_app_le]).
Qed.

Create HintDb keeps.
#[export] Hint Resolve keeps_pushgc : keeps.
#[export] Hint Extern 1 (keeps _ (fe_restoregc _)) => apply keeps_restoregc; lia : keeps.
#[export] Hint Extern 2 (keeps _ _) => apply keeps_inert; by auto with inert : keeps.

Ltac keeps :=
  repeat (cbv beta iota zeta; match goal with
    | |- keeps _ (bind fe_savegc _) => apply keeps_savegc; intros ? ?
    | |- keeps _ (bind _ _) => apply keeps_bind; [| intros ?]
    | |- keeps _ (match ?x with _ => _ end) => destruct x
    | |- keeps _ _ => by auto with keeps
    end).

Lemma keeps_object k : keeps k object.
Proof. unfold object. keeps. Qed.
#[export] Hint Resolve keeps_object : keeps.
Lemma keeps_fe_cons k a d : keeps k (fe_cons a d).
Proof. unfold fe_cons. keeps. Qed.
Lemma keeps_fe_number k v : keeps k (fe_number v).
Proof. unfold fe_number. keeps. Qed.
Lemma keeps_make_data_obj k t s : keeps k (make_data_obj t s).
Proof. unfold make_data_obj. keeps. Qed.
Lemma keeps_fe_map k : keeps k fe_map.
Proof. unfold fe_map. keeps. Qed.
#[export] Hint Resolve keeps_fe_cons keeps_fe_number keeps_make_data_obj keeps_fe_map : keeps.
Lemma keeps_make_number k oob v : keeps k (make_number oob v).
Proof. unfold make_number. keeps. Qed.
Lemma keeps_fe_symbol k s : keeps k (fe_symbol s).
Proof. unfold fe_symbol, fe_string. keeps. Qed.
Lemma keeps_fe_symbol_from_string_obj k o : keeps k (fe_symbol_from_string_obj o).
Proof. unfold fe_symbol_from_string_obj. keeps. Qed.
#[export] Hint Resolve keeps_make_number keeps_fe_symbol keeps_fe_symbol_from_string_obj : keeps.
