(* ===== verification/EvalFrame.v ===== *)
(** * Evaluation is balanced

    Every evaluation that returns leaves the call list and the depth as it
    found them and at most one more root, which holds its result. *)

From Stdlib Require Import ZArith Lia Ascii String SpecFloat.
From stdpp Require Import base list.
From S2P Require Import Prelude Number Memory Budget MapTable MapSpec Slab SlabSpec Span Ctx Gc GcProps Objects Writer Eval Frame.

Lemma inert_is_pair o : inert (is_pair o).
Proof. unfold is_pair. inert. Qed.
#[export] Hint Resolve inert_is_pair : inert.
Lemma inert_has_head o s : inert (has_head o s).
Proof. unfold has_head. inert. Qed.
Lemma inert_fn_fields o : inert (fn_fields o).
Proof. unfold fn_fields. inert. Qed.
Lemma inert_copy_object o p : inert (copy_object o p).
Proof. unfold copy_object. inert. Qed.
Lemma inert_last_expr f o : inert (last_expr f o).
Proof.
  assert (forall o, inert (is_pair o)) by apply inert_is_pair.
  revert o. induction f as [| f IH]; intros o; cbn [last_expr]; inert.
Qed.
Lemma inert_puts s : inert (puts s).
Proof. unfold puts. inert. Qed.
Lemma inert_div x y : inert (div x y).
Proof. unfold div. inert. Qed.
#[export] Hint Resolve inert_has_head inert_fn_fields inert_copy_object inert_last_expr
  inert_puts inert_div : inert.

Lemma keeps_pushgcs k os : keeps k (pushgcs os).
Proof. induction os; cbn [pushgcs]; keeps. Qed.
Lemma keeps_cons_params k f p b : keeps k (cons_params f p b).
Proof. revert p b. induction f as [| f IH]; intros p b; cbn [cons_params]; keeps. Qed.
#[export] Hint Resolve keeps_pushgcs keeps_cons_params : keeps.

Lemma keeps_analyze f :
  (forall k node b fv, keeps k (analyze f node b fv)) /\
  (forall k s p b fv, (k <= s)%nat -> keeps k (analyze_do f s p b fv)) /\
  (forall k p b fv, keeps k (analyze_each f p b fv)) /\
  (forall k p b fv, keeps k (analyze_args f p b fv)).
Proof.
  induction f as [| f (IH1 & IH2 & IH3 & IH4)]; [by split_and! |].
  split_and!; intros; cbn [analyze analyze_do analyze_each analyze_args]; keeps.
Qed.
Lemma keeps_argstoenv k prm arg env : keeps k (argstoenv prm arg env).
Proof.
  assert (forall f s prm arg env, (k <= s)%nat -> keeps k (argstoenv_loop f s prm arg env)).
  { clear. induction f as [| f IH]; intros s prm arg env Hs; cbn [argstoenv_loop]; keeps. }
  unfold argstoenv. keeps.
Qed.
#[export] Hint Resolve keeps_argstoenv : keeps.
#[export] Hint Extern 1 (keeps _ (analyze _ _ _ _)) => apply keeps_analyze : keeps.

Section Cases.
Context (oob : double -> Z) (fmt_g7 : double -> chars) (fmt_p : obj -> chars).
Context (cfunc : nat -> obj -> comp fe_Context obj).
Context (import_module : obj -> comp fe_Context obj).
Context (lhs_first : bool).
Context (Hcfunc : forall k f arg, keeps k (cfunc f arg)).
Context (Himport : forall k o, keeps k (import_module o)).
Context (ev : evaluator) (n : nat).
Context (Hev : forall k o env ne ift, keeps k (ev o env ne ift)).

Lemma keeps_eval_null k o env : keeps k (eval_null ev o env).
Proof. unfold eval_null. keeps. Qed.
Lemma keeps_eval_env k o env : keeps k (eval_env ev o env).
Proof. unfold eval_env. keeps. Qed.
#[local] Hint Resolve keeps_eval_null keeps_eval_env : keeps.
Lemma keeps_evalarg k arg env : keeps k (evalarg ev arg env).
Proof. unfold evalarg. keeps. Qed.
#[local] Hint Resolve keeps_evalarg : keeps.

Lemma keeps_evallist k lst env : keeps k (evallist ev n lst env).
Proof.
  assert (forall f s lst env res t, (k <= s)%nat -> keeps k (evallist_loop ev f s lst env res t)).
  { clear - Hev. induction f as [| f IH]; intros s lst env res t Hs; cbn [evallist_loop]; keeps. }
  unfold evallist. keeps.
Qed.
Lemma keeps_dolist k lst env : keeps k (dolist ev n lst env).
Proof.
  assert (forall f s lst env res, (k <= s)%nat -> keeps k (dolist_loop ev f s lst env res)).
  { clear - Hev. induction f as [| f IH]; intros s lst env res Hs; cbn [dolist_loop]; keeps. }
  unfold dolist. keeps.
Qed.
Lemma keeps_module_name k o : keeps k (module_name o).
Proof. unfold module_name. keeps. Qed.
#[local] Hint Resolve keeps_evallist keeps_dolist keeps_module_name : keeps.
Lemma keeps_eval_module k arg env : keeps k (eval_module ev arg env).
Proof. unfold eval_module. keeps. Qed.
Lemma keeps_export_name k o : keeps k (export_name n o).
Proof. unfold export_name. keeps. Qed.
#[local] Hint Resolve keeps_eval_module keeps_export_name : keeps.
Lemma keeps_eval_export k arg env : keeps k (eval_export ev n arg env).
Proof. unfold eval_export. keeps. Qed.
Lemma keeps_eval_get k arg env : keeps k (eval_get ev arg env).
Proof. unfold eval_get. keeps. Qed.
Lemma keeps_eval_put k arg env : keeps k (eval_put ev arg env).
Proof. unfold eval_put. keeps. Qed.
Lemma keeps_eval_return k arg env : keeps k (eval_return ev arg env).
Proof. unfold eval_return. keeps. Qed.
Lemma keeps_extend_env k b env : keeps k (extend_env b env).
Proof. unfold extend_env. keeps. Qed.
#[local] Hint Resolve keeps_extend_env : keeps.
Lemma keeps_eval_let k arg env ne : keeps k (eval_let ev arg env ne).
Proof. unfold eval_let. keeps. Qed.
Lemma keeps_eval_set k arg env : keeps k (eval_set lhs_first ev arg env).
Proof. unfold eval_set. keeps. Qed.
Lemma keeps_fn_bound k f s p b : (k <= s)%nat -> keeps k (fn_bound f s p b).
Proof. intros Hs. revert p b. induction f as [| f IH]; intros p b; cbn [fn_bound]; keeps. Qed.
#[local] Hint Extern 1 (keeps _ (fn_bound _ _ _ _)) => apply keeps_fn_bound; lia : keeps.
Lemma keeps_eval_fn k pr arg env : keeps k (eval_fn n pr arg env).
Proof. unfold eval_fn. keeps. Qed.
Lemma keeps_eval_while k arg env : keeps k (eval_while ev n arg env).
Proof.
  assert (forall f s arg body env res, (k <= s)%nat -> keeps k (while_body ev f s arg body env res)).
  { clear - Hev. induction f as [| f IH]; intros s arg body env res Hs; cbn [while_body]; keeps. }
  assert (forall f s cond arg env res, (k <= s)%nat -> keeps k (while_loop ev n f s cond arg env res)).
  { induction f as [| f IH]; intros s cond arg' env' res Hs; cbn [while_loop]; keeps. }
  unfold eval_while. keeps.
Qed.
Lemma keeps_eval_logic k f stop arg env res : keeps k (eval_logic ev f stop arg env res).
Proof. revert arg res. induction f as [| f IH]; intros arg res; cbn [eval_logic]; keeps. Qed.
Lemma keeps_eval_cons k arg env : keeps k (eval_cons ev arg env).
Proof. unfold eval_cons. keeps. Qed.
Lemma keeps_eval_setfield k set arg env :
  (forall o v, inert (set o v)) -> keeps k (eval_setfield ev set arg env).
Proof. intros Hset. unfold eval_setfield. keeps. Qed.
Lemma keeps_eval_is k arg env : keeps k (eval_is ev arg env).
Proof. unfold eval_is. keeps. Qed.
Lemma keeps_eval_atom k arg env : keeps k (eval_atom ev arg env).
Proof. unfold eval_atom. keeps. Qed.
Lemma keeps_eval_print k f arg env : keeps k (eval_print fmt_g7 fmt_p ev n f arg env).
Proof. revert arg. induction f as [| f IH]; intros arg; cbn [eval_print]; keeps. Qed.
Lemma keeps_evalnum k arg env : keeps k (evalnum ev arg env).
Proof. unfold evalnum. keeps. Qed.
#[local] Hint Resolve keeps_evalnum : keeps.
Lemma keeps_numcmpop k op arg env : keeps k (numcmpop ev op arg env).
Proof. unfold numcmpop. keeps. Qed.
Lemma keeps_arith_loop k f op x arg env :
  (forall x y, inert (op x y)) -> keeps k (arith_loop ev f op x arg env).
Proof.
  intros Hop. revert x arg. induction f as [| f IH]; intros x arg; cbn [arith_loop]; keeps.
Qed.
Lemma keeps_arithop k op arg env :
  (forall x y, inert (op x y)) -> keeps k (arithop oob ev n op arg env).
Proof. intros Hop. unfold arithop. keeps. by apply keeps_arith_loop. Qed.
Lemma keeps_eval_sub k arg env : keeps k (eval_sub oob ev n arg env).
Proof. unfold eval_sub. keeps. apply keeps_arith_loop. unfold sub. intros. inert. Qed.
Lemma keeps_capture k fv env arg : keeps k (capture n fv env arg).
Proof.
  assert (forall f s p env arg up, (k <= s)%nat -> keeps k (capture_loop f s p env arg up)).
  { clear. induction f as [| f IH]; intros s p env arg up Hs; cbn [capture_loop]; keeps. }
  unfold capture. keeps.
Qed.
Lemma keeps_make_frame k prm arg up : keeps k (make_frame prm arg up).
Proof. unfold make_frame. keeps. Qed.
#[local] Hint Resolve keeps_eval_export keeps_eval_get keeps_eval_put keeps_eval_return
  keeps_eval_let keeps_eval_set keeps_eval_fn keeps_eval_while keeps_eval_logic keeps_eval_cons
  keeps_eval_is keeps_eval_atom keeps_eval_print keeps_numcmpop keeps_eval_sub
  keeps_capture keeps_make_frame : keeps.

(** *** Leaving a form *)

(** The context of the entry of the current form. *)
Definition left (gc : nat) (cl : list obj) (c c' : fe_Context) : Prop :=
  gcstack c' = take gc (gcstack c) /\ calllist c' = cl /\
  current_eval_depth c' = i32 (current_eval_depth c - 1) /\ max_eval_depth c' = max_eval_depth c /\
    unwound (host c) (host c').

(** The roots [l] hold the value [v]. *)
Definition rooted (l : list obj) (v : obj) (c : fe_Context) : Prop :=
  l = [] \/ exists p, l = [p] /\ (p = v \/ cdr_of p c = Done v c).

Definition returns (gc : nat) (cl : list obj) (r : obj * option obj) (c c' : fe_Context) : Prop :=
  exists l, gcstack c' = take gc (gcstack c) ++ l /\ rooted l (fst r) c' /\ calllist c' = cl /\
    current_eval_depth c' = i32 (current_eval_depth c - 1) /\ max_eval_depth c' = max_eval_depth c /\
    unwound (host c) (host c').

Definition goes (gc : nat) (cl : list obj) (x : next) (c c' : fe_Context) : Prop :=
  match x with Break _ _ => stable gc c c' | TailCall _ _ _ => left gc cl c c' end.

#[local] Instance transparent_left A gc cl : Transparent gc (fun _ : A => left gc cl).
Proof. intros _ c c1 c2 [] (E1 & E2 & E3 & E4 & E5). unfold left. rewrite E1, E2, E3, E4. split_and!; try congruence. by etransitivity. Qed.
#[local] Instance transparent_goes gc cl : Transparent gc (goes gc cl).
Proof.
  intros [] c c1 c2; [apply stable_trans | apply (transparent_left unit gc cl tt)].
Qed.
#[local] Instance transparent_returns gc cl : Transparent gc (returns gc cl).
Proof.
  intros r c c1 c2 [] (l & E1 & Hr & E2 & E3 & E4 & E5). exists l. rewrite E1, E2, E3, E4.
  split_and!; [congruence | done | congruence.. | by etransitivity].
Qed.

Lemma leave_left gc cl : follows gc (fun _ => left gc cl) (leave gc cl).
Proof.
  intros c [Hk _]. unfold leave, bind, fe_restoregc. by rewrite decide_True by done.
Qed.

Lemma goes_tail gc cl o env ift : follows gc (goes gc cl) (leave gc cl ;;; ret (TailCall o env ift)).
Proof.
  intros c Hc. unfold bind. pose proof (leave_left gc cl c Hc) as H. destruct (leave gc cl c); try done.
Qed.

Lemma goes_break gc cl res ne : follows gc (goes gc cl) (ret (Break res ne)).
Proof. intros c [Hk _]. by apply same_stable. Qed.

Lemma goes_plain gc cl ne m : keeps gc m -> follows gc (goes gc cl) (plain ne m).
Proof. intros Hm. apply (follows_bind _ _); [done |]. intros res. apply goes_break. Qed.

Ltac goes :=
  repeat (cbv beta iota zeta; match goal with
    | |- follows _ _ (bind (leave _ _) (fun _ => ret _)) => apply goes_tail
    | |- follows _ _ (ret (Break _ _)) => apply goes_break
    | |- follows _ _ no_fuel => done
    | |- follows _ _ (bind fe_savegc _) => apply follows_savegc; intros ? ?
    | |- follows _ _ (bind _ _) => apply (follows_bind _ _); [by keeps | intros ?]
    | |- follows _ _ (match ?x with _ => _ end) => destruct x
    | H : _ |- follows _ _ _ => by apply H; auto
    end).

Lemma goes_if f gc cl arg env ne ift : follows gc (goes gc cl) (eval_if ev f gc cl arg env ne ift).
Proof. revert arg. induction f as [| f IH]; intros arg; cbn [eval_if]; goes. Qed.
Lemma goes_do f gc cl s arg env res ne ift :
  (gc <= s)%nat -> follows gc (goes gc cl) (eval_do ev f gc cl s arg env res ne ift).
Proof.
  intros Hs. revert arg env res. induction f as [| f IH]; intros arg env res; cbn [eval_do]; goes.
Qed.
Lemma goes_call_body f gc cl s b frame res ne :
  (gc <= s)%nat -> follows gc (goes gc cl) (call_body ev f gc cl s b frame res ne).
Proof.
  intros Hs. revert b frame res. induction f as [| f IH]; intros b frame res; cbn [call_body]; goes.
Qed.
Lemma goes_call gc cl fn arg env ne : follows gc (goes gc cl) (eval_call ev n gc cl fn arg env ne).
Proof. unfold eval_call. goes. by apply goes_call_body. Qed.

Lemma goes_prim gc cl pr arg env ne ift :
  follows gc (goes gc cl)
    (eval_prim oob fmt_g7 fmt_p import_module lhs_first ev n gc cl pr arg env ne ift).
Proof.
  assert (forall x y, inert (add x y) /\ inert (sub x y) /\ inert (mul x y)) as Hop
    by (intros; unfold add, sub, mul; split_and!; inert).
  destruct pr; unfold eval_prim; cbv beta zeta iota;
    try apply goes_if; try (apply goes_plain; by keeps);
    try (apply goes_plain, keeps_arithop; intros; try apply Hop; by auto with inert);
    try (apply goes_plain, keeps_eval_setfield; by auto with inert); goes.
  by apply goes_do.
Qed.

Lemma cdr_of_pure o c v c' : cdr_of o c = Done v c' -> c' = c.
Proof.
  destruct o as [| | | i | |]; simpl; try (by intros [=]). unfold bind, read_cell.
  destruct (cells c !! i) as [x |]; [| done]. destruct (cdr x); simpl; by intros [=].
Qed.
Lemma car_of_pure o c v c' : car_of o c = Done v c' -> c' = c.
Proof.
  destruct o as [| | | i | |]; simpl; try (by intros [=]). unfold bind, read_cell.
  destruct (cells c !! i) as [x |]; [| done]. destruct (car x); simpl; by intros [=].
Qed.
Lemma type_of_pure o c v c' : type_of o c = Done v c' -> c' = c.
Proof.
  destruct o as [| | | i | |]; simpl; try (by intros [=]). unfold bind, read_cell.
  destruct (cells c !! i) as [x |]; simpl; by intros [=].
Qed.
Lemma is_return_obj_pure o c v c' : is_return_obj o c = Done v c' -> c' = c.
Proof.
  unfold is_return_obj. intros H. inv_done. apply type_of_pure in Hm as ->. case_decide; inv_done; [| done].
  apply car_of_pure in Hm as ->. by unfold get in Hm0; simplify_eq.
Qed.

(** Pushing the result. *)
Lemma pushgc_pushes o c :
  match fe_pushgc o c with
  | Done _ c' => exists l, gcstack c' = gcstack c ++ l /\ (l = [] \/ l = [o]) /\
      calllist c' = calllist c /\ current_eval_depth c' = current_eval_depth c /\
      max_eval_depth c' = max_eval_depth c /\ unwound (host c) (host c')
  | Raised _ c' => lost c c'
  | _ => True
  end.
Proof.
  unfold fe_pushgc.
  destruct o; unfold bind, get, ret, put;
    try (exists []; rewrite app_nil_r; split_and!; try done; by left);
    (destruct (decide _); [done |]; eexists; split_and!; [reflexivity | by right | done..]).
Qed.

(** An error after the roots were cut back to [gc]. *)
Lemma lost_above gc l c c1 c2 :
  ready gc c -> gcstack c1 = take gc (gcstack c) ++ l -> unwound (host c) (host c1) ->
  lost c1 c2 -> aborted gc c c2.
Proof.
  intros (Hgc & _ & Hj) Hl Hu [[? Hd] ? Hg Hh].
  split; [by intros _ | by rewrite Hd | rewrite Hg, Hl.. | rewrite Hh; apply Hu | by rewrite Hh, (uw_jump _ _ Hu)].
  - rewrite length_app, length_take_le by done. lia.
  - rewrite take_app_le by (rewrite length_take_le; lia). rewrite take_take. f_equal. lia.
Qed.

Lemma returns_finish gc cl res ne ift : follows gc (returns gc cl) (finish gc cl res ne ift).
Proof.
  intros c Hc. pose proof (proj1 Hc) as Hk. unfold finish, fe_restoregc. unfold bind at 1. rewrite decide_True by done.
  set (c1 := with_gcstack _ c). unfold bind at 1. pose proof (pushgc_pushes res c1) as Hp.
  destruct (fe_pushgc res c1) as [u c2 | e c2 | |]; try done.
  2:{ apply (lost_above gc [] c c1); [done | by rewrite app_nil_r | reflexivity | done]. }
  destruct Hp as (l & El & Hl & _ & Ed & Em & Eh). unfold bind at 1 2, modify. cbv beta iota.
  set (c3 := with_current_eval_depth _ _).
  assert (forall v, rooted l v c3 -> returns gc cl (v, ne) c c3) as Hret.
  { intros v Hv. exists l. split_and!; try done. cbn. by rewrite Ed. }
  assert (forall c4, lost c3 c4 -> aborted gc c c4) as Hab by (intros c4; by eapply lost_above).
  assert (rooted l res c3) as Hres.
  { destruct Hl as [-> | ->]; [by left | right]. exists res. split; [done | by left]. }
  destruct ift; [| by apply Hret]. unfold bind at 1.
  pose proof (inert_is_return_obj res c3) as Hi.
  destruct (is_return_obj res c3) as [r c4 | | |] eqn:Er; try done; [| by apply Hab].
  apply is_return_obj_pure in Er as ->. destruct r; [| by apply Hret]. unfold bind.
  pose proof (inert_cdr_of res c3) as Hi'. destruct (cdr_of res c3) as [v c4 | | |] eqn:Ev; try done; [| by apply Hab].
  pose proof (cdr_of_pure _ _ _ _ Ev) as ->. apply Hret.
  destruct Hl as [-> | ->]; [by left | right]. exists res. split; [done | by right].
Qed.

(** What an evaluation of [eval] does to the control state. *)
Definition balanced (c : fe_Context) (r : outcome fe_Context (obj * option obj)) : Prop :=
  match r with
  | Done r c' => exists l, gcstack c' = gcstack c ++ l /\ rooted l (fst r) c' /\
      calllist c' = calllist c /\ current_eval_depth c' = current_eval_depth c /\
      max_eval_depth c' = max_eval_depth c /\ unwound (host c) (host c')
  | Raised _ c' => aborted (length (gcstack c)) c c'
  | _ => True
  end.

Context (Hbal : forall o env ne ift c, idle c -> balanced c (ev o env ne ift c)).

(** Evaluation that goes on after the current form was left. *)
Lemma ev_after_left gc cl o env ne ift c c1 :
  ready gc c -> left gc cl c c1 ->
  match ev o env ne ift c1 with
  | Done r c2 => returns gc cl r c c2 | Raised _ c2 => aborted gc c c2 | _ => True
  end.
Proof.
  intros (Hgc & _ & Hj) (E1 & E2 & E3 & E4 & E5).
  assert (idle c1) as Hi by (split; [rewrite E3; by apply swrap_range | by apply (uw_jump _ _ E5)]).
  specialize (Hbal o env ne ift c1 Hi).
  destruct (ev o env ne ift c1) as [r c2 | e c2 | |]; try done.
  2:{ destruct Hbal as [? ? Hl Hr Hs ?]. rewrite E1, length_take_le in Hl by done.
      rewrite E1, length_take_le, take_take, Nat.min_id in Hr by done.
      split; try done. etrans; [exact Hs | apply E5]. }
  destruct Hbal as (l & F1 & Hr & F2 & F3 & F4 & F5). exists l. rewrite F1, F2, F3, F4, E1, E2, E4.
  split_and!; try done. by etransitivity.
Qed.

Lemma returns_proceed gc cl ne ift m :
  follows gc (goes gc cl) m -> follows gc (returns gc cl) (let* x := m in proceed ev gc cl ne ift x).
Proof.
  intros Hm c Hc. unfold bind. specialize (Hm c Hc). destruct (m c) as [x c1 | | |] eqn:E; try done.
  destruct x as [res ne' | o env ift']; cbn [goes proceed] in *; [| by apply ev_after_left].
  pose proof (returns_finish gc cl res ne' ift c1 (stable_ready _ _ _ Hc Hm)) as H.
  destruct (finish _ _ _ _ _ c1); try done; [by eapply transparent_returns | by eapply stable_aborted].
Qed.

Lemma returns_macro gc cl o fn arg env ne :
  follows gc (returns gc cl) (let* res := eval_macro ev n gc cl o fn arg env in ret (res, ne)).
Proof.
  assert (follows gc (fun v c c' => returns gc cl (v, ne) c c') (eval_macro ev n gc cl o fn arg env)) as H.
  { assert (Transparent gc (fun v c c' => returns gc cl (v, ne) c c')) by (intros v; apply transparent_returns).
    unfold eval_macro. apply (follows_bind _ _); [by keeps |]. intros (((def & fv) & prm) & body).
    apply (follows_bind _ _); [by keeps |]. intros up. apply (follows_bind _ _); [by keeps |]. intros frame.
    apply follows_savegc. intros s Hs. do 4 (apply (follows_bind _ _); [by keeps | intros ?]).
    intros c Hc. unfold bind at 1. pose proof (leave_left gc cl c Hc) as Hl.
    destruct (leave gc cl c) as [u c1 | | |]; try done. unfold eval_null, bind.
    pose proof (ev_after_left gc cl o env None false c c1 Hc Hl) as He.
    by destruct (ev o env None false c1) as [[v ?] c2 | | |]. }
  intros c Hc. unfold bind. specialize (H c Hc). by destruct (eval_macro _ _ _ _ _ _ _ _ c).
Qed.

Lemma returns_pair o env ne ift c :
  idle c ->
  match eval_pair oob fmt_g7 fmt_p cfunc import_module lhs_first ev n o env ne ift c with
  | Done r c' => returns (length (gcstack c)) (calllist c) r c c'
  | Raised _ c' => aborted (length (gcstack c)) c c'
  | _ => True
  end.
Proof.
  intros Hd. unfold eval_pair. unfold bind at 1 2 3, gets, modify, fe_savegc, gets. cbv beta iota.
  cbn [gcstack with_calllist]. set (gc := length (gcstack c)). set (cl := calllist c).
  assert (forall m, follows gc (returns gc cl) m ->
    match m (with_calllist (o :: cl) c) with
    | Done r c' => returns gc cl r c c' | Raised _ c' => aborted gc c c' | _ => True end) as Hm.
  { intros m Hm. specialize (Hm (with_calllist (o :: cl) c) (conj (le_n _) Hd)).
    destruct (m _); try done. by destruct Hm. }
  apply Hm. do 5 (apply (follows_bind _ _); [by keeps | intros ?]). apply (follows_bind _ _); [by keeps |].
  assert (follows gc (returns gc cl)
    (Ctx.fe_error "tried to call non-callable value" : comp fe_Context (obj * option obj))) as Herr
    by (intros c' (Hk & _ & Hj); by apply lost_aborted).
  intros [| | | | | | | | | | | | |]; try destruct a2; try done; try apply returns_proceed, goes_call; try apply returns_macro.
  - apply (follows_bind _ _); [by keeps |]. intros x. destruct (cdr x); try done. apply returns_proceed, goes_prim.
  - do 2 (apply (follows_bind _ _); [by keeps | intros ?]). apply (follows_bind _ _); [by keeps |].
    intros x. destruct (cdr x); try done.
    apply (follows_bind _ _); [apply Hcfunc |]. intros res. apply returns_finish.
Qed.

Lemma balanced_inert {A} (m : comp fe_Context A) (f : A -> comp fe_Context (obj * option obj)) c :
  inert m -> idle c -> (forall a c1, same c c1 -> balanced c1 (f a c1)) -> balanced c (bind m f c).
Proof.
  intros Hm [_ Hj] Hf. unfold bind. specialize (Hm c). destruct (m c) as [a c1 | | |]; try done; [| by apply lost_aborted].
  specialize (Hf a c1 Hm). destruct Hm as [E1 E2 E3 E4 E5].
  destruct (f a c1); try done; [| destruct Hf; split; rewrite <- ?E4, <- ?E5; done]. destruct Hf as (l & ? & ? & ? & ? & ? & ?). exists l. split_and!; congruence.
Qed.

Lemma balanced_same c r c' : same c c' -> balanced c (Done r c').
Proof.
  intros [? ? ? ? Hh]. exists []. rewrite app_nil_r, Hh. split_and!; try done. by left.
Qed.

Lemma inert_strip_return o ift : inert (strip_return o ift).
Proof. unfold strip_return. inert. Qed.

Lemma depth_restored d : in_s 32 d -> i32 (i32 (d + 1) - 1) = d.
Proof.
  intros H. unfold i32, swrap, in_s in *. change (32 - 1) with 31 in *.
  replace ((d + 1 + 2 ^ 31) mod 2 ^ 32 - 2 ^ 31 - 1 + 2 ^ 31) with ((d + 1 + 2 ^ 31) mod 2 ^ 32 - 1) by lia.
  rewrite Zminus_mod_idemp_l. rewrite Z.mod_small; lia.
Qed.

Lemma eval_step_balanced o env ne ift c :
  idle c ->
  balanced c (eval_step oob fmt_g7 fmt_p cfunc import_module lhs_first ev n o env ne ift c).
Proof.
  intros Hd. unfold eval_step. apply balanced_inert; [apply inert_strip_return | done |]. intros o1 c1 H1.
  apply balanced_inert; [by auto with inert | by eapply same_idle |]. intros _ c2 H2.
  assert (idle c2) as [Hd2 Hj2] by (by do 2 (eapply same_idle; [done |])).
  clear dependent c c1. unfold bind at 1, get. destruct (_ && _); [by apply lost_aborted |].
  set (c3 := with_current_eval_depth (i32 (current_eval_depth c2 + 1)) c2).
  unfold bind at 1, modify. fold c3.
  assert (forall r c4, same c3 c4 ->
    balanced c2 (Done r (with_current_eval_depth (i32 (current_eval_depth c4 - 1)) c4))) as Hdown.
  { intros r c4 [F1 F2 F3 F4 F5]. apply balanced_same. split; try done. cbn. rewrite F2. by apply depth_restored. }
  unfold bind at 1. pose proof (inert_type_of o1 c3) as Ht.
  destruct (type_of o1 c3) as [t c4 | | |] eqn:Et; try done; [| by destruct Ht; apply lost_aborted; [| | split]].
  apply type_of_pure in Et as ->.
  destruct (decide (t = FE_TSYMBOL)) as [-> | _].
  { unfold bind at 1. set (c4 := with_current_eval_depth _ c3).
    assert (balanced c2 (Done (o1, ne) c4)) as Hb by (by apply Hdown).
    assert (same c2 c4) as Hs.
    { split; try done. cbn. by apply depth_restored. }
    unfold bind. pose proof (inert_getbound o1 env c4) as Hg. destruct (getbound o1 env c4) as [b c5 | | |]; try done;
      [| by apply lost_aborted; [| | eapply same_lost]].
    pose proof (inert_cdr_of b c5) as Hc. destruct (cdr_of b c5) as [v c6 | | |]; try done;
      [| by apply lost_aborted; [| | do 2 (eapply same_lost; [done |])]].
    apply balanced_same. by do 2 (etrans; [done |]). }
  destruct (decide (t <> FE_TPAIR)) as [_ | _]; [by apply Hdown |].
  pose proof (returns_pair o1 env ne ift c3 (conj (swrap_range 32 _ ltac:(lia)) Hj2)) as Hp.
  destruct (eval_pair _ _ _ _ _ _ _ _ _ _ _ _ c3) as [r c4 | | |]; try done; [| by destruct Hp; split].
  destruct Hp as (l & E1 & Hr & E2 & E3 & E4 & E5). exists l. rewrite E1, E2, E3, E4, firstn_all.
  split_and!; try done. by apply depth_restored.
Qed.
End Cases.

Section Balanced.
Context (oob : double -> Z) (fmt_g7 : double -> chars) (fmt_p : obj -> chars).
Context (cfunc : nat -> obj -> comp fe_Context obj).
Context (import_module : obj -> comp fe_Context obj).
Context (lhs_first : bool).
Context (Hcfunc : forall k f arg, keeps k (cfunc f arg)).
Context (Himport : forall k o, keeps k (import_module o)).

Abbreviation eval := (eval oob fmt_g7 fmt_p cfunc import_module lhs_first).
Abbreviation fe_eval := (fe_eval oob fmt_g7 fmt_p cfunc import_module lhs_first).

Lemma balanced_keeps k (m : comp fe_Context (obj * option obj)) :
  (forall c, idle c -> balanced c (m c)) -> keeps k m.
Proof.
  intros H c [Hk Hd]. specialize (H c Hd). destruct (m c); try done.
  2: by eapply aborted_below.
  destruct H as (l & E & _ & ? & ? & ? & ?). split; try done; rewrite E.
  - rewrite length_app. lia.
  - by apply take_app_le.
Qed.

Lemma eval_balanced fuel o env ne ift c :
  idle c -> balanced c (eval fuel o env ne ift c).
Proof.
  revert o env ne ift c. induction fuel as [| f IH]; intros o env ne ift c Hd; [done |].
  apply eval_step_balanced; try done. intros k o' env' ne' ift'. apply balanced_keeps. apply IH.
Qed.

(** fe_eval, from a context at rest, leaves a context at rest. *)
Lemma fe_eval_balanced fuel o c :
  idle c ->
  match fe_eval fuel o c with
  | Done _ c' =>
      calllist c' = calllist c /\ current_eval_depth c' = current_eval_depth c /\
      max_eval_depth c' = max_eval_depth c /\ unwound (host c) (host c') /\
      exists l, gcstack c' = gcstack c ++ l /\ (length l <= 1)%nat
  | Raised _ c' => aborted (length (gcstack c)) c c'
  | Stuck | NoFuel => True
  end.
Proof.
  intros Hd. unfold Eval.fe_eval, bind. pose proof (inert_lift_rt (lift_bud begin_eval_run) c) as H1.
  unfold lift_budget at 1. destruct (lift_rt _ c) as [u c1 | | |]; try done; [| by apply lost_aborted; [| apply Hd |]].
  pose proof (eval_balanced fuel o Nil None false c1 (same_idle _ _ H1 Hd)) as H. destruct H1 as [E1 E2 E3 E4 E5].
  destruct (Eval.eval _ _ _ _ _ _ _ _ _ _ _ c1) as [[v r] c2 | | |]; try done;
    [| destruct H; split; rewrite <- ?E4, <- ?E5; done].
  destruct H as (l & F1 & Hr & F2 & F3 & F4 & F5). rewrite <- E1, <- E2, <- E3, <- E4, <- E5.
  split_and!; try done. exists l. split; [done |]. destruct Hr as [-> | (p & -> & _)]; simpl; lia.
Qed.
Lemma keeps_fe_eval k fuel o : keeps k (fe_eval fuel o).
Proof.
  intros c [Hk Hd]. pose proof (fe_eval_balanced fuel o c Hd) as H. destruct (fe_eval fuel o c); try done.
  2: by eapply aborted_below.
  destruct H as (F1 & F2 & F3 & F4 & l & F5 & _). split; try done; rewrite F5.
  - rewrite length_app. lia.
  - by apply take_app_le.
Qed.
End Balanced.
