(* ===== verification/EvalPure.v ===== *)
(** * Evaluation of pure expressions

    A denotational semantics of the expressions built from integers,
    booleans, variables, arithmetic, comparison, [not], [is], [atom], [if],
    [and], [or] and [do], and the proof that the evaluator computes it. *)

From Stdlib Require Import ZArith Lia Ascii String SpecFloat.
From stdpp Require Import base list.
From S2P Require Import Prelude Number Arith Memory Budget MapTable MapSpec Slab SlabSpec Span Ctx Gc GcProps Objects Writer Eval EvalFrame.

(** ** Semantics *)

Inductive val := VI (z : Z) | VB (b : bool) | VN.

#[global] Instance val_eq_dec : EqDecision val.
Proof. solve_decision. Defined.

Inductive expr :=
| ELit (v : val)
| EVar (x : nat)
| EApp (p : primop) (es : exprs)
with exprs :=
| Enil
| Econs (e : expr) (es : exprs).

Scheme expr_mut := Induction for expr Sort Prop
  with exprs_mut := Induction for exprs Sort Prop.
Combined Scheme expr_exprs_ind from expr_mut, exprs_mut.

Definition truthy (v : val) : bool := match v with VB b => b | VN => false | VI _ => true end.

(** Numbers must be integers of at most 53 bits, where doubles are exact. *)
Definition num (v : val) : option Z :=
  match v with VI z => if decide (small z) then Some z else None | _ => None end.

Fixpoint fold_num (op : Z -> Z -> Z) (z : Z) (vs : list val) : option Z :=
  match vs with
  | [] => Some z
  | v :: vs =>
      y ← num v;
      if decide (small (op z y)) then fold_num op (op z y) vs else None
  end.

Definition arith (op : Z -> Z -> Z) (vs : list val) : option val :=
  match vs with
  | [] => None
  | v :: vs => z ← num v; VI <$> fold_num op z vs
  end.

Definition cmp (op : Z -> Z -> bool) (vs : list val) : option val :=
  match vs with
  | [a; b] => x ← num a; y ← num b; Some (VB (op x y))
  | _ => None
  end.

Definition comparable (v : val) : bool := match v with VI z => bool_decide (small z) | _ => true end.

(** The primitives that evaluate all their arguments. *)
Definition apply (p : primop) (vs : list val) : option val :=
  match p, vs with
  | P_ADD, _ => arith Z.add vs
  | P_MUL, _ => arith Z.mul vs
  | P_SUB, [] => Some (VI 0)
  | P_SUB, [v] => z ← num v; Some (VI (- z))
  | P_SUB, _ => arith Z.sub vs
  | P_LT, _ => cmp Z.ltb vs
  | P_LTE, _ => cmp Z.leb vs
  | P_GT, _ => cmp Z.gtb vs
  | P_GTE, _ => cmp Z.geb vs
  | P_NOT, [v] => Some (VB (negb (truthy v)))
  | P_IS, [a; b] => if comparable a && comparable b then Some (VB (bool_decide (a = b))) else None
  | P_ATOM, [_] => Some (VB true)
  | _, _ => None
  end.

Section Den.
Context (rho : nat -> option val).

Fixpoint den (e : expr) : option val :=
  match e with
  | ELit v => Some v
  | EVar x => rho x
  | EApp P_IF es => den_if es
  | EApp P_AND es => den_logic false es VN
  | EApp P_OR es => den_logic true es VN
  | EApp P_DO es => den_do es VN
  | EApp p es => vs ← den_all es; apply p vs
  end
with den_all (es : exprs) : option (list val) :=
  match es with
  | Enil => Some []
  | Econs e es => v ← den e; vs ← den_all es; Some (v :: vs)
  end
with den_if (es : exprs) : option val :=
  match es with
  | Enil => Some VN
  | Econs e Enil => den e
  | Econs c (Econs e es) => v ← den c; if truthy v then den e else den_if es
  end
with den_logic (stop : bool) (es : exprs) (last : val) : option val :=
  match es with
  | Enil => Some last
  | Econs e es => v ← den e; if Bool.eqb (truthy v) stop then Some v else den_logic stop es v
  end
with den_do (es : exprs) (last : val) : option val :=
  match es with
  | Enil => Some last
  | Econs e es => v ← den e; den_do es v
  end.
End Den.

Fixpoint size (e : expr) : nat :=
  match e with ELit _ | EVar _ => 1 | EApp _ es => S (S (sizes es)) end
with sizes (es : exprs) : nat :=
  match es with Enil => 0 | Econs e es => S (size e + sizes es) end.

(** The depth of nested evaluations. *)
Fixpoint height (e : expr) : nat :=
  match e with ELit _ | EVar _ => 1 | EApp _ es => S (Nat.max 1 (heights es)) end
with heights (es : exprs) : nat :=
  match es with Enil => 0 | Econs e es => Nat.max (height e) (heights es) end.

Definition obj_of (v : val) : obj :=
  match v with VI z => Fix z | VB b => Boolean b | VN => Nil end.

(** ** Code in the heap *)

Section Code.
Context (c : fe_Context) (env : obj).

Definition pair_cell (o a d : obj) : Prop :=
  exists i x, o = Ref i /\ cells c !! i = Some x /\ ty x = FE_TPAIR /\
    car x = VObj a /\ cdr x = VObj d.

(** In [env] the symbol [s] has the value [v]. *)
Definition sees (s v : obj) : Prop :=
  (exists i x, s = Ref i /\ cells c !! i = Some x /\ ty x = FE_TSYMBOL) /\
  exists b, getbound s env c = Done b c /\ cdr_of b c = Done v c.

Definition names_prim (s : obj) (p : primop) : Prop :=
  exists k x, sees s (Ref k) /\ cells c !! k = Some x /\ ty x = FE_TPRIM /\ cdr x = VPrim p.

Inductive code : obj -> expr -> Prop :=
| code_lit v : code (obj_of v) (ELit v)
| code_var i x : cells c !! i = Some x -> ty x = FE_TSYMBOL -> code (Ref i) (EVar i)
| code_app o s a p es : pair_cell o s a -> names_prim s p -> s <> return_sym (syms c) ->
    codes a es -> code o (EApp p es)
with codes : obj -> exprs -> Prop :=
| codes_nil : codes Nil Enil
| codes_cons o a d e es : pair_cell o a d -> code a e -> codes d es -> codes o (Econs e es).

(** ** Contexts that differ from [c] in the control state only *)

Definition at_ (g cl : list obj) (d : Z) (r : Rt) : fe_Context :=
  with_gcstack g (with_calllist cl (with_current_eval_depth d (with_rt r c))).

Definition calm (r : Rt) : Prop := quiet (rt_bud r) /\ step_limit (rt_bud r) <= 0.

(** From control state [(g, cl, d)], [m] returns [a] in the control state
    [(g', cl', d')]. *)
Definition steps {A} (m : comp fe_Context A) g cl d (a : A) g' cl' d' : Prop :=
  forall r, calm r -> exists r', calm r' /\ m (at_ g cl d r) = Done a (at_ g' cl' d' r').

Lemma steps_bind {A B} (m : comp fe_Context A) (f : A -> comp fe_Context B) g cl d a g1 cl1 d1 b g2 cl2 d2 :
  steps m g cl d a g1 cl1 d1 -> steps (f a) g1 cl1 d1 b g2 cl2 d2 ->
  steps (bind m f) g cl d b g2 cl2 d2.
Proof.
  intros Hm Hf r Hr. destruct (Hm r Hr) as (r1 & Hr1 & E1). destruct (Hf r1 Hr1) as (r2 & Hr2 & E2).
  exists r2. split; [done |]. unfold bind. by rewrite E1.
Qed.

Lemma steps_ret {A} (a : A) g cl d : steps (ret a) g cl d a g cl d.
Proof. intros r Hr. by exists r. Qed.

(** A computation that reads the objects only. *)
Definition reader {A} (m : comp fe_Context A) (a : A) : Prop :=
  forall g cl d r, m (at_ g cl d r) = Done a (at_ g cl d r).

Lemma steps_reader {A} (m : comp fe_Context A) a g cl d : reader m a -> steps m g cl d a g cl d.
Proof. intros H r Hr. exists r. split; [done | apply H]. Qed.

Lemma reader_ret {A} (a : A) : reader (ret a) a.
Proof. done. Qed.
Lemma reader_bind {A B} (m : comp fe_Context A) (f : A -> comp fe_Context B) a b :
  reader m a -> reader (f a) b -> reader (bind m f) b.
Proof. intros Hm Hf g cl d r. unfold bind. by rewrite Hm, Hf. Qed.

Lemma pair_type o a d : pair_cell o a d -> reader (type_of o) FE_TPAIR.
Proof. intros (i & x & -> & E & Et & _) g cl dd r. unfold type_of, bind, read_cell. cbn. by rewrite E, Et. Qed.
Lemma pair_car o a d : pair_cell o a d -> reader (car_of o) a.
Proof. intros (i & x & -> & E & _ & Ea & _) g cl dd r. unfold car_of, bind, read_cell. cbn. by rewrite E, Ea. Qed.
Lemma pair_cdr o a d : pair_cell o a d -> reader (cdr_of o) d.
Proof. intros (i & x & -> & E & _ & _ & Ed) g cl dd r. unfold cdr_of, bind, read_cell. cbn. by rewrite E, Ed. Qed.
Lemma pair_not_nil o a d : pair_cell o a d -> isnil o = false.
Proof. by intros (i & x & -> & _). Qed.
Lemma pair_nextarg o a d : pair_cell o a d -> reader (fe_nextarg o) (a, d).
Proof.
  intros H. unfold fe_nextarg. eapply reader_bind; [by eapply pair_type |].
  rewrite decide_False by (intros Hn; by apply Hn).
  eapply reader_bind; [by eapply pair_cdr |]. eapply reader_bind; [by eapply pair_car |]. apply reader_ret.
Qed.

(** Reading a variable does not depend on the control state. *)
Definition reads {A} (m : comp fe_Context A) : Prop :=
  forall v c', m c = Done v c' -> c' = c /\ reader m v.

Lemma reads_ret {A} (a : A) : reads (ret a).
Proof. intros v c' [= <- <-]. split; [done | apply reader_ret]. Qed.
Lemma reads_bind {A B} (m : comp fe_Context A) (f : A -> comp fe_Context B) :
  reads m -> (forall a, reads (f a)) -> reads (bind m f).
Proof.
  intros Hm Hf v c' (a & c1 & E1 & E2)%bind_done. destruct (Hm _ _ E1) as [-> H1].
  destruct (Hf _ _ _ E2) as [-> H2]. split; [done | by eapply reader_bind].
Qed.
Lemma reads_get {B} (f : fe_Context -> comp fe_Context B) :
  (forall g cl d r, f (at_ g cl d r) = f c) -> reads (f c) -> reads (bind get f).
Proof.
  intros Hf Hc v c' E. destruct (Hc _ _ E) as [-> H]. split; [done |].
  intros g cl d r. unfold bind, get. rewrite Hf. apply H.
Qed.
Lemma reads_read_cell i : reads (read_cell i).
Proof.
  intros v c'. unfold read_cell. destruct (cells c !! i) as [x |] eqn:E; [| done]. intros [= <- <-].
  split; [done |]. intros g cl d r. unfold read_cell. cbn. by rewrite E.
Qed.
Lemma reads_stuck {A} : reads (@stuck _ A).
Proof. done. Qed.
Lemma reads_no_fuel {A} : reads (@no_fuel _ A).
Proof. done. Qed.

Ltac reads :=
  repeat (cbv beta iota zeta; match goal with
    | |- reads (bind get _) => apply reads_get; [done |]
    | |- reads (bind _ _) => apply reads_bind; [| intros ?]
    | |- reads (match ?x with _ => _ end) => destruct x
    | |- reads (ret _) => apply reads_ret
    | |- reads stuck => apply reads_stuck
    | |- reads no_fuel => apply reads_no_fuel
    | |- reads (read_cell _) => apply reads_read_cell
    | |- reads (as_obj _) => unfold as_obj
    | |- reads (type_of _) => unfold type_of
    | |- reads (car_of _) => unfold car_of
    | |- reads (cdr_of _) => unfold cdr_of
    | H : context [reads] |- _ => apply H
    end).

Lemma reads_assoc f s l : reads (assoc_loop f s l).
Proof. revert l. induction f as [| f IH]; intros l; cbn [assoc_loop]; reads. Qed.
Lemma reads_cdr_of o : reads (cdr_of o).
Proof. reads. Qed.
Lemma reads_getbound s : reads (getbound s env).
Proof. pose proof reads_assoc. unfold getbound, is_frame. reads. Qed.

Lemma sees_value s v : sees s v -> reader (let* b := getbound s env in cdr_of b) v.
Proof.
  intros [_ (b & Hb & Hv)]. eapply reader_bind; [by apply (reads_getbound s b c) | by apply (reads_cdr_of b v c)].
Qed.
Lemma sees_type s v : sees s v -> reader (type_of s) FE_TSYMBOL.
Proof.
  intros [(i & x & -> & E & Et) _] g cl d r. unfold type_of, bind, read_cell. cbn. by rewrite E, Et.
Qed.

(** ** Control steps *)

Definition push (o : obj) : list obj :=
  match o with Fix _ | Boolean _ | Nil => [] | _ => [o] end.

Lemma push_length o : (length (push o) <= 1)%nat.
Proof. destruct o; simpl; lia. Qed.

Lemma steps_pushgc o g cl d :
  (length g < GCSTACKSIZE)%nat -> steps (fe_pushgc o) g cl d tt (g ++ push o) cl d.
Proof.
  intros Hg r Hr. exists r. split; [done |]. unfold fe_pushgc.
  destruct o; cbn [push]; rewrite ?app_nil_r; try done;
    (unfold bind, get; rewrite decide_False; [done | cbn; lia]).
Qed.

Lemma steps_restoregc k g cl d :
  (k <= length g)%nat -> steps (fe_restoregc k) g cl d tt (take k g) cl d.
Proof.
  intros Hk r Hr. exists r. split; [done |]. unfold fe_restoregc. cbn. by rewrite decide_True.
Qed.

Lemma steps_savegc g cl d : steps fe_savegc g cl d (length g) g cl d.
Proof. intros r Hr. by exists r. Qed.

Lemma steps_pushgcs2 o1 o2 g cl d :
  (length g + 2 <= GCSTACKSIZE)%nat -> steps (pushgcs [o1; o2]) g cl d tt (g ++ push o1 ++ push o2) cl d.
Proof.
  intros Hg. pose proof (push_length o1). cbn [pushgcs].
  eapply steps_bind; [apply steps_pushgc; lia |]. rewrite app_assoc.
  eapply steps_bind; [apply steps_pushgc; rewrite length_app; lia |]. apply steps_ret.
Qed.

Lemma steps_calllist cl g cl1 d : steps (modify (with_calllist cl)) g cl1 d tt g cl d.
Proof. intros r Hr. by exists r. Qed.
Lemma steps_gets_calllist g cl d : steps (gets calllist) g cl d cl g cl d.
Proof. intros r Hr. by exists r. Qed.
Lemma steps_down g cl d :
  steps (modify (fun c => with_current_eval_depth (i32 (current_eval_depth c - 1)) c))
    g cl d tt g cl (i32 (d - 1)).
Proof. intros r Hr. by exists r. Qed.

Lemma steps_leave gc cl g cl1 d :
  (gc <= length g)%nat -> steps (leave gc cl) g cl1 d tt (take gc g) cl (i32 (d - 1)).
Proof.
  intros Hg. eapply steps_bind; [by apply steps_restoregc |]. intros r Hr. by exists r.
Qed.

Lemma steps_budget g cl d : steps (lift_budget check_eval_budget) g cl d tt g cl d.
Proof.
  intros r [[Ht Hi] Hs]. unfold lift_budget, lift_rt, lift_bud.
  change (rt (at_ g cl d r)) with r.
  assert (exists b, check_eval_budget (rt_bud r) = Done tt b /\ quiet b /\ step_limit b <= 0) as (b & E & Hq & Hs').
  { unfold check_eval_budget, poll_eval_abort, poll_timeout, poll_interrupt, bind, modify, get, ret.
    destruct (rt_bud r). cbn in *.
    subst interrupt_handler. rewrite (proj2 (Z.ltb_ge _ _) Hs). cbn.
    rewrite (proj2 (Z.ltb_ge _ _) Ht). cbn. by eexists. }
  rewrite E. exists (MkRt (rt_mem r) b). split; [done |]. reflexivity.
Qed.

(** Room for [h] more nested evaluations. *)
Definition room (h : nat) (g : list obj) (d : Z) : Prop :=
  (length g + 4 * h <= GCSTACKSIZE)%nat /\ in_s 32 d /\
  (max_eval_depth c <= 0 \/ d + Z.of_nat h <= max_eval_depth c).

Context (Hmax : in_s 32 (max_eval_depth c)).

Lemma room_sub h h' g l d :
  room (S h) g d -> (h' <= h)%nat -> (length l <= 4)%nat -> room h' (g ++ l) (i32 (d + 1)).
Proof.
  intros (Hg & Hd & Hm) Hh Hl. split; [rewrite length_app; lia |].
  split; [apply swrap_range; lia |]. destruct Hm as [Hm | Hm]; [by left | right].
  rewrite swrap_small; [lia | lia |]. unfold in_s in *. change (32 - 1) with 31 in *. lia.
Qed.
Lemma room_le h h' g d : room h g d -> (h' <= h)%nat -> room h' g d.
Proof. intros (Hg & Hd & Hm) Hh. split; [lia |]. split; [done | lia]. Qed.

(** ** The evaluator *)

Context (oob : double -> Z) (fmt_g7 : double -> chars) (fmt_p : obj -> chars).
Context (cfunc : nat -> obj -> comp fe_Context obj).
Context (import_module : obj -> comp fe_Context obj).
Context (lhs_first : bool).
Context (rho : nat -> option val) (Hrho : forall x v, rho x = Some v -> sees (Ref x) (obj_of v)).

Abbreviation eval := (eval oob fmt_g7 fmt_p cfunc import_module lhs_first).

Definition evaluates (f : nat) (e : expr) : Prop :=
  forall o v g cl d ne ift, code o e -> den rho e = Some v -> (size e <= f)%nat -> room (height e) g d ->
    steps (eval f o env ne ift) g cl d (obj_of v, ne) g cl d.

Lemma not_return v : reader (is_return_obj (obj_of v)) false.
Proof. by destruct v. Qed.

Lemma steps_finish gc cl v ne ift g cl1 d :
  (gc <= length g)%nat -> (length (take gc g) < GCSTACKSIZE)%nat ->
  steps (finish gc cl (obj_of v) ne ift) g cl1 d (obj_of v, ne) (take gc g) cl (i32 (d - 1)).
Proof.
  intros Hg Hr. unfold finish. eapply steps_bind; [by apply steps_restoregc |].
  eapply steps_bind; [by apply steps_pushgc |].
  replace (push (obj_of v)) with (@nil obj) by (by destruct v). rewrite app_nil_r.
  eapply steps_bind; [apply steps_calllist |]. eapply steps_bind; [apply steps_down |].
  destruct ift; [| apply steps_ret]. eapply steps_bind; [apply steps_reader, not_return |]. apply steps_ret.
Qed.

(** The entry of a form. *)
Lemma steps_eval f o t g cl d ne ift res :
  reader (strip_return o ift) o -> reader (type_of o) t -> room 1 g d ->
  steps (let down := modify (fun c => with_current_eval_depth (i32 (current_eval_depth c - 1)) c) in
    if decide (t = FE_TSYMBOL) then
      down ;;; let* b := getbound o env in let* v := cdr_of b in ret (v, ne)
    else if decide (t <> FE_TPAIR) then down ;;; ret (o, ne)
    else eval_pair oob fmt_g7 fmt_p cfunc import_module lhs_first (eval f) f o env ne ift)
    g cl (i32 (d + 1)) res g cl d ->
  steps (eval (S f) o env ne ift) g cl d res g cl d.
Proof.
  intros Hstrip Ht (_ & _ & Hm) H. cbn [Eval.eval]. unfold eval_step.
  eapply steps_bind; [by apply steps_reader |]. eapply steps_bind; [apply steps_budget |].
  intros r Hr. unfold bind at 1, get. change (max_eval_depth (at_ g cl d r)) with (max_eval_depth c).
  change (current_eval_depth (at_ g cl d r)) with d.
  replace ((0 <? max_eval_depth c) && (max_eval_depth c <=? d)) with false.
  2:{ symmetry. destruct (Z.ltb_spec 0 (max_eval_depth c)); [| done]. apply Z.leb_gt. lia. }
  assert (steps (modify (with_current_eval_depth (i32 (d + 1)))) g cl d tt g cl (i32 (d + 1))) as Hup
    by (intros r1 ?; by exists r1).
  revert r Hr. eapply steps_bind; [exact Hup |]. eapply steps_bind; [by apply steps_reader |]. exact H.
Qed.

Lemma depth_back g d : room 1 g d -> i32 (i32 (d + 1) - 1) = d.
Proof. intros (_ & Hd & _). by apply depth_restored. Qed.

(** Only a pair can be a [return] form. *)
Lemma strip_atom o t ift : reader (type_of o) t -> t <> FE_TPAIR -> reader (strip_return o ift) o.
Proof.
  intros Ht Hn g cl d r. unfold strip_return, has_head, is_pair, bind, get, ret. destruct ift; [| done].
  rewrite Ht. by rewrite bool_decide_eq_false_2.
Qed.
Lemma strip_pair o a d ift :
  pair_cell o a d -> a <> return_sym (syms c) -> reader (strip_return o ift) o.
Proof.
  intros Hp Hn g cl dd r. unfold strip_return, has_head, is_pair, bind, get, ret. destruct ift; [| done].
  rewrite (pair_type _ _ _ Hp), bool_decide_eq_true_2 by done. rewrite (pair_car _ _ _ Hp).
  by rewrite bool_decide_eq_false_2.
Qed.

Lemma steps_symbol f s v g cl d ne ift :
  sees s v -> room 1 g d -> steps (eval (S f) s env ne ift) g cl d (v, ne) g cl d.
Proof.
  intros Hs Hr. pose proof (sees_type _ _ Hs) as Ht. eapply steps_eval; [by eapply strip_atom | done | done |].
  cbv zeta. rewrite decide_True by done. eapply steps_bind; [apply steps_down |]. rewrite (depth_back g) by done.
  pose proof (sees_value _ _ Hs) as Hv. intros r Hcalm. exists r. split; [done |].
  specialize (Hv g cl d r). unfold bind in *. destruct (getbound s env _) as [b c1 | | |]; try done. by rewrite Hv.
Qed.

Section Round.
Context (f : nat) (IH : forall e, evaluates f e).

Lemma steps_eval_null o e v g cl d :
  code o e -> den rho e = Some v -> (size e <= f)%nat -> room (height e) g d ->
  steps (eval_null (eval f) o env) g cl d (obj_of v) g cl d.
Proof.
  intros Hc Hv Hs Hr. unfold eval_null. eapply steps_bind; [by eapply IH |]. apply steps_ret.
Qed.
Lemma steps_eval_env o e v g cl d :
  code o e -> den rho e = Some v -> (size e <= f)%nat -> room (height e) g d ->
  steps (eval_env (eval f) o env) g cl d (obj_of v, env) g cl d.
Proof.
  intros Hc Hv Hs Hr. unfold eval_env. eapply steps_bind; [by eapply IH |]. apply steps_ret.
Qed.
Lemma steps_evalarg arg a rest e v g cl d :
  pair_cell arg a rest -> code a e -> den rho e = Some v -> (size e <= f)%nat -> room (height e) g d ->
  steps (evalarg (eval f) arg env) g cl d (obj_of v, rest) g cl d.
Proof.
  intros Hp Hc Hv Hs Hr. unfold evalarg.
  eapply steps_bind; [by eapply steps_reader, pair_nextarg |].
  eapply steps_bind; [by eapply steps_eval_null |]. apply steps_ret.
Qed.

Lemma num_spec v z : num v = Some z -> obj_of v = Fix z /\ is_double z (double_of_Z z).
Proof.
  destruct v as [n | |]; simpl; try done. case_decide; [| done]. intros [= ->].
  split; [done | by apply is_double_of_Z].
Qed.

Lemma steps_evalnum arg a rest e v z g cl d :
  pair_cell arg a rest -> code a e -> den rho e = Some v -> num v = Some z ->
  (size e <= f)%nat -> room (height e) g d ->
  steps (evalnum (eval f) arg env) g cl d (double_of_Z z, rest) g cl d.
Proof.
  intros Hp Hc Hv Hz Hs Hr. unfold evalnum. eapply steps_bind; [by eapply steps_evalarg |].
  destruct (num_spec _ _ Hz) as [-> _]. intros r ?. by exists r.
Qed.

(** A double operation that agrees with an integer one. *)
Definition agrees (op : double -> double -> comp fe_Context double) (zop : Z -> Z -> Z) : Prop :=
  forall a b x y, is_double a x -> is_double b y -> small (zop a b) ->
    exists w, op x y = ret w /\ is_double (zop a b) w.

Lemma steps_arith_loop op zop k es arg vs z z' x g cl d :
  agrees op zop -> codes arg es -> den_all rho es = Some vs -> fold_num zop z vs = Some z' ->
  is_double z x -> (sizes es <= f)%nat -> (sizes es <= k)%nat -> room (heights es) g d ->
  exists x', is_double z' x' /\ steps (arith_loop (eval f) k op x arg env) g cl d x' g cl d.
Proof.
  intros Hop. revert arg vs z x k. induction es as [| e es IHes]; intros arg vs z x k Hc Hv Hz Hx Hf Hk Hr;
    cbn [den_all sizes heights] in *; inversion Hc as [| o a d' e' es' Hp Ha Hd]; subst.
  - injection Hv as <-. injection Hz as <-. exists x. split; [done |]. destruct k; apply steps_ret.
  - destruct (den rho e) as [v |] eqn:Ev; [| done]. cbn in Hv.
    destruct (den_all rho es) as [vs' |] eqn:Evs; [| done]. injection Hv as <-. cbn [fold_num] in Hz.
    destruct (num v) as [y |] eqn:Ey; [| done]. cbn in Hz. destruct (decide (small (zop z y))) as [Hsm |]; [| done].
    destruct (num_spec _ _ Ey) as [_ Hy]. destruct (Hop z y x _ Hx Hy Hsm) as (w & Ew & Hw).
    destruct k as [| k]; [lia |]. destruct (IHes d' vs' (zop z y) w k) as (x' & Hx' & Hs'); try done; try lia.
    { eapply room_le; [done | lia]. }
    exists x'. split; [done |]. cbn [arith_loop]. rewrite (pair_not_nil _ _ _ Hp).
    eapply steps_bind; [eapply steps_evalnum; try done; [lia | eapply room_le; [done | lia]] |].
    cbv beta iota. rewrite Ew. eapply steps_bind; [apply steps_ret | done].
Qed.

Lemma steps_make_number z x g cl d : is_double z x -> steps (make_number oob x) g cl d (Fix z) g cl d.
Proof. intros H. unfold make_number. rewrite (make_number_small oob z x H). apply steps_ret. Qed.

(** *** Strict primitives *)

Lemma steps_numcmp op zop es arg vs v g cl d :
  (forall a b x y, is_double a x -> is_double b y -> op x y = zop a b) ->
  codes arg es -> den_all rho es = Some vs -> cmp zop vs = Some v ->
  (sizes es <= f)%nat -> room (heights es) g d ->
  steps (numcmpop (eval f) op arg env) g cl d (obj_of v) g cl d.
Proof.
  intros Hop Hc Hv Hz Hs Hr. inversion Hc as [| o a1 d1 e1 es1 Hp1 Ha1 Hd1]; subst; cbn in Hv; [by simplify_eq |].
  destruct (den rho e1) as [v1 |] eqn:E1; [| done]. cbn in Hv.
  destruct (den_all rho es1) as [vs1 |] eqn:Es1; [| done]. injection Hv as <-. cbn in Hz.
  destruct vs1 as [| v2 [| ? ?]]; try done.
  inversion Hd1 as [| o a2 d2 e2 es2 Hp2 Ha2 Hd2]; subst; cbn in Es1; [done |].
  destruct (den rho e2) as [v2' |] eqn:E2; [| done]. cbn in Es1.
  destruct (den_all rho es2) as [vs2 |]; [| done]. injection Es1 as -> ->.
  destruct (num v1) as [x |] eqn:Ex; [| done]. cbn in Hz. destruct (num v2) as [y |] eqn:Ey; [| done].
  cbn in Hz. injection Hz as <-. cbn [sizes heights] in *. unfold numcmpop.
  destruct (num_spec _ _ Ex) as [Eo1 Hx]. destruct (num_spec _ _ Ey) as [Eo2 Hy].
  eapply steps_bind; [eapply steps_evalarg; try done; [lia | eapply room_le; [done | lia]] |].
  cbv beta iota. rewrite Eo1. eapply (steps_bind _ _ _ _ _ (Fix x)); [by apply steps_reader |].
  eapply steps_bind; [eapply steps_evalarg; try done; [lia | eapply room_le; [done | lia]] |].
  cbv beta iota. rewrite Eo2. intros r ?. exists r. split; [done |].
  unfold bind, checknum, nval, ret. cbn [obj_of]. by rewrite (Hop x y).
Qed.

Lemma agrees_add : agrees add Z.add.
Proof. intros a b x y Hx Hy Hs. eexists. split; [done | by apply add_double]. Qed.
Lemma agrees_sub : agrees sub Z.sub.
Proof. intros a b x y Hx Hy Hs. eexists. split; [done | by apply sub_double]. Qed.
Lemma agrees_mul : agrees mul Z.mul.
Proof. intros a b x y Hx Hy Hs. eexists. split; [done | by apply mul_double]. Qed.

Lemma steps_arithop op zop es arg vs v g cl d :
  agrees op zop -> codes arg es -> den_all rho es = Some vs -> arith zop vs = Some v ->
  (sizes es <= f)%nat -> room (heights es) g d ->
  steps (arithop oob (eval f) f op arg env) g cl d (obj_of v) g cl d.
Proof.
  intros Hop Hc Hv Hz Hs Hr. inversion Hc as [| o a1 d1 e1 es1 Hp1 Ha1 Hd1]; subst; cbn in Hv; [by simplify_eq |].
  destruct (den rho e1) as [v1 |] eqn:E1; [| done]. cbn in Hv.
  destruct (den_all rho es1) as [vs1 |] eqn:Es1; [| done]. injection Hv as <-. cbn in Hz.
  destruct (num v1) as [x |] eqn:Ex; [| done]. cbn in Hz.
  destruct (fold_num zop x vs1) as [z |] eqn:Ez; [| done]. injection Hz as <-. cbn [sizes heights] in *.
  destruct (num_spec _ _ Ex) as [_ Hx].
  destruct (steps_arith_loop op zop f es1 d1 vs1 x z (double_of_Z x) g cl d) as (w & Hw & Hl); try done; try lia.
  { eapply room_le; [done | lia]. }
  unfold arithop. eapply steps_bind; [eapply steps_evalnum; try done; [lia | eapply room_le; [done | lia]] |].
  cbv beta iota. eapply steps_bind; [exact Hl | by apply steps_make_number].
Qed.

Lemma steps_one arg es vs v g cl d (k : obj -> comp fe_Context obj) w :
  codes arg es -> den_all rho es = Some vs -> vs = [v] -> (sizes es <= f)%nat -> room (heights es) g d ->
  steps (k (obj_of v)) g cl d w g cl d ->
  steps (let* '(v, _) := evalarg (eval f) arg env in k v) g cl d w g cl d.
Proof.
  intros Hc Hv -> Hs Hr Hk. inversion Hc as [| o a1 d1 e1 es1 Hp1 Ha1 Hd1]; subst; cbn in Hv; [done |].
  destruct (den rho e1) as [v1 |] eqn:E1; [| done]. cbn in Hv.
  destruct (den_all rho es1) as [vs1 |] eqn:Es1; [| done]. injection Hv as -> ->. cbn [sizes heights] in *.
  eapply steps_bind; [eapply steps_evalarg; try done; [lia | eapply room_le; [done | lia]] |]. done.
Qed.

Lemma equal_spec a b :
  comparable a = true -> comparable b = true ->
  reader (equal (obj_of a) (obj_of b)) (bool_decide (a = b)).
Proof.
  intros Ha Hb g cl d r. unfold equal. destruct (decide (obj_of a = obj_of b)) as [E | E].
  { rewrite bool_decide_eq_true_2; [done |]. destruct a, b; naive_solver. }
  rewrite bool_decide_eq_false_2 by congruence.
  destruct a as [x | |], b as [y | |]; try done. cbn in Ha, Hb.
  apply bool_decide_eq_true in Ha, Hb. unfold bind, ret. cbn.
  rewrite (eqb_double x y) by (by apply is_double_of_Z). f_equal. apply Z.eqb_neq. intros ->. by apply E.
Qed.

Lemma steps_is arg es vs v g cl d :
  codes arg es -> den_all rho es = Some vs -> apply P_IS vs = Some v ->
  (sizes es <= f)%nat -> room (heights es) g d ->
  steps (eval_is (eval f) arg env) g cl d (obj_of v) g cl d.
Proof.
  intros Hc Hv Hz Hs Hr. inversion Hc as [| o a1 d1 e1 es1 Hp1 Ha1 Hd1]; subst; cbn in Hv; [by simplify_eq |].
  destruct (den rho e1) as [v1 |] eqn:E1; [| done]. cbn in Hv.
  destruct (den_all rho es1) as [vs1 |] eqn:Es1; [| done]. injection Hv as <-. cbn in Hz.
  destruct vs1 as [| v2 [| ? ?]]; try done.
  destruct (comparable v1) eqn:C1; [| done]. destruct (comparable v2) eqn:C2; [| done].
  cbn [andb] in Hz. injection Hz as <-. cbn [sizes heights] in *. unfold eval_is.
  eapply steps_bind; [eapply steps_evalarg; try done; [lia | eapply room_le; [done | lia]] |]. cbv beta iota.
  eapply (steps_one d1 es1 [v2] v2 g cl d (fun vb => let* b := equal (obj_of v1) vb in ret (Boolean b)));
    try done; [lia | eapply room_le; [done | lia] |].
  eapply steps_bind; [by apply steps_reader, equal_spec |]. apply steps_ret.
Qed.

Lemma steps_sub arg es vs v g cl d :
  codes arg es -> den_all rho es = Some vs -> apply P_SUB vs = Some v ->
  (sizes es <= f)%nat -> room (heights es) g d ->
  steps (eval_sub oob (eval f) f arg env) g cl d (obj_of v) g cl d.
Proof.
  intros Hc Hv Hz Hs Hr. unfold eval_sub.
  inversion Hc as [| o a1 d1 e1 es1 Hp1 Ha1 Hd1]; subst; cbn in Hv.
  { injection Hv as <-. injection Hz as <-. by apply steps_make_number, (is_double_of_Z 0). }
  destruct (den rho e1) as [v1 |] eqn:E1; [| done]. cbn in Hv.
  destruct (den_all rho es1) as [vs1 |] eqn:Es1; [| done]. injection Hv as <-.
  rewrite (pair_not_nil _ _ _ Hp1). cbn [sizes heights] in *.
  assert (exists x, num v1 = Some x) as (x & Ex).
  { destruct vs1; cbn in Hz; destruct (num v1); try done; eauto. }
  destruct (num_spec _ _ Ex) as [_ Hx].
  eapply steps_bind; [eapply steps_evalnum; try done; [lia | eapply room_le; [done | lia]] |]. cbv beta iota.
  destruct vs1 as [| v2 vs1].
  - inversion Hd1; subst; [| cbn in Es1; destruct (den rho e); [| done]; by destruct (den_all rho es)].
    cbn in Hz. rewrite Ex in Hz. injection Hz as <-. apply steps_make_number. by apply opp_double.
  - inversion Hd1 as [| o' a2 d2 e2 es2 Hp2]; subst; [done |]. rewrite (pair_not_nil _ _ _ Hp2).
    cbn [apply arith] in Hz. rewrite Ex in Hz. cbn [mbind option_bind] in Hz.
    destruct (fold_num Z.sub x (v2 :: vs1)) as [z |] eqn:Ez; [| done]. injection Hz as <-.
    destruct (steps_arith_loop sub Z.sub f (Econs e2 es2) d1 (v2 :: vs1) x z (double_of_Z x) g cl d)
      as (w & Hw & Hl); try done; try lia; [apply agrees_sub | eapply room_le; [done | lia] |].
    eapply steps_bind; [exact Hl | by apply steps_make_number].
Qed.

Lemma fe_truthy_of v : fe_truthy (obj_of v) = truthy v.
Proof. by destruct v as [| [] |]. Qed.

Lemma steps_logic stop k es arg last v g cl d :
  codes arg es -> den_logic rho stop es last = Some v ->
  (sizes es <= f)%nat -> (sizes es <= k)%nat -> room (heights es) g d ->
  steps (eval_logic (eval f) k stop arg env (obj_of last)) g cl d (obj_of v) g cl d.
Proof.
  revert arg last k. induction es as [| e es IHes]; intros arg last k Hc Hv Hf Hk Hr; cbn in Hv;
    inversion Hc as [| o a1 d1 e1 es1 Hp1 Ha1 Hd1]; subst.
  { injection Hv as <-. destruct k; apply steps_ret. }
  destruct (den rho e) as [v1 |] eqn:E1; [| done]. cbn in Hv. cbn [sizes heights] in *.
  destruct k as [| k]; [lia |]. cbn [eval_logic]. rewrite (pair_not_nil _ _ _ Hp1).
  eapply steps_bind; [eapply steps_evalarg; try done; [lia | eapply room_le; [done | lia]] |]. cbv beta iota.
  rewrite fe_truthy_of. destruct (Bool.eqb (truthy v1) stop).
  - injection Hv as <-. apply steps_ret.
  - apply IHes; try done; try lia. eapply room_le; [done | lia].
Qed.

(** *** Primitives with tail calls

    [settles m]: [m], from the control state inside a form, followed by
    what eval does with its outcome, ends in the state outside it. *)
Section Tail.
Context (gc : nat) (cl : list obj) (ne : option obj) (ift : bool) (g1 cl1 : list obj) (d1 : Z).
Context (Hgc : (gc <= length g1)%nat) (Hroom : (length (take gc g1) < GCSTACKSIZE)%nat).

Definition settles (m : comp fe_Context next) (v : val) : Prop :=
  steps (let* x := m in proceed (eval f) gc cl ne ift x) g1 cl1 d1 (obj_of v, ne)
    (take gc g1) cl (i32 (d1 - 1)).

Lemma settles_bind {A} (m : comp fe_Context A) (k : A -> comp fe_Context next) a v :
  steps m g1 cl1 d1 a g1 cl1 d1 -> settles (k a) v -> settles (bind m k) v.
Proof.
  intros Hm Hk r Hr. destruct (Hm r Hr) as (r1 & Hr1 & E1). destruct (Hk r1 Hr1) as (r2 & Hr2 & E2).
  exists r2. split; [done |]. unfold bind in *. by rewrite E1.
Qed.
Lemma settles_break v : settles (ret (Break (obj_of v) ne)) v.
Proof. eapply steps_bind; [apply steps_ret |]. by apply steps_finish. Qed.
Lemma settles_plain m v : steps m g1 cl1 d1 (obj_of v) g1 cl1 d1 -> settles (plain ne m) v.
Proof. intros Hm. eapply settles_bind; [exact Hm | apply settles_break]. Qed.
Lemma settles_tail o e v :
  code o e -> den rho e = Some v -> (size e <= f)%nat -> room (height e) (take gc g1) (i32 (d1 - 1)) ->
  settles (leave gc cl ;;; ret (TailCall o env ift)) v.
Proof.
  intros Hc Hv Hs Hr. eapply steps_bind.
  - eapply steps_bind; [by apply steps_leave | apply steps_ret].
  - cbn [proceed]. by eapply IH.
Qed.

Lemma settles_if k es arg v :
  codes arg es -> den_if rho es = Some v -> (sizes es <= f)%nat -> (sizes es <= k)%nat ->
  room (heights es) g1 d1 -> room (heights es) (take gc g1) (i32 (d1 - 1)) ->
  settles (eval_if (eval f) k gc cl arg env ne ift) v.
Proof.
  revert es arg. induction k as [| k IHk]; intros es arg Hc Hv Hf Hk Hr Ht; cbn [eval_if];
    destruct Hc as [| o a1 r1 e1 es1 Hp1 Ha1 Hd1]; cbn [sizes heights] in *;
    try (injection Hv as <-; change (isnil Nil) with true; apply (settles_break VN)); try lia.
  rewrite (pair_not_nil _ _ _ Hp1). eapply settles_bind; [by eapply steps_reader, pair_cdr |].
  destruct Hd1 as [| o' a2 r2 e2 es2 Hp2 Ha2 Hd2]; cbn [sizes heights] in *.
  - change (isnil Nil) with true. cbv iota.
    eapply settles_bind; [by eapply steps_reader, pair_nextarg |]. cbv beta iota.
    eapply settles_tail; [done | done | lia | eapply room_le; [done | lia]].
  - rewrite (pair_not_nil _ _ _ Hp2). cbn in Hv. destruct (den rho e1) as [v1 |] eqn:E1; [| done]. cbn in Hv.
    eapply settles_bind; [eapply steps_evalarg; try done; [lia | eapply room_le; [done | lia]] |]. cbv beta iota.
    rewrite fe_truthy_of. destruct (truthy v1).
    + eapply settles_bind; [by eapply steps_reader, pair_nextarg |]. cbv beta iota.
      eapply settles_tail; [done | done | lia | eapply room_le; [done | lia]].
    + rewrite (pair_not_nil _ _ _ Hp2). eapply settles_bind; [by eapply steps_reader, pair_cdr |].
      eapply IHk; try done; try lia; (eapply room_le; [done | lia]).
Qed.

End Tail.

(** [do] roots its remaining statements while one is evaluated. *)
Lemma settles_do gc cl ne ift g0 cl1 d1 k es arg last v extra :
  codes arg es -> den_do rho es last = Some v -> (sizes es <= f)%nat -> (sizes es <= k)%nat ->
  (gc <= length g0)%nat -> (length (take gc g0) < GCSTACKSIZE)%nat ->
  (forall l, (length l <= 2)%nat -> room (heights es) (g0 ++ l) d1) ->
  room (heights es) (take gc g0) (i32 (d1 - 1)) -> (length g0 + 2 <= GCSTACKSIZE)%nat ->
  settles gc cl ne ift (g0 ++ extra) cl1 d1
    (eval_do (eval f) k gc cl (length g0) arg env (obj_of last) ne ift) v.
Proof.
  revert arg last k extra. induction es as [| e es IHes]; intros arg last k extra Hc Hv Hf Hk Hgc Hlt Hr Ht Hg;
    cbn in Hv; inversion Hc as [| o a1 r1 e1 es1 Hp1 Ha1 Hd1]; subst.
  all: assert (gc <= length (g0 ++ extra))%nat by (rewrite length_app; lia).
  all: assert (take gc (g0 ++ extra) = take gc g0) as Et by (by apply take_app_le).
  { injection Hv as <-. destruct k; apply settles_break; try done; by rewrite Et. }
  destruct (den rho e) as [v1 |] eqn:E1; [| done]. cbn in Hv. cbn [sizes heights] in *.
  destruct k as [| k]; [lia |]. cbn [eval_do]. rewrite (pair_not_nil _ _ _ Hp1).
  eapply settles_bind; [by eapply steps_reader, pair_nextarg |]. cbv beta iota.
  inversion Hd1 as [| o a2 r2 e2 es2 Hp2 Ha2 Hd2]; subst; cbn [sizes heights] in *.
  - cbn in Hv. injection Hv as <-. change (isnil Nil) with true. cbv iota.
    eapply settles_tail; [done.. | lia |]. rewrite Et. eapply room_le; [done | lia].
  - rewrite (pair_not_nil _ _ _ Hp2).
    assert (length (push r1 ++ push env) <= 2)%nat as Hpl.
    { rewrite length_app. pose proof (push_length r1). pose proof (push_length env). lia. }
    assert (settles gc cl ne ift (g0 ++ push r1 ++ push env) cl1 d1
      (let* '(res, env0) := eval_env (eval f) a1 env in
       let* r := is_return_obj res in
       if r then ret (Break res ne)
       else eval_do (eval f) k gc cl (length g0) r1 env0 res ne ift) v) as Hrest.
    { eapply settles_bind; [eapply steps_eval_env; try done; [lia | eapply room_le; [by apply Hr | lia]] |].
      cbv beta iota. eapply settles_bind; [apply steps_reader, not_return |]. cbv iota.
      apply IHes; try done; try lia; [| eapply room_le; [done | lia]].
      intros l Hl. eapply room_le; [by apply Hr | lia]. }
    intros r Hcalm.
    destruct (steps_restoregc (length g0) (g0 ++ extra) cl1 d1 ltac:(rewrite length_app; lia) r Hcalm) as (r3 & Hr3 & E3).
    rewrite take_app_length in E3.
    destruct (steps_pushgcs2 r1 env g0 cl1 d1 ltac:(lia) r3 Hr3) as (r4 & Hr4 & E4).
    destruct (Hrest r4 Hr4) as (r5 & Hr5 & E5). exists r5. split; [done |].
    rewrite Et. replace (take gc (g0 ++ push r1 ++ push env)) with (take gc g0) in E5
      by (symmetry; by apply take_app_le).
    unfold bind in *. rewrite E3, E4. exact E5.
Qed.

Lemma settles_prim gc cl ne ift g1 cl1 d1 p es arg v :
  codes arg es -> den rho (EApp p es) = Some v -> (sizes es <= f)%nat ->
  (gc <= length g1)%nat -> (length (take gc g1) < GCSTACKSIZE)%nat ->
  (forall l, (length l <= 2)%nat -> room (heights es) (g1 ++ l) d1) ->
  room (heights es) (take gc g1) (i32 (d1 - 1)) -> (length g1 + 2 <= GCSTACKSIZE)%nat ->
  settles gc cl ne ift g1 cl1 d1
    (eval_prim oob fmt_g7 fmt_p import_module lhs_first (eval f) f gc cl p arg env ne ift) v.
Proof.
  intros Hc Hv Hs Hgc Hlt Hr Ht Hg.
  assert (room (heights es) g1 d1) as Hr0 by (rewrite <- (app_nil_r g1); apply Hr; simpl; lia).
  assert ((exists vs, den_all rho es = Some vs /\ apply p vs = Some v) \/
    p = P_IF \/ p = P_AND \/ p = P_OR \/ p = P_DO) as [(vs & Hvs & Ha) | Hp].
  { destruct p; try (by right; tauto); left; cbn in Hv;
      (destruct (den_all rho es) as [vs |]; [by exists vs | done]). }
  - destruct p; cbn in Ha; try done; unfold eval_prim; apply settles_plain; try done.
    + destruct vs as [| v1 [| ? ?]]; try done. injection Ha as <-.
      eapply steps_one; try done. rewrite fe_truthy_of. apply steps_ret.
    + by eapply steps_is.
    + destruct vs as [| v1 [| ? ?]]; try done. injection Ha as <-. unfold eval_atom.
      eapply steps_one; try done. by destruct v1; apply steps_reader.
    + eapply steps_numcmp; try done. intros. by apply ltb_double.
    + eapply steps_numcmp; try done. intros. by apply leb_double.
    + eapply steps_numcmp; try done. intros. rewrite (ltb_double b a) by done. by rewrite Z.gtb_ltb.
    + eapply steps_numcmp; try done. intros. rewrite (leb_double b a) by done. by rewrite Z.geb_leb.
    + eapply steps_arithop; try done. apply agrees_add.
    + by eapply steps_sub.
    + eapply steps_arithop; try done. apply agrees_mul.
  - destruct Hp as [-> | [-> | [-> | ->]]]; unfold eval_prim.
    + by eapply settles_if.
    + apply settles_plain; try done. by apply (steps_logic false f es arg VN).
    + apply settles_plain; try done. by apply (steps_logic true f es arg VN).
    + eapply settles_bind; [apply steps_savegc |].
      pose proof (settles_do gc cl ne ift g1 cl1 d1 f es arg VN v []) as H. rewrite app_nil_r in H. by apply H.
Qed.

Lemma steps_app o p es v g cl d ne ift :
  code o (EApp p es) -> den rho (EApp p es) = Some v -> (S (sizes es) <= f)%nat ->
  room (S (Nat.max 1 (heights es))) g d ->
  steps (eval_pair oob fmt_g7 fmt_p cfunc import_module lhs_first (eval f) f o env ne ift)
    g cl (i32 (d + 1)) (obj_of v, ne) g cl (i32 (i32 (d + 1) - 1)).
Proof.
  intros Hc Hv Hs Hr. inversion Hc as [| | o' s a p' es' Hp Hs' Hret Hes]; subst.
  destruct Hs' as (k & x & Hsee & Ek & Etk & Edk).
  set (l1 := push env ++ push o). set (g1 := g ++ l1).
  assert (length l1 <= 2)%nat as Hl1
    by (unfold l1; rewrite length_app; pose proof (push_length env); pose proof (push_length o); lia).
  assert (forall h l, (h <= Nat.max 1 (heights es))%nat -> (length l <= 2)%nat ->
    room h (g1 ++ l) (i32 (d + 1))) as Hsub.
  { intros h l Hh Hl. unfold g1. rewrite <- app_assoc. eapply room_sub; [done | done |]. rewrite length_app. lia. }
  pose proof Hr as (Hg & _). assert (length g1 <= length g + 2)%nat by (unfold g1; rewrite length_app; lia).
  assert (take (length g) g1 = g) as Etake by (unfold g1; apply take_app_length).
  unfold eval_pair. eapply steps_bind; [apply steps_gets_calllist |].
  eapply steps_bind; [apply steps_calllist |]. eapply steps_bind; [apply steps_savegc |].
  eapply steps_bind; [apply steps_pushgc; lia |].
  eapply steps_bind; [apply steps_pushgc; rewrite length_app; pose proof (push_length env); lia |].
  rewrite <- app_assoc. fold l1 g1.
  eapply steps_bind; [by eapply steps_reader, pair_car |].
  assert (steps (eval_null (eval f) s env) g1 (o :: cl) (i32 (d + 1)) (Ref k) g1 (o :: cl) (i32 (d + 1))) as Hfn.
  { destruct f as [| f']; [lia |]. unfold eval_null. eapply steps_bind.
    - apply steps_symbol; [done |]. rewrite <- (app_nil_r g1). apply Hsub; simpl; lia.
    - cbv beta iota. apply steps_ret. }
  eapply steps_bind; [exact Hfn |]. eapply steps_bind; [by eapply steps_reader, pair_cdr |].
  eapply (steps_bind _ _ _ _ _ FE_TPRIM).
  { apply steps_reader. intros gg ccl dd r. unfold type_of, bind, read_cell. cbn. by rewrite Ek, Etk. }
  eapply (steps_bind _ _ _ _ _ x).
  { apply steps_reader. intros gg ccl dd r. unfold read_cell. cbn. by rewrite Ek. }
  rewrite Edk.
  pose proof (settles_prim (length g) cl ne ift g1 (o :: cl) (i32 (d + 1)) p es a v) as H2.
  unfold settles in H2. rewrite Etake in H2. apply H2; try done; try lia.
  - unfold g1. rewrite length_app. lia.
  - intros l Hl. apply Hsub; lia.
  - rewrite (depth_back g) by (eapply room_le; [done | lia]). eapply room_le; [done | lia].
Qed.
End Round.

Lemma evaluates_all f e : evaluates f e.
Proof.
  revert e. induction f as [| f IH]; intros e o v g cl d ne ift Hc Hv Hs Hr; [destruct e; simpl in Hs; lia |].
  destruct Hc as [v' | i x Ei Eti | o s a p es Hp Hs' Hret Hes].
  - injection Hv as ->. assert (exists t, reader (type_of (obj_of v)) t /\ t <> FE_TPAIR /\ t <> FE_TSYMBOL) as (t & Ht & Hn1 & Hn2)
      by (destruct v; eexists; by split).
    eapply steps_eval; [by eapply strip_atom | done | done |]. cbv zeta. rewrite decide_False, decide_True by done.
    eapply steps_bind; [apply steps_down |]. rewrite (depth_back g) by done. apply steps_ret.
  - by apply steps_symbol; [apply Hrho |].
  - assert (room 1 g d) as Hr1 by (eapply room_le; [done | simpl; lia]).
    eapply steps_eval; [by eapply strip_pair | by eapply pair_type | done |].
    cbv zeta. rewrite decide_False by done. rewrite decide_False by (intros H; by apply H).
    rewrite <- (depth_back g d Hr1) at 2. apply (steps_app f IH o p es); [by econstructor | done | simpl in Hs; lia | done].
Qed.
End Code.

(** C1. The evaluator computes the denotation of every pure expression:
    given its code in the heap, an environment that has the right values for
    its variables, no abort pending, and room on the two stacks, [eval]
    returns the value the semantics assigns and leaves the whole context as
    it was, up to the budget counters.  Fuel in proportion to the size of
    the expression is enough, whatever the tail calls, so evaluation of such
    expressions terminates; integer arithmetic is exact although it is done
    in doubles. *)
Theorem eval_computes_denotation oob fmt_g7 fmt_p cfunc import_module lhs_first c env rho o e v fuel ne ift
    (Hmax : in_s 32 (max_eval_depth c))
    (Hrho : forall x w, rho x = Some w -> sees c env (Ref x) (obj_of w))
    (Hcode : code c env o e) (Hden : den rho e = Some v) (Hfuel : (size e <= fuel)%nat)
    (Hroots : (length (gcstack c) + 4 * height e <= GCSTACKSIZE)%nat)
    (Hdepth : 0 <= current_eval_depth c /\ current_eval_depth c + Z.of_nat (height e) <= max_eval_depth c)
    (Hcalm : quiet (rt_bud (rt c)) /\ step_limit (rt_bud (rt c)) <= 0) :
  exists r, eval oob fmt_g7 fmt_p cfunc import_module lhs_first fuel o env ne ift c
            = Done (obj_of v, ne) (with_rt r c).
Proof.
  destruct (evaluates_all c env Hmax oob fmt_g7 fmt_p cfunc import_module lhs_first rho Hrho fuel e o v
    (gcstack c) (calllist c) (current_eval_depth c) ne ift Hcode Hden Hfuel) with (r := rt c) as (r & _ & E).
  - split; [done |]. split; [unfold in_s in *; lia | right; lia].
  - exact Hcalm.
  - exists r. replace c with (at_ c (gcstack c) (calllist c) (current_eval_depth c) (rt c)) at 1 by (by destruct c).
    by rewrite E.
Qed.
