(* ===== verification/Open.v ===== *)
(** * Opening and closing a context (src/fe.c: fe_open, fe_close)

    The partition of the memory block, the two free lists, the symbols and
    the primitives. *)

From Stdlib Require Import ZArith Lia Ascii String.
From stdpp Require Import base list.
From S2P Require Import Prelude Number Strtod Memory Budget MapTable MapSpec Slab SlabSpec Span Ctx Gc GcProps Objects Writer Reader Eval.

(** The enumeration order, with the names the primitives are bound to. *)
Definition primitives : list (primop * string) :=
  [(P_LET, "let"); (P_SET, "="); (P_IF, "if"); (P_FN, "fn"); (P_MAC, "mac"); (P_WHILE, "while");
   (P_RETURN, "return"); (P_MODULE, "module"); (P_EXPORT, "export"); (P_IMPORT, "import");
   (P_GET, "get"); (P_PUT, "put"); (P_QUOTE, "quote"); (P_AND, "and"); (P_OR, "or"); (P_DO, "do");
   (P_CONS, "cons"); (P_CAR, "car"); (P_CDR, "cdr"); (P_SETCAR, "setcar"); (P_SETCDR, "setcdr");
   (P_LIST, "list"); (P_NOT, "not"); (P_IS, "is"); (P_ATOM, "atom"); (P_PRINT, "print");
   (P_LT, "<"); (P_LTE, "<="); (P_GT, ">"); (P_GTE, ">="); (P_ADD, "+"); (P_SUB, "-");
   (P_MUL, "*"); (P_DIV, "/")]%string.

Fixpoint register_primitives (save : nat) (l : list (primop * string)) : comp fe_Context unit :=
  match l with
  | [] => ret tt
  | (p, name) :: l =>
      let* v := object in
      settype v FE_TPRIM ;;;
      setcdr v (VPrim p) ;;;
      let* sym := fe_symbol (str name) in
      fe_set sym v ;;;
      fe_restoregc save ;;;
      register_primitives save l
  end.

Definition init_symbols : comp fe_Context unit :=
  let* t := fe_symbol (str "t") in
  modify (fun c => let s := syms c in
    with_syms (MkSyms t (return_sym s) (frame_sym s) (do_sym s) (let_sym s) (quote_sym s)
                 (fn_sym s) (mac_sym s)) c) ;;;
  fe_set t t ;;;
  let* save := fe_savegc in
  register_primitives save primitives ;;;
  let* return_sym := fe_symbol (str "return") in
  let* frame_sym := fe_symbol (str "[frame]") in
  let* do_sym := fe_symbol (str "do") in
  let* let_sym := fe_symbol (str "let") in
  let* quote_sym := fe_symbol (str "quote") in
  let* fn_sym := fe_symbol (str "fn") in
  let* mac_sym := fe_symbol (str "mac") in
  modify (with_syms (MkSyms t return_sym frame_sym do_sym let_sym quote_sym fn_sym mac_sym)).

(** sizeof(fe_Context) is [ctx_size]; the arena ratio is 0.3, computed in
    doubles ([str_part]).  The result is [None] for a block that is too
    small or too large. *)
Definition fe_open (ctx_size : Z) (str_part : Z -> Z) (base : Z) (b : Budget) (malloc : nat -> bool)
    (total_mem : Z) : outcome fe_Context unit + unit :=
  if total_mem <? ctx_size then inr tt
  else
    let arenas_sz := total_mem - ctx_size in
    let str_arena_sz := str_part arenas_sz in
    let str_arena_sz := str_arena_sz - str_arena_sz mod 8 in
    let obj_arena_sz := arenas_sz - str_arena_sz in
    let object_capacity := obj_arena_sz / SIZEOF_OBJECT in
    if INT_MAX <? object_capacity then inr tt
    else
      let m := MkMem 0 total_mem total_mem total_mem false false ∅ 0%nat malloc 0%nat in
      let n := Z.to_nat (str_arena_sz / FE_SLAB_SIZE) in
      inl match populate_slabs n 0 str_arena_sz (raw_arena n) with
          | Done _ A =>
              match open_heap (Z.to_nat object_capacity) A m b base with
              | Done _ c => init_symbols c
              | r => r
              end
          | Raised e _ => Raised e (blank_context 0 (raw_arena n) m b base)
          | Stuck => Stuck
          | NoFuel => NoFuel
          end.

(** ** Running programs *)

(** A context of [n] objects and [k] slabs. *)
Definition small_context (n k : nat) : outcome fe_Context unit :=
  let sz := FE_SLAB_SIZE * Z.of_nat k in
  match fe_open 0 (fun _ => sz) 65536 (rt_bud example_rt) (fun _ => true)
          (SIZEOF_OBJECT * Z.of_nat n + sz) with
  | inl r => r
  | inr _ => NoFuel
  end.

(** Reads and evaluates each form of the text; the result is the value of
    the last one.  The root stack is restored between forms. *)
Fixpoint read_eval (forms fuel : nat) (gc : nat) (last : obj) : comp (fe_Context * chars) obj :=
  match forms with
  | O => ret last
  | S forms =>
      in_ctx (fe_restoregc gc) ;;;
      let* o := fe_read oob_x86 true fuel in
      if decide (o = NULL) then ret last
      else
        let* v := in_ctx (fe_eval oob_x86 (fun _ => str "?") (fun _ => str "?")
                            (fun _ _ => stuck) (fun _ => stuck) true fuel o) in
        read_eval forms fuel gc v
  end.

(** The printed value of the last form, or the error message. *)
Definition run (n k : nat) (text : string) : string + string :=
  match small_context n k with
  | Done _ c =>
      match read_eval 100 1000 (length (gcstack c)) Nil (c, str text) with
      | Done v (c, _) =>
          match fe_tostring (fun _ => str "?") (fun _ => str "?") 100 v 200 c with
          | Done (s, _) _ => inl (string_of_list_ascii s)
          | _ => inr "print"%string
          end
      | Raised e _ => inr e
      | Stuck => inr "undefined behaviour"%string
      | NoFuel => inr "out of fuel"%string
      end
  | _ => inr "open"%string
  end.
