(* ===== verification/EvalProps.v ===== *)
(** * The evaluator at work: witnesses, programs and defects

    The programs below are read, evaluated and printed by the model in
    contexts of a few hundred objects. *)

From Stdlib Require Import ZArith Lia Ascii String SpecFloat.
From stdpp Require Import base list.
From S2P Require Import Prelude Number Arith Memory Budget MapTable MapSpec Slab SlabSpec Span Ctx Gc GcProps Objects Writer Reader Eval Frame EvalFrame EvalPure Open.

(** ** Witnesses *)

Definition cons_cell (a d : obj) : cell := MkCell FE_TPAIR false (VObj a) (VObj d).
Definition symbol (binding : nat) : cell := MkCell FE_TSYMBOL false VAny (VObj (Ref binding)).
Definition primitive (p : primop) : cell := MkCell FE_TPRIM false VAny (VPrim p).

(** The form [(if (< x 5) (+ x 2 3) 0)] (object 20) and the environment
    [((x . 3))] (object 12). *)
Definition if_cells : list cell :=
  [primitive P_IF; symbol 2; cons_cell Nil (Ref 0);
   primitive P_LT; symbol 5; cons_cell Nil (Ref 3);
   primitive P_ADD; symbol 8; cons_cell Nil (Ref 6);
   symbol 10; cons_cell Nil Nil;
   cons_cell (Ref 9) (Fix 3); cons_cell (Ref 11) Nil;
   cons_cell (Ref 4) (Ref 14); cons_cell (Ref 9) (Ref 15); cons_cell (Fix 5) Nil;
   cons_cell (Ref 7) (Ref 17); cons_cell (Ref 9) (Ref 18); cons_cell (Fix 2) (Ref 19); cons_cell (Fix 3) Nil;
   cons_cell (Ref 1) (Ref 21); cons_cell (Ref 13) (Ref 22); cons_cell (Ref 16) (Ref 23); cons_cell (Fix 0) Nil].

Definition if_context : fe_Context :=
  with_cells if_cells
    (blank_context 24 (MkArena [] FE_SLAB_NULL 0) example_mem (rt_bud example_rt) 4096).

Definition if_expr : expr :=
  EApp P_IF (Econs (EApp P_LT (Econs (EVar 9) (Econs (ELit (VI 5)) Enil)))
            (Econs (EApp P_ADD (Econs (EVar 9) (Econs (ELit (VI 2)) (Econs (ELit (VI 3)) Enil))))
            (Econs (ELit (VI 0)) Enil))).

Definition if_env (x : nat) : option val := if decide (x = 9%nat) then Some (VI 3) else None.

Ltac at_index i := exists i; eexists; split_and!; [reflexivity | reflexivity | reflexivity ..].

Ltac prim_at k b :=
  exists k; eexists; split_and!;
    [split; [do 2 eexists; by split_and! | exists (Ref b); by split] | reflexivity | reflexivity..].

Lemma if_code : code if_context (Ref 12) (Ref 20) if_expr.
Proof.
  assert (forall v, code if_context (Ref 12) (obj_of v) (ELit v)) as Hlit by constructor.
  assert (code if_context (Ref 12) (Ref 9) (EVar 9)) as Hx by (by econstructor).
  eapply (code_app _ _ _ (Ref 1)); [by at_index 20%nat | prim_at 0%nat 2%nat | done |].
  eapply codes_cons; [by at_index 21%nat | | eapply codes_cons; [by at_index 22%nat | |]].
  - eapply (code_app _ _ _ (Ref 4)); [by at_index 13%nat | prim_at 3%nat 5%nat | done |].
    eapply codes_cons; [by at_index 14%nat | done |].
    eapply codes_cons; [by at_index 15%nat | apply (Hlit (VI 5)) | constructor].
  - eapply (code_app _ _ _ (Ref 7)); [by at_index 16%nat | prim_at 6%nat 8%nat | done |].
    eapply codes_cons; [by at_index 17%nat | done |].
    eapply codes_cons; [by at_index 18%nat | apply (Hlit (VI 2)) |].
    eapply codes_cons; [by at_index 19%nat | apply (Hlit (VI 3)) | constructor].
  - eapply codes_cons; [by at_index 23%nat | apply (Hlit (VI 0)) | constructor].
Qed.

Lemma if_env_ok x w : if_env x = Some w -> sees if_context (Ref 12) (Ref x) (obj_of w).
Proof.
  unfold if_env. case_decide as Hx; [| done]. intros [= <-]. subst x.
  split; [by do 2 eexists | by exists (Ref 11)].
Qed.

Lemma eval_computes_denotation_witness :
  exists r, eval oob_x86 (fun _ => []) (fun _ => []) (fun _ _ => stuck) (fun _ => stuck) true
    40 (Ref 20) (Ref 12) None false if_context = Done (Fix 8, None) (with_rt r if_context).
Proof.
  exact (eval_computes_denotation oob_x86 (fun _ => []) (fun _ => []) (fun _ _ => stuck) (fun _ => stuck)
    true if_context (Ref 12) if_env (Ref 20) if_expr (VI 8) 40 None false
    ltac:(vm_compute; split; congruence) if_env_ok if_code eq_refl ltac:(simpl; lia)
    ltac:(simpl; unfold GCSTACKSIZE; lia) ltac:(vm_compute; split; congruence)
    ltac:(vm_compute; split; [split; congruence | congruence])).
Defined.

(** ** Programs *)

Example factorial :
  run 400 100 "(= f (fn (n) (if (<= n 1) 1 (* n (f (- n 1)))))) (f 10)" = inl "3628800"%string.
Proof. vm_compute. reflexivity. Qed.

(** Three hundred tail calls collect garbage on the way. *)
Example tail_recursion :
  run 300 100 "(= f (fn (n acc) (if (<= n 0) acc (f (- n 1) (+ acc n))))) (f 300 0)" = inl "45150"%string.
Proof. vm_compute. reflexivity. Qed.

Example closures :
  run 400 100 "(= mk (fn (a) (fn (b) (list a b)))) (= f (mk 1)) (f 2)" = inl "(1 2)"%string.
Proof. vm_compute. reflexivity. Qed.

Example errors :
  run 400 100 "(= x 5) (/ x 0)" = inr "division by zero"%string /\
  run 400 100 "(+ 1 nil)" = inr "expected number, got nil"%string /\
  run 400 100 "(1 2)" = inr "tried to call non-callable value"%string /\
  run 400 100 "(car 5)" = inr "expected pair, got number"%string.
Proof. vm_compute. repeat split. Qed.

(** ** Defects *)

(** A [let] in the tail position of a function is evaluated with the
    newenv of the function's caller: its value is computed in the caller's
    environment and the caller's variable is shadowed. *)
Lemma let_in_tail_position_binds_in_caller :
  run 400 100 "(= g (fn (x) (let y x))) (= h (fn () (do (let y 1) (g 7) y))) (h)" = inl "nil"%string.
Proof. vm_compute. reflexivity. Qed.

(** The value of a variable is not rooted while the next argument is
    evaluated: here the list in [x] is collected and its cells are reused
    before [cons] stores it. *)
Lemma cons_operand_not_rooted :
  run 264 100 "(= x (list 1 2)) (= g (fn (n) (if (<= n 0) 0 (do (list 1 2 3) (g (- n 1))))))
    (cons x (do (= x nil) (g 40) (list 7 7)))" = inl "((7 7) 7 7)"%string.
Proof. vm_compute. reflexivity. Qed.

(** The free variables found so far are not rooted after a [let] of a
    [do]: a collection at the next one loses a captured variable. *)
Lemma analyze_loses_free_variables :
  let program := "(= mk (fn (a b) (fn () (do (let q (+ a b)) (list q)))))
    (list 1 1 1 1 1 1 1 1 1 1 1 1 1 1 1 1 1) (= f (mk 1 2)) (f)"%string in
  run 400 100 program = inl "(3)"%string /\
  run 289 100 program = inr "expected number, got nil"%string.
Proof. vm_compute. repeat split. Qed.

(** A macro that expands to a number dereferences an immediate, and one
    that expands to nil yields a copy of nil that counts as true. *)
Lemma macro_expansion_copies_object :
  run 400 100 "(= m (mac (a) 5)) (m 1)" = inr "undefined behaviour"%string /\
  run 400 100 "(= m (mac () nil)) (if (m) 1 2)" = inl "1"%string.
Proof. vm_compute. repeat split. Qed.

(** Exporting something that is neither a name nor a declaration
    dereferences a null pointer. *)
Lemma export_of_expression :
  run 400 100 "(module foo (do (export 5)))" = inr "undefined behaviour"%string.
Proof. vm_compute. reflexivity. Qed.
