(* ===== verification/Lexer.v ===== *)
(** * The lexer of the FeX language (src/fex.c: scan_token and its helpers)

    A C string is a list of characters without NUL; pointers into it are
    positions, and reading at its end yields the terminator.  Loops run on
    the length of the source. *)

From Stdlib Require Import ZArith Lia Ascii String.
From stdpp Require Import base list.
From S2P Require Import Prelude Strtod MapTable.

Inductive TokenType :=
| TOKEN_LPAREN | TOKEN_RPAREN | TOKEN_LBRACE | TOKEN_RBRACE | TOKEN_LBRACKET | TOKEN_RBRACKET
| TOKEN_COMMA | TOKEN_DOT | TOKEN_MINUS | TOKEN_PLUS | TOKEN_SEMICOLON | TOKEN_SLASH | TOKEN_STAR
| TOKEN_BANG | TOKEN_BANG_EQUAL | TOKEN_EQUAL | TOKEN_EQUAL_EQUAL
| TOKEN_GREATER | TOKEN_GREATER_EQUAL | TOKEN_LESS | TOKEN_LESS_EQUAL
| TOKEN_IDENTIFIER | TOKEN_STRING | TOKEN_NUMBER
| TOKEN_AND | TOKEN_ELSE | TOKEN_EXPORT | TOKEN_FALSE | TOKEN_FN | TOKEN_IF
| TOKEN_IMPORT | TOKEN_LET | TOKEN_MODULE | TOKEN_NIL | TOKEN_OR | TOKEN_RETURN
| TOKEN_TRUE | TOKEN_WHILE | TOKEN_COLON_COLON | TOKEN_ERROR | TOKEN_EOF.
#[export] Instance TokenType_eq_dec : EqDecision TokenType.
Proof. solve_decision. Defined.

(** What [Token.start] points to. *)
Inductive text_ptr := InSource (pos : nat) | Message (s : string).

(** The column of an error token is not initialised. *)
Record Token := MkToken {
  type : TokenType;
  start_ptr : text_ptr;
  length_ : Z;
  tok_line : Z;
  column : option Z
}.

Record Lexer := MkLexer {
  source : chars;
  start : nat;
  current : nat;
  line_start : nat;
  line : Z;
  had_error : bool
}.

Definition init_lexer (src : chars) : Lexer := MkLexer src 0 0 0 1 false.

Definition NUL : ascii := zero.
Definition newline : ascii := ascii_of_nat 10.

(** [L.current[k]] *)
Definition peek (k : nat) (L : Lexer) : ascii := default NUL (source L !! (current L + k)%nat).
(** [L.start[k]] *)
Definition at_start (k : nat) (L : Lexer) : ascii := default NUL (source L !! (start L + k)%nat).

Definition is_at_end (L : Lexer) : bool := bool_decide (peek 0 L = NUL).

Definition make_token (t : TokenType) (L : Lexer) : Token :=
  MkToken t (InSource (start L)) (i32 (Z.of_nat (current L - start L))) (line L)
    (Some (i32 (i32 (Z.of_nat (start L - line_start L)) + 1))).

Definition error_token (message : string) (L : Lexer) : Token * Lexer :=
  (MkToken TOKEN_ERROR (Message message) (Z.of_nat (String.length message)) (line L) None,
   MkLexer (source L) (start L) (current L) (line_start L) (line L) true).

Definition advance (L : Lexer) : ascii * Lexer :=
  let ch := peek 0 L in
  let cur := S (current L) in
  (ch, if decide (ch = newline)
       then MkLexer (source L) (start L) cur cur (i32 (line L + 1)) (had_error L)
       else MkLexer (source L) (start L) cur (line_start L) (line L) (had_error L)).
Definition advanced (L : Lexer) : Lexer := snd (advance L).

Definition match_ (expected : ascii) (L : Lexer) : bool * Lexer :=
  if is_at_end L then (false, L)
  else if negb (bool_decide (peek 0 L = expected)) then (false, L)
  else (true, MkLexer (source L) (start L) (S (current L)) (line_start L) (line L) (had_error L)).

Definition set_line (n : Z) (L : Lexer) : Lexer :=
  MkLexer (source L) (start L) (current L) (line_start L) n (had_error L).
Definition set_start (L : Lexer) : Lexer :=
  MkLexer (source L) (current L) (current L) (line_start L) (line L) (had_error L).

(** Advancing while the current character satisfies [p]. *)
Fixpoint advance_while (fuel : nat) (p : ascii -> bool) (L : Lexer) : Lexer :=
  match fuel with
  | O => L
  | S f => if p (peek 0 L) then advance_while f p (advanced L) else L
  end.

Definition fuel_of (L : Lexer) : nat := S (length (source L)).

Fixpoint skip_whitespace_loop (fuel : nat) (L : Lexer) : Lexer :=
  match fuel with
  | O => L
  | S f =>
      let c := peek 0 L in
      if decide (c = " "%char \/ c = ascii_of_nat 13 \/ c = ascii_of_nat 9)
      then skip_whitespace_loop f (advanced L)
      else if decide (c = newline)
      then skip_whitespace_loop f (advanced (set_line (i32 (line L + 1)) L))
      else if decide (c = "/"%char) then
        if decide (peek 1 L = "/"%char)
        then skip_whitespace_loop f
               (advance_while (fuel_of L)
                  (fun ch => negb (bool_decide (ch = newline)) && negb (bool_decide (ch = NUL))) L)
        else L
      else L
  end.
Definition skip_whitespace (L : Lexer) : Lexer := skip_whitespace_loop (fuel_of L) L.

Definition lexeme_length (L : Lexer) : nat := current L - start L.
Definition lexeme (L : Lexer) : chars := take (lexeme_length L) (drop (start L) (source L)).

(** [memcmp(L.start + start, rest, length) == 0] *)
Definition check_keyword (st len : nat) (rest : string) (t : TokenType) (L : Lexer) : TokenType :=
  if decide (lexeme_length L = st + len)%nat then
    if decide (take len (drop (start L + st) (source L)) = str rest) then t else TOKEN_IDENTIFIER
  else TOKEN_IDENTIFIER.

Definition identifier_type (L : Lexer) : TokenType :=
  let more := bool_decide (1 < lexeme_length L)%nat in
  let c0 := at_start 0 L in
  let c1 := at_start 1 L in
  if decide (c0 = "a"%char) then check_keyword 1 2 "nd" TOKEN_AND L
  else if decide (c0 = "e"%char) then
    if more then
      if decide (c1 = "l"%char) then check_keyword 2 2 "se" TOKEN_ELSE L
      else if decide (c1 = "x"%char) then check_keyword 2 4 "port" TOKEN_EXPORT L
      else TOKEN_IDENTIFIER
    else TOKEN_IDENTIFIER
  else if decide (c0 = "f"%char) then
    if more then
      if decide (c1 = "a"%char) then check_keyword 2 3 "lse" TOKEN_FALSE L
      else if decide (c1 = "n"%char) then
        if decide (lexeme_length L = 2%nat) then TOKEN_FN else TOKEN_IDENTIFIER
      else TOKEN_IDENTIFIER
    else TOKEN_IDENTIFIER
  else if decide (c0 = "i"%char) then
    if more && bool_decide (c1 = "m"%char) then check_keyword 1 5 "mport" TOKEN_IMPORT L
    else check_keyword 1 1 "f" TOKEN_IF L
  else if decide (c0 = "l"%char) then check_keyword 1 2 "et" TOKEN_LET L
  else if decide (c0 = "m"%char) then check_keyword 1 5 "odule" TOKEN_MODULE L
  else if decide (c0 = "n"%char) then check_keyword 1 2 "il" TOKEN_NIL L
  else if decide (c0 = "o"%char) then check_keyword 1 1 "r" TOKEN_OR L
  else if decide (c0 = "r"%char) then check_keyword 1 5 "eturn" TOKEN_RETURN L
  else if decide (c0 = "t"%char) then check_keyword 1 3 "rue" TOKEN_TRUE L
  else if decide (c0 = "w"%char) then check_keyword 1 4 "hile" TOKEN_WHILE L
  else TOKEN_IDENTIFIER.

(** isalpha and isxdigit in the C locale; no character above 127 is a
    letter. *)
Definition is_alpha (ch : ascii) : bool :=
  let n := code (to_lower ch) in (97 <=? n) && (n <=? 122).
Definition is_xdigit (ch : ascii) : bool := bool_decide (is_Some (digit_value ch)).

Definition is_ident (ch : ascii) : bool := is_alpha ch || is_digit ch || bool_decide (ch = "_"%char).

Definition lex_identifier (L : Lexer) : Token * Lexer :=
  let L := advance_while (fuel_of L) is_ident L in
  (make_token (identifier_type L) L, L).

Definition advance_digits (L : Lexer) : Lexer := advance_while (fuel_of L) is_digit L.

Definition is_sign (ch : ascii) : bool := bool_decide (ch = "+"%char) || bool_decide (ch = "-"%char).

Definition lex_fraction (L : Lexer) : Lexer :=
  if bool_decide (peek 0 L = "."%char) && is_digit (peek 1 L)
  then advance_digits (advanced L) else L.

Definition lex_exponent (L : Lexer) : Lexer :=
  if bool_decide (to_lower (peek 0 L) = "e"%char) then
    let exp := if is_sign (peek 1 L) then 2%nat else 1%nat in
    if is_digit (peek exp L) then
      let L := advanced L in
      let L := if is_sign (peek 0 L) then advanced L else L in
      advance_digits L
    else L
  else L.

Definition lex_number (L : Lexer) : Token * Lexer :=
  if bool_decide (at_start 0 L = "0"%char) && bool_decide (to_lower (peek 0 L) = "x"%char) then
    let L := advanced L in
    if negb (is_xdigit (peek 0 L)) then error_token "Invalid hexadecimal literal." L
    else
      let L := advance_while (fuel_of L) is_xdigit L in
      (make_token TOKEN_NUMBER L, L)
  else
    let L := lex_exponent (lex_fraction (advance_digits L)) in
    (make_token TOKEN_NUMBER L, L).

Definition quote : ascii := ascii_of_nat 34.
Definition backslash : ascii := ascii_of_nat 92.

Fixpoint lex_string_loop (fuel : nat) (L : Lexer) : Token * Lexer :=
  match fuel with
  | O => error_token "Unterminated string." L
  | S f =>
      if is_at_end L then error_token "Unterminated string." L
      else
        let '(c, L) := advance L in
        if bool_decide (c = backslash) && negb (is_at_end L) then lex_string_loop f (advanced L)
        else if decide (c = quote) then (make_token TOKEN_STRING L, L)
        else lex_string_loop f L
  end.
Definition lex_string (L : Lexer) : Token * Lexer := lex_string_loop (fuel_of L) L.

(** A one-character token, or a two-character one. *)
Definition one_or_two (second : ascii) (two one : TokenType) (L : Lexer) : Token * Lexer :=
  let '(b, L) := match_ second L in
  (make_token (if b then two else one) L, L).

Definition scan_token (L : Lexer) : Token * Lexer :=
  let L := set_start (skip_whitespace L) in
  if is_at_end L then (make_token TOKEN_EOF L, L)
  else
    let '(c, L) := advance L in
    let tok t := (make_token t L, L) in
    if is_alpha c || bool_decide (c = "_"%char) then lex_identifier L
    else if is_digit c then lex_number L
    else if decide (c = "("%char) then tok TOKEN_LPAREN
    else if decide (c = ")"%char) then tok TOKEN_RPAREN
    else if decide (c = "{"%char) then tok TOKEN_LBRACE
    else if decide (c = "}"%char) then tok TOKEN_RBRACE
    else if decide (c = "["%char) then tok TOKEN_LBRACKET
    else if decide (c = "]"%char) then tok TOKEN_RBRACKET
    else if decide (c = ";"%char) then tok TOKEN_SEMICOLON
    else if decide (c = ","%char) then tok TOKEN_COMMA
    else if decide (c = "."%char) then tok TOKEN_DOT
    else if decide (c = "-"%char) then tok TOKEN_MINUS
    else if decide (c = "+"%char) then tok TOKEN_PLUS
    else if decide (c = "/"%char) then tok TOKEN_SLASH
    else if decide (c = "*"%char) then tok TOKEN_STAR
    else if decide (c = "!"%char) then one_or_two "=" TOKEN_BANG_EQUAL TOKEN_BANG L
    else if decide (c = "="%char) then one_or_two "=" TOKEN_EQUAL_EQUAL TOKEN_EQUAL L
    else if decide (c = "<"%char) then one_or_two "=" TOKEN_LESS_EQUAL TOKEN_LESS L
    else if decide (c = ">"%char) then one_or_two "=" TOKEN_GREATER_EQUAL TOKEN_GREATER L
    else if decide (c = ":"%char) then one_or_two ":" TOKEN_COLON_COLON TOKEN_ERROR L
    else if decide (c = quote) then lex_string L
    else error_token "Unexpected character." L.

(** The text of a token. *)
Definition token_text (src : chars) (t : Token) : chars :=
  match start_ptr t with
  | InSource p => take (Z.to_nat (length_ t)) (drop p src)
  | Message s => str s
  end.

(** ** The whole source *)

(** Tokens up to the end of the source. *)
Fixpoint scan_all (fuel : nat) (L : Lexer) : option (list Token) :=
  match fuel with
  | O => None
  | S f =>
      let '(t, L) := scan_token L in
      if decide (type t = TOKEN_EOF) then Some [t]
      else (cons t) <$> scan_all f L
  end.
Definition tokens (src : chars) : option (list Token) := scan_all (S (length src)) (init_lexer src).
