(* ===== verification/LexerSpec.v ===== *)
(** * The lexer splits every source into tokens

    Every scan stays inside the source and makes progress, keywords are
    recognised exactly, and spelled-out token sequences are read back. *)

From Stdlib Require Import ZArith Lia Ascii String.
From stdpp Require Import base list.
From S2P Require Import Prelude Strtod MapTable Lexer.

(** A C string whose positions fit an int. *)
Definition c_string (s : chars) : Prop := NUL ∉ s /\ Z.of_nat (length s) < 2 ^ 31.

(** The pointers are in order and inside the string. *)
Definition wf (L : Lexer) : Prop :=
  c_string (source L) /\ (start L <= current L <= length (source L))%nat.

(** [L'] is [L] after reading on. *)
Definition after (L L' : Lexer) : Prop :=
  source L' = source L /\ start L' = start L /\ (current L <= current L' <= length (source L))%nat.

Lemma after_refl L : wf L -> after L L.
Proof. intros [_ ?]. split_and!; [done.. | lia | lia]. Qed.
Lemma after_trans L1 L2 L3 : after L1 L2 -> after L2 L3 -> after L1 L3.
Proof. intros (E1 & E2 & ?) (F1 & F2 & F3). rewrite E1 in F3. split_and!; [congruence.. | lia | lia]. Qed.
Lemma after_wf L L' : wf L -> after L L' -> wf L'.
Proof. intros [Hc ?] (E1 & E2 & ?). split; rewrite E1; [done |]. rewrite E2. lia. Qed.

Lemma peek_end L k : (length (source L) <= current L + k)%nat -> peek k L = NUL.
Proof. intros H. unfold peek. by rewrite lookup_ge_None_2. Qed.

Lemma peek_inside L : wf L -> peek 0 L <> NUL -> (current L < length (source L))%nat.
Proof.
  intros _ H. destruct (decide (length (source L) <= current L)%nat); [| lia].
  by rewrite peek_end in H by lia.
Qed.

Lemma at_end_iff L : wf L -> is_at_end L = true <-> current L = length (source L).
Proof.
  intros [Hc Hp]. unfold is_at_end. rewrite bool_decide_eq_true. split.
  - intros H. destruct (decide (current L < length (source L))%nat) as [Hl |]; [| lia].
    exfalso. apply (proj1 Hc). unfold peek in H. rewrite Nat.add_0_r in H.
    destruct (lookup_lt_is_Some_2 _ _ Hl) as [ch E]. rewrite E in H. simpl in H. subst ch.
    by eapply list_elem_of_lookup_2.
  - intros H. apply peek_end. lia.
Qed.

Lemma advanced_after L : wf L -> is_at_end L = false -> after L (advanced L) /\ current (advanced L) = S (current L).
Proof.
  intros Hw H. assert (current L <> length (source L)) by (rewrite <- at_end_iff by done; by rewrite H).
  destruct Hw as [_ ?]. unfold advanced, advance. cbn [snd].
  destruct (decide _); (split; [split_and!; cbn; [done.. | lia | lia] | done]).
Qed.

(** [p] fails at the terminator, so the loop stops inside the string. *)
Lemma advance_while_spec fuel p L :
  wf L -> p NUL = false -> (length (source L) - current L < fuel)%nat ->
  let L' := advance_while fuel p L in
  after L L' /\ p (peek 0 L') = false /\
  (forall i, (current L <= i < current L')%nat -> exists ch, source L !! i = Some ch /\ p ch = true).
Proof.
  intros Hw Hp. revert L Hw. induction fuel as [| f IH]; intros L Hw Hf; [lia |].
  cbn [advance_while]. destruct (p (peek 0 L)) eqn:E.
  2:{ split_and!; [by apply after_refl | done | lia]. }
  assert (is_at_end L = false) as He.
  { apply bool_decide_eq_false. intros H. by rewrite H, Hp in E. }
  destruct (advanced_after L Hw He) as [Ha Hc].
  destruct (IH (advanced L)) as (Ha' & Hs & Hi); [by eapply after_wf | |].
  { destruct Ha as (-> & _ & _). rewrite Hc.
    assert (current L <> length (source L)) by (rewrite <- at_end_iff by done; by rewrite He).
    destruct Hw as [_ ?]. lia. }
  split_and!; [by eapply after_trans | done |]. intros i Hi'.
  destruct (decide (i = current L)) as [-> | Hne].
  - unfold peek in E. rewrite Nat.add_0_r in E. destruct (source L !! current L) as [ch |] eqn:El; [| cbn in E; congruence].
    by exists ch.
  - destruct (Hi i) as (ch & H1 & H2); [rewrite Hc; lia |]. destruct Ha as (E1 & _). rewrite E1 in H1. by exists ch.
Qed.

Lemma advance_while_after p L : wf L -> p NUL = false -> after L (advance_while (fuel_of L) p L).
Proof. intros Hw Hp. apply advance_while_spec; [done | done |]. unfold fuel_of. lia. Qed.
Lemma advance_while_stops p L : wf L -> p NUL = false -> p (peek 0 (advance_while (fuel_of L) p L)) = false.
Proof. intros Hw Hp. apply advance_while_spec; [done | done |]. unfold fuel_of. lia. Qed.

Lemma set_line_wf n L : wf L -> wf (set_line n L).
Proof. done. Qed.

Definition is_blank (ch : ascii) : bool :=
  bool_decide (ch = " "%char) || bool_decide (ch = ascii_of_nat 13) || bool_decide (ch = ascii_of_nat 9) ||
  bool_decide (ch = newline).

(** What whitespace skipping leaves in front. *)
Definition at_token (L : Lexer) : Prop :=
  is_blank (peek 0 L) = false /\ ~ (peek 0 L = "/"%char /\ peek 1 L = "/"%char).

Lemma skip_whitespace_spec fuel L :
  wf L -> (length (source L) - current L < fuel)%nat ->
  after L (skip_whitespace_loop fuel L) /\ at_token (skip_whitespace_loop fuel L).
Proof.
  revert L. induction fuel as [| f IH]; intros L Hw Hf; [lia |]. cbn [skip_whitespace_loop].
  assert (forall L1, after L L1 -> (current L < current L1)%nat ->
    after L (skip_whitespace_loop f L1) /\ at_token (skip_whitespace_loop f L1)) as Hrec.
  { intros L1 H1 Hlt. destruct (IH L1) as [Ha Ht]; [by eapply after_wf | destruct H1 as (-> & _ & ?); lia |].
    split; [by eapply after_trans | done]. }
  assert (peek 0 L <> NUL -> is_at_end L = false) as Hne by (intros H; by apply bool_decide_eq_false).
  destruct (decide (peek 0 L = " "%char \/ _)) as [Hb | Hb].
  { destruct (advanced_after L Hw) as [Ha Hc]; [apply Hne; intros H; rewrite H in Hb; naive_solver |].
    apply Hrec; [done | lia]. }
  destruct (decide (peek 0 L = newline)) as [Hn | Hn].
  { destruct (advanced_after (set_line (i32 (line L + 1)) L)) as [Ha Hc]; [done | apply Hne; by rewrite Hn |].
    apply Hrec; [done | cbn in *; lia]. }
  assert (is_blank (peek 0 L) = false) as Hbl.
  { unfold is_blank. rewrite !bool_decide_eq_false_2 by naive_solver. done. }
  destruct (decide (peek 0 L = "/"%char)) as [Hs |]; [| by split; [by apply after_refl | split; [done | naive_solver]]].
  destruct (decide (peek 1 L = "/"%char)); [| by split; [by apply after_refl | split; [done | naive_solver]]].
  set (p := fun ch => _). pose proof (advance_while_after p L Hw eq_refl) as Ha.
  pose proof (advance_while_stops p L Hw eq_refl) as Hst.
  apply Hrec; [done |]. destruct Ha as (_ & _ & Hle).
  destruct (decide (current L = current (advance_while (fuel_of L) p L))) as [E |]; [| lia].
  exfalso. assert (peek 0 (advance_while (fuel_of L) p L) = "/"%char) as Hp.
  { unfold peek. rewrite <- E. destruct (advance_while_after p L Hw eq_refl) as (-> & _). exact Hs. }
  by rewrite Hp in Hst.
Qed.

Lemma skip_whitespace_after L : wf L -> after L (skip_whitespace L) /\ at_token (skip_whitespace L).
Proof. intros H. apply skip_whitespace_spec; [done |]. unfold fuel_of. lia. Qed.

(** ** Scanning *)

(** A token that was read from [L] on. *)
Definition read_from (L : Lexer) (r : Token * Lexer) : Prop :=
  after L (snd r) /\ type (fst r) <> TOKEN_EOF /\
  (type (fst r) <> TOKEN_ERROR -> fst r = make_token (type (fst r)) (snd r)).

Lemma read_make t L L' : after L L' -> t <> TOKEN_EOF -> read_from L (make_token t L', L').
Proof. intros H Ht. by split_and!. Qed.
Lemma read_error m L L' : after L L' -> read_from L (error_token m L').
Proof. intros H. split_and!; [done | done | done]. Qed.

Lemma check_keyword_type st len rest t L :
  t <> TOKEN_EOF -> check_keyword st len rest t L <> TOKEN_EOF.
Proof. intros Ht. unfold check_keyword. by repeat case_decide. Qed.
Lemma identifier_type_not_eof L : identifier_type L <> TOKEN_EOF.
Proof.
  unfold identifier_type. repeat case_decide; repeat case_match; try done; by apply check_keyword_type.
Qed.

Lemma lex_identifier_read L : wf L -> read_from L (lex_identifier L).
Proof.
  intros Hw. apply read_make; [by apply advance_while_after | apply identifier_type_not_eof].
Qed.

Lemma advanced_after' L ch : wf L -> peek 0 L = ch -> ch <> NUL -> after L (advanced L).
Proof. intros Hw E Hn. apply advanced_after; [done |]. apply bool_decide_eq_false. congruence. Qed.

Lemma advance_digits_after L : wf L -> after L (advance_digits L).
Proof. intros Hw. by apply advance_while_after. Qed.

Lemma lex_fraction_after L : wf L -> after L (lex_fraction L).
Proof.
  intros Hw. unfold lex_fraction. destruct (_ && _) eqn:E; [| by apply after_refl].
  apply andb_true_iff in E as [E%bool_decide_eq_true _].
  assert (after L (advanced L)) as Ha by (by eapply advanced_after').
  eapply after_trans; [done |]. apply advance_digits_after. by eapply after_wf.
Qed.

Lemma is_sign_not_nul ch : is_sign ch = true -> ch <> NUL.
Proof. by intros H ->. Qed.

Lemma lex_exponent_after L : wf L -> after L (lex_exponent L).
Proof.
  intros Hw. unfold lex_exponent. destruct (bool_decide _) eqn:E; [| by apply after_refl].
  apply bool_decide_eq_true in E. destruct (is_digit _); [| by apply after_refl].
  assert (after L (advanced L)) as Ha by (eapply advanced_after'; [done | done |]; intros H; by rewrite H in E).
  assert (wf (advanced L)) by (by eapply after_wf). eapply after_trans; [done |].
  destruct (is_sign (peek 0 (advanced L))) eqn:Es; [| by apply advance_digits_after].
  assert (after (advanced L) (advanced (advanced L))) as Ha2
    by (eapply advanced_after'; [done | done | by apply is_sign_not_nul]).
  eapply after_trans; [done |]. apply advance_digits_after. by eapply after_wf.
Qed.

Lemma lex_number_read L : wf L -> read_from L (lex_number L).
Proof.
  intros Hw. unfold lex_number. destruct (_ && _) eqn:E.
  - apply andb_true_iff in E as [_ E%bool_decide_eq_true].
    assert (after L (advanced L)) as Ha by (eapply advanced_after'; [done | done |]; intros H; by rewrite H in E).
    assert (wf (advanced L)) by (by eapply after_wf).
    destruct (negb _); [by apply read_error |].
    apply read_make; [| done]. eapply after_trans; [done |]. by apply advance_while_after.
  - apply read_make; [| done].
    assert (after L (advance_digits L)) as H1 by (by apply advance_digits_after).
    assert (after (advance_digits L) (lex_fraction (advance_digits L))) as H2
      by (apply lex_fraction_after; by eapply after_wf).
    assert (wf (lex_fraction (advance_digits L))) by (eapply after_wf; [| done]; by eapply after_wf).
    eapply after_trans; [done |]. eapply after_trans; [done |]. by apply lex_exponent_after.
Qed.

Lemma lex_string_read fuel L L0 : wf L -> after L0 L -> read_from L0 (lex_string_loop fuel L).
Proof.
  revert L. induction fuel as [| f IH]; intros L Hw H0; cbn [lex_string_loop]; [by apply read_error |].
  destruct (is_at_end L) eqn:Ee; [by apply read_error |].
  destruct (advanced_after L Hw Ee) as [Ha _]. rewrite (surjective_pairing (advance L)). fold (advanced L).
  assert (wf (advanced L)) by (by eapply after_wf). assert (after L0 (advanced L)) by (by eapply after_trans).
  destruct (bool_decide _ && negb (is_at_end (advanced L))) eqn:Eb.
  - apply andb_true_iff in Eb as [_ Eb%negb_true_iff]. destruct (advanced_after (advanced L)) as [Ha2 _]; [done | done |].
    apply IH; [by eapply after_wf | by eapply after_trans].
  - destruct (decide _); [by apply read_make |]. by apply IH.
Qed.

Lemma one_or_two_read ch t1 t2 L :
  wf L -> t1 <> TOKEN_EOF -> t2 <> TOKEN_EOF -> read_from L (one_or_two ch t1 t2 L).
Proof.
  intros Hw H1 H2. unfold one_or_two, match_. destruct (is_at_end L) eqn:Ee.
  { apply read_make; [by apply after_refl | done]. }
  destruct (negb _); [apply read_make; [by apply after_refl | done] |].
  apply read_make; [| done]. assert (current L <> length (source L)) by (rewrite <- at_end_iff by done; by rewrite Ee).
  destruct Hw as [_ ?]. split_and!; cbn; [done.. | lia | lia].
Qed.

(** Every scan reads one token: the skipped text and the token follow each
    other inside the source, and a token other than the end of the source is
    not empty. *)
Lemma scan_token_spec L :
  wf L -> let '(t, L') := scan_token L in
  wf L' /\ source L' = source L /\ (current L <= start L')%nat /\
  (type t = TOKEN_EOF -> current L' = length (source L)) /\
  (type t <> TOKEN_EOF -> (start L' < current L')%nat) /\
  (type t <> TOKEN_ERROR -> t = make_token (type t) L').
Proof.
  intros Hw. unfold scan_token. destruct (skip_whitespace_after L Hw) as [Hskip _].
  set (L0 := set_start (skip_whitespace L)).
  assert (wf L0 /\ source L0 = source L /\ start L0 = current L0 /\ (current L <= current L0)%nat) as (Hw0 & Hs0 & Hst & Hc0).
  { destruct Hskip as (E1 & E2 & E3). unfold L0, set_start, wf. cbn [source start current]. rewrite E1. split_and!; try done; try lia. apply Hw. }
  destruct (is_at_end L0) eqn:Ee.
  { split_and!; try done; intros _; rewrite <- Hs0; by apply at_end_iff. }
  destruct (advanced_after L0 Hw0 Ee) as [Ha Hcur]. rewrite (surjective_pairing (advance L0)). fold (advanced L0).
  set (L1 := advanced L0) in *. set (c := fst (advance L0)).
  assert (wf L1) as Hw1 by (by eapply after_wf).
  assert (forall r, read_from L1 r -> let '(t, L') := r in
    wf L' /\ source L' = source L /\ (current L <= start L')%nat /\
    (type t = TOKEN_EOF -> current L' = length (source L)) /\
    (type t <> TOKEN_EOF -> (start L' < current L')%nat) /\
    (type t <> TOKEN_ERROR -> t = make_token (type t) L')) as Hr.
  { intros [t L'] (Haft & Hne & Hmk). cbn [fst snd] in *. pose proof (after_wf _ _ Hw1 Haft).
    destruct Ha as (A1 & A2 & _), Haft as (B1 & B2 & B3). split_and!; try done; [congruence | lia | lia]. }
  assert (forall t, t <> TOKEN_EOF -> read_from L1 (make_token t L1, L1)) as Htok
    by (intros t Ht; apply read_make; [by apply after_refl | done]).
  apply Hr. clear Hr. repeat case_match; try (by apply Htok); try (by apply one_or_two_read);
    [by apply lex_identifier_read | by apply lex_number_read | by apply lex_string_read; [| apply after_refl]
    | apply read_error; by apply after_refl].
Qed.

(** ** Keywords *)

Definition keywords : list (chars * TokenType) :=
  [(str "and", TOKEN_AND); (str "else", TOKEN_ELSE); (str "export", TOKEN_EXPORT);
   (str "false", TOKEN_FALSE); (str "fn", TOKEN_FN); (str "if", TOKEN_IF); (str "import", TOKEN_IMPORT);
   (str "let", TOKEN_LET); (str "module", TOKEN_MODULE); (str "nil", TOKEN_NIL); (str "or", TOKEN_OR);
   (str "return", TOKEN_RETURN); (str "true", TOKEN_TRUE); (str "while", TOKEN_WHILE)].

Definition word_type (s : chars) : TokenType :=
  default TOKEN_IDENTIFIER (snd <$> (snd <$> list_find (fun kt => fst kt = s) keywords)).

Lemma lexeme_length_eq L : wf L -> length (lexeme L) = lexeme_length L.
Proof. intros [_ ?]. unfold lexeme, lexeme_length. rewrite length_take, length_drop. lia. Qed.

Lemma at_start_lexeme L k : wf L -> (k < lexeme_length L)%nat -> lexeme L !! k = Some (at_start k L).
Proof.
  intros [_ Hw] Hk. unfold lexeme, at_start, lexeme_length in *. rewrite lookup_take_lt by done.
  rewrite lookup_drop. destruct (source L !! (start L + k)%nat) eqn:E; [done |].
  apply lookup_ge_None in E. lia.
Qed.

(** A keyword test that succeeds has seen the whole keyword. *)
Lemma check_keyword_eq st len rest t L :
  wf L -> t <> TOKEN_IDENTIFIER -> length (str rest) = len ->
  check_keyword st len rest t L
  = if decide (drop st (lexeme L) = str rest /\ lexeme_length L = (st + len)%nat) then t else TOKEN_IDENTIFIER.
Proof.
  intros Hw Ht Hl. unfold check_keyword. destruct (decide (lexeme_length L = (st + len)%nat)) as [E | E].
  2:{ by rewrite decide_False by (by intros [_ ?]). }
  assert (take len (drop (start L + st) (source L)) = drop st (lexeme L)) as ->.
  { unfold lexeme. rewrite E. rewrite skipn_firstn_comm, drop_drop. f_equal. lia. }
  destruct (decide (drop st (lexeme L) = str rest)); [by rewrite decide_True | by rewrite decide_False by (by intros [? _])].
Qed.

Lemma drop_1_eq (s : chars) a r : s !! 0%nat = Some a -> drop 1 s = r -> s = a :: r.
Proof. destruct s; simpl; [done |]. intros [= ->] <-. done. Qed.
Lemma drop_2_eq (s : chars) a b r : s !! 0%nat = Some a -> s !! 1%nat = Some b -> drop 2 s = r -> s = a :: b :: r.
Proof. destruct s as [| ? [|]]; simpl; try done. intros [= ->] [= ->] <-. done. Qed.

Lemma not_keyword s : s ∉ keywords.*1 -> word_type s = TOKEN_IDENTIFIER.
Proof.
  intros H. unfold word_type. destruct (list_find _ keywords) as [[i [k t]] |] eqn:E; [| done].
  apply list_find_Some in E as (E & <- & _). exfalso. apply H. apply list_elem_of_fmap. exists (k, t).
  split; [done | by eapply list_elem_of_lookup_2].
Qed.

Ltac in_table := by apply (bool_decide_unpack _).

Lemma identifier_type_spec L :
  wf L -> lexeme L <> [] -> identifier_type L = word_type (lexeme L).
Proof.
  intros Hw Hne. pose proof (lexeme_length_eq L Hw) as Hl.
  assert (0 < lexeme_length L)%nat as Hpos by (rewrite <- Hl; destruct (lexeme L); [done | simpl; lia]).
  pose proof (at_start_lexeme L 0 Hw Hpos) as H0.
  assert ((1 < lexeme_length L)%nat -> lexeme L !! 1%nat = Some (at_start 1 L)) as H1
    by (intros H; by apply at_start_lexeme).
  unfold identifier_type. rewrite !check_keyword_eq by done. set (s := lexeme L) in *. rewrite <- Hl in *.
  destruct (decide (s ∈ keywords.*1)) as [Hin | Hnin].
  - clearbody s. generalize dependent (at_start 0 L). generalize dependent (at_start 1 L). clear L Hw Hl.
    intros c1 H1 c0 H0. cbn [keywords fmap list_fmap fst] in Hin. rewrite !elem_of_cons, elem_of_nil in Hin.
    repeat (destruct Hin as [-> | Hin];
      [injection H0 as <-; specialize (H1 ltac:(cbn; lia)); injection H1 as <-; reflexivity |]). done.
  - rewrite not_keyword by done. clear Hne.
    assert (forall (P : Prop) `{Decision P} (t : TokenType), ~ P -> (if decide P then t else TOKEN_IDENTIFIER) = TOKEN_IDENTIFIER) as Hno
      by (intros P ? t HP; by rewrite decide_False).
    assert (forall r, s = r -> r ∈ keywords.*1 -> False) as Hk by (intros r -> ?; done).
    assert (forall a (r : string), at_start 0 L = a -> a :: str r ∈ keywords.*1 ->
      ~ (drop 1 s = str r /\ length s = (1 + length (str r))%nat)) as Hone.
    { intros a r <- Hr [Hd _]. eapply Hk; [| exact Hr]. by apply drop_1_eq. }
    assert (forall a b (r : string), at_start 0 L = a -> at_start 1 L = b -> (1 < length s)%nat ->
      a :: b :: str r ∈ keywords.*1 -> ~ (drop 2 s = str r /\ length s = (2 + length (str r))%nat)) as Htwo.
    { intros a b r <- <- Hlen Hr [Hd _]. eapply Hk; [| exact Hr]. apply drop_2_eq; auto. }
    case_decide as Ha; [apply Hno, (Hone _ "nd"%string Ha); in_table |].
    case_decide as He; [| clear He].
    { case_bool_decide as Hm; [| done].
      case_decide as Hl1; [apply Hno, (Htwo _ _ "se"%string He Hl1 Hm); in_table |].
      case_decide as Hx; [apply Hno, (Htwo _ _ "port"%string He Hx Hm); in_table | done]. }
    case_decide as Hf; [| clear Hf].
    { case_bool_decide as Hm; [| done].
      case_decide as Ha1; [apply Hno, (Htwo _ _ "lse"%string Hf Ha1 Hm); in_table |].
      case_decide as Hn; [| done]. apply Hno. intros H2. apply (Htwo _ _ ""%string Hf Hn Hm); [in_table |].
      split; [| done]. apply nil_length_inv. rewrite length_drop, H2. done. }
    case_decide as Hi; [| clear Hi].
    { case_match; [apply Hno, (Hone _ "mport"%string Hi); in_table | apply Hno, (Hone _ "f"%string Hi); in_table]. }
    case_decide as Hc; [apply Hno, (Hone _ "et"%string Hc); in_table | clear Hc].
    case_decide as Hc; [apply Hno, (Hone _ "odule"%string Hc); in_table | clear Hc].
    case_decide as Hc; [apply Hno, (Hone _ "il"%string Hc); in_table | clear Hc].
    case_decide as Hc; [apply Hno, (Hone _ "r"%string Hc); in_table | clear Hc].
    case_decide as Hc; [apply Hno, (Hone _ "eturn"%string Hc); in_table | clear Hc].
    case_decide as Hc; [apply Hno, (Hone _ "rue"%string Hc); in_table | clear Hc].
    case_decide as Hc; [apply Hno, (Hone _ "hile"%string Hc); in_table | done].
Qed.

(** ** The tokens of a source *)

(** The tokens follow each other from position [n] to the end, without
    overlapping; the last one, and only it, is the end of the source. *)
Fixpoint laid_out (src : chars) (n : nat) (ts : list Token) : Prop :=
  match ts with
  | [] => False
  | [t] => type t = TOKEN_EOF /\ (n <= length src)%nat
  | t :: ts =>
      type t <> TOKEN_EOF /\
      exists p q, (n <= p < q)%nat /\ (q <= length src)%nat /\ laid_out src q ts /\
        (type t <> TOKEN_ERROR -> token_text src t = take (q - p) (drop p src))
  end.

Lemma laid_out_cons src n t ts :
  ts <> [] -> laid_out src n (t :: ts) =
    (type t <> TOKEN_EOF /\
     exists p q, (n <= p < q)%nat /\ (q <= length src)%nat /\ laid_out src q ts /\
       (type t <> TOKEN_ERROR -> token_text src t = take (q - p) (drop p src))).
Proof. by destruct ts. Qed.

Lemma make_token_text t L :
  wf L -> token_text (source L) (make_token t L) = take (current L - start L) (drop (start L) (source L)).
Proof.
  intros [[_ Hl] Hw]. unfold token_text, make_token. cbn [start_ptr length_]. rewrite swrap_small by (unfold in_s; lia).
  by rewrite Nat2Z.id.
Qed.

Lemma scan_all_total fuel L :
  wf L -> (length (source L) - current L < fuel)%nat ->
  exists ts, scan_all fuel L = Some ts /\ laid_out (source L) (current L) ts.
Proof.
  revert L. induction fuel as [| f IH]; intros L Hw Hf; [lia |]. cbn [scan_all].
  pose proof (scan_token_spec L Hw) as Hs. destruct (scan_token L) as [t L'].
  destruct Hs as (Hw' & Hsrc & Hle & Heof & Hprog & Hmk).
  destruct (decide (type t = TOKEN_EOF)) as [He | He].
  { exists [t]. split; [done |]. split; [done |]. destruct Hw as [_ ?]. lia. }
  specialize (Hprog He). pose proof Hw' as [_ Hb]. rewrite Hsrc in Hb.
  destruct (IH L') as (ts & E & Hl); [done | rewrite Hsrc; lia |]. rewrite E. exists (t :: ts). split; [done |].
  rewrite Hsrc in Hl. rewrite laid_out_cons by (by intros ->). split; [done |].
  exists (start L'), (current L'). split_and!; [lia.. | done |]. intros Hne.
  rewrite (Hmk Hne), <- Hsrc. by apply make_token_text.
Qed.

(** ** Reading back spelled tokens *)

Definition punctuators : list (TokenType * chars) :=
  [(TOKEN_LPAREN, str "("); (TOKEN_RPAREN, str ")"); (TOKEN_LBRACE, str "{"); (TOKEN_RBRACE, str "}");
   (TOKEN_LBRACKET, str "["); (TOKEN_RBRACKET, str "]"); (TOKEN_COMMA, str ","); (TOKEN_DOT, str ".");
   (TOKEN_MINUS, str "-"); (TOKEN_PLUS, str "+"); (TOKEN_SEMICOLON, str ";"); (TOKEN_SLASH, str "/");
   (TOKEN_STAR, str "*"); (TOKEN_BANG, str "!"); (TOKEN_BANG_EQUAL, str "!="); (TOKEN_EQUAL, str "=");
   (TOKEN_EQUAL_EQUAL, str "=="); (TOKEN_GREATER, str ">"); (TOKEN_GREATER_EQUAL, str ">=");
   (TOKEN_LESS, str "<"); (TOKEN_LESS_EQUAL, str "<="); (TOKEN_COLON_COLON, str "::")].

(** The spelling [s] of a token of type [t]. *)
Inductive spells : TokenType -> chars -> Prop :=
| spells_punct t s : (t, s) ∈ punctuators -> spells t s
| spells_word a s : is_alpha a || bool_decide (a = "_"%char) = true -> forallb is_ident s = true ->
    spells (word_type (a :: s)) (a :: s)
| spells_number a s : is_digit a = true -> forallb is_digit s = true -> spells TOKEN_NUMBER (a :: s).

(** Each token is preceded by a space. *)
Definition spaced (l : list (TokenType * chars)) : chars := l ≫= (fun ts => " "%char :: snd ts).

Lemma peek_drop L k : peek k L = default NUL (drop (current L) (source L) !! k).
Proof. unfold peek. by rewrite lookup_drop. Qed.

Lemma advance_while_run p L s rest :
  wf L -> p NUL = false -> drop (current L) (source L) = s ++ rest ->
  forallb p s = true -> p (default NUL (head rest)) = false ->
  current (advance_while (fuel_of L) p L) = (current L + length s)%nat.
Proof.
  intros Hw Hp Hd Hs Hr.
  destruct (advance_while_spec (fuel_of L) p L Hw Hp) as (Ha & Hst & Hbetween); [unfold fuel_of; lia |].
  set (L' := advance_while _ _ _) in *. destruct Ha as (E1 & _ & Hle).
  assert (forall i, source L !! (current L + i)%nat = (s ++ rest) !! i) as Hi
    by (intros i; by rewrite <- Hd, lookup_drop).
  destruct (lt_eq_lt_dec (current L') (current L + length s)) as [[Hlt | ->] | Hgt]; [| done |]; exfalso.
  - unfold peek in Hst. rewrite E1, Nat.add_0_r in Hst.
    replace (current L') with (current L + (current L' - current L))%nat in Hst by lia.
    rewrite Hi, lookup_app_l in Hst by lia.
    destruct (lookup_lt_is_Some_2 s (current L' - current L)) as [ch E]; [lia |]. rewrite E in Hst. cbn in Hst.
    rewrite forallb_forall in Hs. specialize (Hs ch). rewrite Hs in Hst; [done |].
    apply list_elem_of_In. by eapply list_elem_of_lookup_2.
  - destruct (Hbetween (current L + length s)%nat) as (ch & E & Hch); [lia |].
    rewrite Hi, lookup_app_r, Nat.sub_diag in E by lia. rewrite head_lookup, E in Hr. cbn in Hr. congruence.
Qed.

(** The lexer moved to [n], where a token starts. *)
Definition moved (L : Lexer) (n : nat) : Lexer :=
  MkLexer (source L) n n (line_start L) (line L) (had_error L).

Lemma skip_one L ch rest :
  wf L -> drop (current L) (source L) = " "%char :: ch :: rest ->
  is_blank ch = false -> ~ (ch = "/"%char /\ head rest = Some "/"%char) ->
  set_start (skip_whitespace L) = moved L (S (current L)).
Proof.
  intros Hw Hd Hb Hc. unfold skip_whitespace, fuel_of.
  assert (2 <= length (source L))%nat as Hlen.
  { assert (length (drop (current L) (source L)) = S (S (length rest))) as E by (by rewrite Hd).
    rewrite length_drop in E. lia. }
  destruct (length (source L)) as [| n]; [lia |]. destruct n as [| n]; [lia |].
  cbn [skip_whitespace_loop].
  assert (peek 0 L = " "%char) as Hp by (by rewrite peek_drop, Hd). rewrite Hp.
  rewrite (decide_True (P := " "%char = " "%char \/ _)) by (by left).
  assert (advanced L = MkLexer (source L) (start L) (S (current L)) (line_start L) (line L) (had_error L)) as ->.
  { unfold advanced, advance. cbn [snd]. by rewrite Hp. }
  set (L1 := MkLexer _ _ _ _ _ _).
  assert (forall k, peek k L1 = default NUL ((ch :: rest) !! k)) as Hp1.
  { intros k. rewrite peek_drop. f_equal. subst L1. cbn [current source].
    rewrite <- Nat.add_1_r, <- drop_drop, Hd. done. }
  assert (forall L2 L3 L4 : Lexer, (if decide (peek 0 L1 = " "%char \/ peek 0 L1 = ascii_of_nat 13 \/ peek 0 L1 = ascii_of_nat 9)
    then L2 else if decide (peek 0 L1 = newline) then L3 else if decide (peek 0 L1 = "/"%char) then
      if decide (peek 1 L1 = "/"%char) then L4 else L1 else L1) = L1) as E.
  { intros L2 L3 L4. rewrite (Hp1 0%nat). cbn [lookup list_lookup default]. unfold is_blank in Hb.
    rewrite !orb_false_iff, !bool_decide_eq_false in Hb. destruct Hb as (((? & ?) & ?) & ?).
    cbn. rewrite decide_False by tauto. rewrite decide_False by done.
    destruct (decide (ch = "/"%char)) as [-> |]; [| done]. rewrite decide_False; [done |].
    rewrite Hp1. destruct rest as [| r rest]; cbn; [done |]. intros ->. by apply Hc. }
  rewrite E. done.
Qed.

Lemma spells_shape t s :
  spells t s -> exists ch s', s = ch :: s' /\ ch <> NUL /\ is_blank ch = false /\ t <> TOKEN_EOF /\ t <> TOKEN_ERROR /\
    (ch = "/"%char -> s' = []).
Proof.
  assert (forall ch, is_ident ch = true -> ch <> NUL /\ is_blank ch = false /\ ch <> "/"%char) as Hid.
  { intros ch H. split_and!; [by intros -> | | by intros ->].
    unfold is_blank. by rewrite !bool_decide_eq_false_2 by (by intros ->). }
  intros [t' s' Hin | a s' Ha Hs | a s' Ha Hs].
  - unfold punctuators in Hin. rewrite !elem_of_cons, elem_of_nil in Hin.
    repeat (destruct Hin as [[= -> ->] | Hin]; [by do 2 eexists |]). done.
  - exists a, s'. destruct (Hid a) as (? & ? & ?).
    { unfold is_ident. apply orb_true_iff in Ha as [-> | ->]; [done | by rewrite orb_true_r]. }
    split_and!; try done; unfold word_type; destruct (list_find _ _) as [[i [k tk]] |] eqn:E; try done; cbn;
      apply list_find_Some in E as (E & _ & _); apply list_elem_of_lookup_2 in E; unfold keywords in E;
      rewrite !elem_of_cons, elem_of_nil in E; repeat (destruct E as [[= -> ->] | E]; [done |]); done.
  - exists a, s'. destruct (Hid a) as (? & ? & ?); [unfold is_ident; by rewrite Ha, orb_true_r | by split_and!].
Qed.

Lemma one_or_two_one ch two one L :
  peek 0 L <> ch -> one_or_two ch two one L = (make_token one L, L).
Proof.
  intros H. unfold one_or_two, match_. destruct (is_at_end L); [done |]. by rewrite bool_decide_eq_false_2.
Qed.

Lemma one_or_two_two ch two one L :
  ch <> NUL -> peek 0 L = ch ->
  let L' := MkLexer (source L) (start L) (S (current L)) (line_start L) (line L) (had_error L) in
  one_or_two ch two one L = (make_token two L', L').
Proof.
  intros Hn H. unfold one_or_two, match_, is_at_end. rewrite H, bool_decide_eq_false_2 by done.
  by rewrite bool_decide_eq_true_2.
Qed.

(** What follows a spelled token. *)
Definition ends (rest : chars) : Prop := rest = [] \/ exists r, rest = " "%char :: r.

Lemma ends_head rest : ends rest -> default NUL (head rest) = NUL \/ default NUL (head rest) = " "%char.
Proof. intros [-> | (r & ->)]; [by left | by right]. Qed.

Lemma scan_spelled_word L a s rest :
  wf L -> at_start 0 L = a -> current L = S (start L) -> drop (current L) (source L) = s ++ rest -> ends rest ->
  forallb is_ident s = true ->
  let '(t, L') := lex_identifier L in
  type t = word_type (a :: s) /\ current L' = (current L + length s)%nat.
Proof.
  intros Hw Ha Hc Hd He Hs. unfold lex_identifier. set (L' := advance_while _ _ _).
  assert (current L' = (current L + length s)%nat) as Hcur.
  { apply (advance_while_run _ _ _ rest); try done. by destruct (ends_head _ He) as [-> | ->]. }
  assert (after L L') as Haft by (by apply advance_while_after). split; [| done]. cbn [type make_token].
  assert (lexeme L' = a :: s) as Hlex.
  { destruct Haft as (E1 & E2 & E3). unfold lexeme, lexeme_length. rewrite E1, E2, Hcur, Hc.
    replace (S (start L) + length s - start L)%nat with (S (length s)) by lia.
    assert (drop (start L) (source L) = a :: s ++ rest) as ->.
    { rewrite <- Hd, Hc, <- Ha. unfold at_start. rewrite Nat.add_0_r.
      destruct (source L !! start L) eqn:E; [by apply drop_S |]. apply lookup_ge_None in E.
      destruct Hw as [_ ?]. lia. }
    cbn. by rewrite take_app_length. }
  rewrite <- Hlex. apply identifier_type_spec; [by eapply after_wf | by rewrite Hlex].
Qed.

Lemma is_digit_not_x ch : is_digit ch = true -> bool_decide (to_lower ch = "x"%char) = false.
Proof. intros H. apply bool_decide_eq_false_2. intros E. destruct ch as [[] [] [] [] [] [] [] []]; done. Qed.

Lemma is_digit_not_alpha ch : is_digit ch = true -> is_alpha ch || bool_decide (ch = "_"%char) = false.
Proof. destruct ch as [[] [] [] [] [] [] [] []]; done. Qed.

Lemma scan_spelled_number L s rest :
  wf L -> drop (current L) (source L) = s ++ rest -> ends rest -> forallb is_digit s = true ->
  let '(t, L') := lex_number L in type t = TOKEN_NUMBER /\ current L' = (current L + length s)%nat.
Proof.
  intros Hw Hd He Hs. unfold lex_number. pose proof (ends_head _ He) as Hh.
  assert (bool_decide (to_lower (peek 0 L) = "x"%char) = false) as ->.
  { rewrite peek_drop, Hd. destruct s as [| ch s].
    - cbn [app]. rewrite <- head_lookup. by destruct Hh as [-> | ->].
    - cbn. apply is_digit_not_x. by apply andb_true_iff in Hs as [? _]. }
  rewrite andb_false_r.
  assert (current (advance_digits L) = (current L + length s)%nat) as Hc.
  { apply (advance_while_run _ _ _ rest); try done. by destruct Hh as [-> | ->]. }
  assert (source (advance_digits L) = source L) as Hsrc by (by destruct (advance_digits_after L Hw)).
  assert (peek 0 (advance_digits L) = default NUL (head rest)) as Hp.
  { rewrite peek_drop, Hc, Hsrc, <- drop_drop, Hd, drop_app_length. by rewrite head_lookup. }
  assert (lex_fraction (advance_digits L) = advance_digits L) as ->.
  { unfold lex_fraction. rewrite Hp. by destruct Hh as [-> | ->]. }
  assert (lex_exponent (advance_digits L) = advance_digits L) as ->.
  { unfold lex_exponent. rewrite Hp. by destruct Hh as [-> | ->]. }
  done.
Qed.

Ltac chain := rewrite ?decide_False by done; rewrite ?decide_True by done.

Lemma scan_spelled L t s rest :
  wf L -> drop (current L) (source L) = " "%char :: s ++ rest -> ends rest -> spells t s ->
  let '(tk, L') := scan_token L in
  type tk = t /\ start L' = S (current L) /\ current L' = (S (current L) + length s)%nat.
Proof.
  intros Hw Hd He Hsp. destruct (spells_shape _ _ Hsp) as (ch & s' & -> & Hnul & Hbl & Hneof & Hnerr & Hsl).
  assert (set_start (skip_whitespace L) = moved L (S (current L))) as Hskip.
  { apply (skip_one L ch (s' ++ rest)); [done.. |].
    intros [E1 E2]. rewrite (Hsl E1) in E2. destruct He as [-> | (r & ->)]; done. }
  unfold scan_token. rewrite Hskip. clear Hskip Hneof Hnerr Hsl.
  assert (drop (S (current L)) (source L) = ch :: s' ++ rest) as Hd0.
  { rewrite <- Nat.add_1_r, <- drop_drop, Hd. done. }
  assert (drop (S (S (current L))) (source L) = s' ++ rest) as Hd1.
  { rewrite <- Nat.add_1_r, <- drop_drop, Hd0. done. }
  assert (peek 0 (moved L (S (current L))) = ch) as Hp by (rewrite peek_drop; cbn [moved source current]; by rewrite Hd0).
  unfold is_at_end, advance. rewrite Hp, bool_decide_eq_false_2 by done.
  rewrite decide_False by (intros ->; done). cbn [moved source start current line_start line had_error].
  set (L1 := MkLexer _ _ _ _ _ _) in *.
  assert (wf L1) as Hw1.
  { split; [apply Hw |]. cbn. assert (length (drop (S (current L)) (source L)) = S (length (s' ++ rest))) as E by (by rewrite Hd0).
    rewrite length_drop in E. lia. }
  assert (peek 0 L1 = default NUL ((s' ++ rest) !! 0%nat)) as Hp1 by (rewrite peek_drop; cbn [L1 source current]; by rewrite Hd1).
  assert (start L1 = S (current L) /\ current L1 = S (S (current L))) as [Hs1 Hc1] by done.
  assert (at_start 0 L1 = ch) as Hat.
  { unfold at_start. cbn [L1 source start]. rewrite Nat.add_0_r. rewrite <- (Nat.add_0_r (S _)), <- lookup_drop, Hd0. done. }
  change (drop (current L1) (source L1) = s' ++ rest) in Hd1. clearbody L1. clear Hp Hd0 Hd Hw.
  inversion Hsp as [t' s0 Hin | a s0 Ha Hs | a s0 Ha Hs]; subst.
  - pose proof (ends_head _ He) as Hh. unfold punctuators in Hin. rewrite !elem_of_cons, elem_of_nil in Hin.
    repeat (destruct Hin as [[= -> -> ->] | Hin]; [clear Hsp; cbn [app] in Hp1; 
      change (is_alpha _ || _) with false; change (is_digit _) with false; cbv iota; chain;
      first [ split_and!; cbn; lia || done
            | rewrite one_or_two_one by (rewrite Hp1, <- head_lookup; by destruct Hh as [-> | ->]); split_and!; cbn; lia || done
            | rewrite one_or_two_two by (by try rewrite Hp1); split_and!; cbn; lia || done ]  |]).
    done.
  - rewrite Ha. pose proof (scan_spelled_word L1 (at_start 0 L1) s' rest) as H.
    pose proof (lex_identifier_read L1 Hw1) as Hr. destruct (lex_identifier L1) as [tk L2].
    destruct H as [-> ->]; try done; [lia |]. destruct Hr as ((_ & E & _) & _). cbn in E |- *. split_and!; [done | lia | lia].
  - assert (is_alpha (at_start 0 L1) || bool_decide (at_start 0 L1 = "_"%char) = false) as ->.
    { by apply is_digit_not_alpha. }
    rewrite Ha. pose proof (scan_spelled_number L1 s' rest) as H.
    pose proof (lex_number_read L1 Hw1) as Hr. destruct (lex_number L1) as [tk L2].
    destruct H as [-> ->]; try done. destruct Hr as ((_ & E & _) & _). cbn in E |- *. split_and!; [done | lia | lia].
Qed.

Lemma ends_spaced l : ends (spaced l).
Proof. destruct l as [| [t s] l]; [by left | right]. by eexists. Qed.

Lemma scan_end L :
  wf L -> current L = length (source L) -> type (fst (scan_token L)) = TOKEN_EOF.
Proof.
  intros Hw Hc. unfold scan_token. destruct (skip_whitespace_after L Hw) as [(E1 & _ & Hle) _].
  assert (is_at_end (set_start (skip_whitespace L)) = true) as ->; [| done].
  apply bool_decide_eq_true, peek_end. cbn [set_start source current]. rewrite E1. lia.
Qed.

Lemma scan_all_spaced l L fuel :
  wf L -> drop (current L) (source L) = spaced l -> Forall (fun ts => spells ts.1 ts.2) l -> (length l < fuel)%nat ->
  exists ts, scan_all fuel L = Some ts /\
    (fun t => (type t, token_text (source L) t)) <$> ts = l ++ [(TOKEN_EOF, [])].
Proof.
  intros Hw Hd Hl. revert L fuel Hw Hd. induction Hl as [| [t s] l Hsp Hl IH]; intros L fuel Hw Hd Hf;
    (destruct fuel as [| f]; [cbn in Hf; lia |]); cbn [scan_all].
  - pose proof (scan_token_spec L Hw) as Hs. assert (type (fst (scan_token L)) = TOKEN_EOF) as He.
    { apply scan_end; [done |]. apply (f_equal length) in Hd. rewrite length_drop in Hd. destruct Hw as [_ ?]. cbn in Hd. lia. }
    destruct (scan_token L) as [tk L']. cbn [fst] in He. rewrite decide_True by done. exists [tk]. split; [done |]. cbn.
    destruct Hs as (Hw' & Es & Hst & Hcur & _ & Hmk). specialize (Hcur He). rewrite He in Hmk. rewrite (Hmk ltac:(done)).
    assert (current L = length (source L)) by (apply (f_equal length) in Hd; rewrite length_drop in Hd; destruct Hw as [_ ?]; cbn in Hd; lia).
    rewrite <- Es, make_token_text by done. cbn. do 2 f_equal.
    replace (current L' - start L')%nat with 0%nat by (destruct Hw as [_ ?], Hw' as [_ Hb]; rewrite Es in Hb; lia). done.
  - cbn [spaced mbind list_bind snd app fst] in Hd, Hsp.
    pose proof (scan_token_spec L Hw) as Hs.
    pose proof (scan_spelled L t s (spaced l) Hw Hd (ends_spaced l) Hsp) as Hscan.
    destruct (spells_shape _ _ Hsp) as (_ & _ & _ & _ & _ & Hneof & Hnerr & _).
    destruct (scan_token L) as [tk L']. destruct Hscan as (Ht & Hst & Hc). destruct Hs as (Hw' & Es & _ & _ & _ & Hmk).
    rewrite decide_False by congruence.
    destruct (IH L' f) as (ts & E & Hts); [done | | cbn in Hf; lia |].
    { rewrite Hc, Es, <- drop_drop, <- Nat.add_1_r, <- drop_drop, Hd.
      cbn [drop]. apply drop_app_length. }
    rewrite E. exists (tk :: ts). split; [done |]. cbn. rewrite Es in Hts. rewrite Hts, Ht. f_equal. f_equal.
    rewrite (Hmk ltac:(congruence)), <- Es, make_token_text by done.
    rewrite Es, Hst, Hc. replace (S (current L) + length s - S (current L))%nat with (length s) by lia.
    rewrite <- Nat.add_1_r, <- drop_drop, Hd. cbn [drop]. apply take_app_length.
Qed.

Lemma is_ident_run_no_nul (p : ascii -> bool) s : p NUL = false -> forallb p s = true -> NUL ∉ s.
Proof.
  intros Hp Hs Hin. rewrite forallb_forall in Hs. apply list_elem_of_In, Hs in Hin. congruence.
Qed.

Lemma spells_c_string t s : spells t s -> NUL ∉ s.
Proof.
  intros [t' s' Hin | a s' Ha Hs | a s' Ha Hs].
  - unfold punctuators in Hin. rewrite !elem_of_cons, elem_of_nil in Hin.
    repeat (destruct Hin as [[= -> ->] | Hin]; [by apply (bool_decide_unpack _) |]). done.
  - rewrite not_elem_of_cons. split; [by intros <- | eapply is_ident_run_no_nul; [| exact Hs]; done].
  - rewrite not_elem_of_cons. split; [by intros <- | eapply is_ident_run_no_nul; [| exact Hs]; done].
Qed.

Lemma spaced_no_nul l : Forall (fun ts => spells ts.1 ts.2) l -> NUL ∉ spaced l.
Proof.
  induction 1 as [| [t s] l Hsp _ IH]; [apply not_elem_of_nil |].
  cbn [spaced mbind list_bind snd app]. rewrite not_elem_of_cons, not_elem_of_app.
  split_and!; [done | by eapply spells_c_string | done].
Qed.

Lemma init_wf src : c_string src -> wf (init_lexer src).
Proof. intros H. split; [done | cbn; lia]. Qed.

Lemma length_spaced l : (length l <= length (spaced l))%nat.
Proof. induction l as [| [t s] l IH]; [done |]. cbn [spaced mbind list_bind]. rewrite length_app. cbn in *. unfold spaced in IH. lia. Qed.


Definition small_source : chars := str "let x = 0x1f; // hex
x # 'y".


(** C18. Reading back the spelling of a token sequence (punctuators,
    words, which include the keywords, and decimal integers, each after a
    space) yields that sequence: the same types and texts in the same order,
    then the end of the source.  A word is a keyword exactly when it is in
    the table [keywords]. *)
Theorem lexer_reads_spelled_tokens l :
  Forall (fun ts => spells ts.1 ts.2) l -> Z.of_nat (length (spaced l)) < 2 ^ 31 ->
  exists ts, tokens (spaced l) = Some ts /\
    (fun t => (type t, token_text (spaced l) t)) <$> ts = l ++ [(TOKEN_EOF, [])].
Proof.
  intros H Hlen. apply (scan_all_spaced l (init_lexer (spaced l))); [| done | done |].
  { apply init_wf. split; [by apply spaced_no_nul | done]. }
  pose proof (length_spaced l). lia.
Qed.

Definition some_tokens : list (TokenType * chars) :=
  [(TOKEN_LET, str "let"); (TOKEN_IDENTIFIER, str "lets"); (TOKEN_EQUAL, str "="); (TOKEN_NUMBER, str "42");
   (TOKEN_LESS_EQUAL, str "<="); (TOKEN_NIL, str "nil"); (TOKEN_SLASH, str "/"); (TOKEN_SEMICOLON, str ";")].

Lemma lexer_reads_spelled_tokens_witness :
  spaced some_tokens = str " let lets = 42 <= nil / ;" /\
  exists ts, tokens (spaced some_tokens) = Some ts /\
    (fun t => (type t, token_text (spaced some_tokens) t)) <$> ts = some_tokens ++ [(TOKEN_EOF, [])].
Proof.
  split; [reflexivity |]. apply (lexer_reads_spelled_tokens some_tokens); [| vm_compute; reflexivity].
  repeat (apply Forall_cons; split); [..| apply Forall_nil; exact I].
  all: first [by apply spells_punct, (bool_decide_unpack _) | by apply (spells_word "l" (str "et"))
             | by apply (spells_word "l" (str "ets")) | by apply (spells_word "n" (str "il"))
             | by apply (spells_number "4" (str "2"))].
Defined.

(** A line break between two tokens is counted twice: once by
    skip_whitespace and once by advance. *)
Lemma newline_counted_twice :
  option_map (map tok_line) (tokens (str "x
y")) = Some [1; 3; 3].
Proof. vm_compute. reflexivity. Qed.

(** A line break inside a string is counted once. *)
Lemma newline_in_string_counted_once :
  option_map (map tok_line) (tokens (quote :: newline :: quote :: str " y")) = Some [2; 2; 2].
Proof. vm_compute. reflexivity. Qed.

(** A single colon yields an error token whose text is the source from the
    colon on, not a message. *)
Lemma lone_colon_token :
  option_map (map (fun t => (type t, start_ptr t))) (tokens (str "a : b"))
  = Some [(TOKEN_IDENTIFIER, InSource 0); (TOKEN_ERROR, InSource 2); (TOKEN_IDENTIFIER, InSource 4); (TOKEN_EOF, InSource 5)].
Proof. vm_compute. reflexivity. Qed.
