(* ===== verification/Parser.v ===== *)
(** * The FeX compiler (src/fex.c: from the parser state to fex_do_string)

    A Pratt parser that builds the Fe program directly in the object heap.
    The state is the context, the stack of compile scopes, the scratch
    blocks, whether a try scope is active, the compile error it was given
    and what was written to stderr.  Compile scopes are thread-local in the
    code; here one context compiles.  [realloc_ok] is the C library's
    answer to a request for that many bytes. *)

From Stdlib Require Import ZArith Lia Ascii String SpecFloat.
From stdpp Require Import base list.
From S2P Require Import Prelude Number Strtod Memory Budget MapTable Slab Span Ctx Gc Objects Writer Eval Lexer.

(** ** State *)

(** The tokens are uninitialised until the first two advances. *)
Record FexCompileState := MkScope {
  lexer : Lexer;
  src_name : chars;
  p_current : option Token;
  p_previous : option Token;
  p_had_error : bool;
  panic_mode : bool;
  scope_block : block
}.

Definition with_lexer (v : Lexer) (s : FexCompileState) : FexCompileState :=
  MkScope v (src_name s) (p_current s) (p_previous s) (p_had_error s) (panic_mode s) (scope_block s).
Definition with_tokens (cur prev : option Token) (s : FexCompileState) : FexCompileState :=
  MkScope (lexer s) (src_name s) cur prev (p_had_error s) (panic_mode s) (scope_block s).
Definition with_flags (e p : bool) (s : FexCompileState) : FexCompileState :=
  MkScope (lexer s) (src_name s) (p_current s) (p_previous s) e p (scope_block s).

(** A compile error as fill_basic_error stores it; the buffers of the struct
    hold 259 and 255 characters. *)
Record CompileError := MkError { err_name : chars; err_line : Z; err_column : Z; err_message : chars }.

Record Fex := MkFex {
  ctx : fe_Context;
  compile_state : list FexCompileState;     (* g_compile_state and the scopes below it *)
  temp_allocs : list block;
  try_active : bool;
  try_error : option CompileError;
  stderr : chars
}.

Definition with_ctx (c : fe_Context) (s : Fex) : Fex :=
  MkFex c (compile_state s) (temp_allocs s) (try_active s) (try_error s) (stderr s).
Definition with_compile_state (l : list FexCompileState) (s : Fex) : Fex :=
  MkFex (ctx s) l (temp_allocs s) (try_active s) (try_error s) (stderr s).
Definition with_temps (l : list block) (s : Fex) : Fex :=
  MkFex (ctx s) (compile_state s) l (try_active s) (try_error s) (stderr s).
Definition with_try_error (e : CompileError) (s : Fex) : Fex :=
  MkFex (ctx s) (compile_state s) (temp_allocs s) (try_active s) (Some e) (stderr s).
Definition with_stderr (x : chars) (s : Fex) : Fex :=
  MkFex (ctx s) (compile_state s) (temp_allocs s) (try_active s) (try_error s) x.

(** ** Scratch memory and cleanup *)

(** A computation of the context that raises no error. *)
Definition quiet {A} (m : comp fe_Context A) : comp Fex A := fun s =>
  match m (ctx s) with
  | Done a c => Done a (with_ctx c s)
  | Raised e c => Raised e (with_ctx c s)
  | Stuck => Stuck
  | NoFuel => NoFuel
  end.

Definition tracked_free_fex (b : block) : comp Fex unit := quiet (lift_memory (tracked_free (Some b))).

Definition leave_compile_scope : comp Fex unit :=
  let* s := get in
  match compile_state s with
  | [] => ret tt
  | sc :: l => put (with_compile_state l s) ;;; tracked_free_fex (scope_block sc)
  end.

Fixpoint leave_all (l : list FexCompileState) : comp Fex unit :=
  match l with [] => ret tt | _ :: l => leave_compile_scope ;;; leave_all l end.
Definition fex_compile_cleanup_ctx : comp Fex unit :=
  let* s := get in leave_all (compile_state s).

Fixpoint free_temps (l : list block) : comp Fex unit :=
  match l with [] => ret tt | b :: l => tracked_free_fex b ;;; free_temps l end.
Definition fex_temp_cleanup_all : comp Fex unit :=
  let* s := get in
  free_temps (temp_allocs s) ;;;
  modify (with_temps []).

(** A call of the interpreter: an error it raises has gone through fe_error,
    which also releases the compile scopes and the scratch blocks. *)
Definition fe {A} (m : comp fe_Context A) : comp Fex A := fun s =>
  match quiet m s with
  | Raised e s =>
      match (fex_compile_cleanup_ctx ;;; fex_temp_cleanup_all) s with
      | Done _ s => Raised e s
      | Raised _ _ | Stuck => Stuck
      | NoFuel => NoFuel
      end
  | r => r
  end.

(** sizeof(FexTempAlloc) and sizeof(FexCompileState) on a 64-bit target. *)
Definition SIZEOF_FexTempAlloc : Z := 24.
Definition SIZEOF_FexCompileState : Z := 152.

Definition fex_temp_alloc (size : Z) : comp Fex block :=
  let* b := fe (lift_memory
    (let* b := tracked_alloc (SIZEOF_FexTempAlloc + (if 0 <? size then size else 1)) in
     match b with None => memory_error "out of memory" | Some b => ret b end)) in
  modify (fun s => with_temps (b :: temp_allocs s) s) ;;;
  ret b.

Definition fex_temp_free (b : block) : comp Fex unit :=
  modify (fun s => with_temps (filter (fun x => x <> b) (temp_allocs s)) s) ;;;
  fe (lift_memory (tracked_free (Some b))).

(** ** Compile scopes *)

Definition enter_compile_scope (src : chars) (name : option chars) : comp Fex unit :=
  let* b := fe (lift_memory
    (let* b := tracked_alloc SIZEOF_FexCompileState in
     match b with None => memory_error "out of memory (compiler state)" | Some b => ret b end)) in
  modify (fun s => with_compile_state
    (MkScope (init_lexer src) (default (str "<string>") name) None None false false b :: compile_state s) s).

(** [L] and [P]: the innermost scope; there must be one. *)
Definition scope : comp Fex FexCompileState :=
  let* s := get in
  match compile_state s with sc :: _ => ret sc | [] => stuck end.
Definition set_scope (sc : FexCompileState) : comp Fex unit :=
  let* s := get in
  match compile_state s with _ :: l => put (with_compile_state (sc :: l) s) | [] => stuck end.

Definition known {A} (o : option A) : comp Fex A :=
  match o with Some a => ret a | None => stuck end.
Definition P_current : comp Fex Token := let* sc := scope in known (p_current sc).
Definition P_previous : comp Fex Token := let* sc := scope in known (p_previous sc).
Definition token_chars (t : Token) : comp Fex chars :=
  let* sc := scope in ret (token_text (Lexer.source (lexer sc)) t).

(** ** Errors *)

(** The C string a token starts with: a message, or the rest of the source. *)
Definition token_start (t : Token) : comp Fex chars :=
  let* sc := scope in
  ret (match start_ptr t with InSource p => drop p (Lexer.source (lexer sc)) | Message m => str m end).

Definition fprintf (x : chars) : comp Fex unit := modify (fun s => with_stderr (stderr s ++ x) s).

Definition error_at (t : Token) (message : chars) : comp Fex unit :=
  let* s := get in
  let* sc := scope in
  if try_active s then
    let* col := known (column t) in
    modify (with_try_error
      (MkError (take 259 (src_name sc)) (tok_line t) col (take 255 message))) ;;;
    (fun s => Raised (string_of_list_ascii message) s)
  else if panic_mode sc then ret tt
  else
    set_scope (with_flags (p_had_error sc) true sc) ;;;
    fprintf (str "[line " ++ dec (tok_line t) ++ str "] Error") ;;;
    (if decide (type t = TOKEN_EOF) then fprintf (str " at end")
     else if decide (type t = TOKEN_ERROR) then ret tt
     else
       let* x := token_chars t in
       fprintf (str " at '" ++ x ++ str "'")) ;;;
    fprintf (str ": " ++ message ++ [ascii_of_nat 10]) ;;;
    let* sc := scope in
    set_scope (with_flags true (panic_mode sc) sc).

Definition error_at_current (message : chars) : comp Fex unit :=
  let* t := P_current in error_at t message.
Definition error (message : string) : comp Fex unit :=
  let* t := P_previous in error_at t (str message).

(** [spent] is what the model does where a loop or the recursion of the
    parser has used up its bound; no result depends on it (ParserSpec).
    [oob] is the conversion of a double outside the range of its target. *)
Section Compile.
Context (spent : forall A, comp Fex A) (oob : double -> Z) (realloc_ok : Z -> bool).

(** ** Tokens *)

Fixpoint advance_loop (fuel : nat) : comp Fex unit :=
  match fuel with
  | O => spent _
  | S f =>
      let* sc := scope in
      let '(t, lx) := scan_token (lexer sc) in
      set_scope (with_tokens (Some t) (p_previous sc) (with_lexer lx sc)) ;;;
      if decide (type t = TOKEN_ERROR) then
        let* m := token_start t in
        error_at_current m ;;;
        advance_loop f
      else ret tt
  end.

Definition parser_advance : comp Fex unit :=
  let* sc := scope in
  set_scope (with_tokens (p_current sc) (p_current sc) sc) ;;;
  advance_loop (fuel_of (lexer sc)).

Definition check (t : TokenType) : comp Fex bool :=
  let* c := P_current in ret (bool_decide (type c = t)).

Definition consume (t : TokenType) (message : string) : comp Fex unit :=
  let* b := check t in
  if b then parser_advance else error_at_current (str message).

Definition parser_match (t : TokenType) : comp Fex bool :=
  let* b := check t in
  if b then parser_advance ;;; ret true else ret false.

(** ** Building nodes *)

(** The span of a cell; [excerpt] is the text it covers, if it is recorded. *)
Definition record_span (o : obj) (sl sc el ec : Z) (excerpt : option chars) (name : chars) : comp Fex unit :=
  fe (let* c := get in
      lift_spans (fex_record_span (obj_addr c o) (Some name) sl sc el ec excerpt)).

Definition fex_cons_tok (a d : obj) (start end_ : Token) : comp Fex obj :=
  let* cell := fe (fe_cons a d) in
  let* sc := scope in
  let* c1 := known (column start) in
  let* c2 := known (column end_) in
  record_span cell (tok_line start) c1 (tok_line end_) c2 None (src_name sc) ;;;
  ret cell.

Definition CONS1 (a d : obj) : comp Fex obj :=
  let* t := P_previous in fex_cons_tok a d t t.

Definition symbol_from_token (t : Token) : comp Fex obj :=
  if 256 <=? u64 (length_ t) then error "Identifier too long." ;;; ret Nil
  else let* name := token_chars t in fe (fe_symbol name).

(** [fe_savegc] ... [fe_restoregc] around a construction. *)
Definition guarded (m : comp Fex obj) : comp Fex obj :=
  let* guard := fe fe_savegc in
  let* res := m in
  fe (fe_restoregc guard) ;;;
  ret res.

Definition make_unary (op : string) (right : obj) : comp Fex obj :=
  guarded
    (fe (fe_pushgc right) ;;;
     let* op_s := fe (fe_symbol (str op)) in
     fe (fe_pushgc op_s) ;;;
     let* l := fe (fe_cons right Nil) in
     CONS1 op_s l).

Definition make_binary (op : string) (left right : obj) : comp Fex obj :=
  guarded
    (fe (fe_pushgc left) ;;; fe (fe_pushgc right) ;;;
     let* op_s := fe (fe_symbol (str op)) in
     fe (fe_pushgc op_s) ;;;
     let* tmp := fe (fe_cons right Nil) in
     let* tmp := fe (fe_cons left tmp) in
     CONS1 op_s tmp).

Definition make_ternary (op : string) (a b cobj : obj) : comp Fex obj :=
  guarded
    (fe (fe_pushgc a) ;;; fe (fe_pushgc b) ;;; fe (fe_pushgc cobj) ;;;
     let* op_s := fe (fe_symbol (str op)) in
     fe (fe_pushgc op_s) ;;;
     let* tmp := fe (fe_cons cobj Nil) in
     let* tmp := fe (fe_cons b tmp) in
     let* tmp := fe (fe_cons a tmp) in
     CONS1 op_s tmp).

Definition FEX_FN_DECL_TAG : string := "[fex-fn-decl]".
Definition FEX_EXPORT_FN_DECL_TAG : string := "[fex-export-fn-decl]".

Definition lookup_span (o : obj) : comp Fex (option FexSpan) :=
  gets (fun s => let c := ctx s in
    fex_lookup_span (obj_addr c o) (MkSpans (rt_mem (rt c)) (spans c))).

Definition copy_span_from (dst src : obj) : comp Fex unit :=
  let* sp := lookup_span src in
  match sp with
  | None => ret tt
  | Some sp =>
      record_span dst (start_line sp) (start_col sp) (end_line sp) (end_col sp)
        (fst <$> Span.source sp) (source_name sp)
  end.

Definition make_named_fn_decl (name fn_expr : obj) (is_export : bool) : comp Fex obj :=
  guarded
    (fe (fe_pushgc name) ;;; fe (fe_pushgc fn_expr) ;;;
     let* tag := fe (fe_symbol (str (if is_export then FEX_EXPORT_FN_DECL_TAG else FEX_FN_DECL_TAG))) in
     fe (fe_pushgc tag) ;;;
     let* tmp := fe (fe_cons fn_expr Nil) in
     let* tmp := fe (fe_cons name tmp) in
     CONS1 tag tmp).

(** The name, the function and whether it is exported. *)
Definition extract_named_fn_decl (stmt : obj) : comp Fex (option (obj * obj * bool)) :=
  let* t := fe (type_of stmt) in
  if decide (t <> FE_TPAIR) then ret None
  else
    let* tag := fe (fe_car stmt) in
    let* fn_tag := fe (fe_symbol (str FEX_FN_DECL_TAG)) in
    let* is_export :=
      (if decide (tag = fn_tag) then ret (Some false)
       else
         let* export_tag := fe (fe_symbol (str FEX_EXPORT_FN_DECL_TAG)) in
         ret (if decide (tag = export_tag) then Some true else None)) in
    match is_export with
    | None => ret None
    | Some is_export =>
        let* args := fe (fe_cdr stmt) in
        let* t := fe (type_of args) in
        if decide (t <> FE_TPAIR) then ret None
        else
          let* name := fe (fe_car args) in
          let* args := fe (fe_cdr args) in
          let* t := fe (type_of args) in
          if decide (t <> FE_TPAIR) then ret None
          else
            let* fn_expr := fe (fe_car args) in
            let* t := fe (type_of name) in
            ret (if decide (t = FE_TSYMBOL) then Some (name, fn_expr, is_export) else None)
    end.

Definition make_do_two_with_span (first second template_node : obj) : comp Fex obj :=
  guarded
    (fe (fe_pushgc first) ;;; fe (fe_pushgc second) ;;;
     let* op_s := fe (fe_symbol (str "do")) in
     fe (fe_pushgc op_s) ;;;
     let* tmp := fe (fe_cons second Nil) in
     let* tmp := fe (fe_cons first tmp) in
     let* res := CONS1 op_s tmp in
     copy_span_from res template_node ;;;
     ret res).

Definition make_do_three_with_span (first second third template_node : obj) : comp Fex obj :=
  guarded
    (fe (fe_pushgc first) ;;; fe (fe_pushgc second) ;;; fe (fe_pushgc third) ;;;
     let* op_s := fe (fe_symbol (str "do")) in
     fe (fe_pushgc op_s) ;;;
     let* tmp := fe (fe_cons third Nil) in
     let* tmp := fe (fe_cons second tmp) in
     let* tmp := fe (fe_cons first tmp) in
     let* res := CONS1 op_s tmp in
     copy_span_from res template_node ;;;
     ret res).

(** ** Hoisting named functions *)

(** [fe_cdr_ptr] followed by a store. *)
Definition store_cdr (tail cell : obj) : comp Fex unit :=
  fe (let* p := fe_cdr_ptr tail in setcdr p (VObj cell)).

(** [for (p = stmts; !fe_isnil(p); p = fe_cdr(p))] *)
Fixpoint for_each {A} (fuel : nat) (body : A -> obj -> comp Fex A) (acc : A) (p : obj) : comp Fex A :=
  if isnil p then ret acc
  else match fuel with
       | O => no_fuel
       | S f =>
           let* stmt := fe (fe_car p) in
           let* acc := body acc stmt in
           let* p := fe (fe_cdr p) in
           for_each f body acc p
       end.

Definition count_decl (hoisted : nat) (stmt : obj) : comp Fex nat :=
  let* d := extract_named_fn_decl stmt in
  ret (match d with Some _ => S hoisted | None => hoisted end).

Definition predeclare (guard : nat) (tail stmt : obj) : comp Fex obj :=
  let* d := extract_named_fn_decl stmt in
  match d with
  | None => ret tail
  | Some (name, _, _) =>
      let* placeholder := make_binary "let" name Nil in
      copy_span_from placeholder stmt ;;;
      fe (fe_pushgc placeholder) ;;;
      let* cell := fe (fe_cons placeholder Nil) in
      store_cdr tail cell ;;;
      fe (fe_restoregc (guard + 1)) ;;;
      ret cell
  end.

Definition rewrite_decl (guard : nat) (tail stmt : obj) : comp Fex obj :=
  let* d := extract_named_fn_decl stmt in
  let* rewritten :=
    match d with
    | None => ret stmt
    | Some (name, fn_expr, is_export) =>
        let* assign_expr := make_binary "=" name fn_expr in
        copy_span_from assign_expr stmt ;;;
        if is_export : bool then
          guarded
            (fe (fe_pushgc assign_expr) ;;;
             let* export_expr := make_unary "export" name in
             copy_span_from export_expr stmt ;;;
             make_do_three_with_span assign_expr export_expr name stmt)
        else make_do_two_with_span assign_expr name stmt
    end in
  fe (fe_pushgc rewritten) ;;;
  let* cell := fe (fe_cons rewritten Nil) in
  store_cdr tail cell ;;;
  fe (fe_restoregc (guard + 1)) ;;;
  ret cell.

Definition heap_fuel : comp Fex nat := gets (fun s => list_fuel (ctx s)).

Definition rewrite_named_fn_declarations (stmts : obj) (count : nat) : comp Fex (obj * nat) :=
  let* fuel := heap_fuel in
  let* hoisted := for_each fuel count_decl 0%nat stmts in
  if decide (hoisted = 0%nat) then ret (stmts, count)
  else
    let* guard := fe fe_savegc in
    let* dummy := fe (fe_cons Nil Nil) in
    fe (fe_pushgc dummy) ;;;
    let* tail := for_each fuel (predeclare guard) dummy stmts in
    let* _ := for_each fuel (rewrite_decl guard) tail stmts in
    let* stmts := fe (fe_cdr dummy) in
    fe (fe_restoregc guard) ;;;
    ret (stmts, (count + hoisted)%nat).

(** ** Literals *)

(** [strtoull(buf, &end, 16)] on a buffer that starts with "0x": the value,
    saturated, and what is left. *)
Definition strtoull_hex (s : chars) : Z * chars :=
  let '(v, _, rest) := digits 16 0 0 (drop 2 s) in (Z.min v (2 ^ 64 - 1), rest).

Definition is_hex_literal (s : chars) : bool :=
  bool_decide (2 < length s)%nat && bool_decide (s !! 0%nat = Some "0"%char) &&
  bool_decide (to_lower <$> (s !! 1%nat) = Some "x"%char).

(** A scratch buffer of a literal of 64 characters or more is kept until the
    next error or the end of the try scope. *)
Definition parse_number : comp Fex obj :=
  let* t := P_previous in
  when (64 <=? u64 (length_ t)) (fex_temp_alloc (u64 (length_ t) + 1) ;;; ret tt) ;;;
  let* buf := token_chars t in
  if is_hex_literal buf && bool_decide (snd (strtoull_hex buf) = [])
  then fe (make_number oob (double_of_Z (fst (strtoull_hex buf))))
  else fe (make_number oob (fst (strtod buf))).

(** The text and the capacity of the buffer, or nothing when it cannot grow. *)
Definition append_import_segment (buffer : chars * Z) (seg : chars) : option (chars * Z) :=
  let '(text, capacity) := buffer in
  let needed := Z.of_nat (length text) + Z.of_nat (length seg) + 1 in
  if capacity <? needed then
    let new_capacity := doubled 64 (if capacity =? 0 then 32 else capacity) needed in
    if realloc_ok new_capacity then Some (text ++ seg, new_capacity) else None
  else Some (text ++ seg, capacity).

Definition out_of_memory_in_import : comp Fex obj :=
  error "Out of memory while parsing import." ;;; ret Nil.

(** The escapes of a string literal of [n] characters; the flag tells whether
    a NUL was written. *)
Fixpoint unescape (n : nat) (src : chars) (contains_nul : bool) : chars * bool :=
  match n, src with
  | S n', c :: rest =>
      if decide (c = backslash) then
        match n', rest with
        | S n, e :: rest =>
            if decide (e = "n"%char) then let '(o, z) := unescape n rest contains_nul in (ascii_of_nat 10 :: o, z)
            else if decide (e = "t"%char) then let '(o, z) := unescape n rest contains_nul in (ascii_of_nat 9 :: o, z)
            else if decide (e = "r"%char) then let '(o, z) := unescape n rest contains_nul in (ascii_of_nat 13 :: o, z)
            else if decide (e = backslash) then let '(o, z) := unescape n rest contains_nul in (backslash :: o, z)
            else if decide (e = quote) then let '(o, z) := unescape n rest contains_nul in (quote :: o, z)
            else if decide (e = "0"%char) then let '(o, z) := unescape n rest true in (NUL :: o, z)
            else let '(o, z) := unescape n rest contains_nul in (backslash :: e :: o, z)
        | _, _ => ([c], contains_nul)
        end
      else let '(o, z) := unescape n' rest contains_nul in (c :: o, z)
  | _, _ => ([], contains_nul)
  end.

Definition parse_string_literal (as_symbol : bool) : comp Fex obj :=
  let* t := P_previous in
  let* text := token_chars t in
  let raw_len := Z.max 0 (length_ t - 2) in
  let* heap_buf :=
    (if 1024 <=? raw_len then let* b := fex_temp_alloc (raw_len + 1) in ret (Some b) else ret None) in
  let free_buf := match heap_buf with Some b => fex_temp_free b | None => ret tt end in
  let '(buf, contains_nul) := unescape (Z.to_nat raw_len) (drop 1 text) false in
  if as_symbol && contains_nul then
    free_buf ;;;
    error "Module name strings cannot contain NUL bytes." ;;;
    ret Nil
  else
    let* result := fe (if as_symbol then fe_symbol buf else fe_string buf) in
    let* sc := scope in
    let* t := P_previous in
    let* col := known (column t) in
    record_span result (tok_line t) col (tok_line t) (i32 (col + length_ t - 1)) (Some text) (src_name sc) ;;;
    free_buf ;;;
    ret result.

Definition parse_string : comp Fex obj := parse_string_literal false.

Fixpoint import_segments (fuel : nat) (buffer : chars * Z) : comp Fex obj :=
  match fuel with
  | O => spent _
  | S f =>
      let* b := parser_match TOKEN_DOT in
      if b then
        match append_import_segment buffer (str ".") with
        | None => out_of_memory_in_import
        | Some buffer =>
            consume TOKEN_IDENTIFIER "Expect package name after '.' in import." ;;;
            let* t := P_previous in
            let* text := token_chars t in
            match append_import_segment buffer text with
            | None => out_of_memory_in_import
            | Some buffer => import_segments f buffer
            end
        end
      else fe (fe_string (fst buffer))
  end.

Definition source_fuel : comp Fex nat := let* sc := scope in ret (S (fuel_of (lexer sc))).

Definition parse_import_specifier : comp Fex obj :=
  let* b := parser_match TOKEN_STRING in
  if b then parse_string
  else
    consume TOKEN_IDENTIFIER "Expect module name to import." ;;;
    let* dot := check TOKEN_DOT in
    let* t := P_previous in
    let* text := token_chars t in
    if negb dot then fe (fe_string text)
    else
      match append_import_segment ([], 0) text with
      | None => out_of_memory_in_import
      | Some buffer =>
          let* fuel := source_fuel in
          import_segments fuel buffer
      end.

Definition parse_literal : comp Fex obj :=
  let* t := P_previous in
  ret (match type t with TOKEN_FALSE => Boolean false | TOKEN_TRUE => Boolean true | _ => Nil end).

Definition parse_variable : comp Fex obj :=
  let* t := P_previous in symbol_from_token t.

Definition selector_setter_name (property : obj) : comp Fex (option string) :=
  let eq n := fe (fe_symbol_name_eq property (str n)) in
  let* head := eq "head"%string in
  let* first := (if head then ret true else eq "first"%string) in
  if first : bool then ret (Some "setcar"%string)
  else
    let* tail := eq "tail"%string in
    let* rest := (if tail then ret true else eq "rest"%string) in
    ret (if rest : bool then Some "setcdr"%string else None).

(** ** The rules of the Pratt parser *)

Definition PREC_NONE : Z := 0.
Definition PREC_ASSIGNMENT : Z := 1.
Definition PREC_OR : Z := 2.
Definition PREC_AND : Z := 3.
Definition PREC_EQUALITY : Z := 4.
Definition PREC_COMPARISON : Z := 5.
Definition PREC_TERM : Z := 6.
Definition PREC_FACTOR : Z := 7.
Definition PREC_UNARY : Z := 8.
Definition PREC_CALL : Z := 9.

Inductive ParseFn :=
| F_grouping | F_list | F_unary | F_variable | F_string | F_number | F_literal | F_fn.

Record ParseRule := MkRule { prefix : option ParseFn; infix : bool; precedence : Z }.

Definition rules (t : TokenType) : ParseRule :=
  match t with
  | TOKEN_LPAREN => MkRule (Some F_grouping) true PREC_CALL
  | TOKEN_LBRACKET => MkRule (Some F_list) false PREC_NONE
  | TOKEN_DOT => MkRule None true PREC_CALL
  | TOKEN_MINUS => MkRule (Some F_unary) true PREC_TERM
  | TOKEN_PLUS => MkRule None true PREC_TERM
  | TOKEN_SLASH | TOKEN_STAR => MkRule None true PREC_FACTOR
  | TOKEN_BANG => MkRule (Some F_unary) false PREC_UNARY
  | TOKEN_BANG_EQUAL | TOKEN_EQUAL_EQUAL => MkRule None true PREC_EQUALITY
  | TOKEN_EQUAL => MkRule None true PREC_ASSIGNMENT
  | TOKEN_GREATER | TOKEN_GREATER_EQUAL | TOKEN_LESS | TOKEN_LESS_EQUAL =>
      MkRule None true PREC_COMPARISON
  | TOKEN_IDENTIFIER => MkRule (Some F_variable) false PREC_NONE
  | TOKEN_STRING => MkRule (Some F_string) false PREC_NONE
  | TOKEN_NUMBER => MkRule (Some F_number) false PREC_NONE
  | TOKEN_AND => MkRule None true PREC_AND
  | TOKEN_FALSE | TOKEN_NIL | TOKEN_TRUE => MkRule (Some F_literal) false PREC_NONE
  | TOKEN_FN => MkRule (Some F_fn) false PREC_NONE
  | TOKEN_OR => MkRule None true PREC_OR
  | TOKEN_COLON_COLON => MkRule None true PREC_TERM
  | _ => MkRule None false PREC_NONE
  end.

(** ** Expressions, statements and declarations *)

(** What the recursive functions of the parser are called on. *)
Inductive nonterm := Precedence_ (p : Z) | Statement | Declaration.

Section Rec.
(** Recursive calls, and the bound of the loops. *)
Context (rec : nonterm -> comp Fex obj) (fuel : nat).

Definition expression : comp Fex obj := rec (Precedence_ PREC_ASSIGNMENT).

Definition parse_grouping : comp Fex obj :=
  let* expr := expression in
  consume TOKEN_RPAREN "Expect ')' after expression." ;;;
  ret expr.

Definition parse_unary : comp Fex obj :=
  let* t := P_previous in
  let* rhs := rec (Precedence_ PREC_UNARY) in
  match type t with
  | TOKEN_MINUS => make_unary "-" rhs
  | TOKEN_BANG => make_unary "not" rhs
  | _ => ret Nil
  end.

Definition snoc (l : obj * option obj) (cell : obj) : comp Fex (obj * option obj) := fe (append_cell l cell).

Fixpoint list_elements (n gc_base : nat) (l : obj * option obj) : comp Fex obj :=
  match n with
  | O => spent _
  | S n =>
      let* elem := expression in
      fe (fe_pushgc elem) ;;;
      let* cell := fe (fe_cons elem Nil) in
      let* l := snoc l cell in
      fe (fe_restoregc gc_base) ;;;
      (if isnil (fst l) then ret tt else fe (fe_pushgc (fst l))) ;;;
      let* b := parser_match TOKEN_COMMA in
      if b then list_elements n gc_base l else ret (fst l)
  end.

Definition parse_list : comp Fex obj :=
  let* gc_base := fe fe_savegc in
  let* close := check TOKEN_RBRACKET in
  let* head := (if close then ret Nil else list_elements fuel gc_base (Nil, None)) in
  consume TOKEN_RBRACKET "Expect ']' after list elements." ;;;
  let* list_symbol := fe (fe_symbol (str "list")) in
  CONS1 list_symbol head.

Fixpoint block_loop (n : nat) (l : obj * option obj) (count : nat) : comp Fex (obj * nat) :=
  let* close := check TOKEN_RBRACE in
  let* eof := check TOKEN_EOF in
  if close || eof then ret (fst l, count)
  else match n with
       | O => spent _
       | S n =>
           let* d := rec Declaration in
           let* cell := fe (fe_cons d Nil) in
           let* l := snoc l cell in
           block_loop n l (S count)
       end.

Definition block : comp Fex obj :=
  let* r := block_loop fuel (Nil, None) 0%nat in
  let '(head, count) := r in
  consume TOKEN_RBRACE "Expect '}' after block." ;;;
  let* r :=
    (if decide (count = 0%nat) then ret (head, count)
     else
       let* guard := fe fe_savegc in
       fe (fe_pushgc head) ;;;
       let* r := rewrite_named_fn_declarations head count in
       fe (fe_restoregc guard) ;;;
       ret r) in
  let '(head, count) := r in
  match count with
  | O => ret Nil
  | S O => fe (fe_car head)
  | _ =>
      guarded
        (fe (fe_pushgc head) ;;;
         let* do_sym := fe (fe_symbol (str "do")) in
         fe (fe_pushgc do_sym) ;;;
         CONS1 do_sym head)
  end.

Fixpoint parameters (n : nat) (params : obj) (param_count : nat) : comp Fex (obj * nat) :=
  match n with
  | O => spent _
  | S n =>
      consume TOKEN_IDENTIFIER "Expect parameter name." ;;;
      let* t := P_previous in
      let* s := symbol_from_token t in
      let* params := fe (fe_cons s params) in
      let* b := parser_match TOKEN_COMMA in
      if b then parameters n params (S param_count) else ret (params, S param_count)
  end.

Fixpoint reverse_params (n : nat) (params reversed : obj) : comp Fex obj :=
  match n with
  | O => ret reversed
  | S n =>
      let* a := fe (fe_car params) in
      let* reversed := fe (fe_cons a reversed) in
      let* params := fe (fe_cdr params) in
      reverse_params n params reversed
  end.

Definition fn_declaration : comp Fex obj :=
  consume TOKEN_LPAREN "Expect '(' after 'fn'." ;;;
  let* close := check TOKEN_RPAREN in
  let* r := (if close then ret (Nil, 0%nat) else parameters fuel Nil 0) in
  let '(params, param_count) := r in
  consume TOKEN_RPAREN "Expect ')' after parameters." ;;;
  let* reversed := reverse_params param_count params Nil in
  consume TOKEN_LBRACE "Expect '{' before function body." ;;;
  let* body := block in
  let* l := fe (fe_cons body Nil) in
  let* l := fe (fe_cons reversed l) in
  let* s := fe (fe_symbol (str "fn")) in
  CONS1 s l.

Definition fn_expression : comp Fex obj := fn_declaration.

Definition run_prefix (f : ParseFn) : comp Fex obj :=
  match f with
  | F_grouping => parse_grouping
  | F_list => parse_list
  | F_unary => parse_unary
  | F_variable => parse_variable
  | F_string => parse_string
  | F_number => parse_number
  | F_literal => parse_literal
  | F_fn => fn_expression
  end.

(** An infix form: the new lhs operand, or the end of the parse. *)
Definition invalid_target : comp Fex (obj + obj) :=
  error "Invalid assignment target." ;;; ret (inr Nil).

Definition parse_assignment (lhs : obj) : comp Fex (obj + obj) :=
  let* rhs := rec (Precedence_ PREC_ASSIGNMENT) in
  let* t := fe (type_of lhs) in
  if decide (t = FE_TSYMBOL) then let* lhs := make_binary "=" lhs rhs in ret (inl lhs)
  else if decide (t = FE_TPAIR) then
    let* op := fe (fe_car lhs) in
    let* get := fe (fe_symbol_name_eq op (str "get")) in
    if get : bool then
      let* args := fe (fe_cdr lhs) in
      let* target := fe (fe_car args) in
      let* rest := fe (fe_cdr args) in
      let* prop := fe (fe_car rest) in
      let* setter := selector_setter_name prop in
      let* lhs := (match setter with
                    | Some setter => make_binary setter target rhs
                    | None => make_ternary "put" target prop rhs
                    end) in
      ret (inl lhs)
    else invalid_target
  else invalid_target.

Fixpoint arguments (n : nat) (l : obj * option obj) : comp Fex obj :=
  match n with
  | O => spent _
  | S n =>
      let* e := expression in
      let* cell := fe (fe_cons e Nil) in
      let* l := snoc l cell in
      let* b := parser_match TOKEN_COMMA in
      if b then arguments n l else ret (fst l)
  end.

Definition parse_call (lhs : obj) : comp Fex (obj + obj) :=
  let* close := check TOKEN_RPAREN in
  let* args := (if close then ret Nil else arguments fuel (Nil, None)) in
  consume TOKEN_RPAREN "Expect ')' after arguments." ;;;
  let* lhs := CONS1 lhs args in
  ret (inl lhs).

Definition parse_member (lhs : obj) : comp Fex (obj + obj) :=
  consume TOKEN_IDENTIFIER "Expect property name after '.'." ;;;
  let* t := P_previous in
  let* property := symbol_from_token t in
  let* lhs := make_binary "get" lhs property in
  ret (inl lhs).

Definition op_str (t : TokenType) : option string :=
  match t with
  | TOKEN_PLUS => Some "+" | TOKEN_MINUS => Some "-" | TOKEN_STAR => Some "*" | TOKEN_SLASH => Some "/"
  | TOKEN_EQUAL_EQUAL => Some "is" | TOKEN_BANG_EQUAL => Some "not is"
  | TOKEN_LESS => Some "<" | TOKEN_LESS_EQUAL => Some "<="
  | TOKEN_GREATER => Some ">" | TOKEN_GREATER_EQUAL => Some ">="
  | TOKEN_AND => Some "and" | TOKEN_OR => Some "or"
  | _ => None
  end%string.

Definition parse_operator (op : TokenType) (lhs : obj) : comp Fex (obj + obj) :=
  match op_str op with
  | None => error "Unhandled infix operator." ;;; ret (inr Nil)
  | Some s =>
      let* rhs := rec (Precedence_ (precedence (rules op) + 1)) in
      if decide (op = TOKEN_BANG_EQUAL) then
        let* lhs := make_binary "is" lhs rhs in
        let* lhs := make_unary "not" lhs in
        ret (inl lhs)
      else let* lhs := make_binary s lhs rhs in ret (inl lhs)
  end.

Definition parse_infix (op : TokenType) (lhs : obj) : comp Fex (obj + obj) :=
  if decide (op = TOKEN_EQUAL) then parse_assignment lhs
  else if decide (op = TOKEN_LPAREN) then parse_call lhs
  else if decide (op = TOKEN_DOT) then parse_member lhs
  else if decide (op = TOKEN_COLON_COLON) then
    let* rhs := rec (Precedence_ (precedence (rules op))) in
    let* lhs := make_binary "cons" lhs rhs in
    ret (inl lhs)
  else parse_operator op lhs.

Fixpoint infix_loop (n : nat) (prec : Z) (lhs : obj) : comp Fex obj :=
  match n with
  | O => spent _
  | S n =>
      let* t := P_current in
      if infix (rules (type t)) && (prec <=? precedence (rules (type t))) then
        parser_advance ;;;
        let* p := P_previous in
        let* r := parse_infix (type p) lhs in
        match r with
        | inl lhs => infix_loop n prec lhs
        | inr result => ret result
        end
      else ret lhs
  end.

Definition parse_precedence_new (prec : Z) : comp Fex obj :=
  parser_advance ;;;
  let* p := P_previous in
  match prefix (rules (type p)) with
  | None => error "Expect expression." ;;; ret Nil
  | Some f =>
      let* lhs := run_prefix f in
      infix_loop fuel prec lhs
  end.

Definition module_declaration : comp Fex obj :=
  consume TOKEN_LPAREN "Expect '(' after 'module'." ;;;
  consume TOKEN_STRING "Expect module name string." ;;;
  let* name := parse_string_literal true in
  consume TOKEN_RPAREN "Expect ')' after module name." ;;;
  consume TOKEN_LBRACE "Expect '{' before module body." ;;;
  let* body := block in
  let* l := fe (fe_cons body Nil) in
  let* l := fe (fe_cons name l) in
  let* s := fe (fe_symbol (str "module")) in
  CONS1 s l.

Definition import_declaration : comp Fex obj :=
  let* name := parse_import_specifier in
  consume TOKEN_SEMICOLON "Expect ';' after import statement." ;;;
  let* l := fe (fe_cons name Nil) in
  let* s := fe (fe_symbol (str "import")) in
  CONS1 s l.

Definition var_declaration : comp Fex obj :=
  consume TOKEN_IDENTIFIER "Expect variable name." ;;;
  let* t := P_previous in
  let* name := symbol_from_token t in
  let* b := parser_match TOKEN_EQUAL in
  let* value := (if b then expression else ret Nil) in
  consume TOKEN_SEMICOLON "Expect ';' after variable declaration." ;;;
  if isnil name then error "Variable name cannot be nil." ;;; ret Nil
  else make_binary "let" name value.

Definition expr_statement : comp Fex obj :=
  let* expr := expression in
  consume TOKEN_SEMICOLON "Expect ';' after expression." ;;;
  ret expr.

Definition return_statement : comp Fex obj :=
  let* semi := check TOKEN_SEMICOLON in
  let* value := (if semi then ret Nil else expression) in
  consume TOKEN_SEMICOLON "Expect ';' after return value." ;;;
  let* l := fe (fe_cons value Nil) in
  let* r_sym := fe (fe_symbol (str "return")) in
  CONS1 r_sym l.

Definition if_statement : comp Fex obj :=
  consume TOKEN_LPAREN "Expect '(' after 'if'." ;;;
  let* condition := expression in
  consume TOKEN_RPAREN "Expect ')' after if condition." ;;;
  let* then_branch := rec Statement in
  let* b := parser_match TOKEN_ELSE in
  let* else_branch := (if b then rec Statement else ret Nil) in
  let* l := fe (fe_cons else_branch Nil) in
  let* l := fe (fe_cons then_branch l) in
  let* l := fe (fe_cons condition l) in
  let* s := fe (fe_symbol (str "if")) in
  CONS1 s l.

Definition while_statement : comp Fex obj :=
  consume TOKEN_LPAREN "Expect '(' after 'while'." ;;;
  let* condition := expression in
  consume TOKEN_RPAREN "Expect ')' after condition." ;;;
  let* body := rec Statement in
  let* l := fe (fe_cons body Nil) in
  let* l := fe (fe_cons condition l) in
  let* s := fe (fe_symbol (str "while")) in
  CONS1 s l.

Definition stops_recovery (t : TokenType) : bool :=
  match t with TOKEN_FN | TOKEN_LET | TOKEN_IF | TOKEN_WHILE | TOKEN_RETURN => true | _ => false end.

Fixpoint synchronize_loop (n : nat) : comp Fex unit :=
  let* eof := check TOKEN_EOF in
  if eof : bool then ret tt
  else
    let* p := P_previous in
    let* t := P_current in
    if bool_decide (type p = TOKEN_SEMICOLON) || stops_recovery (type t) then ret tt
    else match n with
         | O => spent _
         | S n => parser_advance ;;; synchronize_loop n
         end.

Definition synchronize : comp Fex unit :=
  let* sc := scope in
  set_scope (with_flags (p_had_error sc) false sc) ;;;
  synchronize_loop fuel.

Definition statement : comp Fex obj :=
  let* b := parser_match TOKEN_RETURN in
  if b : bool then return_statement
  else
    let* b := parser_match TOKEN_IF in
    if b : bool then if_statement
    else
      let* b := parser_match TOKEN_WHILE in
      if b : bool then while_statement
      else
        let* b := parser_match TOKEN_LBRACE in
        if b : bool then block else expr_statement.

Definition fn_name_declaration (is_export : bool) : comp Fex obj :=
  consume TOKEN_IDENTIFIER "Expect function name." ;;;
  let* t := P_previous in
  let* name := symbol_from_token t in
  let* fn_expr := fn_declaration in
  make_named_fn_decl name fn_expr is_export.

Definition declaration : comp Fex obj :=
  let* b := parser_match TOKEN_MODULE in
  if b : bool then module_declaration
  else
    let* b := parser_match TOKEN_IMPORT in
    if b : bool then import_declaration
    else
      let* is_export := parser_match TOKEN_EXPORT in
      let* b := parser_match TOKEN_LET in
      if b : bool then
        let* decl := var_declaration in
        if is_export : bool then make_unary "export" decl else ret decl
      else
        let* b := parser_match TOKEN_FN in
        if b : bool then fn_name_declaration is_export
        else
          when is_export (error "Only 'let' and 'fn' declarations can be exported.") ;;;
          let* stmt := rec Statement in
          let* sc := scope in
          when (panic_mode sc) synchronize ;;;
          ret stmt.

Definition parse_step (nt : nonterm) : comp Fex obj :=
  match nt with
  | Precedence_ p => parse_precedence_new p
  | Statement => statement
  | Declaration => declaration
  end.
End Rec.

(** Each level of recursion uses one unit of fuel. *)
Fixpoint parse (fuel : nat) (nt : nonterm) : comp Fex obj :=
  match fuel with
  | O => spent _
  | S f => parse_step (parse f) f nt
  end.

(** ** Whole programs *)

Definition push_head (head : obj) : comp Fex unit :=
  if isnil head then ret tt else fe (fe_pushgc head).

(** The declarations up to the end of the source or the first error. *)
Fixpoint program_loop (n fuel gc_base : nat) (l : obj * option obj) (count : nat)
    : comp Fex (obj * nat) :=
  let* eof := parser_match TOKEN_EOF in
  if eof : bool then ret (fst l, count)
  else match n with
       | O => spent _
       | S n =>
           fe (fe_restoregc gc_base) ;;;
           push_head (fst l) ;;;
           let* node := parse fuel Declaration in
           fe (fe_pushgc node) ;;;
           let* cell := fe (fe_cons node Nil) in
           let* l := snoc l cell in
           let* sc := scope in
           if p_had_error sc then ret (fst l, S count) else program_loop n fuel gc_base l (S count)
       end.

(** [NULL] when the source has errors. *)
Definition fex_compile_named (fuel : nat) (src : chars) (name : option chars) : comp Fex obj :=
  enter_compile_scope src name ;;;
  parser_advance ;;;
  let* gc_base := fe fe_savegc in
  let* r := program_loop fuel fuel gc_base (Nil, None) 0%nat in
  let '(head, count) := r in
  let* sc := scope in
  if p_had_error sc || had_error (lexer sc) then
    fe (fe_restoregc gc_base) ;;;
    leave_compile_scope ;;;
    ret NULL
  else
    let* r :=
      (if decide (count = 0%nat) then ret (head, count)
       else
         fe (fe_pushgc head) ;;;
         let* r := rewrite_named_fn_declarations head count in
         fe (fe_restoregc gc_base) ;;;
         fe (fe_pushgc (fst r)) ;;;
         ret r) in
    let '(head, count) := r in
    let* program :=
      (match count with
       | O => ret Nil
       | S O => fe (fe_car head)
       | _ =>
           let* do_sym := fe (fe_symbol (str "do")) in
           fe (fe_pushgc do_sym) ;;;
           let* program := CONS1 do_sym head in
           fe (fe_restoregc gc_base) ;;;
           fe (fe_pushgc head) ;;;
           fe (fe_pushgc program) ;;;
           ret program
       end) in
    fe (fe_pushgc program) ;;;
    leave_compile_scope ;;;
    ret program.

Definition fex_compile (fuel : nat) (src : chars) : comp Fex obj :=
  fex_compile_named fuel src (Some (str "<string>")).

(** [eval_] is fe_eval. *)
Definition fex_do_string_named (eval_ : obj -> comp fe_Context obj) (fuel : nat) (src : chars)
    (name : option chars) : comp Fex obj :=
  let* gc_save := fe fe_savegc in
  let* code := fex_compile_named fuel src name in
  if decide (code = NULL) then fe (fe_restoregc gc_save) ;;; ret NULL
  else
    fe (fe_pushgc code) ;;;
    let* res := fe (eval_ code) in
    fe (fe_restoregc gc_save) ;;;
    ret res.

Definition fex_do_string (eval_ : obj -> comp fe_Context obj) (fuel : nat) (src : chars) : comp Fex obj :=
  fex_do_string_named eval_ fuel src (Some (str "<string>")).
End Compile.
