(* ===== verification/ParserSpec.v ===== *)
(** * The compiler terminates on every source

    The recursion and the loops of the parser are bounded by the length of
    the source: every turn reads a token.  What the model would do when a
    bound is used up does not matter, since none is ever used up. *)

From Stdlib Require Import ZArith Lia Ascii String SpecFloat.
From stdpp Require Import base list.
From S2P Require Import Prelude Number Strtod Memory Budget MapTable Slab Span Ctx Gc Objects Writer Eval Lexer LexerSpec Parser.

(** ** What is left to read *)

(** The current token and the characters after it. *)
Definition unread (sc : FexCompileState) : nat :=
  match p_current sc with
  | Some t => if decide (type t = TOKEN_EOF) then 0
              else S (length (Lexer.source (lexer sc)) - current (lexer sc))
  | None => S (length (Lexer.source (lexer sc)) - current (lexer sc))
  end.

Definition scope_ok (sc : FexCompileState) : Prop :=
  wf (lexer sc) /\
  forall t, p_current sc = Some t -> type t = TOKEN_EOF -> current (lexer sc) = length (Lexer.source (lexer sc)).

Definition to_read (s : Fex) : nat :=
  match compile_state s with sc :: _ => unread sc | [] => 0 end.

Create HintDb still.
Create HintDb calm.

Section Scope.
(** The scopes below the innermost one, and its block. *)
Context (K : list FexCompileState * Memory.block).

Definition ok (s : Fex) : Prop :=
  match compile_state s with sc :: l => scope_ok sc /\ (l, scope_block sc) = K | [] => False end.

(** [m] reads at least [k] tokens, unless the source ends. *)
Definition calm {A} (k : nat) (m : comp Fex A) : Prop :=
  forall s a s', ok s -> m s = Done a s' -> ok s' /\ (to_read s' <= to_read s - k)%nat.

(** On states with at most [n] left to read, [m1] and [m2] do the same and
    read at least [k] tokens. *)
Definition agree {A} (n k : nat) (m1 m2 : comp Fex A) : Prop :=
  forall s, ok s -> (to_read s <= n)%nat ->
  m1 s = m2 s /\ forall a s', m1 s = Done a s' -> ok s' /\ (to_read s' <= to_read s - k)%nat.

Lemma calm_agree {A} n k (m : comp Fex A) : calm k m -> agree n k m m.
Proof. intros H s Hok _. split; [done |]. intros a s'. by apply H. Qed.

Lemma agree_weaken {A} n n' k k' (m1 m2 : comp Fex A) :
  (n' <= n)%nat -> (k' <= k)%nat -> agree n k m1 m2 -> agree n' k' m1 m2.
Proof.
  intros Hn Hk H s Hok Hs. destruct (H s Hok) as [E P]; [lia |]. split; [done |].
  intros a s' Hd. destruct (P a s' Hd). split; [done | lia].
Qed.

Lemma calm_weaken {A} k k' (m : comp Fex A) : (k' <= k)%nat -> calm k m -> calm k' m.
Proof. intros Hk H s a s' Hok Hd. destruct (H s a s' Hok Hd). split; [done | lia]. Qed.

Lemma agree_bind {A B} n k j (m1 m2 : comp Fex A) (f1 f2 : A -> comp Fex B) :
  agree n k m1 m2 -> (forall a, agree (n - k) j (f1 a) (f2 a)) -> agree n (k + j) (bind m1 f1) (bind m2 f2).
Proof.
  intros Hm Hf s Hok Hs. destruct (Hm s Hok Hs) as [E P]. unfold bind. rewrite <- E.
  destruct (m1 s) as [a s1 | | |]; [| by split..].
  destruct (P a s1 eq_refl) as [Hok1 Hle]. destruct (Hf a s1 Hok1) as [E2 P2]; [lia |]. split; [done |].
  intros b s2 Hd. destruct (P2 b s2 Hd). split; [done | lia].
Qed.

(** The first computation reads nothing for sure. *)
Lemma agree_bind0 {A B} n k (m : comp Fex A) (f1 f2 : A -> comp Fex B) :
  calm 0 m -> (forall a, agree n k (f1 a) (f2 a)) -> agree n k (bind m f1) (bind m f2).
Proof.
  intros Hm Hf. apply (agree_bind n 0 k); [by apply calm_agree |]. intros a. by rewrite Nat.sub_0_r.
Qed.

(** The first computation reads a token, which is all that is asked for. *)
Lemma agree_bind1 {A B} n k (m1 m2 : comp Fex A) (f1 f2 : A -> comp Fex B) :
  (k <= 1)%nat -> agree n 1 m1 m2 -> (forall a, agree (n - 1) 0 (f1 a) (f2 a)) -> agree n k (bind m1 f1) (bind m2 f2).
Proof. intros Hk Hm Hf. eapply (agree_weaken n n 1); [lia | lia |]. by apply (agree_bind n 1 0). Qed.

Lemma calm_bind {A B} k (m : comp Fex A) (f : A -> comp Fex B) :
  calm 0 m -> (forall a, calm k (f a)) -> calm k (bind m f).
Proof.
  intros Hm Hf s b s' Hok Hd. apply bind_done in Hd as (a & s1 & H1 & H2).
  destruct (Hm s a s1 Hok H1). destruct (Hf a s1 b s' ltac:(done) H2). split; [done | lia].
Qed.

(** ** Computations that leave the scope alone *)

Definition still {A} (m : comp Fex A) : Prop :=
  forall s a s', m s = Done a s' -> compile_state s' = compile_state s.

Lemma still_calm {A} (m : comp Fex A) : still m -> calm 0 m.
Proof.
  intros H s a s' Hok Hd. apply H in Hd. unfold ok, to_read in *. rewrite Hd. split; [done | lia].
Qed.

Lemma still_ret {A} (a : A) : still (ret a).
Proof. intros s a' s' [= <- <-]. done. Qed.
Lemma still_stuck {A} : still (@stuck Fex A).
Proof. done. Qed.
Lemma still_no_fuel {A} : still (@no_fuel Fex A).
Proof. done. Qed.
Lemma still_get : still (@get Fex).
Proof. intros s a s' [= <- <-]. done. Qed.
Lemma still_gets {A} (f : Fex -> A) : still (gets f).
Proof. intros s a s' [= <- <-]. done. Qed.
Lemma still_bind {A B} (m : comp Fex A) (f : A -> comp Fex B) :
  still m -> (forall a, still (f a)) -> still (bind m f).
Proof. intros Hm Hf s b s' Hd. apply bind_done in Hd as (a & s1 & H1 & H2). apply Hm in H1. apply Hf in H2. congruence. Qed.
Lemma still_modify (f : Fex -> Fex) : (forall s, compile_state (f s) = compile_state s) -> still (modify f).
Proof. intros H s a s' [= <- <-]. apply H. Qed.
Lemma still_fe {A} (m : comp fe_Context A) : still (fe m).
Proof.
  intros s a s'. unfold fe, quiet. destruct (m (ctx s)); [intros [= <- <-]; done | | done | done].
  case_match; done.
Qed.
Lemma still_known {A} (o : option A) : still (known o).
Proof. destruct o; [apply still_ret | apply still_stuck]. Qed.
Lemma still_raise {A} e : still (fun s : Fex => @Raised Fex A e s).
Proof. done. Qed.
Lemma still_scope : still scope.
Proof. apply still_bind; [apply still_get |]. intros s. destruct (compile_state s); [apply still_stuck | apply still_ret]. Qed.

#[local] Hint Resolve still_ret still_stuck still_no_fuel still_get still_gets still_fe still_known still_raise
  still_scope : still.

(** Goes through the binds, conditionals and matches of a definition. *)
Ltac still_step :=
  match goal with
  | |- still (bind _ _) => apply still_bind; [| intros]
  | |- still (modify _) => apply still_modify; intros; reflexivity
  | |- still (if ?b then _ else _) => destruct b
  | |- still (match ?x with _ => _ end) => destruct x
  | |- still (when ?b _) => unfold when; destruct b
  | |- still (guarded _) => unfold guarded
  | |- still _ => solve [auto with still]
  end.
Ltac still := repeat still_step.

Lemma still_P_current : still P_current. Proof. unfold P_current. still. Qed.
Lemma still_P_previous : still P_previous. Proof. unfold P_previous. still. Qed.
Lemma still_token_chars t : still (token_chars t). Proof. unfold token_chars. still. Qed.
Lemma still_token_start t : still (token_start t). Proof. unfold token_start. still. Qed.
Lemma still_fprintf x : still (fprintf x). Proof. unfold fprintf. still. Qed.
#[local] Hint Resolve still_P_current still_P_previous still_token_chars still_token_start still_fprintf : still.

Lemma still_check t : still (check t). Proof. unfold check. still. Qed.
Lemma still_record_span o a b c d e n : still (record_span o a b c d e n). Proof. unfold record_span. still. Qed.
#[local] Hint Resolve still_check still_record_span : still.
Lemma still_fex_cons_tok a d t1 t2 : still (fex_cons_tok a d t1 t2). Proof. unfold fex_cons_tok. still. Qed.
#[local] Hint Resolve still_fex_cons_tok : still.
Lemma still_CONS1 a d : still (CONS1 a d). Proof. unfold CONS1. still. Qed.
Lemma still_lookup_span o : still (lookup_span o). Proof. unfold lookup_span. still. Qed.
#[local] Hint Resolve still_CONS1 still_lookup_span : still.
Lemma still_copy_span_from a b : still (copy_span_from a b). Proof. unfold copy_span_from. still. Qed.
#[local] Hint Resolve still_copy_span_from : still.
Lemma still_make_unary op a : still (make_unary op a).
Proof. unfold make_unary. still. Qed.
Lemma still_make_binary op a b : still (make_binary op a b).
Proof. unfold make_binary. still. Qed.
Lemma still_make_ternary op a b c : still (make_ternary op a b c).
Proof. unfold make_ternary. still. Qed.
Lemma still_make_named_fn_decl a b c : still (make_named_fn_decl a b c).
Proof. unfold make_named_fn_decl. still. Qed.
Lemma still_do_two a b c : still (make_do_two_with_span a b c).
Proof. unfold make_do_two_with_span. still. Qed.
Lemma still_do_three a b c d : still (make_do_three_with_span a b c d).
Proof. unfold make_do_three_with_span. still. Qed.
Lemma still_extract o : still (extract_named_fn_decl o).
Proof. unfold extract_named_fn_decl. still. Qed.
Lemma still_store_cdr a b : still (store_cdr a b). Proof. unfold store_cdr. still. Qed.
#[local] Hint Resolve still_make_unary still_make_binary still_make_ternary still_make_named_fn_decl still_do_two
  still_do_three still_extract still_store_cdr : still.

Lemma still_for_each {A} fuel (body : A -> obj -> comp Fex A) acc p :
  (forall acc o, still (body acc o)) -> still (for_each fuel body acc p).
Proof.
  intros Hb. revert acc p. induction fuel as [| f IH]; intros acc p; cbn [for_each]; still; by apply Hb || apply IH.
Qed.

Lemma still_rewrite_decl g t o : still (rewrite_decl g t o).
Proof. unfold rewrite_decl. still. Qed.

Lemma still_rewrite stmts count : still (rewrite_named_fn_declarations stmts count).
Proof.
  unfold rewrite_named_fn_declarations, heap_fuel.
  still; apply still_for_each; intros; [unfold count_decl | unfold predeclare | apply still_rewrite_decl]; still.
Qed.
Lemma still_temp_alloc n : still (fex_temp_alloc n). Proof. unfold fex_temp_alloc. still. Qed.
Lemma still_temp_free b : still (fex_temp_free b). Proof. unfold fex_temp_free. still. Qed.
Lemma still_snoc l c : still (snoc l c). Proof. unfold snoc. still. Qed.
Lemma still_selector p : still (selector_setter_name p). Proof. unfold selector_setter_name. still. Qed.
#[local] Hint Resolve still_rewrite still_temp_alloc still_temp_free still_snoc still_selector : still.

(** ** Errors *)

(** The scope keeps its position. *)
Definition same_position (s s' : Fex) : Prop :=
  match compile_state s, compile_state s' with
  | sc :: l, sc' :: l' => lexer sc' = lexer sc /\ p_current sc' = p_current sc /\ l' = l /\ scope_block sc' = scope_block sc
  | _, _ => False
  end.

Lemma same_position_trans s1 s2 s3 : same_position s1 s2 -> same_position s2 s3 -> same_position s1 s3.
Proof.
  unfold same_position. destruct (compile_state s1), (compile_state s2), (compile_state s3); try done.
  intros (-> & -> & -> & ->) (-> & -> & -> & ->). done.
Qed.

Lemma same_position_ok s s' : ok s -> same_position s s' -> ok s' /\ to_read s' = to_read s.
Proof.
  unfold ok, same_position, to_read, unread, scope_ok.
  destruct (compile_state s), (compile_state s'); try done. intros Hok (-> & -> & -> & ->). done.
Qed.

Definition in_place {A} (m : comp Fex A) : Prop :=
  forall s a s', compile_state s <> [] -> m s = Done a s' -> same_position s s'.

Lemma in_place_calm {A} (m : comp Fex A) : in_place m -> calm 0 m.
Proof.
  intros H s a s' Hok Hd. assert (compile_state s <> []) by (unfold ok in Hok; by destruct (compile_state s)).
  destruct (same_position_ok s s' Hok); [by eapply H |]. split; [done | lia].
Qed.

Lemma still_in_place {A} (m : comp Fex A) : still m -> in_place m.
Proof. intros H s a s' Hne Hd. apply H in Hd. unfold same_position. rewrite Hd. by destruct (compile_state s). Qed.

Lemma same_position_ne s s' : same_position s s' -> compile_state s' <> [].
Proof. unfold same_position. destruct (compile_state s), (compile_state s'); done. Qed.

Lemma in_place_bind {A B} (m : comp Fex A) (f : A -> comp Fex B) :
  in_place m -> (forall a, in_place (f a)) -> in_place (bind m f).
Proof.
  intros Hm Hf s b s' Hne Hd. apply bind_done in Hd as (a & s1 & H1 & H2). specialize (Hm _ _ _ Hne H1).
  eapply same_position_trans; [done |]. eapply Hf; [by eapply same_position_ne | done].
Qed.

Lemma in_place_flags e p : in_place (let* sc := scope in set_scope (with_flags (e sc) (p sc) sc)).
Proof.
  intros s a s' Hne. unfold scope, set_scope, bind, get. destruct (compile_state s) as [| sc l] eqn:E; [done |].
  unfold ret. rewrite E. intros [= <- <-]. unfold same_position. rewrite E. done.
Qed.

Lemma in_place_error_at t m : in_place (error_at t m).
Proof.
  unfold error_at. intros s a s' Hne. unfold bind at 1. cbn [get].
  destruct (compile_state s) as [| sc l] eqn:E; [done |].
  unfold bind at 1. assert (scope s = Done sc s) as -> by (unfold scope, bind, get; by rewrite E).
  destruct (try_active s); [by unfold known, bind; destruct (column t) |].
  destruct (panic_mode sc); [intros [= <- <-]; unfold same_position; by rewrite E |].
  unfold bind at 1, set_scope at 1, bind at 1. cbn [get]. rewrite E. cbn [put].
  set (s1 := with_compile_state _ s). intros Hd.
  assert (same_position s s1) as H1 by (unfold same_position; by rewrite E).
  eapply same_position_trans; [exact H1 |]. eapply in_place_bind, Hd; [| | by eapply same_position_ne].
  { apply still_in_place. still. }
  intros ?. apply in_place_bind; [apply still_in_place; still |]. intros ?.
  apply in_place_bind; [apply still_in_place; still |]. intros ?. apply (in_place_flags (fun _ => true) panic_mode).
Qed.

Lemma calm_error_at t m : calm 0 (error_at t m).
Proof. apply in_place_calm, in_place_error_at. Qed.
Lemma in_place_error_at_current m : in_place (error_at_current m).
Proof. apply in_place_bind; [apply still_in_place; still |]. intros t. apply in_place_error_at. Qed.
Lemma calm_error_at_current m : calm 0 (error_at_current m).
Proof. apply in_place_calm, in_place_error_at_current. Qed.
Lemma calm_error m : calm 0 (error m).
Proof. apply calm_bind; [apply still_calm; still |]. intros t. apply calm_error_at. Qed.

#[local] Hint Resolve still_calm calm_error_at calm_error_at_current calm_error : calm.
#[local] Hint Resolve still_P_current still_P_previous : calm.

(** Like [still], for computations that may report errors. *)
Ltac calm_step :=
  match goal with
  | |- calm _ (bind _ _) => apply calm_bind; [| intros]
  | |- calm _ (if ?b then _ else _) => destruct b
  | |- calm _ (match ?x with _ => _ end) => destruct x
  | |- calm _ (when ?b _) => unfold when; destruct b
  | |- calm _ _ => solve [auto with calm | apply still_calm; still]
  end.
Ltac calm := repeat calm_step.

Lemma calm_symbol_from_token t : calm 0 (symbol_from_token t).
Proof. unfold symbol_from_token. calm. Qed.
Lemma calm_parse_number oob : calm 0 (parse_number oob).
Proof. unfold parse_number. calm. Qed.
Lemma calm_parse_string_literal b : calm 0 (parse_string_literal b).
Proof. unfold parse_string_literal. calm. Qed.
Lemma calm_out_of_memory : calm 0 out_of_memory_in_import.
Proof. unfold out_of_memory_in_import. calm. Qed.
#[local] Hint Resolve calm_symbol_from_token calm_parse_number calm_parse_string_literal calm_out_of_memory : calm.
Lemma calm_parse_literal : calm 0 parse_literal.
Proof. unfold parse_literal. calm. Qed.
Lemma calm_parse_variable : calm 0 parse_variable.
Proof. unfold parse_variable. calm. Qed.
#[local] Hint Resolve calm_parse_literal calm_parse_variable : calm.

(** ** Tokens *)

Section Fuel.
Context (spent1 spent2 : forall A, comp Fex A) (oob : double -> Z) (realloc_ok : Z -> bool).

Definition remaining (L : Lexer) : nat := (length (Lexer.source L) - current L)%nat.

(** What [m1] and [m2] do from [s]: the same, and the scope is well formed
    afterwards, with at most [n] left to read. *)
Definition same_until {A} (n : nat) (m1 m2 : comp Fex A) (s : Fex) : Prop :=
  m1 s = m2 s /\ forall a s', m1 s = Done a s' -> ok s' /\ (to_read s' <= n)%nat.

Lemma in_place_step {A} n (m : comp Fex unit) (k1 k2 : comp Fex A) s :
  compile_state s <> [] -> in_place m ->
  (forall s', same_position s s' -> same_until n k1 k2 s') ->
  same_until n (m ;;; k1) (m ;;; k2) s.
Proof.
  intros Hne Hm Hk. unfold same_until, bind. destruct (m s) as [[] s' | | |] eqn:E; [| by split..].
  apply Hk. by eapply Hm.
Qed.

Lemma still_then {A B} n (m : comp Fex B) (k1 k2 : B -> comp Fex A) s :
  still m -> (forall a s', compile_state s' = compile_state s -> same_until n (k1 a) (k2 a) s') ->
  same_until n (bind m k1) (bind m k2) s.
Proof.
  intros Hm Hk. unfold same_until, bind. destruct (m s) as [a s' | | |] eqn:E; [| by split..].
  apply Hk. by eapply Hm.
Qed.

Lemma scope_eq s sc l : compile_state s = sc :: l -> scope s = Done sc s.
Proof. intros E. unfold scope, bind, get. by rewrite E. Qed.
Lemma set_scope_eq s sc sc' l :
  compile_state s = sc :: l -> set_scope sc' s = Done tt (with_compile_state (sc' :: l) s).
Proof. intros E. unfold set_scope, bind, get. by rewrite E. Qed.
Lemma advance_loop_agree n1 n2 sc l s :
  compile_state s = sc :: l -> (l, scope_block sc) = K -> wf (lexer sc) -> (remaining (lexer sc) < n1)%nat -> (remaining (lexer sc) < n2)%nat ->
  same_until (remaining (lexer sc)) (advance_loop spent1 n1) (advance_loop spent2 n2) s.
Proof.
  revert n2 sc l s. induction n1 as [| n1 IH]; intros n2 sc l s E HK Hw H1 H2; [lia |]. destruct n2 as [| n2]; [lia |].
  unfold same_until. cbn [advance_loop]. rewrite !(bind_eq scope _ _ _ _ (scope_eq _ _ _ E)).
  pose proof (scan_token_spec (lexer sc) Hw) as Hs. destruct (scan_token (lexer sc)) as [t lx].
  destruct Hs as (Hw' & Hsrc & Hst & Heof & Hprog & _).
  set (sc1 := with_tokens (Some t) (p_previous sc) (with_lexer lx sc)).
  rewrite !(bind_eq (set_scope sc1) _ _ _ _ (set_scope_eq _ _ sc1 _ E)).
  set (s1 := with_compile_state (sc1 :: l) s).
  pose proof Hw as [_ Hb]. pose proof Hw' as [_ Hb']. rewrite Hsrc in Hb'.
  destruct (decide (type t = TOKEN_ERROR)) as [He | He].
  - assert (remaining lx < remaining (lexer sc))%nat as Hlt.
    { unfold remaining. rewrite Hsrc. specialize (Hprog ltac:(congruence)). lia. }
    assert (same_until (remaining lx)
      (let* m := token_start t in error_at_current m ;;; advance_loop spent1 n1)
      (let* m := token_start t in error_at_current m ;;; advance_loop spent2 n2) s1) as Hu.
    { apply still_then; [still |]. intros m s2 Et. change (compile_state s1) with (sc1 :: l) in Et.
      apply in_place_step; [by rewrite Et | apply in_place_error_at_current |].
      intros s3 Hp. unfold same_position in Hp. rewrite Et in Hp. destruct (compile_state s3) as [| sc3 l3] eqn:E3; [done |].
      destruct Hp as (Hl3 & _ & -> & Hb3). change (lexer sc1) with lx in Hl3. rewrite <- Hl3.
      apply (IH n2 sc3 l s3 E3); [by rewrite Hb3 | rewrite Hl3; first [done | lia] ..]. }
    destruct Hu as [Hu1 Hu2]. split; [done |]. intros a s' Hd. destruct (Hu2 a s' Hd). split; [done | lia].
  - split; [done |]. intros a s' [= <- <-]. unfold ok, to_read. change (compile_state s1) with (sc1 :: l). split.
    + split; [| done]. split; [done |]. cbn. intros t' [= <-] Ht. rewrite Hsrc. by apply Heof.
    + unfold unread. cbn [sc1 with_tokens with_lexer p_current lexer]. destruct (decide _) as [| Hne]; [lia |].
      specialize (Hprog Hne). unfold remaining. rewrite Hsrc. lia.
Qed.

Lemma advance_agree n : agree n 1 (parser_advance spent1) (parser_advance spent2).
Proof.
  intros s Hok _. unfold ok, to_read in Hok |- *. destruct (compile_state s) as [| sc l] eqn:E; [done |]. destruct Hok as [[Hw He] HK].
  unfold parser_advance. rewrite !(bind_eq scope _ _ _ _ (scope_eq _ _ _ E)).
  rewrite !(bind_eq (set_scope _) _ _ _ _ (set_scope_eq _ _ _ _ E)).
  set (s1 := with_compile_state _ s).
  destruct (advance_loop_agree (fuel_of (lexer sc)) (fuel_of (lexer sc)) (with_tokens (p_current sc) (p_current sc) sc) l s1)
    as [Ha Hb]; [done | done | done | cbn; unfold fuel_of, remaining; lia..|].
  split; [done |]. intros a s' Hd. destruct (Hb a s' Hd) as [Hok Hle]. split; [done |].
  change (to_read s' <= unread sc - 1)%nat. cbn [with_tokens lexer] in Hle. unfold unread. unfold remaining in Hle.
  destruct (p_current sc) as [t |] eqn:Et; [| lia]. destruct (decide _) as [Heq |]; [| lia].
  rewrite (He t eq_refl Heq) in Hle. lia.
Qed.

Lemma consume_agree n t m : agree n 0 (consume spent1 t m) (consume spent2 t m).
Proof.
  unfold consume. apply agree_bind0; [apply still_calm; still |]. intros [].
  - eapply agree_weaken; [done | | apply advance_agree]. lia.
  - apply calm_agree, calm_error_at_current.
Qed.

Lemma check_eof_agree {A} n k (f1 f2 : bool -> comp Fex A) :
  agree n k (f1 true) (f2 true) -> (forall m, n = S m -> agree n k (f1 false) (f2 false)) ->
  agree n k (bind (check TOKEN_EOF) f1) (bind (check TOKEN_EOF) f2).
Proof.
  intros Ht Hf s Hok Hs. unfold bind. destruct (check TOKEN_EOF s) as [b s1 | | |] eqn:E; [| by split..].
  pose proof (still_check _ _ _ _ E) as Es. 
  assert (ok s1 /\ to_read s1 = to_read s) as [Hok1 Hr] by (unfold ok, to_read in *; by rewrite Es).
  rewrite <- Hr. destruct b; [apply Ht; [done | lia] |].
  destruct n as [| n]; [| by apply (Hf n eq_refl); [| lia]]. exfalso.
  unfold check, P_current, scope, bind, get, known, ret in E. unfold to_read, unread, ok in *.
  destruct (compile_state s) as [| sc l] eqn:Ec; [done |]. cbn in E. destruct (p_current sc) as [t |]; [| done].
  cbn in E. injection E as E _. apply bool_decide_eq_false in E. rewrite decide_False in Hs by done. lia.
Qed.

(** A match reads a token, a failed one nothing. *)
Lemma match_agree {A} n k t (f1 f2 : bool -> comp Fex A) :
  (k <= 1)%nat -> t <> TOKEN_EOF ->
  (forall m, n = S m -> agree m 0 (f1 true) (f2 true)) -> agree n k (f1 false) (f2 false) ->
  agree n k (bind (parser_match spent1 t) f1) (bind (parser_match spent2 t) f2).
Proof.
  intros Hk Hne Ht Hf. unfold parser_match. intros s Hok Hs. unfold bind.
  destruct (check t s) as [b s1 | | |] eqn:E; [| by split..].
  pose proof (still_check _ _ _ _ E) as Es.
  assert (ok s1 /\ to_read s1 = to_read s) as [Hok1 Hr] by (unfold ok, to_read in *; by rewrite Es).
  destruct b.
  - assert (exists m, n = S m) as [m ->].
    { destruct n as [| n]; [exfalso | by exists n].
      unfold check, P_current, scope, bind, get, known, ret in E. unfold to_read, unread, ok in *.
      destruct (compile_state s) as [| sc l] eqn:Ec; [done |]. cbn in E. destruct (p_current sc) as [t' |]; [| done].
      cbn in E. injection E as E _. apply bool_decide_eq_true in E. rewrite decide_False in Hs by congruence. lia. }
    destruct (advance_agree (S m) s1 Hok1) as [Ea Hd]; [lia |]. rewrite <- Ea.
    destruct (parser_advance spent1 s1) as [[] s2 | | |] eqn:E2; [| by split..].
    destruct (Hd tt s2 eq_refl) as [Hok2 Hle]. unfold ret.
    destruct (Ht m eq_refl s2 Hok2) as [Ef Hd2]; [lia |]. split; [done |]. intros a s' Hdn.
    destruct (Hd2 a s' Hdn). split; [done | lia].
  - unfold ret. rewrite <- Hr. apply Hf; [done | lia].
Qed.

Lemma agree_bind_0 {A B} n k (m1 m2 : comp Fex A) (f1 f2 : A -> comp Fex B) :
  agree n 0 m1 m2 -> (forall a, agree n k (f1 a) (f2 a)) -> agree n k (bind m1 f1) (bind m2 f2).
Proof. intros Hm Hf. apply (agree_bind n 0 k); [done |]. intros a. by rewrite Nat.sub_0_r. Qed.

Lemma import_segments_agree n1 n2 n buf :
  (n < n1)%nat -> (n < n2)%nat ->
  agree n 0 (import_segments spent1 realloc_ok n1 buf) (import_segments spent2 realloc_ok n2 buf).
Proof.
  revert n2 n buf. induction n1 as [| n1 IH]; intros n2 n buf H1 H2; [lia |]. destruct n2 as [| n2]; [lia |].
  cbn [import_segments]. apply match_agree; [lia | done | intros m -> |].
  2:{ apply calm_agree. calm. }
  destruct (append_import_segment _ _ _) as [b |]; [| apply calm_agree; calm].
  apply agree_bind_0; [apply consume_agree | intros _]. do 2 (apply agree_bind0; [calm | intros]).
  destruct (append_import_segment _ _ _) as [b' |]; [| apply calm_agree; calm]. apply IH; lia.
Qed.

Lemma to_read_le_source s sc l : compile_state s = sc :: l -> (to_read s <= fuel_of (lexer sc))%nat.
Proof.
  intros E. unfold to_read, unread, fuel_of. rewrite E. destruct (p_current sc); [destruct (decide _) |]; lia.
Qed.

Lemma source_fuel_agree {A} n k (f1 f2 : nat -> comp Fex A) :
  (forall m fuel, (m <= n)%nat -> (m < fuel)%nat -> agree m k (f1 fuel) (f2 fuel)) ->
  agree n k (bind source_fuel f1) (bind source_fuel f2).
Proof.
  intros H s Hok Hs. unfold ok in Hok. destruct (compile_state s) as [| sc l] eqn:E; [done |].
  assert (source_fuel s = Done (S (fuel_of (lexer sc))) s) as Ef
    by (unfold source_fuel, bind; by rewrite (scope_eq _ _ _ E)).
  rewrite !(bind_eq _ _ _ _ _ Ef). pose proof (to_read_le_source _ _ _ E).
  apply (H (to_read s)); [done | lia | by unfold ok; rewrite E | done].
Qed.

Lemma import_specifier_agree n :
  agree n 0 (parse_import_specifier spent1 realloc_ok) (parse_import_specifier spent2 realloc_ok).
Proof.
  unfold parse_import_specifier. apply match_agree; [lia | done | intros m -> |].
  { apply calm_agree. unfold parse_string. calm. }
  apply agree_bind_0; [apply consume_agree | intros _]. do 3 (apply agree_bind0; [calm | intros]).
  destruct (negb _); [apply calm_agree; calm |]. destruct (append_import_segment _ _ _); [| apply calm_agree; calm].
  apply source_fuel_agree. intros m fuel Hm Hf. by apply import_segments_agree.
Qed.

(** ** The recursive parser *)

Definition rank (nt : nonterm) : nat :=
  match nt with Precedence_ _ => 1 | Statement => 2 | Declaration => 3 end.

Section Rec.
Context (rec1 rec2 : nonterm -> comp Fex obj) (f f1 f2 : nat).
Hypothesis (Hf1 : (f <= f1)%nat) (Hf2 : (f <= f2)%nat).
(** The recursive calls agree while the fuel lasts. *)
Hypothesis Hrec : forall nt n, (4 * n + rank nt <= f)%nat -> agree n 1 (rec1 nt) (rec2 nt).

Ltac ag_step :=
  match goal with
  | |- agree _ _ (bind (parser_match _ _) _) _ =>
      let m := fresh "m" in let E := fresh "E" in
      apply match_agree; [lia | discriminate | intros m E; try subst | ]
  | |- agree _ _ (bind (rec1 _) _) _ => apply agree_bind1; [lia | apply Hrec; cbn [rank]; lia | intros]
  | |- agree _ _ (bind (expression rec1) _) _ =>
      apply agree_bind1; [lia | unfold expression; apply Hrec; cbn [rank]; lia | intros]
  | |- agree _ _ (bind (consume _ _ _) _) _ => apply agree_bind_0; [apply consume_agree | intros]
  | |- agree _ _ (bind ?m1 _) (bind ?m1 _) => apply agree_bind0; [solve [calm] | intros]
  | |- agree _ _ (if ?b then _ else _) _ => destruct b
  | |- agree _ _ (match ?x with _ => _ end) _ => destruct x
  | |- agree _ 0 ?m ?m => apply calm_agree; solve [calm]
  end.
Ltac ag := repeat ag_step.

Lemma grouping_agree n : (4 * n + 3 <= f)%nat -> agree n 0 (parse_grouping spent1 rec1) (parse_grouping spent2 rec2).
Proof. intros Hn. unfold parse_grouping. ag. Qed.

Lemma unary_agree n : (4 * n + 3 <= f)%nat -> agree n 0 (parse_unary rec1) (parse_unary rec2).
Proof. intros Hn. unfold parse_unary. ag. Qed.

Lemma list_elements_agree n1 n2 n g l :
  (4 * n + 3 <= f)%nat -> (n < n1)%nat -> (n < n2)%nat ->
  agree n 0 (list_elements spent1 rec1 n1 g l) (list_elements spent2 rec2 n2 g l).
Proof.
  revert n2 n l. induction n1 as [| n1 IH]; intros n2 n l Hn H1 H2; [lia |]. destruct n2 as [| n2]; [lia |].
  cbn [list_elements]. ag. apply IH; lia.
Qed.

Lemma list_agree n : (4 * n + 3 <= f)%nat -> agree n 0 (parse_list spent1 rec1 f1) (parse_list spent2 rec2 f2).
Proof.
  intros Hn. unfold parse_list. ag. apply agree_bind_0; [| intros; ag].
  destruct a0; [ag | apply list_elements_agree; lia].
Qed.

Lemma block_loop_agree n1 n2 n l c :
  (4 * n + 3 <= f)%nat -> (n <= n1)%nat -> (n <= n2)%nat ->
  agree n 0 (block_loop spent1 rec1 n1 l c) (block_loop spent2 rec2 n2 l c).
Proof.
  revert n2 n l c. induction n1 as [| n1 IH]; intros n2 n l c Hn H1 H2.
  - cbn [block_loop]. destruct n2; cbn [block_loop]; (apply agree_bind0; [calm | intros close]);
      (apply check_eof_agree; [rewrite orb_true_r; ag | intros m ->; lia]).
  - destruct n2 as [| n2]; cbn [block_loop]; (apply agree_bind0; [calm | intros close]);
      (apply check_eof_agree; [rewrite orb_true_r; ag | intros m ->]); [lia |].
    destruct (close || false); [ag |]. ag. apply IH; lia.
Qed.

Lemma block_agree n : (4 * n + 3 <= f)%nat -> agree n 0 (Parser.block spent1 rec1 f1) (Parser.block spent2 rec2 f2).
Proof.
  intros Hn. unfold Parser.block. apply agree_bind_0; [apply block_loop_agree; lia |]. intros [head count]. ag.
Qed.

Lemma parameters_agree n1 n2 n ps c :
  (n < n1)%nat -> (n < n2)%nat -> agree n 0 (parameters spent1 n1 ps c) (parameters spent2 n2 ps c).
Proof.
  revert n2 n ps c. induction n1 as [| n1 IH]; intros n2 n ps c H1 H2; [lia |]. destruct n2 as [| n2]; [lia |].
  cbn [parameters]. ag. apply IH; lia.
Qed.

Lemma still_reverse_params n ps r : still (reverse_params n ps r).
Proof. revert ps r. induction n as [| n IH]; intros ps r; cbn [reverse_params]; still. Qed.

Lemma fn_agree n : (4 * n + 3 <= f)%nat -> agree n 0 (fn_declaration spent1 rec1 f1) (fn_declaration spent2 rec2 f2).
Proof.
  intros Hn. unfold fn_declaration. ag. apply agree_bind_0.
  { destruct a0; [ag | apply parameters_agree; lia]. }
  intros [ps c]. ag. apply agree_bind0; [apply still_calm, still_reverse_params | intros]. ag.
  apply agree_bind_0; [by apply block_agree | intros; ag].
Qed.

Lemma arguments_agree n1 n2 n l :
  (4 * n + 3 <= f)%nat -> (n < n1)%nat -> (n < n2)%nat ->
  agree n 0 (arguments spent1 rec1 n1 l) (arguments spent2 rec2 n2 l).
Proof.
  revert n2 n l. induction n1 as [| n1 IH]; intros n2 n l Hn H1 H2; [lia |]. destruct n2 as [| n2]; [lia |].
  cbn [arguments]. ag. apply IH; lia.
Qed.

Lemma assignment_agree n l : (4 * n + 3 <= f)%nat -> agree n 0 (parse_assignment rec1 l) (parse_assignment rec2 l).
Proof. intros Hn. unfold parse_assignment, invalid_target. ag. Qed.

Lemma call_agree n l : (4 * n + 3 <= f)%nat -> agree n 0 (parse_call spent1 rec1 f1 l) (parse_call spent2 rec2 f2 l).
Proof.
  intros Hn. unfold parse_call. ag. apply agree_bind_0; [| intros; ag]. destruct a; [ag | apply arguments_agree; lia].
Qed.

Lemma infix_agree n op l :
  (4 * n + 3 <= f)%nat -> agree n 0 (parse_infix spent1 rec1 f1 op l) (parse_infix spent2 rec2 f2 op l).
Proof.
  intros Hn. unfold parse_infix, parse_member, parse_operator.
  ag; [by apply assignment_agree | by apply call_agree].
Qed.

Lemma eof_not_infix t : type t = TOKEN_EOF -> infix (rules (type t)) = false.
Proof. by intros ->. Qed.

(** A state with nothing left to read is at the end of the source. *)
Lemma at_eof s : ok s -> to_read s = 0%nat -> exists sc l t,
  compile_state s = sc :: l /\ p_current sc = Some t /\ type t = TOKEN_EOF.
Proof.
  unfold ok, to_read, unread. destruct (compile_state s) as [| sc l]; [done |]. intros _ H.
  destruct (p_current sc) as [t |] eqn:E; [| done]. destruct (decide (type t = TOKEN_EOF)); [| done]. by exists sc, l, t.
Qed.

Lemma P_current_eq s sc l t : compile_state s = sc :: l -> p_current sc = Some t -> P_current s = Done t s.
Proof. intros E Et. unfold P_current, bind. rewrite (scope_eq _ _ _ E). unfold known. by rewrite Et. Qed.

Lemma infix_loop_agree n1 n2 n p l :
  (4 * n + 3 <= f)%nat -> (n < n1)%nat -> (n < n2)%nat ->
  agree n 0 (infix_loop spent1 rec1 f1 n1 p l) (infix_loop spent2 rec2 f2 n2 p l).
Proof.
  revert n2 n l. induction n1 as [| n1 IH]; intros n2 n l Hn H1 H2; [lia |]. destruct n2 as [| n2]; [lia |].
  destruct n as [| n].
  - intros s Hok Hs. destruct (at_eof s Hok ltac:(lia)) as (sc & l0 & t & Ec & Et & Ht). cbn [infix_loop].
    rewrite !(bind_eq _ _ _ _ _ (P_current_eq _ _ _ _ Ec Et)). rewrite eof_not_infix by done. cbn [andb].
    split; [done |]. intros a s' [= <- <-]. split; [done | lia].
  - cbn [infix_loop]. ag. apply agree_bind1; [lia | apply advance_agree | intros _]. ag.
    apply agree_bind_0; [apply infix_agree; lia |]. intros [lhs | res]; [apply IH; lia | ag].
Qed.

Lemma prefix_agree n p :
  (4 * n + 3 <= f)%nat -> agree n 0 (run_prefix spent1 oob rec1 f1 p) (run_prefix spent2 oob rec2 f2 p).
Proof.
  intros Hn. destruct p; cbn [run_prefix];
    [by apply grouping_agree | by apply list_agree | by apply unary_agree | apply calm_agree; unfold parse_string; calm ..
    | by apply fn_agree].
Qed.

(** A scan at the end of the source leaves the end of the source behind. *)
Lemma advance_at_end s a s' :
  ok s -> to_read s = 0%nat -> parser_advance spent1 s = Done a s' ->
  exists p s'', P_previous s' = Done p s'' /\ type p = TOKEN_EOF.
Proof.
  intros Hok Hr. destruct (at_eof s Hok Hr) as (sc & l & t & Ec & Et & Ht).
  assert (wf (lexer sc) /\ current (lexer sc) = length (Lexer.source (lexer sc))) as [Hw Hend].
  { unfold ok in Hok. rewrite Ec in Hok. destruct Hok as [[Hw He] _]. split; [done | by eapply He]. }
  unfold parser_advance. rewrite !(bind_eq scope _ _ _ _ (scope_eq _ _ _ Ec)).
  rewrite !(bind_eq (set_scope _) _ _ _ _ (set_scope_eq _ _ _ _ Ec)).
  set (sc1 := with_tokens _ _ sc). set (s1 := with_compile_state _ s). unfold fuel_of. cbn [advance_loop].
  rewrite !(bind_eq scope _ _ _ _ (scope_eq s1 sc1 l eq_refl)). change (lexer sc1) with (lexer sc).
  pose proof (scan_end (lexer sc) Hw Hend) as He. destruct (scan_token (lexer sc)) as [t2 lx]. cbn [fst] in He.
  rewrite !(bind_eq (set_scope _) _ _ _ _ (set_scope_eq s1 sc1 _ l eq_refl)).
  rewrite decide_False by congruence. intros [= <- <-]. exists t. eexists. split; [| done].
  unfold P_previous, bind. erewrite scope_eq by done. cbn. by rewrite Et.
Qed.

Lemma precedence_agree n p :
  (4 * n <= f)%nat -> agree n 1 (parse_precedence_new spent1 oob rec1 f1 p) (parse_precedence_new spent2 oob rec2 f2 p).
Proof.
  intros Hn. unfold parse_precedence_new. destruct n as [| n].
  - intros s Hok Hs. destruct (advance_agree 0 s Hok Hs) as [E Hd].
    destruct (parser_advance spent1 s) as [[] s1 | | |] eqn:Ea;
      [| unfold bind; rewrite <- E, Ea; by split..].
    rewrite (bind_eq _ _ _ _ _ Ea), (bind_eq _ _ _ _ _ (eq_sym E)). destruct (Hd tt s1 eq_refl) as [Hok1 Hle].
    destruct (advance_at_end s tt s1 Hok ltac:(lia) Ea) as (t & s2 & Ep & Ht).
    pose proof (still_P_previous _ _ _ Ep) as Es. rewrite !(bind_eq _ _ _ _ _ Ep). rewrite Ht. cbn [rules prefix].
    split; [done |]. intros a s' Hdn. assert (ok s2 /\ to_read s2 = to_read s1) as [Hok2 Hr2] by (unfold ok, to_read in *; by rewrite Es).
    destruct (calm_bind 0 _ (fun _ => ret Nil) (calm_error "Expect expression.") ltac:(intros; calm) s2 a s' Hok2 Hdn).
    split; [done | lia].
  - apply agree_bind1; [lia | apply advance_agree | intros _]. cbn [Nat.sub]. rewrite Nat.sub_0_r. ag.
    apply agree_bind_0; [apply prefix_agree; lia | intros]. apply infix_loop_agree; lia.
Qed.

Lemma module_agree n :
  (4 * n + 3 <= f)%nat -> agree n 0 (module_declaration spent1 rec1 f1) (module_declaration spent2 rec2 f2).
Proof. intros Hn. unfold module_declaration. ag. apply agree_bind_0; [by apply block_agree | intros; ag]. Qed.

Lemma import_agree n :
  agree n 0 (import_declaration spent1 realloc_ok) (import_declaration spent2 realloc_ok).
Proof. unfold import_declaration. apply agree_bind_0; [apply import_specifier_agree | intros; ag]. Qed.

Lemma var_agree n : (4 * n + 3 <= f)%nat -> agree n 0 (var_declaration spent1 rec1) (var_declaration spent2 rec2).
Proof.
  intros Hn. unfold var_declaration. ag.
Qed.

Lemma return_agree n : (4 * n + 3 <= f)%nat -> agree n 0 (return_statement spent1 rec1) (return_statement spent2 rec2).
Proof.
  intros Hn. unfold return_statement. ag. apply agree_bind_0; [| intros; ag]. destruct a; [ag |].
  eapply agree_weaken; [done | | apply Hrec; cbn [rank]; lia]. lia.
Qed.

Lemma if_agree n : (4 * n + 3 <= f)%nat -> agree n 0 (if_statement spent1 rec1) (if_statement spent2 rec2).
Proof.
  intros Hn. unfold if_statement. ag.
Qed.

Lemma while_agree n : (4 * n + 3 <= f)%nat -> agree n 0 (while_statement spent1 rec1) (while_statement spent2 rec2).
Proof. intros Hn. unfold while_statement. ag. Qed.

Lemma synchronize_loop_agree n1 n2 n :
  (n <= n1)%nat -> (n <= n2)%nat -> agree n 0 (synchronize_loop spent1 n1) (synchronize_loop spent2 n2).
Proof.
  revert n2 n. induction n1 as [| n1 IH]; intros n2 n H1 H2; destruct n2 as [| n2]; cbn [synchronize_loop];
    (apply check_eof_agree; [ag | intros m ->]); try lia. ag.
  apply agree_bind1; [lia | apply advance_agree | intros]. apply IH; lia.
Qed.

Lemma synchronize_agree n : (n <= f)%nat -> agree n 0 (synchronize spent1 f1) (synchronize spent2 f2).
Proof.
  intros Hn s Hok Hs. unfold synchronize. unfold ok in Hok. destruct (compile_state s) as [| sc l] eqn:E; [done |].
  rewrite !(bind_eq scope _ _ _ _ (scope_eq _ _ _ E)). rewrite !(bind_eq (set_scope _) _ _ _ _ (set_scope_eq _ _ _ _ E)).
  assert (to_read (with_compile_state (with_flags (p_had_error sc) false sc :: l) s) = to_read s) as Hr
    by (unfold to_read; by rewrite E).
  rewrite <- Hr. apply (synchronize_loop_agree f1 f2 n); [lia | lia | done | lia].
Qed.

Lemma statement_agree n :
  (4 * n + 1 <= f)%nat -> agree n 1 (statement spent1 rec1 f1) (statement spent2 rec2 f2).
Proof.
  intros Hn. unfold statement, expr_statement.
  ag; [apply return_agree; lia | apply if_agree; lia | apply while_agree; lia | apply block_agree; lia].
Qed.

Lemma declaration_agree n :
  (4 * n + 2 <= f)%nat ->
  agree n 1 (declaration spent1 realloc_ok rec1 f1) (declaration spent2 realloc_ok rec2 f2).
Proof.
  intros Hn. assert (forall m b (o : obj), (m <= f)%nat -> agree m 0
    (when b (synchronize spent1 f1) ;;; ret o) (when b (synchronize spent2 f2) ;;; ret o)) as Hsync.
  { intros m b o Hm. apply agree_bind_0; [| intros; ag]. destruct b; [by apply synchronize_agree | cbn [when]; ag]. }
  assert (forall m e, (4 * m + 3 <= f)%nat -> agree m 0 (fn_name_declaration spent1 rec1 f1 e) (fn_name_declaration spent2 rec2 f2 e)) as Hfn.
  { intros m e Hm. unfold fn_name_declaration. ag. apply agree_bind_0; [by apply fn_agree | intros; ag]. }
  unfold declaration. ag; first [apply module_agree; lia | apply import_agree | apply Hfn; lia | apply Hsync; lia
    | apply agree_bind_0; [apply var_agree; lia | intros; ag]].
Qed.

Lemma step_agree nt n :
  (4 * n + rank nt <= S f)%nat ->
  agree n 1 (parse_step spent1 oob realloc_ok rec1 f1 nt) (parse_step spent2 oob realloc_ok rec2 f2 nt).
Proof.
  intros Hn. destruct nt; cbn [rank] in Hn; cbn [parse_step];
    [apply precedence_agree | apply statement_agree | apply declaration_agree]; lia.
Qed.
End Rec.

Lemma parse_agree f : forall f1 f2 nt n,
  (f <= f1)%nat -> (f <= f2)%nat -> (4 * n + rank nt <= f)%nat ->
  agree n 1 (parse spent1 oob realloc_ok f1 nt) (parse spent2 oob realloc_ok f2 nt).
Proof.
  induction f as [| f IH]; intros f1 f2 nt n H1 H2 Hn; [destruct nt; cbn in Hn; lia |].
  destruct f1 as [| f1]; [lia |]. destruct f2 as [| f2]; [lia |]. cbn [parse].
  apply (step_agree _ _ f); [lia | lia | | done]. intros nt' n' Hn'. apply IH; [lia | lia | done].
Qed.

Lemma match_eof_agree {A} n (g1 g2 : bool -> comp Fex A) :
  agree n 0 (g1 true) (g2 true) -> (forall m, n = S m -> agree n 0 (g1 false) (g2 false)) ->
  agree n 0 (bind (parser_match spent1 TOKEN_EOF) g1) (bind (parser_match spent2 TOKEN_EOF) g2).
Proof.
  intros Ht Hf s Hok Hs. unfold parser_match. rewrite !bind_assoc. revert s Hok Hs.
  apply (check_eof_agree n 0
    (fun b => bind (if b then parser_advance spent1 ;;; ret true else ret false) g1)
    (fun b => bind (if b then parser_advance spent2 ;;; ret true else ret false) g2)).
  - intros s Hok Hs. rewrite !bind_assoc. revert s Hok Hs.
    apply agree_bind1; [lia | apply advance_agree |]. intros _. eapply (agree_weaken n); [lia | done | exact Ht].
  - exact Hf.
Qed.

Lemma program_loop_agree f1 f2 n1 n2 n g l c :
  (4 * n + 3 <= f1)%nat -> (4 * n + 3 <= f2)%nat -> (n <= n1)%nat -> (n <= n2)%nat ->
  agree n 0 (program_loop spent1 oob realloc_ok n1 f1 g l c) (program_loop spent2 oob realloc_ok n2 f2 g l c).
Proof.
  revert n2 n l c. induction n1 as [| n1 IH]; intros n2 n l c Hf1 Hf2 H1 H2; destruct n2 as [| n2]; cbn [program_loop];
    (apply match_eof_agree; [apply calm_agree; calm | intros m ->]); try lia.
  unfold push_head. do 2 (apply agree_bind0; [calm | intros]).
  apply agree_bind1; [lia | apply (parse_agree (4 * S m + 3)); cbn [rank]; lia | intros].
  do 4 (apply agree_bind0; [calm | intros]).
  destruct (p_had_error _); [apply calm_agree; calm | apply IH; lia].
Qed.
End Fuel.

Lemma bind_same {A B} n k (m1 m2 : comp Fex A) (g1 g2 : A -> comp Fex B) s :
  ok s -> (to_read s <= n)%nat -> agree n k m1 m2 ->
  (forall a s', ok s' -> (to_read s' <= n - k)%nat -> g1 a s' = g2 a s') -> bind m1 g1 s = bind m2 g2 s.
Proof.
  intros Hok Hs Hm Hg. destruct (Hm s Hok Hs) as [E Hd]. unfold bind. rewrite <- E.
  destruct (m1 s) as [a s' | | |]; try done. destruct (Hd a s' eq_refl). apply Hg; [done | lia].
Qed.

End Scope.

Lemma bind_ext {A B} (m : comp Fex A) (g1 g2 : A -> comp Fex B) s :
  (forall a s', g1 a s' = g2 a s') -> bind m g1 s = bind m g2 s.
Proof. intros H. unfold bind. by destruct (m s). Qed.

Lemma init_ok src s name b :
  c_string src ->
  let s' := with_compile_state (MkScope (init_lexer src) name None None false false b :: compile_state s) s in
  ok (compile_state s, b) s' /\ to_read s' = S (length src).
Proof. intros H. split; [split; [split; [by apply init_wf | done] | done] |]. cbn. lia. Qed.

(** C19. Compiling ends for every source: the recursion and the loops of the
    parser, and the recovery after errors, never use up a bound of four
    levels for each character and three more.  Whatever the model does when
    a bound is used up ([spent1], [spent2]) and however large the bounds
    are, the outcome is the same. *)
Theorem compile_terminates spent1 spent2 oob realloc_ok f1 f2 src name s :
  c_string src -> (4 * length src + 3 <= f1)%nat -> (4 * length src + 3 <= f2)%nat ->
  fex_compile_named spent1 oob realloc_ok f1 src name s = fex_compile_named spent2 oob realloc_ok f2 src name s.
Proof.
  intros Hc H1 H2. unfold fex_compile_named, enter_compile_scope. rewrite !bind_assoc.
  apply bind_ext. intros b s1.
  destruct (init_ok src s1 (default (str "<string>") name) b Hc) as [Hok Hr]. cbv zeta in Hok, Hr.
  set (s2 := with_compile_state _ s1) in *.
  etransitivity; [eapply (bind_eq _ _ s1 tt s2); reflexivity |]. symmetry.
  etransitivity; [eapply (bind_eq _ _ s1 tt s2); reflexivity |]. symmetry.
  apply (bind_same (compile_state s1, b) (S (length src)) 1); [done | lia | apply advance_agree |]. intros _ s3 Hok3 Hr3.
  apply (bind_same (compile_state s1, b) (length src) 0); [done | lia | apply calm_agree, still_calm, still_fe |]. intros g s4 Hok4 Hr4.
  apply (bind_same (compile_state s1, b) (length src) 0); [done | lia | apply program_loop_agree; lia |]. done.
Qed.
