(* ===== verification/ParserProps.v ===== *)
(** * Compiled programs

    Whole programs through the lexer, the parser and the evaluator, and the
    defects the model of the compiler shows. *)

From Stdlib Require Import ZArith Lia Ascii String SpecFloat.
From stdpp Require Import base list.
From S2P Require Import Prelude Number Strtod Memory Budget MapTable MapSpec Slab SlabSpec Span Ctx Gc GcProps Objects Writer Eval Open Lexer LexerSpec Parser ParserSpec.

(** ** Running sources *)

Definition out_of_bound (A : Type) : comp Fex A := no_fuel.

(** A thread with a context of [n] objects and [k] slabs. *)
Definition fresh_fex (n k : nat) (try : bool) : outcome Fex unit :=
  match small_context n k with
  | Done _ c => Done tt (MkFex c [] [] try None [])
  | Raised e c => Raised e (MkFex c [] [] try None [])
  | Stuck => Stuck
  | NoFuel => NoFuel
  end.

Definition compile (text : string) : comp Fex obj :=
  fex_compile out_of_bound oob_x86 (fun _ => true) (4 * String.length text + 3) (str text).
Definition run_string (text : string) : comp Fex obj :=
  fex_do_string out_of_bound oob_x86 (fun _ => true)
    (fe_eval oob_x86 (fun _ => str "?") (fun _ => str "?") (fun _ _ => stuck) (fun _ => stuck) true 1000)
    (4 * String.length text + 3) (str text).

(** The printed result, or what went wrong. *)
Definition printed (n k : nat) (m : comp Fex obj) : string :=
  match fresh_fex n k false with
  | Done _ s =>
      match m s with
      | Done NULL s => string_of_list_ascii (stderr s)
      | Done o s =>
          match fe_tostring (fun _ => str "?") (fun _ => str "?") 100 o 400 (ctx s) with
          | Done (x, _) _ => string_of_list_ascii x
          | _ => "not printed"
          end
      | Raised e _ => e
      | Stuck => "undefined behaviour"
      | NoFuel => "out of fuel"
      end
  | _ => "no context"
  end%string.

Example precedence_of_operators :
  printed 600 200 (compile "let x = 1 + 2 * 3 - 4 == a or !b;")
  = "(let x (or (is (- (+ 1 (* 2 3)) 4) a) (not b)))"%string.
Proof. vm_compute. reflexivity. Qed.

Example assignment_targets :
  printed 600 200 (compile "p.head = 1 :: q.rest; m.key = 0x10; v = f(1, [2, 3]).tail;")
  = "(do (setcar p (cons 1 (get q rest))) (put m key 16) (= v (get (f 1 (list 2 3)) tail)))"%string.
Proof. vm_compute. reflexivity. Qed.

(** Named functions are declared before the other statements of their block,
    so that they can call each other. *)
Example mutual_recursion :
  printed 600 200 (run_string
    "fn even(n) { if (n == 0) return true; return odd(n - 1); } fn odd(n) { if (n == 0) return false; return even(n - 1); } even(7);")
  = "false"%string.
Proof. vm_compute. reflexivity. Qed.

Example compiled_factorial :
  printed 600 200 (run_string "fn fact(n) { if (n <= 1) { return 1; } return n * fact(n - 1); } fact(10);")
  = "3628800"%string.
Proof. vm_compute. reflexivity. Qed.

Example syntax_error_reported :
  printed 600 200 (compile "let = 3;") = "[line 1] Error at '=': Expect variable name.
"%string.
Proof. vm_compute. reflexivity. Qed.

(** ** Defects *)

(** The operand already parsed is not rooted while the next one is: with a
    heap that fills up in between, the collector reuses its cells and the
    compiled program refers to a free cell. *)
Lemma parsed_operand_not_rooted :
  printed 211 200 (run_string "[1,2,3,4,5,6,7,8,9,10];" ;;; compile "(1 + 2) + list(3, 4, 5);")
  = "(+ [free ?] (list 3 4 5))"%string.
Proof. vm_compute. reflexivity. Qed.

(** Inside a try scope the column of a lexical error is read without having
    been set. *)
Lemma lexical_error_column_unset :
  match fresh_fex 300 60 true with Done _ s => compile "x = #;" s | _ => NoFuel end = Stuck.
Proof. vm_compute. reflexivity. Qed.

(** Without one, the message of a lone colon is the rest of the source. *)
Lemma lone_colon_message :
  printed 300 60 (compile "a : b;") = "[line 1] Error: : b;
"%string.
Proof. vm_compute. reflexivity. Qed.

(** The scratch buffer of a number of 64 digits is still allocated after the
    compilation. *)
Lemma long_number_buffer_kept :
  match fresh_fex 300 60 false with
  | Done _ s =>
      match compile "1111111111111111111111111111111111111111111111111111111111111111;" s with
      | Done _ s => length (temp_allocs s)
      | _ => 0%nat
      end
  | _ => 0%nat
  end = 1%nat.
Proof. vm_compute. reflexivity. Qed.

(** ** Witnesses *)

Definition thread : Fex :=
  match fresh_fex 300 60 false with
  | Done _ s => s
  | _ => MkFex (blank_context 0 (raw_arena 0) example_mem (rt_bud example_rt) 0) [] [] false None []
  end.

Lemma compile_terminates_witness :
  c_string (str "while (x < 3) x = x + 1;") /\
  fex_compile_named out_of_bound oob_x86 (fun _ => true) 200 (str "while (x < 3) x = x + 1;") None thread
  = fex_compile_named (fun A => stuck) oob_x86 (fun _ => true) 1000 (str "while (x < 3) x = x + 1;") None thread.
Proof.
  assert (c_string (str "while (x < 3) x = x + 1;")) as H
    by (split; [by apply (bool_decide_unpack _) | vm_compute; reflexivity]).
  split; [exact H |].
  apply (compile_terminates out_of_bound (fun A => stuck) oob_x86 (fun _ => true) 200 1000
           (str "while (x < 3) x = x + 1;") None thread H); vm_compute; lia.
Defined.
