(* ===== verification/ParserFrame.v ===== *)
(** * What the compiler does to the evaluator's stacks

    The compiler pushes roots and gives them back, and it leaves the call
    list, the evaluation depth and the loader as they are: every function of
    the parser keeps the roots below the ones it pushed, also when it ends
    in an error. *)

From Stdlib Require Import ZArith Lia Ascii String.
From stdpp Require Import base list.
From S2P Require Import Prelude Number Strtod Memory Budget MapTable Slab Span Host Ctx Gc Objects Writer Eval Frame EvalFrame Lexer Parser.

(** ** Computations of the compiler *)

(** After an error; a compile error is not an error of fe_error. *)
Record faborted (k : nat) (s s' : Fex) : Prop := {
  fa_reset : try_error s' = None -> was_reset (ctx s');
  fa_depth : in_s 32 (current_eval_depth (ctx s'));
  fa_len : (k <= length (gcstack (ctx s')))%nat;
  fa_roots : take k (gcstack (ctx s')) = take k (gcstack (ctx s));
  fa_scopes : try_scopes (host (ctx s')) = try_scopes (host (ctx s));
  fa_jump : forall e, jump_error (host (ctx s')) = Some e -> fits e
}.

Definition fkeeps {A} (k : nat) (m : comp Fex A) : Prop := forall s, ready k (ctx s) ->
  match m s with
  | Done _ s' => stable k (ctx s) (ctx s') /\ try_error s' = try_error s
  | Raised _ s' => faborted k s s'
  | _ => True
  end.

Lemma fk_bind {A B} k (m : comp Fex A) (f : A -> comp Fex B) :
  fkeeps k m -> (forall a, fkeeps k (f a)) -> fkeeps k (bind m f).
Proof.
  intros Hm Hf s Hs. unfold bind. specialize (Hm s Hs). destruct (m s) as [a s1 | | |]; try done.
  destruct Hm as [H1 H2]. specialize (Hf a s1 (stable_ready _ _ _ Hs H1)). destruct (f a s1); try done.
  - destruct Hf as [F1 F2]. split; [by eapply stable_trans | congruence].
  - destruct Hf. destruct H1 as [? ? ? ? ? []]. split; try done; congruence.
Qed.

(** Steps that leave the context alone. *)
Lemma fk_local {A} k (m : comp Fex A) :
  (forall s, match m s with Done _ s' => ctx s' = ctx s /\ try_error s' = try_error s | Raised _ _ => False | _ => True end) ->
  fkeeps k m.
Proof.
  intros H s [Hk _]. specialize (H s). destruct (m s); try done. destruct H as [-> ->].
  split; [by apply same_stable | done].
Qed.
Lemma fk_ret {A} k (a : A) : fkeeps k (ret a).
Proof. by apply fk_local. Qed.
Lemma fk_get k : fkeeps k (@get Fex).
Proof. by apply fk_local. Qed.
Lemma fk_gets {A} k (f : Fex -> A) : fkeeps k (gets f).
Proof. by apply fk_local. Qed.
Lemma fk_stuck {A} k : fkeeps k (@stuck _ A).
Proof. done. Qed.
Lemma fk_no_fuel {A} k : fkeeps k (@no_fuel _ A).
Proof. done. Qed.

Lemma quiet_keeps {A} k (m : comp fe_Context A) s :
  keeps k m -> ready k (ctx s) ->
  match quiet m s with
  | Done _ s' => stable k (ctx s) (ctx s') /\ try_error s' = try_error s
  | Raised _ s' => aborted k (ctx s) (ctx s')
  | _ => True
  end.
Proof. intros Hm Hs. unfold quiet. specialize (Hm (ctx s) Hs). by destruct (m (ctx s)). Qed.
Lemma fk_quiet {A} k (m : comp fe_Context A) : keeps k m -> fkeeps k (quiet m).
Proof.
  intros Hm s Hs. pose proof (quiet_keeps k m s Hm Hs) as H. destruct (quiet m s); try done. by destruct H.
Qed.

(** ** The cleanup of an error *)

(** Only memory is released. *)
Definition releases (m : comp Fex unit) : Prop := forall s,
  match m s with
  | Done _ s' => same (ctx s) (ctx s') /\ try_error s' = try_error s
  | _ => True
  end.
Lemma releases_bind m1 m2 : releases m1 -> releases m2 -> releases (m1 ;;; m2).
Proof.
  intros H1 H2 s. unfold bind. specialize (H1 s). destruct (m1 s) as [[] s1 | | |]; try done.
  destruct H1 as [E1 E2]. specialize (H2 s1). destruct (m2 s1); try done.
  destruct H2 as [F1 F2]. split; [by etrans | congruence].
Qed.
Lemma releases_free b : releases (tracked_free_fex b).
Proof.
  intros s. unfold tracked_free_fex, quiet. pose proof (inert_lift_rt (lift_mem (tracked_free (Some b))) (ctx s)) as H.
  unfold lift_memory. by destruct (lift_rt _ (ctx s)).
Qed.
Lemma releases_scope : releases leave_compile_scope.
Proof.
  intros s. unfold leave_compile_scope. unfold bind at 1, get. destruct (compile_state s) as [| sc l]; [done |].
  unfold bind, put. pose proof (releases_free (scope_block sc) (with_compile_state l s)) as H.
  by destruct (tracked_free_fex _ _).
Qed.
Lemma releases_all l : releases (leave_all l).
Proof. induction l as [| sc l IH]; [done |]. apply releases_bind; [apply releases_scope | done]. Qed.
Lemma releases_compile : releases fex_compile_cleanup_ctx.
Proof. intros s. apply (releases_all (compile_state s) s). Qed.
Lemma releases_temps : releases fex_temp_cleanup_all.
Proof.
  intros s. unfold fex_temp_cleanup_all. unfold bind at 1, get.
  assert (forall l, releases (free_temps l)) as H
    by (induction l; [done | by apply releases_bind; [apply releases_free |]]).
  specialize (H (temp_allocs s) s). unfold bind, modify. by destruct (free_temps _ s).
Qed.
Lemma releases_cleanup : releases (fex_compile_cleanup_ctx ;;; fex_temp_cleanup_all).
Proof. apply releases_bind; [apply releases_compile | apply releases_temps]. Qed.

Lemma fk_fe {A} k (m : comp fe_Context A) : keeps k m -> fkeeps k (fe m).
Proof.
  intros Hm s Hs. pose proof (quiet_keeps k m s Hm Hs) as H. unfold fe. destruct (quiet m s) as [| e s1 | |]; try done.
  pose proof (releases_cleanup s1) as Hr. destruct (bind _ _ s1) as [u s2 | | |]; try done.
  destruct Hr as [[E1 E2 E3 E4 E5] _]. destruct H as [Hw Hd Hl Ht Hc Hj]. unfold was_reset in *.
  split; unfold was_reset; rewrite ?E1, ?E2, ?E4, ?E5; auto.
Qed.

(** ** Automation *)

Lemma inert_fe_cdr_ptr o : inert (fe_cdr_ptr o).
Proof. unfold fe_cdr_ptr. inert. Qed.
#[export] Hint Resolve inert_fe_cdr_ptr : inert.
Lemma inert_append_cell l cell : inert (append_cell l cell).
Proof. unfold append_cell. inert. Qed.
#[export] Hint Resolve inert_append_cell : inert.
Lemma keeps_fe_string k s : keeps k (fe_string s).
Proof. unfold fe_string. keeps. Qed.
#[export] Hint Resolve keeps_fe_string : keeps.

Create HintDb fk.
#[export] Hint Resolve fk_ret fk_get fk_gets fk_stuck fk_no_fuel : fk.
#[export] Hint Extern 1 (fkeeps _ (fe _)) => apply fk_fe; by keeps : fk.
#[export] Hint Extern 1 (fkeeps _ (quiet _)) => apply fk_quiet; by keeps : fk.
#[export] Hint Extern 1 (fkeeps _ (modify _)) => apply fk_local; by intros ? : fk.

Lemma fk_savegc {B} k (f : nat -> comp Fex B) :
  (forall i, (k <= i)%nat -> fkeeps k (f i)) -> fkeeps k (bind (fe fe_savegc) f).
Proof.
  intros Hf s Hs. unfold bind, fe, quiet, fe_savegc, gets. destruct s as [c ? ? ? ? ?].
  by apply (Hf (length (gcstack c)) (proj1 Hs)).
Qed.

Ltac fk :=
  repeat (cbv beta iota zeta; match goal with
    | |- fkeeps _ (bind (fe fe_savegc) _) => apply fk_savegc; intros ? ?
    | |- fkeeps _ (bind _ _) => apply fk_bind; [| intros ?]
    | |- fkeeps _ (match ?x with _ => _ end) => destruct x
    | |- fkeeps _ (when _ _) => unfold when
    | |- fkeeps _ _ => by auto with fk
    end).

Lemma fk_scope k : fkeeps k scope.
Proof. apply fk_local. intros s. unfold scope, bind, get. by destruct (compile_state s). Qed.
Lemma fk_set_scope k sc : fkeeps k (set_scope sc).
Proof. apply fk_local. intros s. unfold set_scope, bind, get. by destruct (compile_state s). Qed.
Lemma fk_known {A} k (o : option A) : fkeeps k (known o).
Proof. apply fk_local. intros s. by destruct o. Qed.
#[export] Hint Resolve fk_scope fk_set_scope fk_known : fk.
Lemma fk_current k : fkeeps k P_current.
Proof. unfold P_current. fk. Qed.
Lemma fk_previous k : fkeeps k P_previous.
Proof. unfold P_previous. fk. Qed.
Lemma fk_token_chars k t : fkeeps k (token_chars t).
Proof. unfold token_chars. fk. Qed.
Lemma fk_token_start k t : fkeeps k (token_start t).
Proof. unfold token_start. fk. Qed.
Lemma fk_fprintf k x : fkeeps k (fprintf x).
Proof. unfold fprintf. fk. Qed.
#[export] Hint Resolve fk_current fk_previous fk_token_chars fk_token_start fk_fprintf : fk.

Lemma fk_temp_alloc k size : fkeeps k (fex_temp_alloc size).
Proof. unfold fex_temp_alloc. fk. Qed.
Lemma fk_temp_free k b : fkeeps k (fex_temp_free b).
Proof. unfold fex_temp_free. fk. Qed.
Lemma fk_enter k src name : fkeeps k (enter_compile_scope src name).
Proof. unfold enter_compile_scope. fk. Qed.
Lemma fk_leave k : fkeeps k leave_compile_scope.
Proof.
  intros s Hs. unfold leave_compile_scope. unfold bind at 1, get. destruct (compile_state s) as [| sc l].
  { by apply (fk_ret k tt s). }
  unfold bind, put, tracked_free_fex.
  pose proof (fk_quiet k (lift_memory (tracked_free (Some (scope_block sc)))) ltac:(by keeps) (with_compile_state l s) Hs) as H.
  destruct (quiet _ _); try done. by destruct H.
Qed.
#[export] Hint Resolve fk_temp_alloc fk_temp_free fk_enter fk_leave : fk.

(** A compile error inside a protected call. *)
Lemma fk_compile_error k e msg : fkeeps k (modify (with_try_error e) ;;; (fun s => Raised msg s) : comp Fex unit).
Proof. intros s (Hk & Hd & Hj). split; try done. intros e'. simpl. by rewrite Hj. Qed.
Lemma fk_error_at k t message : fkeeps k (error_at t message).
Proof.
  unfold error_at. apply fk_bind; [by auto with fk | intros s]. apply fk_bind; [by auto with fk | intros sc].
  destruct (try_active s); [| fk]. apply fk_bind; [by auto with fk | intros col]. apply fk_compile_error.
Qed.
#[export] Hint Resolve fk_error_at : fk.
Lemma fk_error_at_current k message : fkeeps k (error_at_current message).
Proof. unfold error_at_current. fk. Qed.
Lemma fk_error k message : fkeeps k (error message).
Proof. unfold error. fk. Qed.
#[export] Hint Resolve fk_error_at_current fk_error : fk.

(** ** The parser *)

Section Parse.
Context (spent : forall A, comp Fex A) (oob : double -> Z) (realloc_ok : Z -> bool).
Context (Hspent : forall A k, fkeeps k (spent A)).
#[local] Hint Resolve Hspent : fk.

Lemma fk_advance_loop k fuel : fkeeps k (advance_loop spent fuel).
Proof.
  induction fuel as [| f IH]; cbn [advance_loop]; [by auto with fk |]. apply fk_bind; [by auto with fk | intros sc].
  destruct (scan_token _) as [t lx]. fk.
Qed.
#[local] Hint Resolve fk_advance_loop : fk.
Lemma fk_advance k : fkeeps k (parser_advance spent).
Proof. unfold parser_advance. fk. Qed.
Lemma fk_check k t : fkeeps k (check t).
Proof. unfold check. fk. Qed.
#[local] Hint Resolve fk_advance fk_check : fk.
Lemma fk_consume k t m : fkeeps k (consume spent t m).
Proof. unfold consume. fk. Qed.
Lemma fk_match k t : fkeeps k (parser_match spent t).
Proof. unfold parser_match. fk. Qed.
#[local] Hint Resolve fk_consume fk_match : fk.

Lemma fk_record_span k o sl sc el ec x name : fkeeps k (record_span o sl sc el ec x name).
Proof. unfold record_span. fk. Qed.
#[local] Hint Resolve fk_record_span : fk.
Lemma fk_cons_tok k a d t1 t2 : fkeeps k (fex_cons_tok a d t1 t2).
Proof. unfold fex_cons_tok. fk. Qed.
#[local] Hint Resolve fk_cons_tok : fk.
Lemma fk_CONS1 k a d : fkeeps k (CONS1 a d).
Proof. unfold CONS1. fk. Qed.
Lemma fk_symbol_from_token k t : fkeeps k (symbol_from_token t).
Proof. unfold symbol_from_token. fk. Qed.
#[local] Hint Resolve fk_CONS1 fk_symbol_from_token : fk.
Lemma fk_guarded k m : fkeeps k m -> fkeeps k (guarded m).
Proof. intros H. unfold guarded. fk. Qed.
#[local] Hint Extern 1 (fkeeps _ (guarded _)) => apply fk_guarded; fk : fk.
Lemma fk_make_unary k op a : fkeeps k (make_unary op a).
Proof. unfold make_unary. fk. Qed.
Lemma fk_make_binary k op a b : fkeeps k (make_binary op a b).
Proof. unfold make_binary. fk. Qed.
Lemma fk_make_ternary k op a b c : fkeeps k (make_ternary op a b c).
Proof. unfold make_ternary. fk. Qed.
Lemma fk_lookup_span k o : fkeeps k (lookup_span o).
Proof. unfold lookup_span. fk. Qed.
#[local] Hint Resolve fk_make_unary fk_make_binary fk_make_ternary fk_lookup_span : fk.
Lemma fk_copy_span k a b : fkeeps k (copy_span_from a b).
Proof. unfold copy_span_from. fk. Qed.
#[local] Hint Resolve fk_copy_span : fk.
Lemma fk_named_fn k a b x : fkeeps k (make_named_fn_decl a b x).
Proof. unfold make_named_fn_decl. fk. Qed.
Lemma fk_extract k o : fkeeps k (extract_named_fn_decl o).
Proof. unfold extract_named_fn_decl. fk. Qed.
Lemma fk_do_two k a b c : fkeeps k (make_do_two_with_span a b c).
Proof. unfold make_do_two_with_span. fk. Qed.
Lemma fk_do_three k a b c d : fkeeps k (make_do_three_with_span a b c d).
Proof. unfold make_do_three_with_span. fk. Qed.
Lemma fk_store_cdr k a b : fkeeps k (store_cdr a b).
Proof. unfold store_cdr. fk. Qed.
#[local] Hint Resolve fk_named_fn fk_extract fk_do_two fk_do_three fk_store_cdr : fk.

(** *** Hoisting *)

Lemma fk_for_each {A} k fuel (body : A -> obj -> comp Fex A) acc p :
  (forall acc o, fkeeps k (body acc o)) -> fkeeps k (for_each fuel body acc p).
Proof. intros H. revert acc p. induction fuel as [| f IH]; intros acc p; cbn [for_each]; fk. Qed.
Lemma fk_count_decl k n o : fkeeps k (count_decl n o).
Proof. unfold count_decl. fk. Qed.
Lemma fk_predeclare k g tail o : (k <= g)%nat -> fkeeps k (predeclare g tail o).
Proof. intros. unfold predeclare. fk. Qed.
Lemma fk_rewrite_decl k g tail o : (k <= g)%nat -> fkeeps k (rewrite_decl g tail o).
Proof. intros. unfold rewrite_decl. fk. Qed.
#[local] Hint Extern 1 (fkeeps _ (for_each _ _ _ _)) => apply fk_for_each; intros ? ? : fk.
#[local] Hint Resolve fk_count_decl fk_predeclare fk_rewrite_decl : fk.
Lemma fk_heap_fuel k : fkeeps k heap_fuel.
Proof. unfold heap_fuel. fk. Qed.
#[local] Hint Resolve fk_heap_fuel : fk.
Lemma fk_rewrite k o n : fkeeps k (rewrite_named_fn_declarations o n).
Proof. unfold rewrite_named_fn_declarations. fk. Qed.
#[local] Hint Resolve fk_rewrite : fk.

(** *** Literals *)

Lemma fk_parse_number k : fkeeps k (parse_number oob).
Proof. unfold parse_number. fk. Qed.
Lemma fk_oom_import k : fkeeps k out_of_memory_in_import.
Proof. unfold out_of_memory_in_import. fk. Qed.
Lemma fk_parse_string_literal k x : fkeeps k (parse_string_literal x).
Proof. unfold parse_string_literal. fk. Qed.
#[local] Hint Resolve fk_parse_number fk_oom_import fk_parse_string_literal : fk.
Lemma fk_parse_string k : fkeeps k parse_string.
Proof. unfold parse_string. fk. Qed.
Lemma fk_import_segments k f b : fkeeps k (import_segments spent realloc_ok f b).
Proof. revert b. induction f as [| f IH]; intros b; cbn [import_segments]; fk. Qed.
Lemma fk_source_fuel k : fkeeps k source_fuel.
Proof. unfold source_fuel. fk. Qed.
#[local] Hint Resolve fk_parse_string fk_import_segments fk_source_fuel : fk.
Lemma fk_import_specifier k : fkeeps k (parse_import_specifier spent realloc_ok).
Proof. unfold parse_import_specifier. fk. Qed.
Lemma fk_parse_literal k : fkeeps k parse_literal.
Proof. unfold parse_literal. fk. Qed.
Lemma fk_parse_variable k : fkeeps k parse_variable.
Proof. unfold parse_variable. fk. Qed.
Lemma fk_setter k p : fkeeps k (selector_setter_name p).
Proof. unfold selector_setter_name. fk. Qed.
Lemma fk_snoc k l c : fkeeps k (snoc l c).
Proof. unfold snoc. fk. Qed.
#[local] Hint Resolve fk_import_specifier fk_parse_literal fk_parse_variable fk_setter fk_snoc : fk.

(** *** Expressions and statements *)

Section Rec.
Context (rec : nonterm -> comp Fex obj) (fuel : nat) (Hrec : forall k nt, fkeeps k (rec nt)).
#[local] Hint Resolve Hrec : fk.

Lemma fk_expression k : fkeeps k (expression rec).
Proof. unfold expression. fk. Qed.
#[local] Hint Resolve fk_expression : fk.
Lemma fk_grouping k : fkeeps k (parse_grouping spent rec).
Proof. unfold parse_grouping. fk. Qed.
Lemma fk_unary k : fkeeps k (parse_unary rec).
Proof. unfold parse_unary. fk. Qed.
Lemma fk_list_elements k n g l : (k <= g)%nat -> fkeeps k (list_elements spent rec n g l).
Proof. intros Hg. revert l. induction n as [| n IH]; intros l; cbn [list_elements]; fk. Qed.
#[local] Hint Resolve fk_grouping fk_unary fk_list_elements : fk.
Lemma fk_parse_list k : fkeeps k (parse_list spent rec fuel).
Proof. unfold parse_list. fk. Qed.
Lemma fk_block_loop k n l c : fkeeps k (block_loop spent rec n l c).
Proof. revert l c. induction n as [| n IH]; intros l c; cbn [block_loop]; fk. Qed.
#[local] Hint Resolve fk_parse_list fk_block_loop : fk.
Lemma fk_block k : fkeeps k (block spent rec fuel).
Proof. unfold block. fk. Qed.
Lemma fk_parameters k n p c : fkeeps k (parameters spent n p c).
Proof. revert p c. induction n as [| n IH]; intros p c; cbn [parameters]; fk. Qed.
Lemma fk_reverse k n p r : fkeeps k (reverse_params n p r).
Proof. revert p r. induction n as [| n IH]; intros p r; cbn [reverse_params]; fk. Qed.
#[local] Hint Resolve fk_block fk_parameters fk_reverse : fk.
Lemma fk_fn_declaration k : fkeeps k (fn_declaration spent rec fuel).
Proof. unfold fn_declaration. fk. Qed.
#[local] Hint Resolve fk_fn_declaration : fk.
Lemma fk_prefix k f : fkeeps k (run_prefix spent oob rec fuel f).
Proof. unfold run_prefix, fn_expression. fk. Qed.
Lemma fk_invalid k : fkeeps k invalid_target.
Proof. unfold invalid_target. fk. Qed.
#[local] Hint Resolve fk_prefix fk_invalid : fk.
Lemma fk_assignment k lhs : fkeeps k (parse_assignment rec lhs).
Proof. unfold parse_assignment. fk. Qed.
Lemma fk_arguments k n l : fkeeps k (arguments spent rec n l).
Proof. revert l. induction n as [| n IH]; intros l; cbn [arguments]; fk. Qed.
#[local] Hint Resolve fk_assignment fk_arguments : fk.
Lemma fk_call k lhs : fkeeps k (parse_call spent rec fuel lhs).
Proof. unfold parse_call. fk. Qed.
Lemma fk_member k lhs : fkeeps k (parse_member spent lhs).
Proof. unfold parse_member. fk. Qed.
Lemma fk_operator k op lhs : fkeeps k (parse_operator rec op lhs).
Proof. unfold parse_operator. fk. Qed.
#[local] Hint Resolve fk_call fk_member fk_operator : fk.
Lemma fk_infix k op lhs : fkeeps k (parse_infix spent rec fuel op lhs).
Proof. unfold parse_infix. fk. Qed.
#[local] Hint Resolve fk_infix : fk.
Lemma fk_infix_loop k n prec lhs : fkeeps k (infix_loop spent rec fuel n prec lhs).
Proof. revert lhs. induction n as [| n IH]; intros lhs; cbn [infix_loop]; fk. Qed.
#[local] Hint Resolve fk_infix_loop : fk.
Lemma fk_precedence k prec : fkeeps k (parse_precedence_new spent oob rec fuel prec).
Proof. unfold parse_precedence_new. fk. Qed.
Lemma fk_module k : fkeeps k (module_declaration spent rec fuel).
Proof. unfold module_declaration. fk. Qed.
Lemma fk_import k : fkeeps k (import_declaration spent realloc_ok).
Proof. unfold import_declaration. fk. Qed.
Lemma fk_var k : fkeeps k (var_declaration spent rec).
Proof. unfold var_declaration. fk. Qed.
Lemma fk_expr_statement k : fkeeps k (expr_statement spent rec).
Proof. unfold expr_statement. fk. Qed.
Lemma fk_return k : fkeeps k (return_statement spent rec).
Proof. unfold return_statement. fk. Qed.
Lemma fk_if k : fkeeps k (if_statement spent rec).
Proof. unfold if_statement. fk. Qed.
Lemma fk_while k : fkeeps k (while_statement spent rec).
Proof. unfold while_statement. fk. Qed.
Lemma fk_synchronize_loop k n : fkeeps k (synchronize_loop spent n).
Proof. induction n as [| n IH]; cbn [synchronize_loop]; fk. Qed.
#[local] Hint Resolve fk_precedence fk_module fk_import fk_var fk_expr_statement fk_return fk_if fk_while
  fk_synchronize_loop : fk.
Lemma fk_synchronize k : fkeeps k (synchronize spent fuel).
Proof. unfold synchronize. fk. Qed.
Lemma fk_statement k : fkeeps k (statement spent rec fuel).
Proof. unfold statement. fk. Qed.
Lemma fk_fn_name k x : fkeeps k (fn_name_declaration spent rec fuel x).
Proof. unfold fn_name_declaration. fk. Qed.
#[local] Hint Resolve fk_synchronize fk_statement fk_fn_name : fk.
Lemma fk_declaration k : fkeeps k (declaration spent realloc_ok rec fuel).
Proof. unfold declaration. fk. Qed.
#[local] Hint Resolve fk_declaration : fk.
Lemma fk_step k nt : fkeeps k (parse_step spent oob realloc_ok rec fuel nt).
Proof. unfold parse_step. fk. Qed.
End Rec.

Lemma fk_parse fuel k nt : fkeeps k (parse spent oob realloc_ok fuel nt).
Proof. revert k nt. induction fuel as [| f IH]; intros k nt; cbn [parse]; [by auto with fk | by apply fk_step]. Qed.
#[local] Hint Resolve fk_parse : fk.

(** *** Programs *)

Lemma fk_push_head k o : fkeeps k (push_head o).
Proof. unfold push_head. fk. Qed.
#[local] Hint Resolve fk_push_head : fk.
Lemma fk_program_loop k n fuel g l c :
  (k <= g)%nat -> fkeeps k (program_loop spent oob realloc_ok n fuel g l c).
Proof. intros Hg. revert l c. induction n as [| n IH]; intros l c; cbn [program_loop]; fk. Qed.
#[local] Hint Resolve fk_program_loop : fk.
Lemma fk_compile k fuel src name : fkeeps k (fex_compile_named spent oob realloc_ok fuel src name).
Proof. unfold fex_compile_named. fk. Qed.
#[local] Hint Resolve fk_compile : fk.
Lemma fk_do_string k eval_ fuel src name :
  (forall k o, keeps k (eval_ o)) -> fkeeps k (fex_do_string_named spent oob realloc_ok eval_ fuel src name).
Proof.
  intros He. unfold fex_do_string_named. apply fk_savegc. intros i Hi. apply fk_bind; [by auto with fk | intros code].
  destruct (decide _); [fk |]. apply fk_bind; [by auto with fk | intros _].
  apply fk_bind; [by apply fk_fe | intros res]. fk.
Qed.
End Parse.
