(* ===== verification/Builtins.v ===== *)
(** * Shared helpers of the extended builtins (src/fex_builtins.c)

    Argument checks, abort polling, growing text buffers, and the copies of
    string and byte objects the builtins work on.  Scratch memory comes from
    the C library, not from the tracked allocator: [malloc_ok] is its answer
    to a request, and releasing it has no effect on the state. *)

From Stdlib Require Import ZArith Lia Ascii String SpecFloat.
From stdpp Require Import base list.
From S2P Require Import Prelude Number Strtod Memory Budget MapTable Slab SlabSpec Span Ctx Gc Objects Writer.

(** ** Arguments *)

(** The message of a failed check: [func_name ": ..."]. *)
Definition named (func_name what : string) : string := (func_name ++ ": " ++ what)%string.

Fixpoint count_args (fuel : nat) (temp : obj) (count : Z) : comp fe_Context Z :=
  if isnil temp then ret count
  else match fuel with
       | O => no_fuel
       | S f => let* temp := fe_cdr temp in count_args f temp (i32 (count + 1))
       end.

Definition FEX_CHECK_ARGS (args : obj) (min_count : Z) (func_name : string) : comp fe_Context unit :=
  let* c := get in
  let* count := count_args (list_fuel c) args 0 in
  if count <? min_count then fe_error (named func_name "insufficient arguments") else ret tt.

Definition FEX_CHECK_NO_ARGS (args : obj) (func_name : string) : comp fe_Context unit :=
  if isnil args then ret tt else fe_error (named func_name "no arguments expected").

Definition FEX_CHECK_TYPE (o : obj) (expected : fe_type) (func_name : string) : comp fe_Context unit :=
  let* t := type_of o in
  if decide (t = expected) then ret tt else fe_error (named func_name "type mismatch").

(** One argument, when it is there. *)
Definition optional_arg (args : obj) : comp fe_Context (obj * obj) :=
  if isnil args then ret (Nil, args) else fe_nextarg args.

(** ** Numbers *)

(** [(int)v]; the conversion is undefined out of range, and [oob] is what the
    platform returns then. *)
Definition double_to_int (oob : double -> Z) (v : double) : Z :=
  match trunc v with
  | Some z => if decide (in_s 32 z) then z else oob v
  | None => oob v
  end.

Definition fe_tonumber (o : obj) : comp fe_Context double := nval o.

(** ** Polling *)

Definition FEX_BUILTIN_ABORT_CHECK_INTERVAL : Z := 64.
Definition FEX_FILE_IO_CHUNK_SIZE : nat := 16384.

Definition builtin_poll_abort (countdown : Z) : comp Budget (option string * Z) :=
  if 1 <? countdown then ret (None, countdown - 1)
  else let* r := fe_poll_abort in ret (r, FEX_BUILTIN_ABORT_CHECK_INTERVAL).

(** A poll whose abort message goes to fe_error. *)
Definition builtin_poll (countdown : Z) : comp Budget Z :=
  let* '(r, cd) := builtin_poll_abort countdown in
  raise_abort r ;;; ret cd.

(** ** Text buffers *)

Record TextBuffer := MkBuf { buf_data : chars; buf_cap : Z }.
Definition empty_buffer : TextBuffer := MkBuf [] 0.
Definition buf_len (b : TextBuffer) : Z := Z.of_nat (length (buf_data b)).

Section Malloc.
Context (malloc_ok : Z -> bool).

(** Nothing when the buffer cannot grow. *)
Definition buf_reserve (buf : TextBuffer) (extra : Z) : option TextBuffer :=
  let needed := buf_len buf + extra + 1 in
  if needed <=? buf_cap buf then Some buf
  else
    let new_cap := doubled 64 (if 0 <? buf_cap buf then buf_cap buf else 64) needed in
    if malloc_ok new_cap then Some (MkBuf (buf_data buf) new_cap) else None.

Definition buf_append_mem (buf : TextBuffer) (data : chars) : option TextBuffer :=
  b ← buf_reserve buf (Z.of_nat (length data));
  Some (MkBuf (buf_data b ++ data) (buf_cap b)).

Definition buf_append_str (buf : TextBuffer) (s : string) : option TextBuffer :=
  buf_append_mem buf (str s).

Definition buf_append_char (buf : TextBuffer) (ch : ascii) : option TextBuffer :=
  b ← buf_reserve buf 1;
  Some (MkBuf (buf_data b ++ [ch]) (buf_cap b)).

(** The bytes of a code point below 2^16. *)
Definition utf8_bytes (codepoint : Z) : option chars :=
  if codepoint <=? 0x7F then Some [chr codepoint]
  else if codepoint <=? 0x7FF then
    Some [chr (Z.lor 0xC0 (Z.land (Z.shiftr codepoint 6) 0x1F)); chr (Z.lor 0x80 (Z.land codepoint 0x3F))]
  else if codepoint <=? 0xFFFF then
    Some [chr (Z.lor 0xE0 (Z.land (Z.shiftr codepoint 12) 0x0F));
          chr (Z.lor 0x80 (Z.land (Z.shiftr codepoint 6) 0x3F));
          chr (Z.lor 0x80 (Z.land codepoint 0x3F))]
  else None.

Definition buf_append_utf8 (buf : TextBuffer) (codepoint : Z) : option TextBuffer :=
  bytes ← utf8_bytes codepoint;
  match bytes with
  | [ch] => buf_append_char buf ch
  | _ => buf_append_mem buf bytes
  end.

(** The copy in chunks; an abort is raised, a failed growth is [None]. *)
Fixpoint append_chunks (fuel : nat) (buf : TextBuffer) (data : chars) (cd : Z)
    : comp Budget (option TextBuffer * Z) :=
  match data with
  | [] => ret (Some buf, cd)
  | _ =>
      match fuel with
      | O => no_fuel
      | S f =>
          let* cd := builtin_poll cd in
          match buf_append_mem buf (take FEX_FILE_IO_CHUNK_SIZE data) with
          | None => ret (None, cd)
          | Some buf => append_chunks f buf (drop FEX_FILE_IO_CHUNK_SIZE data) cd
          end
      end
  end.
Definition buf_append_mem_polling (buf : TextBuffer) (data : chars) (cd : Z)
    : comp Budget (option TextBuffer * Z) := append_chunks (length data) buf data cd.

(** ** Copies of objects *)

(** [fe_tostring] of a string into a buffer of [capacity] bytes. *)
Definition text_of (o : obj) (capacity : Z) : comp fe_Context chars :=
  let* '(s, _) := fe_tostring (fun _ => []) (fun _ => []) 1 o capacity in ret s.

Definition fe_strlen (o : obj) : comp fe_Context Z :=
  let* '(len, _) := str_fields o in ret (Z.of_nat len).
Definition fe_byteslen (o : obj) : comp fe_Context Z :=
  let* o := checktype o FE_TBYTES in fe_strlen o.
Definition copy_bytes (o : obj) (offset size : Z) : comp fe_Context chars :=
  let* o := checktype o FE_TBYTES in
  let* '(len, off) := str_fields o in
  lift_arena (fe_bytescopy len off offset size).

Definition is_string (o : obj) (func_name : string) : comp fe_Context unit := FEX_CHECK_TYPE o FE_TSTRING func_name.

Definition string_to_buffer (o : obj) (func_name : string) : comp fe_Context chars :=
  is_string o func_name ;;;
  let* len := fe_strlen o in
  if INT_MAX <? len + 1 then fe_error (named func_name "string too large")
  else if negb (malloc_ok (len + 1)) then fe_error (named func_name "out of memory")
  else text_of o (len + 1).

Definition string_to_cstr (o : obj) (func_name : string) : comp fe_Context chars :=
  let* text := string_to_buffer o func_name in
  if bool_decide (zero ∈ text)
  then fe_error (named func_name "strings containing NUL bytes are not allowed")
  else ret text.

Definition bytes_to_buffer (o : obj) (func_name : string) : comp fe_Context chars :=
  FEX_CHECK_TYPE o FE_TBYTES func_name ;;;
  let* len := fe_byteslen o in
  if negb (malloc_ok (if 0 <? len then len else 1)) then fe_error (named func_name "out of memory")
  else if 0 <? len then copy_bytes o 0 len else ret [].

Definition string_to_bytes (o : obj) (func_name : string) : comp fe_Context obj :=
  is_string o func_name ;;;
  let* len := fe_strlen o in
  if (0 <? len) && (INT_MAX <? len + 1) then fe_error "tobytes: string too large"
  else if negb (malloc_ok (if 0 <? len then len + 1 else 1)) then fe_error "tobytes: out of memory"
  else
    let* text := (if 0 <? len then text_of o (len + 1) else ret []) in
    fe_bytes text.
End Malloc.

Definition copy_string_to_fixed_buffer (o : obj) (func_name : string) (capacity : Z) : comp fe_Context chars :=
  is_string o func_name ;;;
  let* len := fe_strlen o in
  if capacity <? len + 1 then fe_error (named func_name "string too long")
  else text_of o capacity.

(** ** Searching *)

Fixpoint bytes_contains_byte (set : chars) (value : ascii) : bool :=
  match set with
  | [] => false
  | ch :: set => bool_decide (ch = value) || bytes_contains_byte set value
  end.

(** The positions from [i] on; [fuel] counts them. *)
Fixpoint sequence_from (fuel i : nat) (haystack needle : chars) : bool :=
  match fuel with
  | O => false
  | S f =>
      if decide (i + length needle <= length haystack)%nat then
        bool_decide (take (length needle) (drop i haystack) = needle) || sequence_from f (S i) haystack needle
      else false
  end.
Definition bytes_contains_sequence (haystack needle : chars) : bool :=
  match needle with
  | [] => true
  | _ =>
      if (length haystack <? length needle)%nat then false
      else sequence_from (S (length haystack)) 0 haystack needle
  end.

Definition is_path_separator_char (ch : ascii) : bool :=
  bool_decide (ch = "/"%char) || bool_decide (ch = ascii_of_nat 92).
