(* ===== verification/BuiltinsText.v ===== *)
(** * String and byte builtins (src/fex_builtins.c: builtin_string_length to
    builtin_bytes_slice) *)

From Stdlib Require Import ZArith Lia Ascii String SpecFloat.
From stdpp Require Import base list.
From S2P Require Import Prelude Number Strtod Memory Budget MapTable Slab SlabSpec Span Ctx Gc Objects Writer Builtins.

(** ** The loops *)

(** A loop over the characters that polls and rewrites each. *)
Fixpoint map_polling (f : ascii -> ascii) (s : chars) (cd : Z) : comp Budget chars :=
  match s with
  | [] => ret []
  | ch :: s =>
      let* cd := builtin_poll cd in
      let* s := map_polling f s cd in
      ret (f ch :: s)
  end.

(** toupper in the C locale; tolower is [to_lower]. *)
Definition to_upper (ch : ascii) : ascii :=
  if (97 <=? code ch) && (code ch <=? 122) then chr (code ch - 32) else ch.

(** [while (start < len && isspace(buffer[start]))]: what is left. *)
Fixpoint skip_spaces (s : chars) (cd : Z) : comp Budget (chars * Z) :=
  match s with
  | ch :: rest =>
      if is_space ch then let* cd := builtin_poll cd in skip_spaces rest cd else ret (s, cd)
  | [] => ret ([], cd)
  end.

(** The leading blanks, then the trailing ones from the end. *)
Definition trimmed (s : chars) : comp Budget chars :=
  let* '(s, cd) := skip_spaces s FEX_BUILTIN_ABORT_CHECK_INTERVAL in
  match s with
  | [] => ret []
  | _ => let* '(r, _) := skip_spaces (rev s) cd in ret (rev r)
  end.

Definition is_delim (delimiter buffer : chars) (i : nat) : bool :=
  match buffer !! i with Some ch => bytes_contains_byte delimiter ch | None => false end.

Definition slice (s : chars) (start len : nat) : chars := take len (drop start s).

(** [while (start < str_len && is_delim(start)) start++] *)
Fixpoint skip_delims (fuel : nat) (delimiter buffer : chars) (start : nat) : nat :=
  match fuel with
  | O => start
  | S f => if is_delim delimiter buffer start then skip_delims f delimiter buffer (S start) else start
  end.

(** The loop over [i]; [emit] adds a piece to the result.  It ends with the
    result and the last [start]. *)
Fixpoint split_loop {A} (emit : A -> chars -> comp fe_Context A) (fuel : nat) (delimiter buffer : chars)
    (i start : nat) (acc : A) (cd : Z) : comp fe_Context (A * nat) :=
  match fuel with
  | O => no_fuel
  | S f =>
      if decide (length buffer < i)%nat then ret (acc, start)
      else
        let at_end := bool_decide (i = length buffer) in
        if negb at_end && negb (is_delim delimiter buffer i)
        then split_loop emit f delimiter buffer (S i) start acc cd
        else
          let* cd := lift_budget (builtin_poll cd) in
          let* acc := (if (start <? i)%nat then emit acc (slice buffer start (i - start)) else ret acc) in
          let i := skip_delims (length buffer) delimiter buffer (S i) in
          split_loop emit f delimiter buffer i i acc cd
  end.

(** Splitting a string of the buffer; the last piece is never left over. *)
Definition split_pieces {A} (emit : A -> chars -> comp fe_Context A) (acc : A) (delimiter buffer : chars)
    : comp fe_Context A :=
  match delimiter with
  | [] => emit acc buffer
  | _ =>
      let start := skip_delims (length buffer) delimiter buffer 0 in
      let* '(acc, start) :=
        split_loop emit (S (S (length buffer))) delimiter buffer start start acc FEX_BUILTIN_ABORT_CHECK_INTERVAL in
      if (0 <? length buffer)%nat && (start <? length buffer)%nat &&
         negb (is_delim delimiter buffer (length buffer - 1))
      then emit acc (slice buffer start (length buffer - start))
      else ret acc
  end.

(** [*tail = fe_cons(fe_string(piece), nil)] *)
Definition emit_string (l : obj * option obj) (piece : chars) : comp fe_Context (obj * option obj) :=
  let* s := fe_string piece in
  let* cell := fe_cons s Nil in
  append_cell l cell.

(** ** Strings *)

Section Text.
Context (oob oob_int : double -> Z) (fmt_g7 : double -> chars) (fmt_p : obj -> chars) (print_fuel : nat).
Context (malloc_ok : Z -> bool).

Definition number_of_Z (z : Z) : comp fe_Context obj := make_number oob (double_of_Z z).

Definition builtin_string_length (args : obj) : comp fe_Context obj :=
  FEX_CHECK_ARGS args 1 "strlen" ;;;
  let* '(s, _) := fe_nextarg args in
  FEX_CHECK_TYPE s FE_TSTRING "strlen" ;;;
  let* len := fe_strlen s in
  number_of_Z len.

(** upper and lower. *)
Definition change_case (f : ascii -> ascii) (name : string) (args : obj) : comp fe_Context obj :=
  FEX_CHECK_ARGS args 1 name ;;;
  let* '(s, _) := fe_nextarg args in
  FEX_CHECK_TYPE s FE_TSTRING name ;;;
  let* len := fe_strlen s in
  if len =? 0 then fe_string []
  else
    let* buffer := copy_string_to_fixed_buffer s name 1024 in
    let* buffer := lift_budget (map_polling f buffer FEX_BUILTIN_ABORT_CHECK_INTERVAL) in
    fe_string buffer.
Definition builtin_string_upper : obj -> comp fe_Context obj := change_case to_upper "upper".
Definition builtin_string_lower : obj -> comp fe_Context obj := change_case to_lower "lower".

(** The text of an argument of concat: a string in full, anything else
    printed into 1023 characters. *)
Definition concat_text (arg : obj) : comp fe_Context chars :=
  let* t := type_of arg in
  if decide (t = FE_TSTRING) then
    let* len := fe_strlen arg in
    if (1024 <? len + 1) && negb (malloc_ok (len + 1)) then fe_error "concat: out of memory"
    else text_of arg (i32 (len + 1))
  else
    let* '(s, _) := fe_tostring fmt_g7 fmt_p print_fuel arg 1024 in ret s.

Fixpoint concat_loop (fuel : nat) (args : obj) (result : TextBuffer) (cd : Z) : comp fe_Context TextBuffer :=
  if isnil args then ret result
  else match fuel with
       | O => no_fuel
       | S f =>
           let* '(arg, args) := fe_nextarg args in
           let* text := concat_text arg in
           let* cd := lift_budget (builtin_poll cd) in
           let* '(r, cd) := lift_budget (buf_append_mem_polling malloc_ok result text cd) in
           match r with
           | None => fe_error "concat: out of memory"
           | Some result => concat_loop f args result cd
           end
       end.
Definition builtin_string_concat (args : obj) : comp fe_Context obj :=
  let* c := get in
  let* result := concat_loop (list_fuel c) args empty_buffer FEX_BUILTIN_ABORT_CHECK_INTERVAL in
  fe_string (buf_data result).

Definition builtin_string_substring (args : obj) : comp fe_Context obj :=
  FEX_CHECK_ARGS args 2 "substring" ;;;
  let* '(s, args) := fe_nextarg args in
  let* '(start_obj, args) := fe_nextarg args in
  let* '(end_obj, _) := fe_nextarg args in
  FEX_CHECK_TYPE s FE_TSTRING "substring" ;;;
  let* str_len := fe_strlen s in
  let* start_n := fe_tonumber start_obj in
  let start := double_to_int oob_int start_n in
  let* end_ :=
    (if isnil end_obj then ret (i32 str_len)
     else let* n := fe_tonumber end_obj in ret (double_to_int oob_int n)) in
  let start := if start <? 0 then 0 else start in
  let end_ := if i32 str_len <? end_ then i32 str_len else end_ in
  if end_ <=? start then fe_string []
  else
    let* buffer := copy_string_to_fixed_buffer s "substring" 1024 in
    fe_string (slice buffer (Z.to_nat start) (Z.to_nat (end_ - start))).

Definition builtin_string_split (args : obj) : comp fe_Context obj :=
  FEX_CHECK_ARGS args 2 "split" ;;;
  let* '(s, args) := fe_nextarg args in
  let* '(delim, _) := fe_nextarg args in
  FEX_CHECK_TYPE s FE_TSTRING "split" ;;;
  FEX_CHECK_TYPE delim FE_TSTRING "split" ;;;
  let* buffer := copy_string_to_fixed_buffer s "split" 1024 in
  let* delimiter := copy_string_to_fixed_buffer delim "split" 64 in
  let* l := split_pieces emit_string (Nil, None) delimiter buffer in
  ret (fst l).

Definition builtin_string_trim (args : obj) : comp fe_Context obj :=
  FEX_CHECK_ARGS args 1 "trim" ;;;
  let* '(s, _) := fe_nextarg args in
  FEX_CHECK_TYPE s FE_TSTRING "trim" ;;;
  let* buffer := copy_string_to_fixed_buffer s "trim" 1024 in
  let* t := lift_budget (trimmed buffer) in
  fe_string t.

Definition builtin_string_contains (args : obj) : comp fe_Context obj :=
  FEX_CHECK_ARGS args 2 "contains" ;;;
  let* '(s, args) := fe_nextarg args in
  let* '(substr, _) := fe_nextarg args in
  FEX_CHECK_TYPE s FE_TSTRING "contains" ;;;
  FEX_CHECK_TYPE substr FE_TSTRING "contains" ;;;
  let* buffer := copy_string_to_fixed_buffer s "contains" 1024 in
  let* search := copy_string_to_fixed_buffer substr "contains" 256 in
  ret (Boolean (bytes_contains_sequence buffer search)).

(** The length is converted to size_t: a negative one becomes a huge one. *)
Definition builtin_make_string (args : obj) : comp fe_Context obj :=
  FEX_CHECK_ARGS args 2 "makestring" ;;;
  let* '(length_obj, args) := fe_nextarg args in
  let* '(fill_obj, _) := fe_nextarg args in
  FEX_CHECK_TYPE length_obj FE_TNUMBER "makestring" ;;;
  FEX_CHECK_TYPE fill_obj FE_TSTRING "makestring" ;;;
  let* n := fe_tonumber length_obj in
  let len := double_to_int oob_int n in
  if len =? 0 then fe_string []
  else
    let* fill := copy_string_to_fixed_buffer fill_obj "makestring" 64 in
    match fill with
    | [] => fe_error "makestring: fill character cannot be empty"
    | ch :: _ => fe_string_raw (Z.to_nat (u64 len)) ch
    end.

(** ** Bytes *)

Definition builtin_make_bytes (args : obj) : comp fe_Context obj :=
  FEX_CHECK_ARGS args 1 "makebytes" ;;;
  let* '(length_obj, args) := fe_nextarg args in
  let* '(fill_obj, _) := optional_arg args in
  FEX_CHECK_TYPE length_obj FE_TNUMBER "makebytes" ;;;
  let* fill :=
    (if isnil fill_obj then ret 0
     else
       FEX_CHECK_TYPE fill_obj FE_TNUMBER "makebytes" ;;;
       let* n := fe_tonumber fill_obj in
       let fill := double_to_int oob_int n in
       if (fill <? 0) || (255 <? fill) then fe_error "makebytes: fill must be between 0 and 255"
       else ret fill) in
  let* n := fe_tonumber length_obj in
  let len := double_to_int oob_int n in
  if len <? 0 then fe_error "makebytes: length must be non-negative"
  else fe_bytes_raw (Z.to_nat len) (chr fill).

Definition builtin_to_bytes (args : obj) : comp fe_Context obj :=
  FEX_CHECK_ARGS args 1 "tobytes" ;;;
  let* '(o, _) := fe_nextarg args in
  let* t := type_of o in
  if decide (t = FE_TBYTES) then ret o
  else if decide (t = FE_TSTRING) then string_to_bytes malloc_ok o "tobytes"
  else fe_error "tobytes: type mismatch".

Definition builtin_bytes_length (args : obj) : comp fe_Context obj :=
  FEX_CHECK_ARGS args 1 "byteslen" ;;;
  let* '(o, _) := fe_nextarg args in
  FEX_CHECK_TYPE o FE_TBYTES "byteslen" ;;;
  let* len := fe_byteslen o in
  number_of_Z len.

Definition builtin_byte_at (args : obj) : comp fe_Context obj :=
  FEX_CHECK_ARGS args 2 "byteat" ;;;
  let* '(o, args) := fe_nextarg args in
  let* '(index_obj, _) := fe_nextarg args in
  FEX_CHECK_TYPE o FE_TBYTES "byteat" ;;;
  FEX_CHECK_TYPE index_obj FE_TNUMBER "byteat" ;;;
  let* n := fe_tonumber index_obj in
  let index := double_to_int oob_int n in
  let* len := (if index <? 0 then ret 0 else fe_byteslen o) in
  if (index <? 0) || (len <=? index) then fe_error "byteat: index out of range"
  else
    let* b := copy_bytes o index 1 in
    number_of_Z (match b with ch :: _ => code ch | [] => 0 end).

Definition builtin_bytes_slice (args : obj) : comp fe_Context obj :=
  FEX_CHECK_ARGS args 2 "byteslice" ;;;
  let* '(o, args) := fe_nextarg args in
  let* '(start_obj, args) := fe_nextarg args in
  let* '(end_obj, _) := optional_arg args in
  FEX_CHECK_TYPE o FE_TBYTES "byteslice" ;;;
  FEX_CHECK_TYPE start_obj FE_TNUMBER "byteslice" ;;;
  let* len := fe_byteslen o in
  let* n := fe_tonumber start_obj in
  let start := double_to_int oob_int n in
  let* end_ :=
    (if isnil end_obj then ret (i32 len)
     else let* n := fe_tonumber end_obj in ret (double_to_int oob_int n)) in
  let start := if start <? 0 then 0 else start in
  let end_ := if end_ <? 0 then 0 else end_ in
  let end_ := if i32 len <? end_ then i32 len else end_ in
  if end_ <=? start then fe_bytes []
  else if negb (malloc_ok (end_ - start)) then fe_error "byteslice: out of memory"
  else
    let* buffer := copy_bytes o start (end_ - start) in
    fe_bytes buffer.
End Text.
