(* ===== verification/BuiltinsList.v ===== *)
(** * List, map, type and output builtins (src/fex_builtins.c:
    builtin_list_length to builtin_map_count, builtin_type_of to
    builtin_is_map; src/fex.c: builtin_print, builtin_println) *)

From Stdlib Require Import ZArith Lia Ascii String SpecFloat.
From stdpp Require Import base list.
From S2P Require Import Prelude Number Strtod Memory Budget MapTable Slab SlabSpec Span Ctx Gc Objects Writer Builtins.

Section Lists.
Context (oob oob_int : double -> Z) (fmt_g7 : double -> chars) (fmt_p : obj -> chars) (print_fuel : nat).
Context (malloc_ok : Z -> bool).
(** fe_eval *)
Context (eval_ : obj -> comp fe_Context obj).

Definition heap_bound : comp fe_Context nat := gets list_fuel.

(** ** Lists *)

Fixpoint length_loop (fuel : nat) (l : obj) (count cd : Z) : comp fe_Context Z :=
  if isnil l then ret count
  else match fuel with
       | O => no_fuel
       | S f =>
           let* cd := lift_budget (builtin_poll cd) in
           let* l := fe_cdr l in
           length_loop f l (i32 (count + 1)) cd
       end.

Definition builtin_list_length (args : obj) : comp fe_Context obj :=
  FEX_CHECK_ARGS args 1 "length" ;;;
  let* '(l, _) := fe_nextarg args in
  FEX_CHECK_TYPE l FE_TPAIR "contains" ;;;
  let* fuel := heap_bound in
  let* count := length_loop fuel l 0 FEX_BUILTIN_ABORT_CHECK_INTERVAL in
  make_number oob (double_of_Z count).

(** [for (i = 0; i < index && !fe_isnil(list); i++)] *)
Fixpoint nth_loop (fuel : nat) (i index : Z) (l : obj) (cd : Z) : comp fe_Context obj :=
  if (i <? index) && negb (isnil l) then
    match fuel with
    | O => no_fuel
    | S f =>
        let* cd := lift_budget (builtin_poll cd) in
        let* l := fe_cdr l in
        nth_loop f (i + 1) index l cd
    end
  else ret l.

Definition builtin_list_nth (args : obj) : comp fe_Context obj :=
  FEX_CHECK_ARGS args 2 "nth" ;;;
  let* '(l, args) := fe_nextarg args in
  let* '(index_obj, _) := fe_nextarg args in
  let* n := fe_tonumber index_obj in
  let index := double_to_int oob_int n in
  FEX_CHECK_TYPE l FE_TPAIR "nth" ;;;
  let* fuel := heap_bound in
  let* l := nth_loop fuel 0 index l FEX_BUILTIN_ABORT_CHECK_INTERVAL in
  if isnil l then ret Nil else fe_car l.

(** The cells of [current] copied to the end of [l]. *)
Fixpoint copy_loop (fuel : nat) (current : obj) (l : obj * option obj) (cd : Z)
    : comp fe_Context ((obj * option obj) * Z) :=
  if isnil current then ret (l, cd)
  else match fuel with
       | O => no_fuel
       | S f =>
           let* cd := lift_budget (builtin_poll cd) in
           let* a := fe_car current in
           let* cell := fe_cons a Nil in
           let* l := append_cell l cell in
           let* current := fe_cdr current in
           copy_loop f current l cd
       end.

Fixpoint append_loop (fuel : nat) (args : obj) (l : obj * option obj) (cd : Z) : comp fe_Context obj :=
  if isnil args then ret (fst l)
  else match fuel with
       | O => no_fuel
       | S f =>
           let* '(x, args) := fe_nextarg args in
           FEX_CHECK_TYPE x FE_TPAIR "nth" ;;;
           let* n := heap_bound in
           let* '(l, cd) := copy_loop n x l cd in
           append_loop f args l cd
       end.

Definition builtin_list_append (args : obj) : comp fe_Context obj :=
  if isnil args then ret Nil
  else
    let* '(first, args) := fe_nextarg args in
    FEX_CHECK_TYPE first FE_TPAIR "nth" ;;;
    if isnil args then ret first
    else
      let* fuel := heap_bound in
      let* '(l, cd) := copy_loop fuel first (Nil, None) FEX_BUILTIN_ABORT_CHECK_INTERVAL in
      append_loop fuel args l cd.

Fixpoint reverse_loop (fuel : nat) (l result : obj) (cd : Z) : comp fe_Context obj :=
  if isnil l then ret result
  else match fuel with
       | O => no_fuel
       | S f =>
           let* cd := lift_budget (builtin_poll cd) in
           let* a := fe_car l in
           let* result := fe_cons a result in
           let* l := fe_cdr l in
           reverse_loop f l result cd
       end.

Definition builtin_list_reverse (args : obj) : comp fe_Context obj :=
  FEX_CHECK_ARGS args 1 "reverse" ;;;
  let* '(l, _) := fe_nextarg args in
  FEX_CHECK_TYPE l FE_TPAIR "reverse" ;;;
  let* fuel := heap_bound in
  reverse_loop fuel l Nil FEX_BUILTIN_ABORT_CHECK_INTERVAL.

(** The call [(func item)] is built and evaluated, which evaluates the item. *)
Definition call1 (func item : obj) : comp fe_Context obj :=
  let* call_args := fe_cons item Nil in
  let* call_expr := fe_cons func call_args in
  eval_ call_expr.

Fixpoint map_loop (fuel : nat) (func l : obj) (result : obj * option obj) : comp fe_Context obj :=
  if isnil l then ret (fst result)
  else match fuel with
       | O => no_fuel
       | S f =>
           let* item := fe_car l in
           let* mapped := call1 func item in
           let* cell := fe_cons mapped Nil in
           let* result := append_cell result cell in
           let* l := fe_cdr l in
           map_loop f func l result
       end.

Definition builtin_map (args : obj) : comp fe_Context obj :=
  FEX_CHECK_ARGS args 2 "map" ;;;
  let* '(func, args) := fe_nextarg args in
  let* '(l, _) := fe_nextarg args in
  let* fuel := heap_bound in
  map_loop fuel func l (Nil, None).

Fixpoint filter_loop (fuel : nat) (predicate l : obj) (result : obj * option obj) : comp fe_Context obj :=
  if isnil l then ret (fst result)
  else match fuel with
       | O => no_fuel
       | S f =>
           let* item := fe_car l in
           let* test_result := call1 predicate item in
           let* result :=
             (if negb (isnil test_result) && negb (bool_decide (test_result = Boolean false))
              then let* cell := fe_cons item Nil in append_cell result cell
              else ret result) in
           let* l := fe_cdr l in
           filter_loop f predicate l result
       end.

Definition builtin_filter (args : obj) : comp fe_Context obj :=
  FEX_CHECK_ARGS args 2 "filter" ;;;
  let* '(predicate, args) := fe_nextarg args in
  let* '(l, _) := fe_nextarg args in
  let* fuel := heap_bound in
  filter_loop fuel predicate l (Nil, None).

Fixpoint fold_loop (fuel : nat) (func acc l : obj) : comp fe_Context obj :=
  if isnil l then ret acc
  else match fuel with
       | O => no_fuel
       | S f =>
           let* item := fe_car l in
           let* tail := fe_cons acc Nil in
           let* call_args := fe_cons item tail in
           let* call_expr := fe_cons func call_args in
           let* acc := eval_ call_expr in
           let* l := fe_cdr l in
           fold_loop f func acc l
       end.

Definition builtin_fold (args : obj) : comp fe_Context obj :=
  FEX_CHECK_ARGS args 3 "fold" ;;;
  let* '(func, args) := fe_nextarg args in
  let* '(init, args) := fe_nextarg args in
  let* '(l, _) := fe_nextarg args in
  let* fuel := heap_bound in
  fold_loop fuel func init l.

(** ** Maps *)

Fixpoint make_map_loop (fuel : nat) (m args : obj) (cd : Z) : comp fe_Context obj :=
  if isnil args then ret m
  else match fuel with
       | O => no_fuel
       | S f =>
           let* cd := lift_budget (builtin_poll cd) in
           let* '(key, args) := fe_nextarg args in
           if isnil args then fe_error "makemap: expected an even number of arguments"
           else
             let* '(value, args) := fe_nextarg args in
             map_set m key value ;;;
             make_map_loop f m args cd
       end.
Definition builtin_make_map (args : obj) : comp fe_Context obj :=
  let* m := fe_map in
  let* fuel := heap_bound in
  make_map_loop fuel m args FEX_BUILTIN_ABORT_CHECK_INTERVAL.

Definition builtin_map_set (args : obj) : comp fe_Context obj :=
  FEX_CHECK_ARGS args 3 "mapset" ;;;
  let* '(m, args) := fe_nextarg args in
  let* '(key, args) := fe_nextarg args in
  let* '(value, _) := fe_nextarg args in
  map_set m key value ;;;
  ret value.

Definition builtin_map_get (args : obj) : comp fe_Context obj :=
  FEX_CHECK_ARGS args 2 "mapget" ;;;
  let* '(m, args) := fe_nextarg args in
  let* '(key, args) := fe_nextarg args in
  let* '(default_value, _) := optional_arg args in
  let* has := map_has m key in
  if has : bool then map_get m key else ret default_value.

Definition builtin_map_has (args : obj) : comp fe_Context obj :=
  FEX_CHECK_ARGS args 2 "maphas" ;;;
  let* '(m, args) := fe_nextarg args in
  let* '(key, _) := fe_nextarg args in
  let* b := map_has m key in
  ret (Boolean b).

Definition builtin_map_delete (args : obj) : comp fe_Context obj :=
  FEX_CHECK_ARGS args 2 "mapdelete" ;;;
  let* '(m, args) := fe_nextarg args in
  let* '(key, _) := fe_nextarg args in
  let* b := map_delete m key in
  ret (Boolean b).

Definition builtin_map_keys (args : obj) : comp fe_Context obj :=
  FEX_CHECK_ARGS args 1 "mapkeys" ;;;
  let* '(m, _) := fe_nextarg args in
  map_keys m.

Definition builtin_map_count (args : obj) : comp fe_Context obj :=
  FEX_CHECK_ARGS args 1 "mapcount" ;;;
  let* '(m, _) := fe_nextarg args in
  let* n := map_count m in
  make_number oob (double_of_Z n).

(** ** Types *)

Definition type_name (t : fe_type) : string :=
  match t with
  | FE_TNIL => "nil" | FE_TNUMBER => "number" | FE_TSTRING => "string" | FE_TBYTES => "bytes"
  | FE_TSYMBOL => "symbol" | FE_TPAIR => "pair" | FE_TFUNC => "function" | FE_TMACRO => "macro"
  | FE_TCFUNC => "cfunction" | FE_TPTR => "pointer" | FE_TMAP => "map" | FE_TBOOLEAN => "boolean"
  | _ => "unknown"
  end%string.

Definition builtin_type_of (args : obj) : comp fe_Context obj :=
  FEX_CHECK_ARGS args 1 "typeof" ;;;
  let* '(o, _) := fe_nextarg args in
  let* t := type_of o in
  fe_string (str (type_name t)).

Definition builtin_to_string (args : obj) : comp fe_Context obj :=
  FEX_CHECK_ARGS args 1 "tostring" ;;;
  let* '(o, _) := fe_nextarg args in
  let* '(text, _) := fe_tostring fmt_g7 fmt_p print_fuel o 1024 in
  fe_string text.

Definition builtin_to_number (args : obj) : comp fe_Context obj :=
  FEX_CHECK_ARGS args 1 "tonumber" ;;;
  let* '(o, _) := fe_nextarg args in
  let* t := type_of o in
  if decide (t = FE_TNUMBER) then ret o
  else if decide (t = FE_TSTRING) then
    let* text := string_to_buffer malloc_ok o "tonumber" in
    if bool_decide (zero ∈ text) then fe_error "tonumber: invalid number format"
    else
      let '(v, rest) := strtod text in
      if bool_decide (rest = []) then make_number oob v
      else fe_error "tonumber: invalid number format"
  else fe_error "tonumber: cannot convert to number".

(** A test of the type of the argument. *)
Definition type_test (name : string) (p : fe_type -> bool) (args : obj) : comp fe_Context obj :=
  FEX_CHECK_ARGS args 1 name ;;;
  let* '(o, _) := fe_nextarg args in
  let* t := type_of o in
  ret (Boolean (p t)).

Definition builtin_is_nil (args : obj) : comp fe_Context obj :=
  FEX_CHECK_ARGS args 1 "isnil" ;;;
  let* '(o, _) := fe_nextarg args in
  ret (Boolean (isnil o)).
Definition builtin_is_number : obj -> comp fe_Context obj := type_test "isnumber" (fun t => bool_decide (t = FE_TNUMBER)).
Definition builtin_is_string : obj -> comp fe_Context obj := type_test "isstring" (fun t => bool_decide (t = FE_TSTRING)).
Definition builtin_is_bytes : obj -> comp fe_Context obj := type_test "isbytes" (fun t => bool_decide (t = FE_TBYTES)).
Definition builtin_is_list : obj -> comp fe_Context obj :=
  type_test "islist" (fun t => bool_decide (t = FE_TPAIR) || bool_decide (t = FE_TNIL)).
Definition builtin_is_map : obj -> comp fe_Context obj := type_test "ismap" (fun t => bool_decide (t = FE_TMAP)).

(** ** Output *)

Fixpoint print_loop (fuel : nat) (args : obj) : comp fe_Context unit :=
  if isnil args then ret tt
  else match fuel with
       | O => no_fuel
       | S f =>
           let* arg := fe_car args in
           fe_writefp fmt_g7 fmt_p print_fuel arg ;;;
           let* args := fe_cdr args in
           print_loop f args
       end.
Definition builtin_print (args : obj) : comp fe_Context obj :=
  let* fuel := heap_bound in
  print_loop fuel args ;;;
  ret Nil.

Definition builtin_println (args : obj) : comp fe_Context obj :=
  let* result := builtin_print args in
  modify (fun c => with_out (out c ++ [ascii_of_nat 10]) c) ;;;
  ret result.
End Lists.
