(* ===== verification/Json.v ===== *)
(** * JSON (src/fex_builtins.c: JsonParser to builtin_to_json)

    The parser's text is what is left of a C string, and the writer appends
    to a text buffer; both carry their poll countdown.  Reading past the
    terminating NUL is [Stuck].  [fmt_g15] is the format [%.15g]. *)

From Stdlib Require Import ZArith Lia Ascii String SpecFloat.
From stdpp Require Import base list.
From S2P Require Import Prelude Number Strtod Memory Budget MapTable Slab SlabSpec Span Ctx Gc Objects Writer Builtins.

Definition quote : ascii := ascii_of_nat 34.
Definition BS : ascii := ascii_of_nat 8.
Definition FF : ascii := ascii_of_nat 12.
Definition LF : ascii := ascii_of_nat 10.
Definition CR : ascii := ascii_of_nat 13.
Definition TAB : ascii := ascii_of_nat 9.

Definition json_hex_value (ch : ascii) : Z :=
  let n := code ch in
  if (48 <=? n) && (n <=? 57) then n - 48
  else if (97 <=? n) && (n <=? 102) then 10 + (n - 97)
  else if (65 <=? n) && (n <=? 70) then 10 + (n - 65)
  else -1.

Section Json.
Context (oob : double -> Z) (fmt_g15 : double -> chars) (malloc_ok : Z -> bool).

(** ** Parsing *)

Abbreviation JsonParser := (fe_Context * (chars * Z))%type.

(** [parser->current[k]]: the terminator can be read, nothing after it. *)
Definition char_at (k : nat) : comp JsonParser ascii := fun '(c, (s, cd)) =>
  match s !! k with
  | Some ch => Done ch (c, (s, cd))
  | None => if decide (k = length s) then Done zero (c, (s, cd)) else Stuck
  end.
(** [parser->current += n] *)
Definition skip (n : nat) : comp JsonParser unit := fun '(c, (s, cd)) => Done tt (c, (drop n s, cd)).
Definition rest : comp JsonParser chars := fun '(c, (s, cd)) => Done s (c, (s, cd)).
Definition set_rest (s : chars) : comp JsonParser unit := fun '(c, (_, cd)) => Done tt (c, (s, cd)).

Definition parser_poll : comp JsonParser unit := fun '(c, (s, cd)) =>
  match lift_budget (builtin_poll cd) c with
  | Done cd c => Done tt (c, (s, cd))
  | Raised e c => Raised e (c, (s, cd))
  | Stuck => Stuck
  | NoFuel => NoFuel
  end.
Definition fail {A} (msg : string) : comp JsonParser A := in_ctx (fe_error msg).

Definition is_json_space (ch : ascii) : bool := bool_decide (ch ∈ [" "%char; TAB; LF; CR]).

Fixpoint skip_ws_loop (fuel : nat) : comp JsonParser unit :=
  let* ch := char_at 0 in
  if is_json_space ch then
    match fuel with
    | O => no_fuel
    | S f => parser_poll ;;; skip 1 ;;; skip_ws_loop f
    end
  else ret tt.
Definition json_skip_ws : comp JsonParser unit := let* s := rest in skip_ws_loop (length s).

(** The simple escapes. *)
Definition json_escape (ch : ascii) : option ascii :=
  if decide (ch = quote) then Some quote
  else if decide (ch = backslash) then Some backslash
  else if decide (ch = "/"%char) then Some "/"%char
  else if decide (ch = "b"%char) then Some BS
  else if decide (ch = "f"%char) then Some FF
  else if decide (ch = "n"%char) then Some LF
  else if decide (ch = "r"%char) then Some CR
  else if decide (ch = "t"%char) then Some TAB
  else None.

Definition out_of_memory {A} : comp JsonParser A := fail "parsejson: out of memory".
Definition put_char (buf : TextBuffer) (ch : ascii) : comp JsonParser TextBuffer :=
  match buf_append_char malloc_ok buf ch with Some buf => ret buf | None => out_of_memory end.

(** After a backslash. *)
Definition parse_escape (buf : TextBuffer) : comp JsonParser TextBuffer :=
  let* ch := char_at 0 in
  skip 1 ;;;
  match json_escape ch with
  | Some ch => put_char buf ch
  | None =>
      if decide (ch = "u"%char) then
        let* c0 := char_at 0 in
        let* c1 := char_at 1 in
        let* c2 := char_at 2 in
        let* c3 := char_at 3 in
        let hi := json_hex_value c0 in
        let lo := json_hex_value c1 in
        let hi2 := json_hex_value c2 in
        let lo2 := json_hex_value c3 in
        if (hi <? 0) || (lo <? 0) || (hi2 <? 0) || (lo2 <? 0) then fail "parsejson: invalid unicode escape"
        else
          let codepoint := Z.lor (Z.lor (Z.lor (Z.shiftl hi 12) (Z.shiftl lo 8)) (Z.shiftl hi2 4)) lo2 in
          skip 4 ;;;
          if (0xD800 <=? codepoint) && (codepoint <=? 0xDFFF)
          then fail "parsejson: surrogate pairs are not supported"
          else match buf_append_utf8 malloc_ok buf codepoint with Some buf => ret buf | None => out_of_memory end
      else fail "parsejson: invalid escape sequence"
  end.

Fixpoint string_loop (fuel : nat) (buf : TextBuffer) : comp JsonParser TextBuffer :=
  let* ch := char_at 0 in
  if bool_decide (ch = zero) || bool_decide (ch = quote) then ret buf
  else match fuel with
       | O => no_fuel
       | S f =>
           skip 1 ;;;
           parser_poll ;;;
           let* buf :=
             (if decide (ch = backslash) then parse_escape buf
              else if code ch <? 0x20 then fail "parsejson: unescaped control character"
              else put_char buf ch) in
           string_loop f buf
       end.

(** The text of a string literal. *)
Definition parse_string_text : comp JsonParser chars :=
  let* ch := char_at 0 in
  if decide (ch = quote) then
    skip 1 ;;;
    let* s := rest in
    let* buf := string_loop (length s) empty_buffer in
    let* ch := char_at 0 in
    if decide (ch = quote) then skip 1 ;;; ret (buf_data buf)
    else fail "parsejson: unterminated string"
  else fail "parsejson: expected string".

Definition json_parse_string : comp JsonParser obj :=
  let* s := parse_string_text in in_ctx (fe_string s).

Definition json_parse_number : comp JsonParser obj :=
  let* s := rest in
  let '(value, endptr) := strtod s in
  if decide (endptr = s) then fail "parsejson: invalid number"
  else set_rest endptr ;;; in_ctx (make_number oob value).

(** [strncmp(current, word, length of word) == 0] *)
Definition at_word (word : string) : comp JsonParser bool :=
  let* s := rest in ret (bool_decide (take (String.length word) s = str word)).

Section Rec.
Context (json_parse_value : comp JsonParser obj) (fuel : nat).

Fixpoint array_loop (n : nat) (l : obj * option obj) : comp JsonParser obj :=
  match n with
  | O => no_fuel
  | S n =>
      let* item := json_parse_value in
      parser_poll ;;;
      let* l := in_ctx (let* cell := fe_cons item Nil in append_cell l cell) in
      json_skip_ws ;;;
      let* ch := char_at 0 in
      if decide (ch = "]"%char) then skip 1 ;;; ret (fst l)
      else if decide (ch = ","%char) then skip 1 ;;; json_skip_ws ;;; array_loop n l
      else fail "parsejson: expected ',' or ']'"
  end.

Definition json_parse_array : comp JsonParser obj :=
  skip 1 ;;;
  json_skip_ws ;;;
  let* ch := char_at 0 in
  if decide (ch = "]"%char) then skip 1 ;;; ret Nil else array_loop fuel (Nil, None).

Fixpoint object_loop (n : nat) (m : obj) : comp JsonParser obj :=
  match n with
  | O => no_fuel
  | S n =>
      parser_poll ;;;
      let* ch := char_at 0 in
      if decide (ch = quote) then
        let* key := json_parse_string in
        json_skip_ws ;;;
        let* ch := char_at 0 in
        if decide (ch = ":"%char) then
          skip 1 ;;;
          json_skip_ws ;;;
          let* value := json_parse_value in
          in_ctx (map_set m key value) ;;;
          json_skip_ws ;;;
          let* ch := char_at 0 in
          if decide (ch = "}"%char) then skip 1 ;;; ret m
          else if decide (ch = ","%char) then skip 1 ;;; json_skip_ws ;;; object_loop n m
          else fail "parsejson: expected ',' or '}'"
        else fail "parsejson: expected ':' after object key"
      else fail "parsejson: expected object key string"
  end.

Definition json_parse_object : comp JsonParser obj :=
  let* m := in_ctx fe_map in
  skip 1 ;;;
  json_skip_ws ;;;
  let* ch := char_at 0 in
  if decide (ch = "}"%char) then skip 1 ;;; ret m else object_loop fuel m.

Definition literal (word : string) (o : obj) : comp JsonParser obj :=
  let* b := at_word word in
  if b : bool then skip (String.length word) ;;; ret o else fail "parsejson: invalid value".

Definition json_value_step : comp JsonParser obj :=
  json_skip_ws ;;;
  let* ch := char_at 0 in
  if decide (ch = quote) then json_parse_string
  else if decide (ch = "{"%char) then json_parse_object
  else if decide (ch = "["%char) then json_parse_array
  else if decide (ch = "t"%char) then literal "true" (Boolean true)
  else if decide (ch = "f"%char) then literal "false" (Boolean false)
  else if decide (ch = "n"%char) then literal "null" Nil
  else if bool_decide (ch = "-"%char) || is_digit ch then json_parse_number
  else fail "parsejson: invalid value".
End Rec.

(** Each nesting level uses one unit of fuel. *)
Fixpoint json_parse_value (fuel : nat) : comp JsonParser obj :=
  match fuel with
  | O => no_fuel
  | S f => json_value_step (json_parse_value f) f
  end.

(** [parsejson] of a whole text. *)
Definition parse_text (text : chars) : comp fe_Context obj := fun c =>
  match (let* result := json_parse_value (S (length text)) in
         json_skip_ws ;;;
         let* s := rest in
         if decide (s = []) then ret result else fail "parsejson: trailing characters")
        (c, (text, FEX_BUILTIN_ABORT_CHECK_INTERVAL)) with
  | Done o (c, _) => Done o c
  | Raised e (c, _) => Raised e c
  | Stuck => Stuck
  | NoFuel => NoFuel
  end.

Definition builtin_parse_json (args : obj) : comp fe_Context obj :=
  FEX_CHECK_ARGS args 1 "parsejson" ;;;
  let* '(input, _) := fe_nextarg args in
  let* text := string_to_cstr malloc_ok input "parsejson" in
  parse_text text.

(** ** Writing *)

Abbreviation JsonWriter := (fe_Context * (TextBuffer * Z))%type.

Definition writer_poll : comp JsonWriter unit := fun '(c, (b, cd)) =>
  match lift_budget (builtin_poll cd) c with
  | Done cd c => Done tt (c, (b, cd))
  | Raised e c => Raised e (c, (b, cd))
  | Stuck => Stuck
  | NoFuel => NoFuel
  end.

(** An append; false when the buffer cannot grow. *)
Definition append (s : chars) : comp JsonWriter bool := fun '(c, (b, cd)) =>
  match buf_append_mem malloc_ok b s with
  | Some b => Done true (c, (b, cd))
  | None => Done false (c, (b, cd))
  end.

(** [if (!m) return 0; k] *)
Definition and_then (m k : comp JsonWriter bool) : comp JsonWriter bool :=
  let* b := m in if b : bool then k else ret false.
Infix "&&>" := and_then (at level 60, right associativity).

(** The text a character is written as. *)
Definition json_escaped (ch : ascii) : chars :=
  if decide (ch = quote) then [backslash; quote]
  else if decide (ch = backslash) then [backslash; backslash]
  else if decide (ch = BS) then [backslash; "b"%char]
  else if decide (ch = FF) then [backslash; "f"%char]
  else if decide (ch = LF) then [backslash; "n"%char]
  else if decide (ch = CR) then [backslash; "r"%char]
  else if decide (ch = TAB) then [backslash; "t"%char]
  else if code ch <? 0x20 then
    backslash :: str "u00" ++ [hexdigit (Z.shiftr (code ch) 4); hexdigit (Z.land (code ch) 15)]
  else [ch].

Fixpoint write_chars (s : chars) : comp JsonWriter bool :=
  match s with
  | [] => ret true
  | ch :: s => writer_poll ;;; (append (json_escaped ch) &&> write_chars s)
  end.

Definition json_write_string (o : obj) : comp JsonWriter bool :=
  let* text := in_ctx (string_to_buffer malloc_ok o "tojson") in
  append [quote] &&> write_chars text &&> append [quote].

Fixpoint proper_loop (fuel : nat) (o : obj) (cd : Z) : comp fe_Context bool :=
  if isnil o then ret true
  else match fuel with
       | O => no_fuel
       | S f =>
           let* cd := lift_budget (builtin_poll cd) in
           let* t := type_of o in
           if decide (t = FE_TPAIR) then let* o := fe_cdr o in proper_loop f o cd else ret false
       end.
Definition json_is_proper_list (o : obj) : comp fe_Context bool :=
  let* c := get in proper_loop (list_fuel c) o 1.

Section WriteRec.
Context (json_write_value : obj -> comp JsonWriter bool).

Definition comma (first : bool) : comp JsonWriter bool := if first then ret true else append (str ",").

Fixpoint write_elements (fuel : nat) (l : obj) (first : bool) : comp JsonWriter bool :=
  if isnil l then ret true
  else match fuel with
       | O => no_fuel
       | S f =>
           writer_poll ;;;
           (comma first &&>
            (let* a := in_ctx (fe_car l) in json_write_value a) &&>
            (let* l := in_ctx (fe_cdr l) in write_elements f l false))
       end.

Fixpoint write_entries (fuel : nat) (m keys : obj) (first : bool) : comp JsonWriter bool :=
  if isnil keys then ret true
  else match fuel with
       | O => no_fuel
       | S f =>
           let* key := in_ctx (fe_car keys) in
           writer_poll ;;;
           (comma first &&>
            json_write_string key &&>
            append (str ":") &&>
            (let* v := in_ctx (map_get m key) in json_write_value v) &&>
            (let* keys := in_ctx (fe_cdr keys) in write_entries f m keys false))
       end.

Definition json_write_step (o : obj) : comp JsonWriter bool :=
  let* t := in_ctx (type_of o) in
  let* fuel := in_ctx (gets list_fuel) in
  match t with
  | FE_TNIL => append (str "null")
  | FE_TBOOLEAN => append (str (if decide (o = Boolean true) then "true" else "false"))
  | FE_TNUMBER => let* v := in_ctx (nval o) in append (take 63 (fmt_g15 v))
  | FE_TSTRING => json_write_string o
  | FE_TMAP =>
      let* keys := in_ctx (map_keys o) in
      append (str "{") &&> write_entries fuel o keys true &&> append (str "}")
  | FE_TPAIR =>
      let* proper := in_ctx (json_is_proper_list o) in
      if proper : bool then append (str "[") &&> write_elements fuel o true &&> append (str "]")
      else in_ctx (fe_error "tojson: cannot serialize dotted pair")
  | _ => in_ctx (fe_error "tojson: unsupported value type")
  end.
End WriteRec.

Fixpoint json_write_value (fuel : nat) (o : obj) : comp JsonWriter bool :=
  match fuel with
  | O => no_fuel
  | S f => json_write_step (json_write_value f) o
  end.

(** The result is nil when the buffer could not grow. *)
Definition builtin_to_json (fuel : nat) (args : obj) : comp fe_Context obj :=
  FEX_CHECK_ARGS args 1 "tojson" ;;;
  let* '(value, _) := fe_nextarg args in
  fun c =>
    match json_write_value fuel value (c, (empty_buffer, FEX_BUILTIN_ABORT_CHECK_INTERVAL)) with
    | Done true (c, (buf, _)) => fe_string (buf_data buf) c
    | Done false (c, _) => Done Nil c
    | Raised e (c, _) => Raised e c
    | Stuck => Stuck
    | NoFuel => NoFuel
    end.
End Json.
