(* ===== verification/BuiltinsMath.v ===== *)
(** * Mathematical and random builtins (src/fex_builtins.c: builtin_sqrt to
    builtin_random_bytes)

    sqrt, fabs, floor, ceil and round are exact in C and modelled; sin, cos,
    tan, pow and log are parameters, since C does not fix their rounding.
    The generator and the flag [seeded] are static variables shared by all
    contexts: a state of their own beside the context.  [now] is the answer
    of time(NULL). *)

From Stdlib Require Import ZArith Lia Ascii String SpecFloat.
From stdpp Require Import base list.
From S2P Require Import Prelude Sfc32 Number Strtod Memory Budget MapTable Slab SlabSpec Span Host Ctx Gc Objects Writer Builtins.

(** ** The exact functions of the C library *)

Definition zero_d : double := S754_zero false.
Definition double_ltb (x y : double) : bool := SFltb x y.
Definition double_leb (x y : double) : bool := SFleb x y.

(** An integral value from its rounding; a zero keeps the sign of the argument. *)
Definition integral (round_to : Z -> positive -> Z) (v : double) : double :=
  match v with
  | S754_finite s m e =>
      if 0 <=? e then v
      else
        let z := round_to (if s then Z.neg m else Z.pos m) (Z.to_pos (2 ^ (- e))) in
        if z =? 0 then S754_zero s else double_of_Z z
  | _ => v
  end.
Definition c_floor : double -> double := integral (fun n d => n / Z.pos d).
Definition c_ceil : double -> double := integral (fun n d => - ((- n) / Z.pos d)).
(** Halves go away from zero. *)
Definition c_round : double -> double :=
  integral (fun n d => Z.sgn n * ((2 * Z.abs n + Z.pos d) / (2 * Z.pos d))).
Definition c_fabs : double -> double := SFabs.
Definition c_sqrt : double -> double := SFsqrt prec emax.

(** [(uint32_t)v]; undefined out of range, where [oob_u32] answers. *)
Definition double_to_u32 (oob_u32 : double -> Z) (v : double) : Z :=
  match trunc v with
  | Some z => if decide (in_u 32 z) then z else oob_u32 v
  | None => oob_u32 v
  end.

Section Math.
Context (oob oob_int oob_u32 : double -> Z).
Context (c_sin c_cos c_tan c_log : double -> double) (c_pow : double -> double -> double).

(** A builtin of one number. *)
Definition unary (name : string) (f : double -> comp fe_Context obj) (args : obj) : comp fe_Context obj :=
  FEX_CHECK_ARGS args 1 name ;;;
  let* '(arg, _) := fe_nextarg args in
  let* n := fe_tonumber arg in
  f n.
Definition of_double (f : double -> double) (n : double) : comp fe_Context obj := make_number oob (f n).

Definition builtin_sqrt : obj -> comp fe_Context obj :=
  unary "sqrt" (fun n => if double_ltb n zero_d then fe_error "sqrt: negative argument" else of_double c_sqrt n).
Definition builtin_sin : obj -> comp fe_Context obj := unary "sin" (of_double c_sin).
Definition builtin_cos : obj -> comp fe_Context obj := unary "cos" (of_double c_cos).
Definition builtin_tan : obj -> comp fe_Context obj := unary "tan" (of_double c_tan).
Definition builtin_abs : obj -> comp fe_Context obj := unary "abs" (of_double c_fabs).
Definition builtin_floor : obj -> comp fe_Context obj := unary "floor" (of_double c_floor).
Definition builtin_ceil : obj -> comp fe_Context obj := unary "ceil" (of_double c_ceil).
Definition builtin_round : obj -> comp fe_Context obj := unary "round" (of_double c_round).
Definition builtin_log : obj -> comp fe_Context obj :=
  unary "log" (fun n => if double_leb n zero_d then fe_error "log: argument must be positive" else of_double c_log n).

(** The loop of min and max; [better n result] replaces the result. *)
Fixpoint select_loop (better : double -> double -> bool) (fuel : nat) (args : obj) (result : double)
    : comp fe_Context double :=
  if isnil args then ret result
  else match fuel with
       | O => no_fuel
       | S f =>
           let* '(arg, args) := fe_nextarg args in
           let* n := fe_tonumber arg in
           select_loop better f args (if better n result then n else result)
       end.
Definition select (better : double -> double -> bool) (name : string) (args : obj) : comp fe_Context obj :=
  FEX_CHECK_ARGS args 1 name ;;;
  let* '(first, args) := fe_nextarg args in
  let* result := fe_tonumber first in
  let* c := get in
  let* result := select_loop better (list_fuel c) args result in
  make_number oob result.
Definition builtin_min : obj -> comp fe_Context obj := select (fun n r => double_ltb n r) "min".
Definition builtin_max : obj -> comp fe_Context obj := select (fun n r => double_ltb r n) "max".

Definition builtin_pow (args : obj) : comp fe_Context obj :=
  FEX_CHECK_ARGS args 2 "pow" ;;;
  let* '(base, args) := fe_nextarg args in
  let* '(exp, _) := fe_nextarg args in
  let* b := fe_tonumber base in
  let* e := fe_tonumber exp in
  make_number oob (c_pow b e).

(** ** Random numbers *)

Context (now : Z).
Abbreviation R := (fe_Context * Rng)%type.

Definition ensure_seeded : comp R unit := modify (fun '(c, r) =>
  (c, if seeded r then r else MkRng true (sfc32_seed (u32 now)))).
Definition next_random : comp R Z := fun '(c, r) =>
  let '(v, s) := sfc32_next (rng_state r) in Done v (c, MkRng (seeded r) s).

Definition builtin_random (args : obj) : comp R obj :=
  in_ctx (FEX_CHECK_NO_ARGS args "rand") ;;;
  ensure_seeded ;;;
  let* v := next_random in
  in_ctx (make_number oob (SFdiv prec emax (double_of_Z v) (double_of_Z (2 ^ 32 - 1)))).

Definition builtin_seed_random (args : obj) : comp R obj :=
  let* seed_num :=
    in_ctx (FEX_CHECK_ARGS args 1 "seedrand" ;;;
            let* '(seed_obj, _) := fe_nextarg args in
            FEX_CHECK_TYPE seed_obj FE_TNUMBER "seedrand" ;;;
            fe_tonumber seed_obj) in
  modify (fun '(c, _) => (c, MkRng true (sfc32_seed (double_to_u32 oob_u32 seed_num)))) ;;;
  ret Nil.

(** The remainder by a maximum that truncates to zero is undefined. *)
Definition builtin_random_int (args : obj) : comp R obj :=
  ensure_seeded ;;;
  if isnil args then
    let* random_val := next_random in
    in_ctx (make_number oob (double_of_Z random_val))
  else
    let* max_num :=
      in_ctx (FEX_CHECK_ARGS args 1 "randint" ;;;
              let* '(max_obj, _) := fe_nextarg args in
              fe_tonumber max_obj) in
    if double_leb max_num zero_d then in_ctx (fe_error "randint: maximum must be positive")
    else
      let max_val := double_to_u32 oob_u32 max_num in
      let* v := next_random in
      if max_val =? 0 then stuck
      else in_ctx (make_number oob (double_of_Z (v mod max_val))).

Fixpoint bytes_loop (n : nat) (l : obj * option obj) (cd : Z) : comp R obj :=
  match n with
  | O => ret (fst l)
  | S n =>
      let* cd := in_ctx (lift_budget (builtin_poll cd)) in
      let* random_val := next_random in
      let byte_val := Z.land random_val 0xFF in
      let* l := in_ctx (let* v := make_number oob (double_of_Z byte_val) in
                        let* cell := fe_cons v Nil in
                        append_cell l cell) in
      bytes_loop n l cd
  end.
Definition builtin_random_bytes (args : obj) : comp R obj :=
  let* count_num :=
    in_ctx (FEX_CHECK_ARGS args 1 "randbytes" ;;;
            let* '(count_obj, _) := fe_nextarg args in
            fe_tonumber count_obj) in
  if double_leb count_num zero_d || double_ltb (double_of_Z 1024) count_num
  then in_ctx (fe_error "randbytes: count must be between 1 and 1024")
  else
    ensure_seeded ;;;
    bytes_loop (Z.to_nat (double_to_int oob_int count_num)) (Nil, None) FEX_BUILTIN_ABORT_CHECK_INTERVAL.
End Math.
