(* ===== verification/Paths.v ===== *)
(** * Path builtins (src/fex_builtins.c: builtin_path_join, builtin_dirname,
    builtin_basename)

    A path is the text of a C string and a position counts the characters
    before it. *)

From Stdlib Require Import ZArith Lia Ascii String.
From stdpp Require Import base list.
From S2P Require Import Prelude Number Memory Budget MapTable Slab SlabSpec Span Ctx Gc Objects Writer Builtins BuiltinsText.

Definition slash : ascii := "/"%char.
Definition sep_at (path : chars) (i : nat) : bool :=
  match path !! i with Some ch => is_path_separator_char ch | None => false end.

(** [while (end > lo && is_path_separator_char(path[end - 1])) end--] *)
Fixpoint strip_seps (path : chars) (lo end_ : nat) (cd : Z) : comp Budget (nat * Z) :=
  match end_ with
  | O => ret (O, cd)
  | S e =>
      if (lo <? end_)%nat && sep_at path e
      then let* cd := builtin_poll cd in strip_seps path lo e cd
      else ret (end_, cd)
  end.

(** [while (start < end && is_path_separator_char(part[start])) start++] *)
Fixpoint skip_seps (fuel : nat) (part : chars) (start end_ : nat) (cd : Z) : comp Budget (nat * Z) :=
  match fuel with
  | O => ret (start, cd)
  | S f =>
      if (start <? end_)%nat && sep_at part start
      then let* cd := builtin_poll cd in skip_seps f part (S start) end_ cd
      else ret (start, cd)
  end.

Definition normal_char (ch : ascii) : ascii := if is_path_separator_char ch then slash else ch.

(** ** Directory and file name *)

(** The position of the last run of separators before [i], if there is one:
    the number of characters before the run. *)
Fixpoint last_sep (path : chars) (i : nat) (cd : Z) : comp Budget (option nat) :=
  match i with
  | O => ret None
  | S j =>
      let* cd := builtin_poll cd in
      if sep_at path j
      then let* '(j, _) := strip_seps path 0 j cd in ret (Some j)
      else last_sep path j cd
  end.

Definition dirname (path : chars) : comp Budget chars :=
  let* '(end_, cd) := strip_seps path 1 (length path) FEX_BUILTIN_ABORT_CHECK_INTERVAL in
  let* r := last_sep path end_ cd in
  match r with
  | None => ret (str ".")
  | Some O => ret (str "/")
  | Some n => ret (take n path)
  end.

(** [while (start > 0 && !is_path_separator_char(path[start - 1])) start--] *)
Fixpoint name_start (path : chars) (start : nat) (cd : Z) : comp Budget nat :=
  match start with
  | O => ret O
  | S j =>
      if sep_at path j then ret start
      else let* cd := builtin_poll cd in name_start path j cd
  end.

Definition basename (path : chars) : comp Budget chars :=
  let* '(end_, cd) := strip_seps path 1 (length path) FEX_BUILTIN_ABORT_CHECK_INTERVAL in
  let* start := name_start path end_ cd in
  ret (slice path start (end_ - start)).

Section Paths.
Context (malloc_ok : Z -> bool).

Definition builtin_dirname (args : obj) : comp fe_Context obj :=
  FEX_CHECK_ARGS args 1 "dirname" ;;;
  let* '(path_obj, _) := fe_nextarg args in
  let* path := string_to_cstr malloc_ok path_obj "dirname" in
  let* r := lift_budget (dirname path) in
  fe_string r.

Definition builtin_basename (args : obj) : comp fe_Context obj :=
  FEX_CHECK_ARGS args 1 "basename" ;;;
  let* '(path_obj, _) := fe_nextarg args in
  let* path := string_to_cstr malloc_ok path_obj "basename" in
  let* r := lift_budget (basename path) in
  fe_string r.

(** ** Joining *)

(** The characters of a part, copied one by one. *)
Fixpoint copy_part (part : chars) (buf : TextBuffer) (cd : Z) : comp Budget (option TextBuffer * Z) :=
  match part with
  | [] => ret (Some buf, cd)
  | ch :: part =>
      let* cd := builtin_poll cd in
      match buf_append_char malloc_ok buf (normal_char ch) with
      | None => ret (None, cd)
      | Some buf => copy_part part buf cd
      end
  end.

(** One part appended to the path built so far; [None]: out of memory. *)
Definition join_part (buf : TextBuffer) (need_sep : bool) (part : chars) (cd : Z)
    : comp Budget (option TextBuffer * Z) :=
  let* '(start, cd) :=
    (if 0 <? buf_len buf then skip_seps (length part) part 0 (length part) cd else ret (O, cd)) in
  let* '(end_, cd) := strip_seps part start (length part) cd in
  let buf :=
    if need_sep && (start <? end_)%nat && (0 <? buf_len buf) && negb (bool_decide (last (buf_data buf) = Some slash))
    then buf_append_char malloc_ok buf slash else Some buf in
  match buf with
  | None => ret (None, cd)
  | Some buf => copy_part (slice part start (end_ - start)) buf cd
  end.

Fixpoint join_loop (fuel : nat) (args : obj) (buf : TextBuffer) (need_sep : bool) (cd : Z)
    : comp fe_Context TextBuffer :=
  if isnil args then ret buf
  else match fuel with
       | O => no_fuel
       | S f =>
           let* '(part_obj, args) := fe_nextarg args in
           let* part := string_to_cstr malloc_ok part_obj "pathjoin" in
           let* '(r, cd) := lift_budget (join_part buf need_sep part cd) in
           match r with
           | None => fe_error "pathjoin: out of memory"
           | Some buf => join_loop f args buf (0 <? buf_len buf) cd
           end
       end.

Definition builtin_path_join (args : obj) : comp fe_Context obj :=
  FEX_CHECK_ARGS args 1 "pathjoin" ;;;
  let* c := get in
  let* buf := join_loop (list_fuel c) args empty_buffer false FEX_BUILTIN_ABORT_CHECK_INTERVAL in
  match (if buf_len buf =? 0 then buf_append_char malloc_ok buf "."%char else Some buf) with
  | None => fe_error "pathjoin: out of memory"
  | Some buf => fe_string (buf_data buf)
  end.
End Paths.
