(* ===== verification/Files.v ===== *)
(** * Builtins on files and directories (src/fex_builtins.c: path_exists_cstr
    to current_working_directory_cstr, read_file_dynamic, builtin_exists to
    builtin_write_json, builtin_cwd to builtin_exit)

    The operating system is a parameter: its answer to a call is a function
    of all the calls before ([System]), and every call is recorded in the
    context ([Host.events]).  The POSIX branch of the code is modelled. *)

From Stdlib Require Import ZArith Lia Ascii String SpecFloat.
From stdpp Require Import base list sorting.
From S2P Require Import Prelude Number Strtod Memory Budget MapTable Slab SlabSpec Span Host Ctx Gc Objects Writer Builtins Json Paths.

(** ** The system *)

(** A file opened for reading: whether its end can be sought, the answer of
    ftell there, the bytes fread delivers, and whether the stream has an
    error when they end. *)
Record Stream := MkStream { seek_end : bool; tell : Z; stream_data : chars; read_fails : bool }.

Inductive ReadAnswer := Bytes (data : chars) | Eof | ReadAgain | ReadIntr | ReadError.
Inductive WriteAnswer := Wrote (n : nat) | WriteAgain | WriteIntr | BrokenPipe | WriteError.
Inductive WaitAnswer := StillRuns | Exited (status : Z) | WaitError | WaitIntr.
(** The descriptors that are ready. *)
Inductive SelectAnswer := Ready (fd : nat -> bool) | SelectIntr | SelectError.

Record System := MkSystem {
  stat : list Event -> chars -> option bool;                 (* a directory? *)
  mkdir : list Event -> chars -> MkdirAnswer;
  readdir : list Event -> chars -> option (list chars);
  fopen_read : list Event -> chars -> option Stream;
  fopen_write : list Event -> chars -> bool;
  fwrite : list Event -> chars -> chars -> nat * bool;       (* written, ferror *)
  getcwd : list Event -> option chars;
  chdir : list Event -> chars -> bool;
  getenv : list Event -> chars -> option chars;
  time : list Event -> Z;
  pipe : list Event -> option (nat * nat);
  open_null : list Event -> option nat;
  set_nonblock : list Event -> nat -> bool;
  fork : list Event -> list chars -> option chars -> option (list chars) -> option positive;
  waitpid : list Event -> positive -> WaitAnswer;
  select : list Event -> SelectAnswer;
  read : list Event -> nat -> ReadAnswer;
  write : list Event -> nat -> chars -> WriteAnswer
}.

(** A call: the answer, and the event it leaves. *)
Definition ask {A} (answer : list Event -> A) (e : A -> Event) : comp fe_Context A :=
  let* h := gets (fun c => events (host c)) in
  modify (fun c => with_host (with_events (e (answer h) :: h) (host c)) c) ;;;
  ret (answer h).
Definition tell_system (e : Event) : comp fe_Context unit := ask (fun _ => tt) (fun _ => e).
Definition fclose (path : chars) : comp fe_Context unit := tell_system (EClose path).

Section Files.
Context (sys : System) (oob oob_int : double -> Z) (fmt_g15 : double -> chars) (malloc_ok : Z -> bool).

(** A message with the name of the builtin. *)
Definition fail_as {A} (func_name what : string) : comp fe_Context A := fe_error (named func_name what).
Definition path_arg (args : obj) (func_name : string) : comp fe_Context chars :=
  FEX_CHECK_ARGS args 1 func_name ;;;
  let* '(path_obj, _) := fe_nextarg args in
  string_to_cstr malloc_ok path_obj func_name.

(** ** Directories *)

Definition path_exists_cstr (path : chars) : comp fe_Context bool :=
  let* st := ask (fun h => stat sys h path) (fun _ => EStat path) in
  ret (match st with Some _ => true | None => false end).
Definition path_is_directory_cstr (path : chars) : comp fe_Context bool :=
  let* st := ask (fun h => stat sys h path) (fun _ => EStat path) in
  ret (match st with Some dir => dir | None => false end).

Definition create_directory_cstr (path : chars) : comp fe_Context bool :=
  let* r := ask (fun h => mkdir sys h path) (EMkdir path) in
  match r with
  | Made => ret true
  | Already => path_is_directory_cstr path
  | Refused => ret false
  end.

Definition path_root_length (path : chars) : nat :=
  match path with ch :: _ => if is_path_separator_char ch then 1 else 0 | [] => 0 end.

(** The path without the separators at its end, above its root. *)
Fixpoint strip_trailing (root_len : nat) (rev_path : chars) : chars :=
  match rev_path with
  | ch :: rest =>
      if (root_len <? length rev_path)%nat && is_path_separator_char ch
      then strip_trailing root_len rest else rev_path
  | [] => []
  end.

(** The prefixes that end at the separators [positions]. *)
Fixpoint make_prefixes (path : chars) (root_len : nat) (positions : list nat) : comp fe_Context bool :=
  match positions with
  | [] => create_directory_cstr path
  | i :: positions =>
      if negb (is_path_separator_char (nth i path zero)) || (i =? root_len)%nat
      then make_prefixes path root_len positions
      else if (i =? 2)%nat && bool_decide (nth 1 path zero = ":"%char)
      then make_prefixes path root_len positions
      else
        let* made := create_directory_cstr (take i path) in
        if made : bool then make_prefixes path root_len positions else ret false
  end.
Definition ensure_directory_tree_cstr (path : chars) : comp fe_Context bool :=
  let root_len := path_root_length path in
  let path := rev (strip_trailing root_len (rev path)) in
  match path with
  | [] => ret false
  | _ => make_prefixes path root_len (seq root_len (length path - root_len))
  end.

Definition builtin_exists (args : obj) : comp fe_Context obj :=
  let* path := path_arg args "exists" in
  let* exists_ := path_exists_cstr path in
  ret (Boolean exists_).
Definition builtin_make_dir (args : obj) : comp fe_Context obj :=
  let* path := path_arg args "mkdir" in
  let* ok := create_directory_cstr path in
  if ok : bool then ret (Boolean true) else fe_error "mkdir: could not create directory".
Definition builtin_make_dir_parents (args : obj) : comp fe_Context obj :=
  let* path := path_arg args "mkdirp" in
  let* ok := ensure_directory_tree_cstr path in
  if ok : bool then ret (Boolean true) else fe_error "mkdirp: could not create directory tree".

(** strcmp on bytes. *)
Fixpoint strcmp_le (x y : chars) : bool :=
  match x, y with
  | [], _ => true
  | _ :: _, [] => false
  | a :: x, b :: y => if decide (a = b) then strcmp_le x y else code a <? code b
  end.
(** qsort; strings that compare equal are the same. *)
Definition cstring_array_sort (items : list chars) : list chars := merge_sort (fun x y => strcmp_le x y) items.

Definition cstring_array_push_copy (items : list chars) (value : chars) : option (list chars) :=
  if malloc_ok (Z.of_nat (length value) + 1) && malloc_ok (8 * (Z.of_nat (length items) + 2))
  then Some (items ++ [value]) else None.

Fixpoint strings_loop (gc_save : nat) (items : list chars) (acc : list obj) (cd : Z) : comp fe_Context (list obj) :=
  match items with
  | [] => ret acc
  | s :: items =>
      let* '(abort_error, cd) := lift_budget (builtin_poll_abort cd) in
      match abort_error with
      | Some msg => fe_restoregc gc_save ;;; fe_error msg
      | None =>
          let* o := fe_string s in
          fe_pushgc o ;;;
          strings_loop gc_save items (acc ++ [o]) cd
      end
  end.
Definition cstring_array_to_list (items : list chars) : comp fe_Context obj :=
  match items with
  | [] => ret Nil
  | _ =>
      if negb (malloc_ok (8 * Z.of_nat (length items))) then fe_error "listdir: out of memory"
      else
        let* gc_save := fe_savegc in
        let* objs := strings_loop gc_save items [] 1 in
        let* result := fe_list objs in
        fe_restoregc gc_save ;;;
        ret result
  end.

Definition is_dots (name : chars) : bool := bool_decide (name = str ".") || bool_decide (name = str "..").
Fixpoint entries_loop (names entries : list chars) (cd : Z) : comp fe_Context (list chars) :=
  match names with
  | [] => ret entries
  | name :: names =>
      let* cd := lift_budget (builtin_poll cd) in
      if is_dots name then entries_loop names entries cd
      else match cstring_array_push_copy entries name with
           | None => fe_error "listdir: out of memory"
           | Some entries => entries_loop names entries cd
           end
  end.
Definition builtin_list_dir (args : obj) : comp fe_Context obj :=
  let* path := path_arg args "listdir" in
  let* dir := path_is_directory_cstr path in
  if negb dir then fe_error "listdir: not a directory"
  else
    let* names := ask (fun h => readdir sys h path) (fun _ => EReadDir path) in
    match names with
    | None => fe_error "listdir: could not read directory"
    | Some names =>
        let* entries := entries_loop names [] 1 in
        cstring_array_to_list (cstring_array_sort entries)
    end.

(** ** Reading files *)

Definition tracked_builtin_free (b : block) : comp fe_Context unit := lift_memory (tracked_free (Some b)).

(** [rest] is what the stream still delivers, [remaining] what is missing of
    the size. *)
Fixpoint read_chunks (fuel : nat) (filename : chars) (func_name : string) (buffer : block) (fails : bool)
    (rest : chars) (remaining : nat) (text : chars) (cd : Z) : comp fe_Context chars :=
  match remaining with
  | O => ret text
  | _ =>
      match fuel with
      | O => no_fuel
      | S f =>
          let chunk_size := Nat.min remaining FEX_FILE_IO_CHUNK_SIZE in
          let* '(abort_error, cd) := lift_budget (builtin_poll_abort cd) in
          match abort_error with
          | Some msg => tracked_builtin_free buffer ;;; fclose filename ;;; fe_error msg
          | None =>
              let bytes := take chunk_size rest in
              let text := text ++ bytes in
              if (length bytes <? chunk_size)%nat then
                if fails then
                  tracked_builtin_free buffer ;;; fclose filename ;;; fail_as func_name "error reading file"
                else ret text
              else
                read_chunks f filename func_name buffer fails (drop chunk_size rest) (remaining - chunk_size) text cd
          end
      end
  end.

(** The buffer and the bytes read into it. *)
Definition read_file_dynamic (filename : chars) (max_size : Z) (func_name : string) : comp fe_Context (block * chars) :=
  let* file := ask (fun h => fopen_read sys h filename) (fun _ => EOpenRead filename) in
  match file with
  | None => fail_as func_name "could not open file"
  | Some file =>
      if negb (seek_end file) || (tell file <? 0)
      then fclose filename ;;; fail_as func_name "could not determine file size"
      else if max_size <? tell file then fclose filename ;;; fail_as func_name "file too large"
      else
        let* buffer := lift_memory (tracked_alloc (tell file + 1)) in
        match buffer with
        | None => fclose filename ;;; lift_memory (memory_error (named func_name "out of memory"))
        | Some buffer =>
            let size := Z.to_nat (tell file) in
            let* text := read_chunks (S size) filename func_name buffer (read_fails file) (stream_data file) size [] 1 in
            fclose filename ;;;
            ret (buffer, text)
        end
  end.

Definition MAX_FILE_SIZE : Z := 256 * 1024.

(** readfile and readbytes. *)
Definition read_as (make : chars -> comp fe_Context obj) (func_name : string) (args : obj) : comp fe_Context obj :=
  let* filename := path_arg args func_name in
  let* '(buffer, text) := read_file_dynamic filename MAX_FILE_SIZE func_name in
  let* result := make text in
  tracked_builtin_free buffer ;;;
  ret result.
Definition builtin_read_file : obj -> comp fe_Context obj := read_as fe_string "readfile".
Definition builtin_read_bytes : obj -> comp fe_Context obj := read_as fe_bytes "readbytes".

(** The value at the start of the text, and the character after it. *)
Definition parse_prefix (text : chars) : comp fe_Context (obj * ascii) := fun c =>
  match (let* result := json_parse_value oob malloc_ok (S (length text)) in
         json_skip_ws ;;;
         let* ch := char_at 0 in
         ret (result, ch)) (c, (text, FEX_BUILTIN_ABORT_CHECK_INTERVAL)) with
  | Done r (c, _) => Done r c
  | Raised e (c, _) => Raised e c
  | Stuck => Stuck
  | NoFuel => NoFuel
  end.
Definition builtin_read_json (args : obj) : comp fe_Context obj :=
  let* filename := path_arg args "readjson" in
  let* '(buffer, text) := read_file_dynamic filename MAX_FILE_SIZE "readjson" in
  let* '(result, ch) := parse_prefix text in
  tracked_builtin_free buffer ;;;
  if decide (ch = zero) then ret result else fe_error "readjson: trailing characters".

(** ** Writing files *)

Fixpoint write_chunks (fuel : nat) (filename : chars) (func_name : string) (content : chars) (total : Z) (cd : Z)
    : comp fe_Context Z :=
  match content with
  | [] => ret total
  | _ =>
      match fuel with
      | O => no_fuel
      | S f =>
          let chunk := take FEX_FILE_IO_CHUNK_SIZE content in
          let* '(abort_error, cd) := lift_budget (builtin_poll_abort cd) in
          match abort_error with
          | Some msg => fclose filename ;;; fe_error msg
          | None =>
              let* '(written, err) := ask (fun h => fwrite sys h filename chunk) (fun r => EWrite filename chunk (fst r)) in
              if (written <? length chunk)%nat || err
              then fclose filename ;;; fail_as func_name "error writing file"
              else write_chunks f filename func_name (drop FEX_FILE_IO_CHUNK_SIZE content) (total + Z.of_nat written) cd
          end
      end
  end.

(** The number of bytes written to the file. *)
Definition write_content (filename : chars) (func_name : string) (content : chars) : comp fe_Context obj :=
  let* opened := ask (fun h => fopen_write sys h filename) (EOpenWrite filename) in
  if negb opened then fail_as func_name "could not open file for writing"
  else
    let* total := write_chunks (S (length content)) filename func_name content 0 1 in
    fclose filename ;;;
    make_number oob (double_of_Z total).

Definition builtin_write_file (args : obj) : comp fe_Context obj :=
  FEX_CHECK_ARGS args 2 "writefile" ;;;
  let* '(filename_obj, args) := fe_nextarg args in
  let* '(content_obj, _) := fe_nextarg args in
  let* filename := string_to_cstr malloc_ok filename_obj "writefile" in
  let* content := string_to_cstr malloc_ok content_obj "writefile" in
  write_content filename "writefile" content.
Definition builtin_write_bytes (args : obj) : comp fe_Context obj :=
  FEX_CHECK_ARGS args 2 "writebytes" ;;;
  let* '(filename_obj, args) := fe_nextarg args in
  let* '(content_obj, _) := fe_nextarg args in
  let* filename := string_to_cstr malloc_ok filename_obj "writebytes" in
  let* content := bytes_to_buffer malloc_ok content_obj "writebytes" in
  write_content filename "writebytes" content.

(** The text of a value; nothing when the buffer could not grow. *)
Definition json_text (fuel : nat) (value : obj) : comp fe_Context (option chars) := fun c =>
  match json_write_value fmt_g15 malloc_ok fuel value (c, (empty_buffer, FEX_BUILTIN_ABORT_CHECK_INTERVAL)) with
  | Done b (c, (buf, _)) => Done (if b : bool then Some (buf_data buf) else None) c
  | Raised e (c, _) => Raised e c
  | Stuck => Stuck
  | NoFuel => NoFuel
  end.
Definition builtin_write_json (fuel : nat) (args : obj) : comp fe_Context obj :=
  FEX_CHECK_ARGS args 2 "writejson" ;;;
  let* '(filename_obj, args) := fe_nextarg args in
  let* '(value, _) := fe_nextarg args in
  let* filename := string_to_cstr malloc_ok filename_obj "writejson" in
  let* text := json_text fuel value in
  match text with
  | None => ret Nil
  | Some text => write_content filename "writejson" text
  end.

(** ** Process state *)

(** [size] doubles while the path does not fit. *)
Fixpoint cwd_loop (fuel : nat) (size : Z) : comp fe_Context (option chars) :=
  match fuel with
  | O => no_fuel
  | S f =>
      if negb (malloc_ok size) then ret None
      else
        let* path := ask (getcwd sys) (fun _ => EGetcwd) in
        match path with
        | None => ret None
        | Some path => if Z.of_nat (length path) + 1 <=? size then ret (Some path) else cwd_loop f (u64 (size * 2))
        end
  end.
Definition current_working_directory_cstr (fuel : nat) : comp fe_Context (option chars) := cwd_loop fuel 256.
Definition builtin_cwd (fuel : nat) (args : obj) : comp fe_Context obj :=
  FEX_CHECK_NO_ARGS args "cwd" ;;;
  let* path := current_working_directory_cstr fuel in
  match path with
  | None => fe_error "cwd: could not determine current directory"
  | Some path => fe_string path
  end.
Definition builtin_chdir (args : obj) : comp fe_Context obj :=
  let* path := path_arg args "chdir" in
  let* ok := ask (fun h => chdir sys h path) (EChdir path) in
  if ok : bool then ret (Boolean true) else fe_error "chdir: could not change directory".
Definition builtin_get_env (args : obj) : comp fe_Context obj :=
  let* name := path_arg args "getenv" in
  let* value := ask (fun h => getenv sys h name) (fun _ => EGetenv name) in
  match value with
  | None => ret Nil
  | Some value => fe_string value
  end.
Definition builtin_time (args : obj) : comp fe_Context obj :=
  let* now := ask (time sys) (fun _ => ETime) in
  make_number oob (double_of_Z now).

(** exit does not return. *)
Definition builtin_exit (args : obj) : comp fe_Context obj :=
  let* code :=
    (if isnil args then ret 0
     else
       let* '(code_obj, _) := fe_nextarg args in
       let* n := fe_tonumber code_obj in
       ret (double_to_int oob_int n)) in
  tell_system (EExit code) ;;;
  no_fuel.
End Files.
