(* ===== verification/Process.v ===== *)
(** * Builtins that run processes (src/fex_builtins.c: append_process_capture,
    decode_process_exit_code to build_shell_process_argv, count_list_length
    to builtin_run_process)

    The POSIX branch, on the side of the parent: the child between fork and
    execvp is part of the system, and fork is told the arguments it will
    run.  An error raised with fe_error does not return to the code that
    raised it, so it skips the cleanup that follows. *)

From Stdlib Require Import ZArith Lia Ascii String SpecFloat.
From stdpp Require Import base list.
From S2P Require Import Prelude Number Strtod Memory Budget MapTable Slab SlabSpec Span Host Ctx Gc Objects Writer Builtins BuiltinsMath Files.

(** ** Data *)

Definition FEX_COMMAND_OUTPUT_MAX_BYTES : Z := 4 * 1024 * 1024.
Inductive StreamMode := PROCESS_STREAM_CAPTURE | PROCESS_STREAM_INHERIT | PROCESS_STREAM_DISCARD.
#[export] Instance StreamMode_eq_dec : EqDecision StreamMode.
Proof. solve_decision. Defined.

(** [env] is [None] when the environment is inherited. *)
Record ProcessOptions := MkOptions {
  stdin_data : chars;
  opt_cwd : option chars;
  opt_env : option (list chars);
  stdout_mode : StreamMode;
  stderr_mode : StreamMode;
  max_stdout : Z;
  max_stderr : Z
}.
Definition default_options : ProcessOptions :=
  MkOptions [] None None PROCESS_STREAM_CAPTURE PROCESS_STREAM_CAPTURE FEX_COMMAND_OUTPUT_MAX_BYTES
    FEX_COMMAND_OUTPUT_MAX_BYTES.
(** A zeroed struct. *)
Definition zero_options (out err : StreamMode) (max_out : Z) : ProcessOptions :=
  MkOptions [] None None out err max_out 0.

Record ProcessOutput := MkOutput { exit_code : Z; stdout_data : chars; stderr_data : chars }.

(** The two ends of a pipe; [None] is a closed one. *)
Record ProcessCapturePipe := MkPipe { read_fd : option nat; write_fd : option nat }.
Definition closed_pipe : ProcessCapturePipe := MkPipe None None.

(** Status words of the usual POSIX encoding: the low seven bits are the
    signal, the next eight the exit code. *)
Definition decode_process_exit_code (status : Z) : Z :=
  if status <? 0 then status
  else
    let sig := Z.land status 0x7F in
    if sig =? 0 then Z.land (Z.shiftr status 8) 0xFF
    else if sig <? 0x7F then 128 + sig
    else status.

Section Process.
Context (sys : System) (oob : double -> Z) (malloc_ok : Z -> bool) (lhs_first : bool).

(** ** Commands *)

Definition build_merged_command (command : chars) (func_name : string) : comp fe_Context chars :=
  let merged := str "(" ++ command ++ str ") 2>&1" in
  if malloc_ok (Z.of_nat (length merged) + 1) then ret merged else fail_as func_name "out of memory".

Fixpoint push_all (items values : list chars) : option (list chars) :=
  match values with
  | [] => Some items
  | v :: values => items ← cstring_array_push_copy malloc_ok items v; push_all items values
  end.
Definition build_shell_process_argv (command : chars) (func_name : string) : comp fe_Context (list chars) :=
  match push_all [] [str "/bin/sh"; str "-c"; command] with
  | Some argv => ret argv
  | None => fail_as func_name "out of memory"
  end.

(** ** Arguments of runprocess *)

Fixpoint count_list_loop (fuel : nat) (node : obj) (func_name label : string) (count cd : Z) : comp fe_Context Z :=
  if isnil node then ret count
  else match fuel with
       | O => no_fuel
       | S f =>
           let* cd := lift_budget (builtin_poll cd) in
           let* t := type_of node in
           if decide (t = FE_TPAIR) then
             let* node := fe_cdr node in
             count_list_loop f node func_name label (count + 1) cd
           else fail_as func_name (label ++ " must be a list")
       end.
Definition count_list_length (l : obj) (func_name label : string) : comp fe_Context Z :=
  let* c := get in count_list_loop (list_fuel c) l func_name label 0 FEX_BUILTIN_ABORT_CHECK_INTERVAL.

Fixpoint argv_loop (fuel : nat) (node : obj) (func_name : string) (items : list chars) (cd : Z)
    : comp fe_Context (list chars) :=
  if isnil node then ret items
  else match fuel with
       | O => no_fuel
       | S f =>
           let* cd := lift_budget (builtin_poll cd) in
           let* value := fe_car node in
           let* t := type_of value in
           if decide (t = FE_TSTRING) then
             let* item := string_to_cstr malloc_ok value func_name in
             let* node := fe_cdr node in
             argv_loop f node func_name (items ++ [item]) cd
           else fe_error "runprocess: args must contain only strings"
       end.
Definition collect_process_argv (exe_obj args_obj : obj) (func_name : string) : comp fe_Context (list chars) :=
  let* extra_count := count_list_length args_obj func_name "args" in
  if negb (malloc_ok (8 * (extra_count + 2))) then fail_as func_name "out of memory"
  else
    let* exe := string_to_cstr malloc_ok exe_obj func_name in
    let* c := get in
    argv_loop (list_fuel c) args_obj func_name [exe] FEX_BUILTIN_ABORT_CHECK_INTERVAL.

Fixpoint env_loop (fuel : nat) (env_obj node : obj) (func_name : string) (items : list chars) (cd : Z)
    : comp fe_Context (list chars) :=
  if isnil node then ret items
  else match fuel with
       | O => no_fuel
       | S f =>
           let* cd := lift_budget (builtin_poll cd) in
           let* key_obj := fe_car node in
           let* value_obj := map_get env_obj key_obj in
           let* t := type_of value_obj in
           if decide (t = FE_TSTRING) then
             let* key := string_to_cstr malloc_ok key_obj func_name in
             let* value := string_to_cstr malloc_ok value_obj func_name in
             if malloc_ok (Z.of_nat (length key) + Z.of_nat (length value) + 2) then
               let* node := fe_cdr node in
               env_loop f env_obj node func_name (items ++ [key ++ str "=" ++ value]) cd
             else fail_as func_name "out of memory"
           else fe_error "runprocess: env values must be strings"
       end.
Definition collect_process_env (env_obj : obj) (func_name : string) : comp fe_Context (list chars) :=
  let* keys := map_keys env_obj in
  let* count := count_list_length keys func_name "env keys" in
  if negb (malloc_ok (8 * (count + 1))) then fail_as func_name "out of memory"
  else
    let* c := get in
    env_loop (list_fuel c) env_obj keys func_name [] FEX_BUILTIN_ABORT_CHECK_INTERVAL.

(** The value under a name, when it is there. *)
Definition map_get_named_value (m : obj) (name : string) : comp fe_Context (option obj) :=
  let* key := fe_symbol (str name) in
  let* present := map_has m key in
  if present : bool then let* v := map_get m key in ret (Some v) else ret None.

Definition object_to_input_buffer (o : obj) (func_name : string) : comp fe_Context chars :=
  if isnil o then ret []
  else
    let* t := type_of o in
    if decide (t = FE_TBYTES) then bytes_to_buffer malloc_ok o func_name
    else if decide (t = FE_TSTRING) then string_to_cstr malloc_ok o func_name
    else fe_error "runprocess: stdin must be a string, bytes, or nil".

Definition parse_process_stream_mode (value : obj) (func_name option_name : string) : comp fe_Context StreamMode :=
  if isnil value then ret PROCESS_STREAM_CAPTURE
  else
    let* t := type_of value in
    if decide (t = FE_TSTRING) then
      let* mode := string_to_cstr malloc_ok value func_name in
      if decide (mode = str "capture") then ret PROCESS_STREAM_CAPTURE
      else if decide (mode = str "inherit") then ret PROCESS_STREAM_INHERIT
      else if decide (mode = str "discard") then ret PROCESS_STREAM_DISCARD
      else fail_as func_name (option_name ++ " must be 'capture', 'inherit', 'discard', or nil")
    else fail_as func_name (option_name ++ " must be a string or nil").

(** [(double)(size_t)-1] is 2^64: the comparison lets 2^64 itself through,
    whose conversion is undefined. *)
Definition parse_process_size_limit (value : obj) (func_name option_name : string) : comp fe_Context Z :=
  if isnil value then ret FEX_COMMAND_OUTPUT_MAX_BYTES
  else
    let bad := fail_as func_name (option_name ++ " must be a non-negative integer or nil") in
    let* t := type_of value in
    if decide (t = FE_TNUMBER) then
      let* n := fe_tonumber value in
      if double_ltb n zero_d || negb (SFeqb n (c_floor n)) then bad
      else if double_ltb (double_of_Z (2 ^ 64)) n then fail_as func_name (option_name ++ " is too large")
      else match trunc n with
           | Some z => if z <? 2 ^ 64 then ret z else stuck
           | None => stuck
           end
    else bad.

(** An option of the map: [f] when it is present. *)
Definition with_option {A} (opts : obj) (name : string) (default_ : A) (f : obj -> comp fe_Context A) : comp fe_Context A :=
  let* v := map_get_named_value opts name in
  match v with Some v => f v | None => ret default_ end.

Definition parse_process_options (opts_obj : obj) (func_name : string) : comp fe_Context ProcessOptions :=
  if isnil opts_obj then ret default_options
  else
    let* t := type_of opts_obj in
    if decide (t <> FE_TMAP) then fe_error "runprocess: options must be a map"
    else
      let* input := with_option opts_obj "stdin" [] (fun v => object_to_input_buffer v func_name) in
      let* cwd := with_option opts_obj "cwd" None (fun v =>
        if isnil v then ret None
        else
          let* t := type_of v in
          if decide (t = FE_TSTRING) then let* s := string_to_cstr malloc_ok v func_name in ret (Some s)
          else fe_error "runprocess: cwd must be a string") in
      let* env := with_option opts_obj "env" None (fun v =>
        if isnil v then ret None
        else
          let* t := type_of v in
          if decide (t = FE_TMAP) then let* l := collect_process_env v func_name in ret (Some l)
          else fe_error "runprocess: env must be a map") in
      let* out_mode := with_option opts_obj "stdout" PROCESS_STREAM_CAPTURE (fun v =>
        parse_process_stream_mode v func_name "stdout") in
      let* err_mode := with_option opts_obj "stderr" PROCESS_STREAM_CAPTURE (fun v =>
        parse_process_stream_mode v func_name "stderr") in
      let* max_out := with_option opts_obj "max_stdout" FEX_COMMAND_OUTPUT_MAX_BYTES (fun v =>
        parse_process_size_limit v func_name "max_stdout") in
      let* max_err := with_option opts_obj "max_stderr" FEX_COMMAND_OUTPUT_MAX_BYTES (fun v =>
        parse_process_size_limit v func_name "max_stderr") in
      ret (MkOptions input cwd env out_mode err_mode max_out max_err).

(** ** Pipes *)

Definition close_fd (fd : option nat) : comp fe_Context unit :=
  match fd with Some fd => tell_system (ECloseFd fd) | None => ret tt end.
Definition destroy_process_capture_pipe (p : ProcessCapturePipe) : comp fe_Context unit :=
  close_fd (read_fd p) ;;; close_fd (write_fd p).

(** A pipe with close-on-exec ends, whose end [nonblocking] does not block. *)
Definition create_process_pipe (nonblocking : nat * nat -> nat) (what func_name : string)
    : comp fe_Context ProcessCapturePipe :=
  let* fds := ask (pipe sys) EPipe in
  match fds with
  | None => fail_as func_name ("could not create " ++ what ++ " pipe")
  | Some (r, w) =>
      tell_system (EFcntl r) ;;;
      tell_system (EFcntl w) ;;;
      let* ok := ask (fun h => set_nonblock sys h (nonblocking (r, w))) (fun _ => EFcntl (nonblocking (r, w))) in
      if ok : bool then ret (MkPipe (Some r) (Some w)) else fail_as func_name ("could not configure " ++ what ++ " pipe")
  end.
Definition create_process_capture_pipe (func_name : string) : comp fe_Context ProcessCapturePipe :=
  create_process_pipe fst "capture" func_name.
Definition create_process_input_pipe (func_name : string) : comp fe_Context ProcessCapturePipe :=
  create_process_pipe snd "stdin" func_name.

Definition open_null_redirect_file (func_name : string) : comp fe_Context nat :=
  let* fd := ask (open_null sys) EOpenNull in
  match fd with Some fd => ret fd | None => fail_as func_name "could not open null device" end.

(** Where an output of the child goes: the pipe, and the redirect file. *)
Definition open_output (mode : StreamMode) (func_name : string) : comp fe_Context (ProcessCapturePipe * option nat) :=
  match mode with
  | PROCESS_STREAM_CAPTURE => let* p := create_process_capture_pipe func_name in ret (p, None)
  | PROCESS_STREAM_DISCARD => let* fd := open_null_redirect_file func_name in ret (closed_pipe, Some fd)
  | PROCESS_STREAM_INHERIT => ret (closed_pipe, None)
  end.

(** ** Transfer *)

(** The captured bytes and the overflow flag. *)
Definition append_process_capture (buf : TextBuffer) (data : chars) (limit : Z) (overflow : bool) (func_name : string)
    : comp fe_Context (TextBuffer * bool) :=
  if overflow then ret (buf, true)
  else if (0 <? limit) && (limit <=? buf_len buf) then ret (buf, true)
  else
    let cut := (0 <? limit) && (limit - buf_len buf <? Z.of_nat (length data)) in
    let to_copy := if cut then take (Z.to_nat (limit - buf_len buf)) data else data in
    match to_copy with
    | [] => ret (buf, cut)
    | _ =>
        match buf_append_mem malloc_ok buf to_copy with
        | Some buf => ret (buf, cut)
        | None => fail_as func_name "out of memory"
        end
    end.

(** What is left of the input, and the end of the pipe while it is open. *)
Fixpoint write_posix_input_pipe (fuel : nat) (fd : nat) (data : chars) (func_name : string)
    : comp fe_Context (chars * option nat) :=
  match data with
  | [] => close_fd (Some fd) ;;; ret ([], None)
  | _ =>
      match fuel with
      | O => no_fuel
      | S f =>
          let* r := ask (fun h => write sys h fd data) (fun _ => EWriteFd fd data) in
          match r with
          | Wrote (S n) => write_posix_input_pipe f fd (drop (S n) data) func_name
          | WriteIntr => write_posix_input_pipe f fd data func_name
          | WriteAgain => ret (data, Some fd)
          | BrokenPipe => close_fd (Some fd) ;;; ret (data, None)
          | Wrote O | WriteError => fail_as func_name "could not write stdin"
          end
      end
  end.

Definition PIPE_CHUNK : nat := 4096.
Fixpoint drain_posix_capture_pipe (fuel : nat) (fd : nat) (buf : TextBuffer) (limit : Z) (overflow : bool)
    (func_name : string) : comp fe_Context (TextBuffer * bool * option nat) :=
  match fuel with
  | O => no_fuel
  | S f =>
      let* r := ask (fun h => read sys h fd) (fun r => ERead fd (match r with Bytes d => d | _ => [] end)) in
      match r with
      | Bytes (ch :: data) =>
          let* '(buf, overflow) := append_process_capture buf (take PIPE_CHUNK (ch :: data)) limit overflow func_name in
          drain_posix_capture_pipe f fd buf limit overflow func_name
      | Bytes [] | Eof => close_fd (Some fd) ;;; ret (buf, overflow, None)
      | ReadIntr => drain_posix_capture_pipe f fd buf limit overflow func_name
      | ReadAgain => ret (buf, overflow, Some fd)
      | ReadError => fail_as func_name "could not read capture pipe"
      end
  end.

(** ** The parent *)

(** Polls the child: its exit code when it has ended. *)
Definition poll_child (pid : positive) : comp fe_Context (option Z) :=
  let* r := ask (fun h => waitpid sys h pid) (fun r => EWait pid (match r with Exited _ => true | _ => false end)) in
  match r with
  | Exited status => ret (Some (decode_process_exit_code status))
  | StillRuns => ret None
  | WaitError | WaitIntr => fe_error "runprocess: could not wait for process"
  end.

(** With nothing to transfer: the abort message, or the exit code. *)
Fixpoint wait_loop (fuel : nat) (pid : positive) : comp fe_Context (string + Z) :=
  match fuel with
  | O => no_fuel
  | S f =>
      let* abort_error := lift_budget fe_poll_abort in
      match abort_error with
      | Some msg => ret (inl msg)
      | None =>
          let* code := poll_child pid in
          match code with
          | Some code => ret (inr code)
          | None => tell_system ESelect ;;; wait_loop f pid
          end
      end
  end.

(** The variables of the transfer loop: the exit code once the child has
    ended, the open ends with what goes through them. *)
Record Transfer := MkTransfer {
  t_exit : option Z;
  t_in : option nat; t_input : chars;
  t_out : option nat; t_out_buf : TextBuffer; t_out_over : bool;
  t_err : option nat; t_err_buf : TextBuffer; t_err_over : bool
}.
Definition t_done (t : Transfer) : bool :=
  match t_exit t, t_in t, t_out t, t_err t with Some _, None, None, None => true | _, _, _, _ => false end.
Definition t_open (t : Transfer) : bool :=
  match t_in t, t_out t, t_err t with None, None, None => false | _, _, _ => true end.
Definition with_exit (code : option Z) (t : Transfer) : Transfer :=
  MkTransfer code (t_in t) (t_input t) (t_out t) (t_out_buf t) (t_out_over t) (t_err t) (t_err_buf t) (t_err_over t).

Section Parent.
Context (fuel : nat) (func_name : string) (options : ProcessOptions).

Definition step_input (ready : nat -> bool) (t : Transfer) : comp fe_Context Transfer :=
  match t_in t with
  | Some fd =>
      if ready fd then
        let* '(input, fd) := write_posix_input_pipe fuel fd (t_input t) func_name in
        ret (MkTransfer (t_exit t) fd input (t_out t) (t_out_buf t) (t_out_over t) (t_err t) (t_err_buf t) (t_err_over t))
      else ret t
  | None => ret t
  end.
Definition finished (t : Transfer) : bool := match t_exit t with Some _ => true | None => false end.
Definition step_output (ready : nat -> bool) (t : Transfer) : comp fe_Context Transfer :=
  match t_out t with
  | Some fd =>
      if finished t || ready fd then
        let* '(buf, over, fd) :=
          drain_posix_capture_pipe fuel fd (t_out_buf t) (max_stdout options) (t_out_over t) func_name in
        ret (MkTransfer (t_exit t) (t_in t) (t_input t) fd buf over (t_err t) (t_err_buf t) (t_err_over t))
      else ret t
  | None => ret t
  end.
Definition step_errors (ready : nat -> bool) (t : Transfer) : comp fe_Context Transfer :=
  match t_err t with
  | Some fd =>
      if finished t || ready fd then
        let* '(buf, over, fd) :=
          drain_posix_capture_pipe fuel fd (t_err_buf t) (max_stderr options) (t_err_over t) func_name in
        ret (MkTransfer (t_exit t) (t_in t) (t_input t) (t_out t) (t_out_buf t) (t_out_over t) fd buf over)
      else ret t
  | None => ret t
  end.

(** The abort message with the state it leaves, or the final state. *)
Fixpoint transfer_loop (n : nat) (pid : positive) (t : Transfer) : comp fe_Context (option string * Transfer) :=
  if t_done t then ret (None, t)
  else match n with
       | O => no_fuel
       | S n =>
           let* abort_error := lift_budget fe_poll_abort in
           match abort_error with
           | Some msg => ret (Some msg, t)
           | None =>
               let* t :=
                 (match t_exit t with
                  | Some _ => ret t
                  | None => let* code := poll_child pid in ret (with_exit code t)
                  end) in
               if t_open t then
                 let* r := ask (select sys) (fun _ => ESelect) in
                 match r with
                 | SelectIntr => transfer_loop n pid t
                 | SelectError => fe_error "runprocess: could not poll process pipes"
                 | Ready ready =>
                     let* t := step_input ready t in
                     let* t := step_output ready t in
                     let* t := step_errors ready t in
                     transfer_loop n pid t
                 end
               else
                 (if finished t then ret tt else tell_system ESelect) ;;;
                 transfer_loop n pid t
           end
       end.

Fixpoint reap_loop (n : nat) (pid : positive) : comp fe_Context unit :=
  match n with
  | O => no_fuel
  | S n =>
      let* r := ask (fun h => waitpid sys h pid) (fun r => EWait pid (match r with Exited _ | StillRuns => true | _ => false end)) in
      match r with WaitIntr => reap_loop n pid | _ => ret tt end
  end.
Definition terminate_posix_process (pid : positive) : comp fe_Context unit :=
  tell_system (EKill pid) ;;; reap_loop fuel pid.

(** After the fork: the error, or the output. *)
Definition run_parent (pid : positive) (input : nat) (out err : option nat) : comp fe_Context (string + ProcessOutput) :=
  match stdin_data options, out, err with
  | [], None, None =>
      close_fd (Some input) ;;;
      let* r := wait_loop fuel pid in
      match r with
      | inl msg => terminate_posix_process pid ;;; ret (inl msg)
      | inr code => ret (inr (MkOutput code [] []))
      end
  | _, _, _ =>
      let* fd :=
        (match stdin_data options with [] => close_fd (Some input) ;;; ret None | _ => ret (Some input) end) in
      let* '(abort_error, t) :=
        transfer_loop fuel pid
          (MkTransfer None fd (stdin_data options) out empty_buffer false err empty_buffer false) in
      (match t_exit t with None => terminate_posix_process pid | Some _ => ret tt end) ;;;
      destroy_process_capture_pipe (MkPipe None (t_in t)) ;;;
      destroy_process_capture_pipe (MkPipe (t_out t) None) ;;;
      destroy_process_capture_pipe (MkPipe (t_err t) None) ;;;
      match abort_error, t_exit t with
      | Some msg, _ => ret (inl msg)
      | None, Some code =>
          if t_out_over t then ret (inl "runprocess stdout: file too large"%string)
          else if t_err_over t then ret (inl "runprocess stderr: file too large"%string)
          else ret (inr (MkOutput code (buf_data (t_out_buf t)) (buf_data (t_err_buf t))))
      | None, None => stuck
      end
  end.

Definition run_process_native (argv : list chars) : comp fe_Context (string + ProcessOutput) :=
  let* stdin_pipe := create_process_input_pipe func_name in
  let* '(stdout_pipe, stdout_redirect) := open_output (stdout_mode options) func_name in
  let* '(stderr_pipe, stderr_redirect) := open_output (stderr_mode options) func_name in
  let* pid := ask (fun h => fork sys h argv (opt_cwd options) (opt_env options))
                  (EFork argv (opt_cwd options) (opt_env options)) in
  match pid, write_fd stdin_pipe with
  | None, _ => fe_error "runprocess: could not start process"
  | Some pid, Some input =>
      close_fd (read_fd stdin_pipe) ;;;
      close_fd stdout_redirect ;;;
      close_fd stderr_redirect ;;;
      close_fd (write_fd stdout_pipe) ;;;
      close_fd (write_fd stderr_pipe) ;;;
      run_parent pid input (read_fd stdout_pipe) (read_fd stderr_pipe)
  | Some _, None => stuck
  end.
End Parent.

(** ** Results *)

(** The order of the two arguments of fe_map_set is not specified. *)
Definition map_put (m : obj) (name : string) (value : comp fe_Context obj) : comp fe_Context unit :=
  if lhs_first then
    let* key := fe_symbol (str name) in
    let* v := value in
    map_set m key v
  else
    let* v := value in
    let* key := fe_symbol (str name) in
    map_set m key v.
(** The bytes of a captured stream, or nil. *)
Definition captured (mode : StreamMode) (data : chars) : comp fe_Context obj :=
  if decide (mode = PROCESS_STREAM_CAPTURE) then fe_bytes data else ret Nil.
Definition number_of (z : Z) : comp fe_Context obj := make_number oob (double_of_Z z).

Definition build_process_result (options : ProcessOptions) (output : ProcessOutput) : comp fe_Context obj :=
  let* result := fe_map in
  map_put result "code" (number_of (exit_code output)) ;;;
  map_put result "ok" (ret (Boolean (exit_code output =? 0))) ;;;
  map_put result "stdout" (captured (stdout_mode options) (stdout_data output)) ;;;
  map_put result "stderr" (captured (stderr_mode options) (stderr_data output)) ;;;
  ret result.

Definition or_fail (r : string + ProcessOutput) : comp fe_Context ProcessOutput :=
  match r with inl msg => fe_error msg | inr output => ret output end.

Definition builtin_system (fuel : nat) (args : obj) : comp fe_Context obj :=
  let* command := path_arg malloc_ok args "system" in
  let* argv := build_shell_process_argv command "system" in
  let* r := run_process_native fuel "system" (zero_options PROCESS_STREAM_INHERIT PROCESS_STREAM_INHERIT 0) argv in
  let* output := or_fail r in
  number_of (exit_code output).

Definition builtin_run_command (fuel : nat) (args : obj) : comp fe_Context obj :=
  let* command := path_arg malloc_ok args "runcommand" in
  let* merged := build_merged_command command "runcommand" in
  let* argv := build_shell_process_argv merged "runcommand" in
  let* r := run_process_native fuel "runcommand"
              (zero_options PROCESS_STREAM_CAPTURE PROCESS_STREAM_DISCARD FEX_COMMAND_OUTPUT_MAX_BYTES) argv in
  let* output := or_fail r in
  let* result := fe_map in
  map_put result "code" (number_of (exit_code output)) ;;;
  map_put result "ok" (ret (Boolean (exit_code output =? 0))) ;;;
  map_put result "output" (fe_bytes (stdout_data output)) ;;;
  ret result.

Definition builtin_run_process (fuel : nat) (args : obj) : comp fe_Context obj :=
  FEX_CHECK_ARGS args 1 "runprocess" ;;;
  let* '(exe_obj, args) := fe_nextarg args in
  let* '(argv_obj, args) := optional_arg args in
  let* '(opts_obj, args) := optional_arg args in
  if negb (isnil args) then fe_error "runprocess: too many arguments"
  else
    let* argv := collect_process_argv exe_obj argv_obj "runprocess" in
    let* options := parse_process_options opts_obj "runprocess" in
    let* r := run_process_native fuel "runprocess" options argv in
    let* output := or_fail r in
    build_process_result options output.
End Process.
