(* ===== verification/BuiltinsSpec.v ===== *)
(** * Builtins on quiet contexts

    With no timeout and no interrupt handler installed ([quiet]) the polls of
    the builtins do nothing and the allocator leaves the budget alone.  The
    arguments of a builtin are a heap list ([list_at]); the checks and copies
    every builtin starts with are evaluated here once. *)

From Stdlib Require Import ZArith Lia Ascii String.
From stdpp Require Import base list sets.
From S2P Require Import Prelude Number Memory Budget MapTable Slab SlabSpec Span Ctx Gc Objects Writer Reader WriterSpec Frame Builtins.

(** ** Polls *)

Definition still_quiet (c : fe_Context) : Prop := quiet (rt_bud (rt c)).

(** The countdown after a poll. *)
Definition next_countdown (cd : Z) : Z := if 1 <? cd then cd - 1 else FEX_BUILTIN_ABORT_CHECK_INTERVAL.

Lemma builtin_poll_quiet cd b : quiet b -> builtin_poll cd b = Done (next_countdown cd) b.
Proof.
  intros [Ht Hi]. unfold builtin_poll, builtin_poll_abort, next_countdown. destruct (1 <? cd); [done |].
  unfold fe_poll_abort, poll_eval_abort, poll_timeout, poll_interrupt, bind, get, ret.
  by rewrite (proj2 (Z.ltb_ge _ _) Ht), Hi.
Qed.

Lemma lift_budget_quiet {A} (m : comp Budget A) a c :
  m (rt_bud (rt c)) = Done a (rt_bud (rt c)) -> lift_budget m c = Done a c.
Proof. intros H. unfold lift_budget, lift_rt, lift_bud. rewrite H. f_equal. destruct c. simpl. by destruct rt. Qed.

Lemma poll_quiet_ctx cd c : still_quiet c -> lift_budget (builtin_poll cd) c = Done (next_countdown cd) c.
Proof. intros H. by apply lift_budget_quiet, builtin_poll_quiet. Qed.

(** ** The allocator and the budget *)

(** [m] returns with the budget it was given. *)
Definition off_budget {A} (m : comp fe_Context A) : Prop :=
  forall c a c', m c = Done a c' -> rt_bud (rt c') = rt_bud (rt c).

Create HintDb offb.

Lemma ob_bind {A B} (m : comp fe_Context A) (k : A -> comp fe_Context B) :
  off_budget m -> (forall a, off_budget (k a)) -> off_budget (bind m k).
Proof. intros Hm Hk c b c' (a & c1 & E1 & E2)%bind_done. etrans; [by eapply Hk | by eapply Hm]. Qed.
Lemma ob_ret {A} (a : A) : off_budget (ret a).
Proof. by intros c ? ? [= <- <-]. Qed.
Lemma ob_gets {A} (f : fe_Context -> A) : off_budget (gets f).
Proof. by intros c ? ? [= <- <-]. Qed.
Lemma ob_get : off_budget get.
Proof. by intros c ? ? [= <- <-]. Qed.
Lemma ob_modify f : (forall c, rt_bud (rt (f c)) = rt_bud (rt c)) -> off_budget (modify f).
Proof. intros H c ? ? [= <- <-]. apply H. Qed.
Lemma ob_stuck {A} : off_budget (@stuck _ A).
Proof. done. Qed.
Lemma ob_no_fuel {A} : off_budget (@no_fuel _ A).
Proof. done. Qed.
Lemma ob_error {A} msg : off_budget (@Ctx.fe_error A msg).
Proof. done. Qed.
Lemma ob_read_cell i : off_budget (read_cell i).
Proof. intros c a c'. unfold read_cell. destruct (cells c !! i); naive_solver. Qed.
Lemma ob_write_cell i x : off_budget (write_cell i x).
Proof. intros c a c'. unfold write_cell. destruct (cells c !! i); naive_solver. Qed.
Lemma ob_lift_memory {A} (m : comp Mem A) : off_budget (lift_memory m).
Proof.
  intros c a c'. unfold lift_memory, lift_rt, lift_mem. destruct (m (rt_mem (rt c))); naive_solver.
Qed.
Lemma ob_lift_spans {A} (m : comp Spans A) : off_budget (lift_spans m).
Proof. intros c a c'. unfold lift_spans. destruct (m _); naive_solver. Qed.
Lemma ob_lift_arena {A} (m : comp StrArena A) : off_budget (lift_arena m).
Proof. intros c a c'. unfold lift_arena. destruct (m (arena c)); naive_solver. Qed.
Lemma ob_lift_cells {A} (m : comp (list cell) A) : off_budget (lift_cells m).
Proof. intros c a c'. unfold lift_cells. destruct (m (cells c)); naive_solver. Qed.
Lemma ob_error_resets {A} (m : comp fe_Context A) : off_budget m -> off_budget (error_resets m).
Proof. intros H c a c'. unfold error_resets. destruct (m c) eqn:E; try done. intros [= -> ->]. by eapply H. Qed.
#[export] Hint Resolve ob_ret ob_gets ob_get ob_stuck ob_no_fuel ob_error ob_read_cell ob_write_cell
  ob_lift_memory ob_lift_spans ob_lift_arena ob_lift_cells ob_error_resets : offb.
#[export] Hint Extern 1 (off_budget (modify _)) => apply ob_modify; by intros ? : offb.

Ltac offb :=
  repeat (cbv beta iota zeta; match goal with
    | |- off_budget (bind _ _) => apply ob_bind; [| intros ?]
    | |- off_budget (match ?x with _ => _ end) => destruct x
    | |- off_budget _ => by auto with offb
    end).

Lemma ob_type_of o : off_budget (type_of o).
Proof. unfold type_of. offb. Qed.
Lemma ob_as_obj v : off_budget (as_obj v).
Proof. unfold as_obj. offb. Qed.
#[export] Hint Resolve ob_type_of ob_as_obj : offb.
Lemma ob_car_of o : off_budget (car_of o).
Proof. unfold car_of. offb. Qed.
Lemma ob_cdr_of o : off_budget (cdr_of o).
Proof. unfold cdr_of. offb. Qed.
Lemma ob_setters o : (forall t, off_budget (settype o t)) /\ (forall v, off_budget (setcar o v)) /\
  (forall v, off_budget (setcdr o v)).
Proof. unfold settype, setcar, setcdr. split_and!; intros; offb. Qed.
#[export] Hint Extern 1 (off_budget (settype _ _)) => apply ob_setters : offb.
#[export] Hint Extern 1 (off_budget (setcar _ _)) => apply ob_setters : offb.
#[export] Hint Extern 1 (off_budget (setcdr _ _)) => apply ob_setters : offb.
#[export] Hint Resolve ob_car_of ob_cdr_of : offb.

Lemma ob_sweep n i live : off_budget (sweep n i live).
Proof.
  revert i live. induction n as [| n IH]; intros i live; cbn [sweep]; [offb |].
  unfold free_string, free_map. offb; apply IH.
Qed.
#[export] Hint Resolve ob_sweep : offb.
Lemma ob_collectgarbage : off_budget collectgarbage.
Proof. unfold collectgarbage. offb. Qed.
#[export] Hint Resolve ob_collectgarbage : offb.
Lemma ob_str_slab_alloc : off_budget (str_slab_alloc collectgarbage).
Proof. unfold str_slab_alloc. offb; by intros ? ? ?. Qed.
#[export] Hint Resolve ob_str_slab_alloc : offb.
Lemma ob_str_fill f o p : off_budget (str_fill collectgarbage f o p).
Proof. revert o p. induction f as [| f IH]; intros o p; cbn [str_fill]; offb; apply IH. Qed.
#[export] Hint Resolve ob_str_fill : offb.
Lemma ob_str_alloc s : off_budget (str_alloc collectgarbage s).
Proof. unfold str_alloc. offb. Qed.
#[export] Hint Resolve ob_str_alloc : offb.
Lemma ob_fe_pushgc o : off_budget (fe_pushgc o).
Proof.
  intros c a c'. unfold fe_pushgc, bind, get, ret, put. destruct o; try (by intros [= <- <-]);
    case_decide; try done; by intros [= <- <-].
Qed.
#[export] Hint Resolve ob_fe_pushgc : offb.
Lemma ob_object : off_budget object.
Proof. unfold object. offb. Qed.
#[export] Hint Resolve ob_object : offb.
Lemma ob_fe_cons a b : off_budget (fe_cons a b).
Proof. unfold fe_cons. offb. Qed.
Lemma ob_make_data_obj t s : off_budget (make_data_obj t s).
Proof. unfold make_data_obj. offb. Qed.
#[export] Hint Resolve ob_fe_cons ob_make_data_obj : offb.
Lemma ob_fe_string s : off_budget (fe_string s).
Proof. apply ob_make_data_obj. Qed.
#[export] Hint Resolve ob_fe_string : offb.
Lemma ob_append_cell l cell : off_budget (append_cell l cell).
Proof. unfold append_cell, fe_cdr_ptr, checktype. offb. Qed.
#[export] Hint Resolve ob_append_cell : offb.

Lemma off_budget_quiet {A} (m : comp fe_Context A) c a c' :
  off_budget m -> m c = Done a c' -> still_quiet c -> still_quiet c'.
Proof. unfold still_quiet. intros H E. by rewrite (H _ _ _ E). Qed.

(** ** Argument lists *)

(** [l] is a chain of pairs that holds the objects [os] and ends in [e]. *)
Inductive spine (c : fe_Context) (e : obj) : obj -> list obj -> Prop :=
| spine_end : spine c e e []
| spine_cons l a d os : pair_at c l a d -> spine c e d os -> spine c e l (a :: os).
(** [l] is the proper list of the objects [os]. *)
Definition list_at (c : fe_Context) : obj -> list obj -> Prop := spine c Nil.
Lemma list_at_nil c : list_at c Nil [].
Proof. apply spine_end. Qed.
Lemma list_at_cons c l a d os : pair_at c l a d -> list_at c d os -> list_at c l (a :: os).
Proof. apply spine_cons. Qed.

Lemma pair_at_fun c l a d a' d' : pair_at c l a d -> pair_at c l a' d' -> a = a' /\ d = d'.
Proof.
  intros (i & x & -> & E & _ & Ea & Ed) (i' & x' & Ei & E' & _ & Ea' & Ed'). simplify_eq.
  split; congruence.
Qed.
Lemma pair_at_ref c l a d : pair_at c l a d -> exists i, l = Ref i /\ (i < length (cells c))%nat.
Proof. intros (i & x & -> & E & _). exists i. split; [done |]. by eapply lookup_lt_Some. Qed.
Lemma pair_at_not_nil c l a d : pair_at c l a d -> isnil l = false.
Proof. by intros (i & _ & -> & _). Qed.

Definition not_pair (c : fe_Context) (e : obj) : Prop := forall a d, ~ pair_at c e a d.
Lemma Nil_not_pair c : not_pair c Nil.
Proof. intros a d (i & x & ? & _). done. Qed.

Lemma spine_fun c e l os os' : not_pair c e -> spine c e l os -> spine c e l os' -> os = os'.
Proof.
  intros He H. revert os'. induction H as [| l a d os Hp Hl IH]; intros os' H'.
  - inversion H' as [| ? a d os2 Hp]; [done |]. by destruct (He _ _ Hp).
  - inversion H' as [| ? a' d' os2 Hp' Hl']; subst.
    + by destruct (He _ _ Hp).
    + destruct (pair_at_fun _ _ _ _ _ _ Hp Hp') as [-> ->]. f_equal. by apply IH.
Qed.

(** The cells of a chain are different, so it is no longer than the heap. *)
Lemma spine_cells c e l os : not_pair c e -> spine c e l os ->
  exists ixs : list nat, length ixs = length os /\ NoDup ixs /\
    (forall i, i ∈ ixs -> (i < length (cells c))%nat /\ exists n, spine c e (Ref i) (drop n os) /\ (n < length os)%nat).
Proof.
  intros He. induction 1 as [| l a d os Hp Hl (ixs & Hn & Hd & Hi)].
  { exists []. split_and!; [done | constructor | by intros i ?%elem_of_nil]. }
  destruct (pair_at_ref _ _ _ _ Hp) as (i & -> & Hlt). exists (i :: ixs). split_and!.
  - simpl. by rewrite Hn.
  - constructor; [| done]. intros Hin. destruct (Hi i Hin) as (_ & n & Hsub & Hlen).
    assert (a :: os = drop n os) as E by (eapply spine_fun; [done | by econstructor | done]).
    apply (f_equal length) in E. rewrite length_drop in E. simpl in E. lia.
  - intros j [-> | Hj]%elem_of_cons; [split; [done |]; exists 0%nat; split; [by econstructor | simpl; lia] |].
    destruct (Hi j Hj) as (? & n & ? & ?). split; [done |]. exists (S n). split; [done | simpl; lia].
Qed.
Lemma spine_length c e l os : not_pair c e -> spine c e l os -> (length os <= length (cells c))%nat.
Proof.
  intros He (ixs & <- & Hd & Hi)%spine_cells; [| done].
  replace (length (cells c)) with (length (seq 0 (length (cells c)))) by apply length_seq.
  apply submseteq_length, NoDup_submseteq; [done |]. intros i H. apply elem_of_seq. destruct (Hi i H). lia.
Qed.
Lemma list_at_length c l os : list_at c l os -> (length os <= length (cells c))%nat.
Proof. apply spine_length, Nil_not_pair. Qed.
Lemma list_at_fuel c l os : list_at c l os -> (length os < list_fuel c)%nat.
Proof. intros ?%list_at_length. unfold list_fuel. lia. Qed.

(** ** Checks and copies *)

Section Reading.
Context (c : fe_Context) (Hq : still_quiet c) (Hheap : Z.of_nat (length (cells c)) < INT_MAX).

Lemma fe_cdr_pair l a d : pair_at c l a d -> fe_cdr l c = Done d c.
Proof.
  intros H. unfold fe_cdr. rewrite (pair_at_not_nil _ _ _ _ H). unfold checktype.
  rewrite (bind_eq _ _ _ l c); [by eapply pair_at_cdr |].
  rewrite (bind_eq _ _ _ _ _ (pair_at_type _ _ _ _ H)). by rewrite decide_False by tauto.
Qed.
Lemma fe_car_pair l a d : pair_at c l a d -> fe_car l c = Done a c.
Proof.
  intros H. unfold fe_car. rewrite (pair_at_not_nil _ _ _ _ H). unfold checktype.
  rewrite (bind_eq _ _ _ l c); [by eapply pair_at_car |].
  rewrite (bind_eq _ _ _ _ _ (pair_at_type _ _ _ _ H)). by rewrite decide_False by tauto.
Qed.

Lemma nextarg_pair l a d : pair_at c l a d -> fe_nextarg l c = Done (a, d) c.
Proof.
  intros H. unfold fe_nextarg. rewrite (bind_eq _ _ _ _ _ (pair_at_type _ _ _ _ H)).
  rewrite decide_False by tauto. rewrite (bind_eq _ _ _ _ _ (pair_at_cdr _ _ _ _ H)).
  by rewrite (bind_eq _ _ _ _ _ (pair_at_car _ _ _ _ H)).
Qed.
(** The next argument of a list. *)
Lemma nextarg_list {A} l a os (k : obj * obj -> comp fe_Context A) : list_at c l (a :: os) ->
  exists d, list_at c d os /\ bind (fe_nextarg l) k c = k (a, d) c.
Proof.
  inversion 1 as [| ? ? d ? Hp Hl]; subst. exists d. split; [done |].
  by rewrite (bind_eq _ _ _ _ _ (nextarg_pair _ _ _ Hp)).
Qed.
Lemma optional_arg_list {A} l os (k : obj * obj -> comp fe_Context A) : list_at c l os ->
  exists d, list_at c d (tail os) /\ bind (optional_arg l) k c = k (default Nil (head os), d) c.
Proof.
  intros H. unfold optional_arg. destruct H as [| l a d os Hp Hl].
  - exists Nil. split; [constructor | done].
  - exists d. split; [done |]. rewrite (pair_at_not_nil _ _ _ _ Hp).
    by rewrite (bind_eq _ _ _ _ _ (nextarg_pair _ _ _ Hp)).
Qed.

Lemma count_args_list l os : list_at c l os -> forall fuel count,
  (length os < fuel)%nat -> 0 <= count -> count + Z.of_nat (length os) <= INT_MAX ->
  count_args fuel l count c = Done (count + Z.of_nat (length os)) c.
Proof.
  induction 1 as [| l a d os Hp Hl IH]; intros [| fuel] count Hf Hc Hm; simpl length in *; try lia; cbn [count_args].
  { simpl. by rewrite Z.add_0_r. }
  rewrite (pair_at_not_nil _ _ _ _ Hp), (bind_eq _ _ _ _ _ (fe_cdr_pair _ _ _ Hp)).
  unfold INT_MAX in Hm. rewrite swrap_small by (unfold in_s; lia).
  rewrite IH by (unfold INT_MAX; lia). f_equal. lia.
Qed.

Lemma check_args l os n name : list_at c l os ->
  FEX_CHECK_ARGS l n name c
  = if Z.of_nat (length os) <? n then Raised (named name "insufficient arguments") (ctx_error_reset c)
    else Done tt c.
Proof.
  intros H. unfold FEX_CHECK_ARGS. rewrite (bind_eq get _ _ c c eq_refl).
  pose proof (list_at_length _ _ _ H).
  rewrite (bind_eq _ _ _ _ _ (count_args_list _ _ H _ 0 (list_at_fuel _ _ _ H) ltac:(lia) ltac:(lia))).
  rewrite Z.add_0_l. by destruct (_ <? _).
Qed.

(** What a builtin does with its first argument, once there are enough. *)
Lemma first_arg {A} args o more n name (k : obj * obj -> comp fe_Context A) r :
  list_at c args (o :: more) -> n <= Z.of_nat (length (o :: more)) ->
  (forall d, list_at c d more -> k (o, d) c = r) ->
  (FEX_CHECK_ARGS args n name ;;; bind (fe_nextarg args) k) c = r.
Proof.
  intros Ha Hn Hk. rewrite (bind_eq _ _ c tt c).
  - destruct (nextarg_list args o more k Ha) as (d & Hd & ->). by apply Hk.
  - rewrite (check_args _ _ _ _ Ha). by rewrite (proj2 (Z.ltb_ge _ _)).
Qed.
Lemma skip_arg {A} d o more (k : obj * obj -> comp fe_Context A) r :
  list_at c d (o :: more) -> (forall d', list_at c d' more -> k (o, d') c = r) -> bind (fe_nextarg d) k c = r.
Proof. intros Hd Hk. destruct (nextarg_list d o more k Hd) as (d' & Hd' & ->). by apply Hk. Qed.

Lemma check_type o t expected name : type_of o c = Done t c ->
  FEX_CHECK_TYPE o expected name c
  = if decide (t = expected) then Done tt c
    else Raised (named name "type mismatch") (ctx_error_reset c).
Proof. intros H. unfold FEX_CHECK_TYPE. rewrite (bind_eq _ _ _ _ _ H). by case_decide. Qed.

Lemma strlen_string t o s : string_at c t o s -> fe_strlen o c = Done (Z.of_nat (length s)) c.
Proof.
  intros (i & x & off & os & -> & E & _ & Ec & Ed & _). unfold fe_strlen, str_fields.
  rewrite (bind_eq _ _ _ (length s, off) c); [done |].
  unfold bind, read_cell. rewrite E, Ec, Ed. unfold ret. by rewrite Nat2Z.id.
Qed.

Lemma text_of_string o s n : 1 <= n -> string_at c FE_TSTRING o s ->
  text_of o n c = Done (take (Z.to_nat (n - 1)) s) c.
Proof.
  intros Hn H. unfold text_of, fe_tostring. unfold bind.
  destruct (emits_string (fun _ => []) writebuf (fun _ => []) c Hq o s false 0 H ([], n - 1)) as ([] & -> & _).
  by rewrite emit_writebuf by lia.
Qed.

(** The copy into a fixed buffer: the whole text, or an error. *)
Lemma fixed_buffer_string o s name n : string_at c FE_TSTRING o s ->
  copy_string_to_fixed_buffer o name n c
  = if n <=? Z.of_nat (length s) then Raised (named name "string too long") (ctx_error_reset c)
    else Done s c.
Proof.
  intros H. unfold copy_string_to_fixed_buffer, is_string.
  rewrite (bind_eq _ _ c tt c) by (by rewrite (check_type _ _ _ _ (string_at_type _ _ _ _ H)), decide_True).
  rewrite (bind_eq _ _ _ _ _ (strlen_string _ _ _ H)).
  destruct (Z.leb_spec n (Z.of_nat (length s))).
  - by rewrite (proj2 (Z.ltb_lt _ _)) by lia.
  - rewrite (proj2 (Z.ltb_ge _ _)) by lia. rewrite (text_of_string _ s) by (lia || done).
    by rewrite take_ge by lia.
Qed.
(** Copies in memory the C library grants. *)
Section Granted.
Context (malloc_ok : Z -> bool) (Hm : forall n, malloc_ok n = true).

Lemma string_buffer_ok name o s : string_at c FE_TSTRING o s -> Z.of_nat (length s) < INT_MAX ->
  string_to_buffer malloc_ok o name c = Done s c.
Proof.
  intros H Hl. unfold string_to_buffer, is_string.
  rewrite (bind_eq _ _ c tt c) by (by rewrite (check_type _ _ _ _ (string_at_type _ _ _ _ H)), decide_True).
  rewrite (bind_eq _ _ _ _ _ (strlen_string _ _ _ H)).
  rewrite (proj2 (Z.ltb_ge _ _)) by lia. rewrite Hm. cbn [negb].
  rewrite (text_of_string o s) by (lia || done). by rewrite take_ge by lia.
Qed.
Lemma string_cstr_ok name o s : string_at c FE_TSTRING o s -> Z.of_nat (length s) < INT_MAX ->
  string_to_cstr malloc_ok o name c
  = if decide (zero ∈ s) then Raised (named name "strings containing NUL bytes are not allowed") (ctx_error_reset c)
    else Done s c.
Proof.
  intros H Hl. unfold string_to_cstr. rewrite (bind_eq _ _ _ _ _ (string_buffer_ok name o s H Hl)).
  case_decide as Hz; [by rewrite bool_decide_true | by rewrite bool_decide_false].
Qed.
End Granted.
End Reading.
