(* ===== verification/TextSpec.v ===== *)
(** * The text builtins compute their reference functions

    upper, lower, trim, contains and split of src/fex_builtins.c against list
    functions, with every error they can raise. *)

From Stdlib Require Import ZArith Lia Ascii String.
From stdpp Require Import base list sets.
From S2P Require Import Prelude Number Strtod Memory Budget MapTable MapSpec Slab SlabSpec Span Ctx Gc GcProps Objects Writer Reader WriterSpec Frame Builtins BuiltinsText BuiltinsSpec.

(** ** Reference functions *)

(** The maximal runs of characters that are not separators. *)
Fixpoint fields (sep : ascii -> bool) (s run : chars) : list chars :=
  match s with
  | [] => if decide (run = []) then [] else [run]
  | ch :: s =>
      if sep ch then (if decide (run = []) then [] else [run]) ++ fields sep s []
      else fields sep s (run ++ [ch])
  end.

Definition blank (s : chars) : Prop := Forall (fun ch => is_space ch = true) s.
Definition starts_blank (s : chars) : bool := match s with ch :: _ => is_space ch | [] => false end.

(** [t] is [s] without the blanks around it. *)
Definition stripped (s t : chars) : Prop :=
  (exists pre post, s = pre ++ t ++ post /\ blank pre /\ blank post) /\
  starts_blank t = false /\ starts_blank (rev t) = false.

(** The pieces handed to [emit] from left to right. *)
Fixpoint collect {A} (emit : A -> chars -> comp fe_Context A) (acc : A) (pieces : list chars) : comp fe_Context A :=
  match pieces with
  | [] => ret acc
  | p :: pieces => let* acc := emit acc p in collect emit acc pieces
  end.

(** ** Case *)

Lemma map_polling_map f s cd b : quiet b -> map_polling f s cd b = Done (f <$> s) b.
Proof.
  intros Hq. revert cd. induction s as [| ch s IH]; intros cd; cbn [map_polling]; [done |].
  rewrite (bind_eq _ _ _ _ _ (builtin_poll_quiet cd b Hq)). by rewrite (bind_eq _ _ _ _ _ (IH _)).
Qed.

(** ** Blanks *)

Fixpoint drop_blanks (s : chars) : chars :=
  match s with ch :: rest => if is_space ch then drop_blanks rest else s | [] => [] end.

Lemma skip_spaces_drop s cd b : quiet b -> exists cd', skip_spaces s cd b = Done (drop_blanks s, cd') b.
Proof.
  intros Hq. revert cd. induction s as [| ch s IH]; intros cd; cbn [skip_spaces drop_blanks]; [by eexists |].
  destruct (is_space ch); [| by eexists].
  rewrite (bind_eq _ _ _ _ _ (builtin_poll_quiet cd b Hq)). apply IH.
Qed.

Lemma drop_blanks_spec s : exists pre, s = pre ++ drop_blanks s /\ blank pre /\ starts_blank (drop_blanks s) = false.
Proof.
  induction s as [| ch s (pre & E & Hp & Hs)]; cbn [drop_blanks].
  - exists []. split_and!; [done | constructor | done].
  - destruct (is_space ch) eqn:Ec.
    + exists (ch :: pre). split_and!; [by rewrite <- app_comm_cons, <- E | by constructor | done].
    + exists []. split_and!; [done | constructor | done].
Qed.

Lemma trimmed_stripped s b : quiet b -> exists t, trimmed s b = Done t b /\ stripped s t.
Proof.
  intros Hq. unfold trimmed. destruct (skip_spaces_drop s FEX_BUILTIN_ABORT_CHECK_INTERVAL b Hq) as (cd & E).
  rewrite (bind_eq _ _ _ _ _ E). destruct (drop_blanks_spec s) as (pre & Es & Hpre & Hst).
  destruct (drop_blanks s) as [| ch t] eqn:Ed.
  { exists []. split; [done |]. split; [| done]. exists pre, []. split_and!; [done | done | constructor]. }
  destruct (skip_spaces_drop (rev (ch :: t)) cd b Hq) as (cd' & ->%(bind_eq _ (fun '(r, _) => ret (rev r)))).
  destruct (drop_blanks_spec (rev (ch :: t))) as (post & Er & Hpost & Hend).
  eexists. split; [done |]. apply (f_equal (@rev _)) in Er. rewrite rev_involutive, rev_app_distr in Er.
  split; [exists pre, (rev post) |]; [split_and! |].
  - by rewrite <- Er.
  - done.
  - by apply Forall_rev.
  - split; [| by rewrite rev_involutive].
    destruct (rev (drop_blanks (rev (ch :: t)))) as [| ch' t'] eqn:El; [done |].
    rewrite <- app_comm_cons in Er. by injection Er as -> _.
Qed.

(** A text has one stripped form. *)
Lemma drop_blanks_app pre s : blank pre -> drop_blanks (pre ++ s) = drop_blanks s.
Proof. induction 1 as [| ch pre Hc _ IH]; cbn [app drop_blanks]; [done |]. by rewrite Hc. Qed.
Lemma drop_blanks_id s : starts_blank s = false -> drop_blanks s = s.
Proof. destruct s as [| ch s]; cbn; [done |]. by intros ->. Qed.
Lemma stripped_unique s t t' : stripped s t -> stripped s t' -> t = t'.
Proof.
  assert (forall t, stripped s t -> t = rev (drop_blanks (rev (drop_blanks s)))) as H.
  { clear. intros t ((pre & post & -> & Hpre & Hpost) & Hs & He).
    rewrite drop_blanks_app by done. destruct t as [| ch t].
    - cbn [app]. replace (drop_blanks post) with ([] : chars); [done |].
      rewrite <- (app_nil_r post), drop_blanks_app by done. done.
    - rewrite (drop_blanks_id ((ch :: t) ++ post)) by done.
      rewrite rev_app_distr, drop_blanks_app by (by apply Forall_rev).
      by rewrite drop_blanks_id, rev_involutive. }
  intros ->%H ->%H. done.
Qed.

(** ** Searching *)

Lemma sequence_from_infix haystack needle fuel i : (length haystack < fuel + i)%nat ->
  sequence_from fuel i haystack needle = true
  <-> exists pre post, haystack = pre ++ needle ++ post /\ (i <= length pre)%nat.
Proof.
  revert i. induction fuel as [| fuel IH]; intros i Hf; cbn [sequence_from].
  { split; [done |]. intros (pre & post & -> & Hi). rewrite !length_app in Hf. lia. }
  case_decide as Hl.
  - rewrite orb_true_iff, bool_decide_eq_true, IH by lia. split.
    + intros [E | (pre & post & -> & Hi)]; [| exists pre, post; split; [done | lia]].
      exists (take i haystack), (drop (length needle) (drop i haystack)). rewrite <- E at 1.
      rewrite length_take, Nat.min_l by lia. rewrite take_drop. split; [| lia]. by rewrite take_drop.
    + intros (pre & post & -> & Hi). destruct (decide (i = length pre)) as [-> | Hn].
      * left. by rewrite drop_app_length, take_app_length.
      * right. exists pre, post. split; [done | lia].
  - split; [done |]. intros (pre & post & -> & Hi). rewrite !length_app in Hl. lia.
Qed.
Lemma contains_infix haystack needle :
  bytes_contains_sequence haystack needle = true <-> exists pre post, haystack = pre ++ needle ++ post.
Proof.
  unfold bytes_contains_sequence. destruct needle as [| ch needle].
  { split; [intros _; by exists [], haystack | done]. }
  destruct (Nat.ltb_spec (length haystack) (length (ch :: needle))) as [Hl | Hl].
  - split; [done |]. intros (pre & post & ->). rewrite !length_app in Hl. lia.
  - rewrite sequence_from_infix by lia. split.
    + intros (pre & post & E & _). by exists pre, post.
    + intros (pre & post & E). exists pre, post. split; [done | lia].
Qed.

(** ** Splitting *)

Lemma contains_byte_elem set ch : bytes_contains_byte set ch = bool_decide (ch ∈ set).
Proof.
  induction set as [| x set IH]; cbn [bytes_contains_byte]; [done |]. rewrite IH.
  apply Bool.eq_true_iff_eq. rewrite orb_true_iff, !bool_decide_eq_true, elem_of_cons. naive_solver.
Qed.
Definition is_sep (delimiter : chars) (ch : ascii) : bool := bool_decide (ch ∈ delimiter).

Lemma skip_delims_fields delimiter buffer : forall fuel i, (length buffer <= fuel + i)%nat ->
  let j := skip_delims fuel delimiter buffer i in
  (i <= j)%nat /\ (j <= Nat.max i (length buffer))%nat /\
  fields (is_sep delimiter) (drop i buffer) [] = fields (is_sep delimiter) (drop j buffer) [].
Proof.
  induction fuel as [| fuel IH]; intros i Hf; cbn [skip_delims]; [split_and!; [lia | lia | done] |].
  unfold is_delim. destruct (buffer !! i) as [ch |] eqn:E; [| split_and!; [lia | lia | done]].
  destruct (bytes_contains_byte delimiter ch) eqn:Eb; [| split_and!; [lia | lia | done]].
  destruct (IH (S i) ltac:(lia)) as (H1 & H2 & H3). apply lookup_lt_Some in E as Hlt.
  split_and!; [lia | lia |]. rewrite <- H3, (drop_S _ _ _ E). cbn [fields].
  rewrite contains_byte_elem in Eb. unfold is_sep at 1. by rewrite Eb.
Qed.

Section Split.
Context {A : Type} (emit : A -> chars -> comp fe_Context A).
Hypothesis emit_quiet : forall acc p c a c', emit acc p c = Done a c' -> still_quiet c -> still_quiet c'.
Context (delimiter buffer : chars).

Lemma slice_nil i : slice buffer i (i - i) = [].
Proof. unfold slice. by rewrite Nat.sub_diag, take_0. Qed.
Lemma slice_snoc start i ch : (start <= i)%nat -> buffer !! i = Some ch ->
  slice buffer start (S i - start) = slice buffer start (i - start) ++ [ch].
Proof.
  intros Hs E. unfold slice. replace (S i - start)%nat with (S (i - start)) by lia.
  apply take_S_r. rewrite lookup_drop. by replace (start + (i - start))%nat with i by lia.
Qed.
Lemma slice_empty start i : (start <= i)%nat -> (i <= length buffer)%nat ->
  (slice buffer start (i - start) = []) <-> start = i.
Proof.
  intros Hs Hi. unfold slice. split; [| intros ->; by rewrite Nat.sub_diag, take_0].
  intros E%(f_equal length). rewrite length_take, length_drop in E. simpl in E. lia.
Qed.

(** The piece between [start] and [i] goes to [emit] when it is not empty. *)
Lemma emit_piece start i acc : (start <= i)%nat -> (i <= length buffer)%nat ->
  (if (start <? i)%nat then emit acc (slice buffer start (i - start)) else ret acc)
  = (if decide (slice buffer start (i - start) = []) then ret acc
     else emit acc (slice buffer start (i - start))).
Proof.
  intros Hs Hi. case_decide as E; rewrite slice_empty in E by done.
  - by rewrite (proj2 (Nat.ltb_ge _ _)) by lia.
  - by rewrite (proj2 (Nat.ltb_lt _ _)) by lia.
Qed.
(** A run before the fields that follow it. *)
Lemma collect_run run rest acc :
  (let* a := (if decide (run = []) then ret acc else emit acc run) in collect emit a rest)
  = collect emit acc ((if decide (run = []) then [] else [run]) ++ rest).
Proof. by case_decide. Qed.

Lemma piece_quiet run acc c a c' : (if decide (run = []) then ret acc else emit acc run) c = Done a c' ->
  still_quiet c -> still_quiet c'.
Proof. case_decide; [by intros [= <- <-] | apply emit_quiet]. Qed.

Lemma split_loop_fields : forall fuel i start acc cd c, still_quiet c ->
  (start <= i)%nat -> (i <= length buffer \/ start = i /\ i = S (length buffer))%nat -> (S (length buffer) < fuel + i)%nat ->
  split_loop emit fuel delimiter buffer i start acc cd c
  = (let* a := collect emit acc (fields (is_sep delimiter) (drop i buffer) (slice buffer start (i - start))) in
     ret (a, S (length buffer))) c.
Proof.
  induction fuel as [| fuel IH]; intros i start acc cd c Hq Hs Hi Hf; [lia |]. cbn [split_loop].
  case_decide as Hend.
  { destruct Hi as [Hi | [-> ->]]; [lia |]. rewrite drop_ge by lia. rewrite slice_nil. done. }
  assert (i <= length buffer)%nat as Hle by lia. clear Hi.
  destruct (decide (i = length buffer)) as [El | El].
  - rewrite bool_decide_true by done. cbn [negb andb].
    rewrite (bind_eq _ _ _ _ _ (poll_quiet_ctx cd c Hq)). rewrite emit_piece by done.
    assert (skip_delims (length buffer) delimiter buffer (S i) = S (length buffer)) as ->.
    { rewrite El. destruct (length buffer) eqn:Eb; cbn [skip_delims]; [done |].
      unfold is_delim. by rewrite lookup_ge_None_2 by lia. }
    rewrite drop_ge by lia. cbn [fields].
    rewrite <- (app_nil_r (if decide (slice _ _ _ = []) then [] else _)), <- collect_run.
    apply bind_under. intros a c1 E. rewrite IH; [| by eapply piece_quiet | lia | lia | lia].
    rewrite drop_ge by lia. by rewrite slice_nil.
  - rewrite bool_decide_false by done. cbn [negb andb].
    destruct (lookup_lt_is_Some_2 buffer i ltac:(lia)) as [ch E]. rewrite (drop_S _ _ _ E). cbn [fields].
    unfold is_delim. rewrite E, contains_byte_elem. fold (is_sep delimiter ch).
    destruct (is_sep delimiter ch); cbn [negb].
    + rewrite (bind_eq _ _ _ _ _ (poll_quiet_ctx cd c Hq)). rewrite emit_piece by lia.
      rewrite <- collect_run. destruct (skip_delims_fields delimiter buffer (length buffer) (S i) ltac:(lia)) as (H1 & H2 & H3).
      apply bind_under. intros a c1 Em. rewrite IH; [| by eapply piece_quiet | lia | lia | lia].
      by rewrite H3, slice_nil.
    + rewrite IH by (done || lia). by rewrite (slice_snoc _ _ ch) by (lia || done).
Qed.

Lemma split_pieces_fields acc c : still_quiet c ->
  split_pieces emit acc delimiter buffer c
  = collect emit acc (if decide (delimiter = []) then [buffer] else fields (is_sep delimiter) buffer []) c.
Proof.
  intros Hq. unfold split_pieces. destruct delimiter as [| d ds] eqn:Ed.
  { rewrite decide_True by done. cbn [collect]. unfold bind, ret. by destruct (emit acc buffer c). }
  rewrite decide_False by done. rewrite <- Ed in *.
  destruct (skip_delims_fields delimiter buffer (length buffer) 0 ltac:(lia)) as (_ & H2 & H3).
  rewrite drop_0 in H3. rewrite H3. unfold bind at 1.
  rewrite split_loop_fields by (done || lia). rewrite slice_nil. unfold bind at 1.
  destruct (collect _ _ _ _) as [a c1 | | |]; try done. cbv beta iota delta [ret].
  rewrite (proj2 (Nat.ltb_ge (S _) _)) by lia. by rewrite andb_false_r.
Qed.
End Split.

(** ** The builtins *)

Lemma emit_string_quiet acc p c a c' : emit_string acc p c = Done a c' -> still_quiet c -> still_quiet c'.
Proof. intros E. eapply off_budget_quiet; [| exact E]. unfold emit_string. offb. Qed.

Section Builtins.
Context (c : fe_Context) (Hq : still_quiet c) (Hheap : Z.of_nat (length (cells c)) < INT_MAX).

Lemma string_checked {A} o s name (k : unit -> comp fe_Context A) : string_at c FE_TSTRING o s ->
  bind (FEX_CHECK_TYPE o FE_TSTRING name) k c = k tt c.
Proof.
  intros H. apply bind_eq. by rewrite (check_type _ _ _ _ _ (string_at_type _ _ _ _ H)), decide_True.
Qed.
(** The copy of a string into a buffer of [n] bytes and what follows it. *)
Lemma string_copied {A} o s name n (k : chars -> comp fe_Context A) : string_at c FE_TSTRING o s ->
  bind (copy_string_to_fixed_buffer o name n) k c
  = if n <=? Z.of_nat (length s) then Raised (named name "string too long") (ctx_error_reset c) else k s c.
Proof.
  intros H. unfold bind. rewrite (fixed_buffer_string c Hq o s name n H). by destruct (_ <=? _).
Qed.

Lemma change_case_maps f name args o s more :
  list_at c args (o :: more) -> string_at c FE_TSTRING o s ->
  change_case f name args c
  = if 1024 <=? Z.of_nat (length s) then Raised (named name "string too long") (ctx_error_reset c)
    else fe_string (f <$> s) c.
Proof.
  intros Ha Hs. unfold change_case. eapply (first_arg c Hheap); [done | simpl; lia |]. intros d _.
  rewrite (string_checked _ _ _ _ Hs), (bind_eq _ _ _ _ _ (strlen_string c _ _ _ Hs)).
  destruct (Z.eqb_spec (Z.of_nat (length s)) 0) as [E | E].
  - rewrite (nil_length_inv s) by lia. done.
  - rewrite (string_copied _ _ _ _ _ Hs). destruct (_ <=? _); [done |].
    by rewrite (bind_eq _ _ _ _ _ (lift_budget_quiet _ _ _ (map_polling_map _ _ _ _ Hq))).
Qed.

Lemma trim_strips args o s more t :
  list_at c args (o :: more) -> string_at c FE_TSTRING o s -> stripped s t ->
  builtin_string_trim args c
  = if 1024 <=? Z.of_nat (length s) then Raised "trim: string too long" (ctx_error_reset c)
    else fe_string t c.
Proof.
  intros Ha Hs Ht. unfold builtin_string_trim. eapply (first_arg c Hheap); [done | simpl; lia |]. intros d _.
  rewrite (string_checked _ _ _ _ Hs), (string_copied _ _ _ _ _ Hs). destruct (_ <=? _); [done |].
  destruct (trimmed_stripped s (rt_bud (rt c)) Hq) as (t' & E & Ht').
  rewrite (bind_eq _ _ _ _ _ (lift_budget_quiet _ _ _ E)). by rewrite (stripped_unique s t t').
Qed.

(** Two string arguments copied into buffers of 1024 and [n] bytes. *)
Lemma two_strings {A} args o s o' s' more name n (k : chars -> chars -> comp fe_Context A) :
  list_at c args (o :: o' :: more) -> string_at c FE_TSTRING o s -> string_at c FE_TSTRING o' s' ->
  (FEX_CHECK_ARGS args 2 name ;;;
   let* '(x, args) := fe_nextarg args in
   let* '(y, _) := fe_nextarg args in
   FEX_CHECK_TYPE x FE_TSTRING name ;;;
   FEX_CHECK_TYPE y FE_TSTRING name ;;;
   let* buffer := copy_string_to_fixed_buffer x name 1024 in
   let* second := copy_string_to_fixed_buffer y name n in
   k buffer second) c
  = if (1024 <=? Z.of_nat (length s)) || (n <=? Z.of_nat (length s'))
    then Raised (named name "string too long") (ctx_error_reset c)
    else k s s' c.
Proof.
  intros Ha Hs Hs'. eapply (first_arg c Hheap); [done | simpl; lia |]. intros d Hd.
  eapply (skip_arg c); [exact Hd |]. intros d' _.
  rewrite (string_checked _ _ _ _ Hs), (string_checked _ _ _ _ Hs'), (string_copied _ _ _ _ _ Hs).
  destruct (_ <=? _); [done |]. rewrite (string_copied _ _ _ _ _ Hs'). by destruct (_ <=? _).
Qed.

Lemma contains_decides args o s o' t more :
  list_at c args (o :: o' :: more) -> string_at c FE_TSTRING o s -> string_at c FE_TSTRING o' t ->
  builtin_string_contains args c
  = if (1024 <=? Z.of_nat (length s)) || (256 <=? Z.of_nat (length t))
    then Raised "contains: string too long" (ctx_error_reset c)
    else Done (Boolean (bytes_contains_sequence s t)) c.
Proof. intros Ha Hs Ht. by apply (two_strings args o s o' t more "contains" 256). Qed.
End Builtins.

(** The result of a builtin that copies the text [s] into 1024 bytes first. *)
Definition bounded {A} (c : fe_Context) (s : chars) (name : string) (r : outcome fe_Context A) : outcome fe_Context A :=
  if 1024 <=? Z.of_nat (length s) then Raised (named name "string too long") (ctx_error_reset c) else r.

(** C32. upper, lower, trim and contains compute their reference functions: on a
    string of at most 1023 characters (and a searched text of at most 255)
    they build the string with every letter changed, the one stripped form
    of the text, and answer whether the searched text occurs in it; longer
    texts are refused and nothing is allocated. *)
Theorem text_builtins_compute c args o s o' t more
    (Hq : still_quiet c) (Hheap : Z.of_nat (length (cells c)) < INT_MAX)
    (Hargs : list_at c args (o :: o' :: more))
    (Hs : string_at c FE_TSTRING o s) (Ht : string_at c FE_TSTRING o' t) :
  builtin_string_upper args c = bounded c s "upper" (fe_string (to_upper <$> s) c) /\
  builtin_string_lower args c = bounded c s "lower" (fe_string (to_lower <$> s) c) /\
  (exists u, stripped s u /\ (forall u', stripped s u' -> u' = u) /\
     builtin_string_trim args c = bounded c s "trim" (fe_string u c)) /\
  (Z.of_nat (length t) < 256 -> exists b : bool,
     (b = true <-> exists pre post, s = pre ++ t ++ post) /\
     builtin_string_contains args c = bounded c s "contains" (Done (Boolean b) c)).
Proof.
  unfold bounded. split_and!.
  - by eapply change_case_maps.
  - by eapply change_case_maps.
  - destruct (trimmed_stripped s (rt_bud (rt c)) Hq) as (u & _ & Hu). exists u. split_and!; [done | |].
    + intros u' Hu'. by eapply stripped_unique.
    + by eapply trim_strips.
  - intros Hl. exists (bytes_contains_sequence s t). split; [apply contains_infix |].
    rewrite (contains_decides c Hq Hheap _ _ _ _ _ _ Hargs Hs Ht).
    rewrite (proj2 (Z.leb_gt 256 _)), orb_false_r by lia. done.
Qed.

(** C33. Splitting equals its reference definition: split hands exactly the
    maximal runs of characters outside the separator set, in order and
    without empty pieces, to the list builder (the whole text when there are
    no separators), or refuses a text over 1023 or separators over 63
    characters; the code that would add a last piece after the loop never
    runs. *)
Theorem split_collects_fields c args o s o' seps more
    (Hq : still_quiet c) (Hheap : Z.of_nat (length (cells c)) < INT_MAX)
    (Hargs : list_at c args (o :: o' :: more))
    (Hs : string_at c FE_TSTRING o s) (Ht : string_at c FE_TSTRING o' seps) :
  builtin_string_split args c
  = if (1024 <=? Z.of_nat (length s)) || (64 <=? Z.of_nat (length seps))
    then Raised "split: string too long" (ctx_error_reset c)
    else (let* l := collect emit_string (Nil, None)
            (if decide (seps = []) then [s] else fields (fun ch => bool_decide (ch ∈ seps)) s []) in
          ret (fst l)) c.
Proof.
  unfold builtin_string_split. rewrite (two_strings c Hq Hheap args o s o' seps more "split" 64) by done.
  destruct (_ || _); [done |]. unfold bind.
  by rewrite (split_pieces_fields emit_string emit_string_quiet seps s (Nil, None) c Hq).
Qed.

(** The builtins that copy their first argument, with the number of
    arguments they ask for. *)
Definition text_builtins : list (string * Z * (obj -> comp fe_Context obj)) :=
  [("upper"%string, 1, builtin_string_upper); ("lower"%string, 1, builtin_string_lower);
   ("trim"%string, 1, builtin_string_trim); ("contains"%string, 2, builtin_string_contains);
   ("split"%string, 2, builtin_string_split)].

Lemma builtin_too_few c args os name n (k : obj * obj -> comp fe_Context obj) :
  Z.of_nat (length (cells c)) < INT_MAX -> list_at c args os -> Z.of_nat (length os) < n ->
  (FEX_CHECK_ARGS args n name ;;; bind (fe_nextarg args) k) c
  = Raised (named name "insufficient arguments") (ctx_error_reset c).
Proof.
  intros Hh Ha Hn. apply bind_raised. rewrite (check_args c Hh _ _ _ _ Ha).
  by rewrite (proj2 (Z.ltb_lt _ _)).
Qed.

Lemma builtin_wrong_type {A} c o t name (k : unit -> comp fe_Context A) :
  type_of o c = Done t c -> t <> FE_TSTRING ->
  bind (FEX_CHECK_TYPE o FE_TSTRING name) k c = Raised (named name "type mismatch") (ctx_error_reset c).
Proof. intros H Ht. apply bind_raised. by rewrite (check_type _ _ _ _ _ H), decide_False. Qed.

(** Every error exit of the text builtins is reported under the name of the
    builtin and changes nothing but what fe_error resets: too few arguments,
    then a first argument that is not a string. *)
Theorem text_builtins_reject c args os name n f
    (Hheap : Z.of_nat (length (cells c)) < INT_MAX)
    (Hin : (name, n, f) ∈ text_builtins) (Hargs : list_at c args os) :
  (Z.of_nat (length os) < n ->
     f args c = Raised (named name "insufficient arguments") (ctx_error_reset c)) /\
  (forall o more t, os = o :: more -> n <= Z.of_nat (length os) ->
     type_of o c = Done t c -> t <> FE_TSTRING ->
     f args c = Raised (named name "type mismatch") (ctx_error_reset c)).
Proof.
  unfold text_builtins in Hin. rewrite !elem_of_cons, elem_of_nil in Hin.
  destruct_or! Hin; simplify_eq; (split; [intros Hn; by apply (builtin_too_few c args os) |]);
    intros o more t -> Hn Hty Ht; (eapply (first_arg c Hheap); [done | done |]); intros d Hd; try by eapply builtin_wrong_type.
  all: assert (exists o' more', more = o' :: more') as (o' & more' & ->)
    by (destruct more; [simpl in Hn; lia | eauto]).
  all: eapply (skip_arg c); [exact Hd |]; intros d' _; by eapply builtin_wrong_type.
Qed.

(** ** Witnesses *)

(** The arguments of [split("a,b", ",")]. *)
Definition text_context : fe_Context :=
  with_cells
    [MkCell FE_TPAIR false (VObj (Ref 2)) (VObj (Ref 1));
     MkCell FE_TPAIR false (VObj (Ref 3)) (VObj Nil);
     MkCell FE_TSTRING false (VObj (Fix 3)) (VSlab 0);
     MkCell FE_TSTRING false (VObj (Fix 1)) (VSlab FE_SLAB_SIZE)]
    (blank_context 4 (MkArena [MkSlab FE_SLAB_NULL (str "a,b"); MkSlab FE_SLAB_NULL (str ",")] FE_SLAB_NULL 0)
       example_mem (rt_bud example_rt) 4096).

Lemma text_context_args : list_at text_context (Ref 0) [Ref 2; Ref 3].
Proof. repeat (eapply list_at_cons; [by do 2 eexists |]). constructor. Qed.
Lemma text_context_first : string_at text_context FE_TSTRING (Ref 2) (str "a,b").
Proof.
  do 2 eexists. exists 0, [0]. split_and!; try done.
  apply (holds_cons _ _ (MkSlab FE_SLAB_NULL (str "a,b"))); [done.. | constructor].
Qed.
Lemma text_context_second : string_at text_context FE_TSTRING (Ref 3) (str ",").
Proof.
  do 2 eexists. exists FE_SLAB_SIZE, [FE_SLAB_SIZE]. split_and!; try done.
  apply (holds_cons _ _ (MkSlab FE_SLAB_NULL (str ","))); [done.. | constructor].
Qed.

Lemma text_builtins_compute_witness :
  (exists b : bool, b = true /\
     builtin_string_contains (Ref 0) text_context
     = bounded text_context (str "a,b") "contains" (Done (Boolean b) text_context)) /\
  builtin_string_upper (Ref 0) text_context
  = bounded text_context (str "a,b") "upper" (fe_string (to_upper <$> str "a,b") text_context).
Proof.
  destruct (text_builtins_compute text_context (Ref 0) (Ref 2) (str "a,b") (Ref 3) (str ",") []
    (conj (Z.le_refl 0) eq_refl) eq_refl text_context_args text_context_first text_context_second)
    as (Hu & _ & _ & Hc).
  split; [| exact Hu]. destruct (Hc eq_refl) as (b & Hb & E). exists b. split; [| exact E].
  apply Hb. by exists (str "a"), (str "b").
Defined.

Lemma split_collects_fields_witness :
  fields (fun ch => bool_decide (ch ∈ str ",")) (str "a,b") [] = [str "a"; str "b"] /\
  builtin_string_split (Ref 0) text_context
  = (if (1024 <=? Z.of_nat (length (str "a,b"))) || (64 <=? Z.of_nat (length (str ",")))
     then Raised "split: string too long" (ctx_error_reset text_context)
     else (let* l := collect emit_string (Nil, None)
             (if decide (str "," = []) then [str "a,b"] else fields (fun ch => bool_decide (ch ∈ str ",")) (str "a,b") []) in
           ret (fst l)) text_context).
Proof.
  split; [done |].
  exact (split_collects_fields text_context (Ref 0) (Ref 2) (str "a,b") (Ref 3) (str ",") []
    (conj (Z.le_refl 0) eq_refl) eq_refl text_context_args text_context_first text_context_second).
Defined.

Lemma text_builtins_reject_witness :
  builtin_string_contains (Ref 1) text_context
  = Raised "contains: insufficient arguments" (ctx_error_reset text_context).
Proof.
  refine (proj1 (text_builtins_reject text_context (Ref 1) [Ref 3] "contains" 2 builtin_string_contains eq_refl _ _) eq_refl).
  - unfold text_builtins. do 3 right. left.
  - eapply list_at_cons; [by do 2 eexists | constructor].
Defined.
