(* ===== verification/JsonSpec.v ===== *)
(** * JSON texts

    What tojson writes for a value, and that parsejson reads a written string
    back.  Scratch memory is available ([malloc_ok]) and the context is
    quiet. *)

From Stdlib Require Import ZArith Lia Ascii String.
From stdpp Require Import base list sets.
From S2P Require Import Prelude Number Strtod Memory Budget MapTable MapSpec Slab SlabSpec Span Ctx Gc GcProps Objects Writer Reader WriterSpec Frame Builtins BuiltinsSpec Json.

(** ** Escapes *)

(** The ways a character is written, each with how it is read. *)
Inductive written (ch : ascii) : chars -> Prop :=
| written_plain : ch <> zero -> ch <> quote -> ch <> backslash -> (code ch <? 0x20) = false -> written ch [ch]
| written_short x : json_escape x = Some ch -> written ch [backslash; x]
| written_unicode h0 h1 h2 h3 :
    0 <= json_hex_value h0 -> 0 <= json_hex_value h1 -> 0 <= json_hex_value h2 -> 0 <= json_hex_value h3 ->
    Z.lor (Z.lor (Z.lor (Z.shiftl (json_hex_value h0) 12) (Z.shiftl (json_hex_value h1) 8))
      (Z.shiftl (json_hex_value h2) 4)) (json_hex_value h3) = code ch -> code ch <= 0x7F ->
    written ch [backslash; "u"%char; h0; h1; h2; h3].

(** The escape of a control character without a short form. *)
Lemma control_written ch : code ch < 0x20 ->
  written ch (backslash :: str "u00" ++ [hexdigit (Z.shiftr (code ch) 4); hexdigit (Z.land (code ch) 15)]).
Proof.
  intros H. pose proof (code_range ch) as Hr.
  assert (exists n, (n < 32)%nat /\ ch = chr (Z.of_nat n)) as (n & Hn & ->).
  { exists (Z.to_nat (code ch)). split; [lia |]. rewrite Z2Nat.id by lia. by rewrite chr_code. }
  clear H Hr. apply written_unicode;
    do 32 (destruct n as [| n]; [by vm_compute |]); lia.
Qed.

Lemma json_escaped_written ch : written ch (json_escaped ch).
Proof.
  unfold json_escaped.
  repeat match goal with |- written _ (if decide (_ = ?x) then _ else _) =>
    destruct (decide (ch = x)) as [-> | ?]; [by apply written_short |] end.
  destruct (code ch <? 0x20) eqn:E; [apply control_written; lia |].
  apply written_plain; [| done..]. by intros ->.
Qed.

(** ** Strings *)

Section Strings.
Context (malloc_ok : Z -> bool) (Hm : forall n, malloc_ok n = true).
Context (c : fe_Context) (Hq : still_quiet c).

Lemma reserve_ok b extra : exists cap, buf_reserve malloc_ok b extra = Some (MkBuf (buf_data b) cap).
Proof.
  unfold buf_reserve. destruct (_ <=? _); [exists (buf_cap b); by destruct b |]. rewrite Hm. by eexists.
Qed.
Lemma append_mem_ok b s : exists cap, buf_append_mem malloc_ok b s = Some (MkBuf (buf_data b ++ s) cap).
Proof. unfold buf_append_mem. destruct (reserve_ok b (Z.of_nat (length s))) as (cap & ->). by exists cap. Qed.
Lemma append_char_ok b ch : exists cap, buf_append_char malloc_ok b ch = Some (MkBuf (buf_data b ++ [ch]) cap).
Proof. unfold buf_append_char. destruct (reserve_ok b 1) as (cap & ->). by exists cap. Qed.

Lemma parser_poll_ok s cd : parser_poll (c, (s, cd)) = Done tt (c, (s, next_countdown cd)).
Proof. unfold parser_poll. by rewrite (poll_quiet_ctx cd c Hq). Qed.
Lemma put_char_ok b ch s cd : exists cap, put_char malloc_ok b ch (c, (s, cd)) = Done (MkBuf (buf_data b ++ [ch]) cap) (c, (s, cd)).
Proof. unfold put_char. destruct (append_char_ok b ch) as (cap & ->). by exists cap. Qed.

(** Reading the escape of a character after its backslash. *)
Lemma parse_escape_ok b ch x e s cd : written ch (backslash :: x :: e) ->
  exists cap, parse_escape malloc_ok b (c, (x :: e ++ s, cd)) = Done (MkBuf (buf_data b ++ [ch]) cap) (c, (s, cd)).
Proof.
  unfold parse_escape. rewrite (bind_eq _ _ _ x (c, (x :: e ++ s, cd))) by done.
  rewrite (bind_eq (skip 1) _ _ tt (c, (e ++ s, cd))) by done.
  inversion 1 as [| x' Hx | h0 h1 h2 h3 H0 H1 H2 H3 Hcp Hc]; subst.
  - rewrite Hx. apply put_char_ok.
  - change (json_escape "u"%char) with (@None ascii). cbv iota. rewrite decide_True by done.
    cbn [app drop]. unfold bind at 1 2 3 4. cbn [char_at lookup list_lookup].
    rewrite (proj2 (Z.ltb_ge _ _) H0), (proj2 (Z.ltb_ge _ _) H1), (proj2 (Z.ltb_ge _ _) H2), (proj2 (Z.ltb_ge _ _) H3).
    cbn [orb]. rewrite Hcp. rewrite (bind_eq (skip 4) _ _ tt (c, (s, cd))) by done.
    rewrite (proj2 (Z.leb_gt 0xD800 _)) by lia. cbn [andb drop].
    unfold buf_append_utf8, utf8_bytes. rewrite (proj2 (Z.leb_le _ _) Hc). cbn [mbind option_bind].
    rewrite chr_code. destruct (append_char_ok b ch) as (cap & ->). by exists cap.
Qed.

(** One character of a literal. *)
Lemma string_loop_char b ch e s cd fuel : written ch e ->
  exists cap cd', string_loop malloc_ok (S fuel) b (c, (e ++ s, cd))
    = string_loop malloc_ok fuel (MkBuf (buf_data b ++ [ch]) cap) (c, (s, cd')).
Proof.
  intros Hw. assert (exists x e', e = x :: e' /\ x <> zero /\ x <> quote) as (x & e' & -> & Hz & Hx)
    by (inversion Hw; eauto 10).
  cbn [string_loop]. rewrite (bind_eq _ _ _ x (c, ((x :: e') ++ s, cd))) by done.
  rewrite !bool_decide_false by done. cbn [orb]. rewrite (bind_eq (skip 1) _ _ tt (c, (e' ++ s, cd))) by done.
  rewrite (bind_eq _ _ _ _ _ (parser_poll_ok _ _)).
  case_decide as Hb.
  - subst x. destruct e' as [| y e']; [inversion Hw; done |].
    destruct (parse_escape_ok b ch y e' s (next_countdown cd) Hw) as (cap & E). exists cap, (next_countdown cd).
    by rewrite (bind_eq _ _ _ _ _ E).
  - inversion Hw as [? ? ? Hc | |]; subst; [| done..]. cbn [app]. rewrite Hc.
    destruct (put_char_ok b x s (next_countdown cd)) as (cap & E). exists cap, (next_countdown cd).
    by rewrite (bind_eq _ _ _ _ _ E).
Qed.

(** The text between the quotes. *)
Definition escaped (s : chars) : chars := s ≫= json_escaped.

Lemma written_length ch e : written ch e -> (1 <= length e)%nat.
Proof. inversion 1; simpl; lia. Qed.

Lemma string_loop_text s : forall fuel b rest cd, (length s <= fuel)%nat ->
  exists cap cd', string_loop malloc_ok fuel b (c, (escaped s ++ quote :: rest, cd))
    = Done (MkBuf (buf_data b ++ s) cap) (c, (quote :: rest, cd')).
Proof.
  induction s as [| ch s IH]; intros fuel b rest cd Hf.
  { exists (buf_cap b), cd. rewrite app_nil_r. by destruct fuel, b. }
  destruct fuel as [| fuel]; [simpl in Hf; lia |]. unfold escaped. rewrite bind_cons, <- app_assoc. fold (escaped s).
  destruct (string_loop_char b ch (json_escaped ch) (escaped s ++ quote :: rest) cd fuel (json_escaped_written ch))
    as (cap & cd1 & ->).
  destruct (IH fuel (MkBuf (buf_data b ++ [ch]) cap) rest cd1 ltac:(simpl in Hf; lia)) as (cap2 & cd2 & ->).
  exists cap2, cd2. cbn [buf_data]. by rewrite <- app_assoc.
Qed.
Lemma escaped_length s : (length s <= length (escaped s))%nat.
Proof.
  induction s as [| ch s IH]; [done |]. unfold escaped. rewrite bind_cons, length_app. fold (escaped s).
  pose proof (written_length _ _ (json_escaped_written ch)). simpl. lia.
Qed.

Lemma parse_string_text_ok s rest cd :
  exists cd', parse_string_text malloc_ok (c, (quote :: escaped s ++ quote :: rest, cd)) = Done s (c, (rest, cd')).
Proof.
  unfold parse_string_text.
  rewrite (bind_eq (char_at 0) _ _ quote (c, (quote :: escaped s ++ quote :: rest, cd))) by done. rewrite decide_True by done.
  rewrite (bind_eq (skip 1) _ _ tt (c, (escaped s ++ quote :: rest, cd))) by done.
  rewrite (bind_eq Json.rest _ _ (escaped s ++ quote :: rest) (c, (escaped s ++ quote :: rest, cd))) by done.
  destruct (string_loop_text s (length (escaped s ++ quote :: rest)) empty_buffer rest cd) as (cap & cd' & E).
  { rewrite length_app. pose proof (escaped_length s). lia. }
  rewrite (bind_eq _ _ _ _ _ E). rewrite (bind_eq (char_at 0) _ _ quote (c, (quote :: rest, cd'))) by done. rewrite decide_True by done.
  by exists cd'.
Qed.

(** ** Writing *)

(** [m] succeeds after appending [t]. *)
Definition writes (m : comp (fe_Context * (TextBuffer * Z)) bool) (t : chars) : Prop := forall b cd,
  exists cap cd', m (c, (b, cd)) = Done true (c, (MkBuf (buf_data b ++ t) cap, cd')).

Lemma writes_true : writes (ret true) [].
Proof. intros b cd. exists (buf_cap b), cd. rewrite app_nil_r. by destruct b. Qed.
Lemma writes_append t : writes (append malloc_ok t) t.
Proof.
  intros b cd. destruct (append_mem_ok b t) as (cap & E). exists cap, cd. unfold append. by rewrite E.
Qed.
Lemma writes_and m k t u : writes m t -> writes k u -> writes (and_then m k) (t ++ u).
Proof.
  intros Hm' Hk b cd. destruct (Hm' b cd) as (cap1 & cd1 & E1). unfold and_then. rewrite (bind_eq _ _ _ _ _ E1).
  destruct (Hk (MkBuf (buf_data b ++ t) cap1) cd1) as (cap2 & cd2 & E2). exists cap2, cd2.
  rewrite E2. cbn [buf_data]. by rewrite <- app_assoc.
Qed.
Lemma writes_poll k t : writes k t -> writes (writer_poll ;;; k) t.
Proof.
  intros Hk b cd. unfold writer_poll, bind. rewrite (poll_quiet_ctx cd c Hq). apply Hk.
Qed.
Lemma writes_read {A} (m : comp fe_Context A) a k t : m c = Done a c -> writes (k a) t -> writes (bind (in_ctx m) k) t.
Proof. intros E Hk b cd. unfold bind, in_ctx. rewrite E. apply Hk. Qed.

Lemma writes_chars s : writes (write_chars malloc_ok s) (escaped s).
Proof.
  induction s as [| ch s IH]; cbn [write_chars]; [apply writes_true |].
  unfold escaped. rewrite bind_cons. apply writes_poll, writes_and; [apply writes_append | done].
Qed.

(** The literal of a string. *)
Definition json_literal (s : chars) : chars := [quote] ++ escaped s ++ [quote].

Lemma writes_string o s : string_at c FE_TSTRING o s -> Z.of_nat (length s) < INT_MAX ->
  writes (json_write_string malloc_ok o) (json_literal s).
Proof.
  intros H Hl. unfold json_write_string. eapply writes_read; [by apply (string_buffer_ok c Hq malloc_ok Hm) |].
  apply writes_and; [apply writes_append |]. apply writes_and; [apply writes_chars | apply writes_append].
Qed.
End Strings.

(** C34. Strings survive JSON: tojson writes any string object as one literal,
    and parsejson reads that literal, whatever follows it, back to exactly
    the same bytes, NUL and other control characters, quotes, backslashes and
    bytes over 127 included. *)
Theorem json_string_roundtrip malloc_ok c o s b cd
    (Hm : forall n, malloc_ok n = true) (Hq : still_quiet c)
    (Hs : string_at c FE_TSTRING o s) (Hl : Z.of_nat (length s) < INT_MAX) :
  exists text cap cd1,
    json_write_string malloc_ok o (c, (b, cd)) = Done true (c, (MkBuf (buf_data b ++ text) cap, cd1)) /\
    forall rest cd2, exists cd3,
      parse_string_text malloc_ok (c, (text ++ rest, cd2)) = Done s (c, (rest, cd3)).
Proof.
  destruct (writes_string malloc_ok Hm c Hq o s Hs Hl b cd) as (cap & cd1 & E).
  exists (json_literal s), cap, cd1. split; [exact E |]. intros rest cd2.
  unfold json_literal. cbn [app]. rewrite <- app_assoc. cbn [app].
  by apply parse_string_text_ok.
Qed.

(** ** Values *)

(** A text, or the message of the error writing stops with. *)
Definition text_or_error : Type := chars + string.
Definition seq_text (r1 r2 : text_or_error) : text_or_error :=
  match r1, r2 with
  | inr msg, _ => inr msg
  | inl _, inr msg => inr msg
  | inl t1, inl t2 => inl (t1 ++ t2)
  end.

(** The number of cells of a chain, and whether it ends in nil. *)
Fixpoint chain_length (e : sexp) : nat := match e with SPair _ d => S (chain_length d) | _ => O end.
Fixpoint proper (e : sexp) : bool := match e with SNil => true | SPair _ d => proper d | _ => false end.

Section Values.
Context (fmt_g15 : double -> chars).

Fixpoint json_text (e : sexp) : text_or_error :=
  match e with
  | SNil => inl (str "null")
  | SBool b => inl (str (if b then "true" else "false"))
  | SInt n => inl (take 63 (fmt_g15 (double_of_Z n)))
  | SNum v => inl (take 63 (fmt_g15 v))
  | SStr s => inl (json_literal s)
  | SSym _ | SBytes _ => inr "tojson: unsupported value type"%string
  | SPair a d =>
      if proper d then
        seq_text (inl (str "[")) (seq_text (seq_text (json_text a)
          ((fix rest (d : sexp) : text_or_error :=
              match d with
              | SPair a d => seq_text (inl (str ",")) (seq_text (json_text a) (rest d))
              | _ => inl []
              end) d)) (inl (str "]")))
      else inr "tojson: cannot serialize dotted pair"%string
  end.

(** The elements of a list; [first] tells that none has been written. *)
Fixpoint elements_text (first : bool) (e : sexp) : text_or_error :=
  match e with
  | SPair a d => seq_text (inl (if first then [] else str ",")) (seq_text (json_text a) (elements_text false d))
  | _ => inl []
  end.

Lemma seq_nil_l r : seq_text (inl []) r = r.
Proof. by destruct r. Qed.
Lemma json_text_pair a d : json_text (SPair a d)
  = if proper d then seq_text (inl (str "[")) (seq_text (elements_text true (SPair a d)) (inl (str "]")))
    else inr "tojson: cannot serialize dotted pair"%string.
Proof.
  cbn [json_text elements_text]. rewrite seq_nil_l. destruct (proper d); [| done].
  do 2 f_equal. f_equal. induction d as [| | | | | | | a' _ d IH]; cbn [elements_text]; [done.. |].
  by rewrite IH.
Qed.

(** Every string of the value fits an int. *)
Fixpoint strings_fit (e : sexp) : Prop :=
  match e with
  | SStr s => Z.of_nat (length s) < INT_MAX
  | SPair a d => strings_fit a /\ strings_fit d
  | _ => True
  end.
End Values.

Section WriteValue.
Context (fmt_g15 : double -> chars) (malloc_ok : Z -> bool) (Hm : forall n, malloc_ok n = true).
Context (c : fe_Context) (Hq : still_quiet c).
Abbreviation W := (fe_Context * (TextBuffer * Z))%type.

(** [m] appends the text [r], or raises the error [r]. *)
Definition acts (m : comp W bool) (r : text_or_error) : Prop :=
  match r with
  | inl t => writes c m t
  | inr msg => forall b cd, exists st, m (c, (b, cd)) = Raised msg (ctx_error_reset c, st)
  end.

Lemma acts_and m k r1 r2 : acts m r1 -> acts k r2 -> acts (and_then m k) (seq_text r1 r2).
Proof.
  destruct r1 as [t | msg]; cbn.
  - intros H1 H2. destruct r2 as [u | msg]; [by apply writes_and |]. intros b cd.
    destruct (H1 b cd) as (cap & cd1 & E). unfold and_then. rewrite (bind_eq _ _ _ _ _ E). apply H2.
  - intros H1 _ b cd. destruct (H1 b cd) as (st & E). exists st. unfold and_then. by apply bind_raised.
Qed.
Lemma acts_poll k r : acts k r -> acts (writer_poll ;;; k) r.
Proof.
  destruct r as [t | msg]; [by apply writes_poll |]. intros Hk b cd. unfold writer_poll, bind.
  rewrite (poll_quiet_ctx cd c Hq). apply Hk.
Qed.
Lemma acts_read {A} (m : comp fe_Context A) a k r : m c = Done a c -> acts (k a) r -> acts (bind (in_ctx m) k) r.
Proof.
  intros E. destruct r as [t | msg]; [by apply writes_read |]. intros Hk b cd. unfold bind, in_ctx. rewrite E. apply Hk.
Qed.
Lemma acts_append t : acts (append malloc_ok t) (inl t).
Proof. by apply writes_append. Qed.
Lemma acts_error msg : acts (in_ctx (Ctx.fe_error msg)) (inr msg).
Proof. intros b cd. by eexists. Qed.

(** The chain of a value is no longer than the heap. *)
Lemma repr_chain_length l e : repr c l e -> (chain_length e < list_fuel c)%nat.
Proof.
  intros H. assert (exists z os, spine c z l os /\ not_pair c z /\ length os = chain_length e) as (z & os & Hs & Hz & <-).
  { induction H as [| | | | | | | o a d ea ed Hp _ _ _ _ (z & os & Hs & Hz & Hl)];
      try (eexists _, []; split_and!; [constructor | | done]; intros a d Hp%pair_at_type).
    8: exists z, (a :: os); split_and!; [by econstructor | done | simpl; by rewrite Hl].
    1-3: done.
    all: erewrite repr_type in Hp by (by econstructor); done. }
  pose proof (spine_length _ _ _ _ Hz Hs). unfold list_fuel. lia.
Qed.

Lemma leaf_type o e : repr c o e -> (forall a d, e <> SPair a d) -> o <> Nil -> exists t, type_of o c = Done t c /\ t <> FE_TPAIR.
Proof.
  intros H He Hn. exists (type_for e). split; [by apply repr_type |]. destruct e; try done. by destruct (He e1 e2).
Qed.

Lemma proper_loop_repr e : forall l fuel cd, repr c l e -> (chain_length e < fuel)%nat ->
  proper_loop fuel l cd c = Done (proper e) c.
Proof.
  induction e as [| | | | | | | a _ d IH]; intros l [| fuel] cd H Hf; simpl in Hf; try lia.
  8: inversion H as [| | | | | | | o pa pd ea ed Hp _ _ Hd]; subst; cbn [proper_loop];
     rewrite (pair_at_not_nil _ _ _ _ Hp), (bind_eq _ _ _ _ _ (poll_quiet_ctx cd c Hq));
     rewrite (bind_eq _ _ _ _ _ (pair_at_type _ _ _ _ Hp)), decide_True by done;
     rewrite (bind_eq _ _ _ _ _ (fe_cdr_pair c _ _ _ Hp)); apply IH; lia || done.
  1: by (inversion H; subst; [done | by destruct H0 as (? & ? & ? & ? & ? & _)..]).
  all: assert (l <> Nil) as Hn by (intros ->; by apply repr_Nil in H);
    edestruct (leaf_type _ _ H) as (t & Et & Ht); [done | done |]; cbn [proper_loop];
    replace (isnil l) with false by (by destruct l);
    rewrite (bind_eq _ _ _ _ _ (poll_quiet_ctx cd c Hq)), (bind_eq _ _ _ _ _ Et); by rewrite decide_False.
Qed.

Definition write_ok (e : sexp) : Prop := forall o fuel, repr c o e -> (ssize e <= fuel)%nat -> strings_fit e ->
  acts (json_write_value fmt_g15 malloc_ok fuel o) (json_text fmt_g15 e).
Definition elements_ok (e : sexp) : Prop := forall l f n first, repr c l e -> proper e = true ->
  (ssize e <= S f)%nat -> (chain_length e < n)%nat -> strings_fit e ->
  acts (write_elements malloc_ok (json_write_value fmt_g15 malloc_ok f) n l first) (elements_text fmt_g15 first e).

Lemma elements_nil : elements_ok SNil.
Proof.
  intros l f [| n] first H _ _ Hn _; [simpl in Hn; lia |].
  assert (l = Nil) as ->.
  { inversion H as [| | | | | o s (? & ? & ? & ? & ? & ? & ? & _) | |]; done. }
  apply writes_true.
Qed.

Lemma elements_pair a d : write_ok a -> elements_ok d -> elements_ok (SPair a d).
Proof.
  intros Ha Hd l f [| n] first H Hp Hs Hn Hf; [simpl in Hn; lia |].
  inversion H as [| | | | | | | o pa pd ea ed Hpair _ Hra Hrd]; subst. cbn [write_elements elements_text].
  rewrite (pair_at_not_nil _ _ _ _ Hpair). destruct Hf as [Hfa Hfd]. simpl in Hs, Hn.
  apply acts_poll, acts_and; [destruct first; [apply writes_true | apply acts_append] |].
  apply acts_and.
  - eapply acts_read; [by eapply fe_car_pair |]. apply Ha; [done | lia | done].
  - eapply acts_read; [by eapply fe_cdr_pair |]. apply Hd; [done | done | lia | lia | done].
Qed.

Lemma write_leaf e : (forall a d, e <> SPair a d) -> write_ok e.
Proof.
  intros He o [| fuel] H Hs Hf; [destruct e; simpl in Hs; lia |]. cbn [json_write_value]. unfold json_write_step.
  eapply acts_read; [by eapply repr_type |]. eapply acts_read; [done |].
  destruct e as [| b | n | v | s | s | s | a d]; cbn [type_for json_text]; [| | | | | | | by destruct (He a d)].
  - apply acts_append.
  - replace (if decide (o = Boolean true) then "true"%string else "false"%string) with (if b then "true" else "false")%string;
      [apply acts_append |].
    inversion H as [| b' | | | | | |]; subst. by destruct b.
  - inversion H as [| | n' | | | | |]; subst. eapply acts_read; [done |]. apply acts_append.
  - inversion H as [| | | i x v' E Et Ed | | | |]; subst. eapply acts_read; [| apply acts_append].
    cbn [nval]. unfold bind, read_cell. rewrite E, Ed. done.
  - apply acts_error.
  - inversion H as [| | | | | o' s' Hstr | |]; subst. by apply writes_string.
  - apply acts_error.
Qed.

Lemma write_pair a d : elements_ok (SPair a d) -> write_ok (SPair a d).
Proof.
  intros He o [| fuel] H Hs Hf; [simpl in Hs; lia |]. cbn [json_write_value]. unfold json_write_step.
  eapply acts_read; [by eapply repr_type |]. eapply acts_read; [done |]. cbn [type_for].
  pose proof (repr_chain_length _ _ H) as Hlen.
  eapply acts_read.
  { unfold json_is_proper_list. rewrite (bind_eq get _ _ c c eq_refl). by apply (proper_loop_repr (SPair a d)). }
  rewrite json_text_pair. cbn [proper]. destruct (proper d) eqn:Ep; [| apply acts_error].
  apply acts_and; [apply acts_append |]. apply acts_and; [| apply acts_append].
  by apply He.
Qed.

Lemma write_all e : write_ok e /\ (proper e = true -> elements_ok e).
Proof.
  induction e as [| | | | | | | a [Ha _] d [_ Hd]]; try (by split; [apply write_leaf |]).
  - split; [by apply write_leaf | intros _; apply elements_nil].
  - assert (proper d = true -> elements_ok (SPair a d)) as Hel by (intros ?; apply elements_pair; auto).
    split; [| done]. destruct (proper d) eqn:Ep; [by apply write_pair, Hel |].
    apply write_pair. intros l f n first H Hp. simpl in Hp. congruence.
Qed.
End WriteValue.


(** ** Witnesses *)

(** The arguments of [tojson] with the list of 1 and a string. *)
Definition json_context : fe_Context :=
  with_cells
    [MkCell FE_TPAIR false (VObj (Ref 1)) (VObj Nil);
     MkCell FE_TPAIR false (VObj (Fix 1)) (VObj (Ref 2));
     MkCell FE_TPAIR false (VObj (Ref 3)) (VObj Nil);
     MkCell FE_TSTRING false (VObj (Fix 2)) (VSlab 0)]
    (blank_context 4 (MkArena [MkSlab FE_SLAB_NULL [quote; LF]] FE_SLAB_NULL 0)
       example_mem (rt_bud example_rt) 4096).
Definition json_value : sexp := SPair (SInt 1) (SPair (SStr [quote; LF]) SNil).

Lemma json_context_string : string_at json_context FE_TSTRING (Ref 3) [quote; LF].
Proof.
  do 2 eexists. exists 0, [0]. split_and!; try done.
  apply (holds_cons _ _ (MkSlab FE_SLAB_NULL [quote; LF])); [done.. | constructor].
Qed.
Lemma json_context_repr : repr json_context (Ref 1) json_value.
Proof.
  apply (repr_pair _ _ (Fix 1) (Ref 2)); [by do 2 eexists | done | constructor |].
  apply (repr_pair _ _ (Ref 3) Nil); [by do 2 eexists | done | | constructor].
  constructor. apply json_context_string.
Qed.

Lemma json_string_roundtrip_witness :
  exists text cap cd1,
    json_write_string (fun _ => true) (Ref 3) (json_context, (empty_buffer, 1))
    = Done true (json_context, (MkBuf (buf_data empty_buffer ++ text) cap, cd1)) /\
    forall rest cd2, exists cd3,
      parse_string_text (fun _ => true) (json_context, (text ++ rest, cd2))
      = Done [quote; LF] (json_context, (rest, cd3)).
Proof.
  exact (json_string_roundtrip (fun _ => true) json_context (Ref 3) [quote; LF] empty_buffer 1
    (fun _ => eq_refl) (conj (Z.le_refl 0) eq_refl) json_context_string eq_refl).
Defined.


(** ** Two defects *)

(** A unicode escape cut off by the end of the text is read past the
    terminating NUL of the C string. *)
Lemma short_unicode_escape_reads_past_end :
  parse_string_text (fun _ => true) (json_context, (quote :: backslash :: str "u", 64)) = Stuck.
Proof. by vm_compute. Qed.

(** Numbers go through strtod, so hexadecimal numbers, which JSON does not
    have, are accepted. *)
Lemma hexadecimal_json_number :
  parse_text (fun _ => 0) (fun _ => true) (str "0x10") json_context = Done (Fix 16) json_context.
Proof. by vm_compute. Qed.
