(* ===== verification/PathSpec.v ===== *)
(** * Paths and random numbers: what the builtins return *)

From Stdlib Require Import ZArith Lia Ascii String SpecFloat.
From stdpp Require Import base list sets.
From S2P Require Import Prelude Sfc32 Number Strtod Memory Budget MapTable MapSpec Slab SlabSpec Span Ctx Gc GcProps Objects Writer Reader WriterSpec Frame Builtins BuiltinsText BuiltinsSpec BuiltinsMath Paths.

Definition is_sep_char : ascii -> bool := is_path_separator_char.
Definition seps (s : chars) : Prop := Forall (fun ch => is_sep_char ch = true) s.
Definition name (s : chars) : Prop := Forall (fun ch => is_sep_char ch = false) s.

Lemma sep_at_app_r s t i : sep_at (s ++ t) (length s + i) = sep_at t i.
Proof. unfold sep_at. by rewrite lookup_app_r, Nat.add_comm, Nat.add_sub by lia. Qed.
Lemma sep_at_app_l s t i : (i < length s)%nat -> sep_at (s ++ t) i = sep_at s i.
Proof. intros H. unfold sep_at. by rewrite lookup_app_l. Qed.
Lemma sep_at_seps s i : seps s -> (i < length s)%nat -> sep_at s i = true.
Proof.
  intros Hs Hi. unfold sep_at. destruct (lookup_lt_is_Some_2 s i Hi) as [ch E]. rewrite E.
  by apply (Forall_lookup_1 _ _ _ _ Hs E).
Qed.
Lemma sep_at_name s i : name s -> sep_at s i = false.
Proof. intros Hs. unfold sep_at. destruct (s !! i) eqn:E; [| done]. by apply (Forall_lookup_1 _ _ _ _ Hs E). Qed.

Section Quiet.
Context (b : Budget) (Hq : quiet b).

(** A run of separators is stripped down to what comes before it. *)
Lemma strip_run pre run : seps run -> forall lo cd, (lo <= length pre)%nat ->
  (lo < length pre -> sep_at pre (length pre - 1) = false)%nat ->
  forall rest, exists cd', strip_seps (pre ++ run ++ rest) lo (length pre + length run) cd b = Done (length pre, cd') b.
Proof.
  intros Hs lo cd Hlo Hend rest. revert cd. assert (forall n cd, (n <= length run)%nat ->
    exists cd', strip_seps (pre ++ run ++ rest) lo (length pre + n) cd b = Done (length pre, cd') b) as H; [| by eauto].
  induction n as [| n IH]; intros cd Hn.
  - rewrite Nat.add_0_r. destruct (length pre) as [| k] eqn:Ek; cbn [strip_seps]; [by eexists |].
    destruct (Nat.ltb_spec lo (S k)) as [Hl | Hl]; [| by eexists]. rewrite sep_at_app_l by lia.
    assert (sep_at pre k = false) as -> by (rewrite <- Hend by lia; f_equal; lia). by eexists.
  - rewrite Nat.add_succ_r. cbn [strip_seps]. rewrite (proj2 (Nat.ltb_lt _ _)) by lia.
    rewrite sep_at_app_r, sep_at_app_l, sep_at_seps by (done || lia). cbn [andb].
    rewrite (bind_eq _ _ _ _ _ (builtin_poll_quiet cd b Hq)). apply IH. lia.
Qed.

(** The search for the last run passes over a name. *)
Lemma last_sep_name pre nm rest : name nm -> forall cd,
  exists cd', last_sep (pre ++ nm ++ rest) (length pre + length nm) cd b
    = last_sep (pre ++ nm ++ rest) (length pre) cd' b.
Proof.
  intros Hn. assert (forall n cd, (n <= length nm)%nat -> exists cd',
    last_sep (pre ++ nm ++ rest) (length pre + n) cd b = last_sep (pre ++ nm ++ rest) (length pre) cd' b) as H; [| by eauto].
  induction n as [| n IH]; intros cd Hle; [rewrite Nat.add_0_r; by eexists |].
  rewrite Nat.add_succ_r. cbn [last_sep]. rewrite (bind_eq _ _ _ _ _ (builtin_poll_quiet cd b Hq)).
  rewrite sep_at_app_r, sep_at_app_l, sep_at_name by (done || lia). apply IH. lia.
Qed.
Lemma name_start_name pre nm rest : name nm -> forall cd,
  exists cd', name_start (pre ++ nm ++ rest) (length pre + length nm) cd b
    = name_start (pre ++ nm ++ rest) (length pre) cd' b.
Proof.
  intros Hn. assert (forall n cd, (n <= length nm)%nat -> exists cd',
    name_start (pre ++ nm ++ rest) (length pre + n) cd b = name_start (pre ++ nm ++ rest) (length pre) cd' b) as H; [| by eauto].
  induction n as [| n IH]; intros cd Hle; [rewrite Nat.add_0_r; by eexists |].
  rewrite Nat.add_succ_r. cbn [name_start]. rewrite sep_at_app_r, sep_at_app_l, sep_at_name by (done || lia).
  rewrite (bind_eq _ _ _ _ _ (builtin_poll_quiet cd b Hq)). apply IH. lia.
Qed.

(** The path [dir seps base tail]: a name with the separators that end the
    path and the directory in front of it. *)
Definition has_shape (path dir run base tail : chars) : Prop :=
  path = dir ++ run ++ base ++ tail /\ seps run /\ name base /\ base <> [] /\ seps tail /\
  (run = [] -> dir = []) /\ (dir = [] \/ sep_at dir (length dir - 1) = false).

Lemma last_not_sep pre base : name base -> base <> [] -> sep_at (pre ++ base) (length (pre ++ base) - 1) = false.
Proof.
  intros Hn Hb. rewrite length_app. destruct base as [| ch base]; [done |]. simpl length.
  replace (length pre + S (length base) - 1)%nat with (length pre + length base)%nat by lia.
  rewrite sep_at_app_r. by apply sep_at_name.
Qed.

(** Both functions first drop the separators at the end. *)
Lemma strip_tail pre base tail : name base -> base <> [] -> seps tail -> forall cd, exists cd',
  strip_seps (pre ++ base ++ tail) 1 (length (pre ++ base ++ tail)) cd b = Done (length pre + length base, cd')%nat b.
Proof.
  intros Hn Hb Ht cd.
  destruct (strip_run (pre ++ base) tail Ht 1 cd) with (rest := [] : chars) as (cd' & E).
  - rewrite length_app. destruct base; [done | simpl; lia].
  - intros _. by apply last_not_sep.
  - exists cd'. rewrite app_nil_r, <- app_assoc, !length_app in E. rewrite !length_app, Nat.add_assoc. exact E.
Qed.

Lemma dirname_shape path dir run base tail : has_shape path dir run base tail ->
  dirname path b = Done (match run, dir with [], _ => str "." | _, [] => str "/" | _, _ => dir end) b.
Proof.
  intros (-> & Hr & Hn & Hb & Ht & Hd & Hend). unfold dirname.
  destruct (strip_tail (dir ++ run) base tail Hn Hb Ht FEX_BUILTIN_ABORT_CHECK_INTERVAL) as (cd & E).
  rewrite <- app_assoc in E. rewrite (bind_eq _ _ _ _ _ E). clear E.
  destruct (last_sep_name (dir ++ run) base tail Hn cd) as (cd1 & E). rewrite <- app_assoc in E.
  unfold bind at 1. rewrite E. clear E. destruct run as [| ch run].
  { rewrite Hd by done. done. }
  rewrite length_app. simpl length. rewrite Nat.add_succ_r. cbn [last_sep].
  rewrite (bind_eq _ _ _ _ _ (builtin_poll_quiet cd1 b Hq)).
  rewrite sep_at_app_r, sep_at_app_l, sep_at_seps by (done || (simpl; lia)).
  assert (exists run' rest, (ch :: run) ++ base ++ tail = run' ++ rest /\ seps run' /\ length run' = length run)
    as (run' & rest & Er & Hs & Hlen).
  { exists (take (length run) (ch :: run)), (drop (length run) (ch :: run) ++ base ++ tail).
    split_and!; [by rewrite (app_assoc (take _ _)), take_drop | by apply Forall_take | rewrite length_take; simpl; lia]. }
  rewrite Er, <- Hlen.
  destruct (strip_run dir run' Hs 0 (next_countdown cd1)) with (rest := rest) as (cd2 & E);
    [lia | intros Hl; destruct Hend as [-> | He]; [simpl in Hl; lia | done] |].
  rewrite (bind_eq _ _ _ _ _ E). destruct dir as [| d dir]; [done |]. cbn [length].
  unfold ret. by rewrite (take_app_length (d :: dir)).
Qed.

Lemma basename_shape path dir run base tail : has_shape path dir run base tail -> basename path b = Done base b.
Proof.
  intros (-> & Hr & Hn & Hb & Ht & Hd & Hend). unfold basename.
  destruct (strip_tail (dir ++ run) base tail Hn Hb Ht FEX_BUILTIN_ABORT_CHECK_INTERVAL) as (cd & E).
  rewrite <- app_assoc in E. rewrite (bind_eq _ _ _ _ _ E). clear E.
  destruct (name_start_name (dir ++ run) base tail Hn cd) as (cd1 & E). rewrite <- app_assoc in E.
  assert (name_start (dir ++ run ++ base ++ tail) (length (dir ++ run)) cd1 b = Done (length (dir ++ run)) b) as E2.
  { destruct run as [| ch run]; [by rewrite Hd by done |].
    rewrite length_app. simpl length. rewrite Nat.add_succ_r. cbn [name_start].
    by rewrite sep_at_app_r, sep_at_app_l, sep_at_seps by (done || (simpl; lia)). }
  unfold bind. rewrite E, E2. unfold ret, slice.
  rewrite Nat.add_comm, Nat.add_sub, app_assoc, drop_app_length, take_app_length. done.
Qed.

(** Every path with a character that is not a separator has that shape. *)
Lemma split_end (p : ascii -> bool) s : exists pre run, s = pre ++ run /\ Forall (fun ch => p ch = true) run /\
  (pre = [] \/ exists ch pre', pre = pre' ++ [ch] /\ p ch = false).
Proof.
  induction s as [| ch s (pre & run & -> & Hr & Hp)] using rev_ind.
  - exists [], []. split_and!; [done | constructor | by left].
  - destruct (p ch) eqn:E.
    + exists pre, (run ++ [ch]). split_and!; [by rewrite app_assoc | apply Forall_app; split; [done | by repeat constructor] | done].
    + exists ((pre ++ run) ++ [ch]), []. split_and!; [by rewrite app_nil_r | constructor | right; by exists ch, (pre ++ run)].
Qed.
Lemma path_shapes path : seps path \/ exists dir run base tail, has_shape path dir run base tail.
Proof.
  destruct (split_end is_sep_char path) as (p1 & tail & -> & Ht & Hp1).
  destruct Hp1 as [-> | (ch & p1' & -> & Hch)]; [by left | right].
  destruct (split_end (fun ch => negb (is_sep_char ch)) (p1' ++ [ch])) as (p2 & base & E & Hb & Hp2).
  assert (name base) as Hn by (eapply Forall_impl; [exact Hb |]; intros x; cbv beta; by destruct (is_sep_char x)).
  assert (base <> []) as Hne.
  { intros ->. rewrite app_nil_r in E. destruct Hp2 as [-> | (x & p2' & -> & Hx)].
    - by destruct p1'.
    - apply app_inj_tail in E as [_ ->]. by rewrite Hch in Hx. }
  destruct (split_end is_sep_char p2) as (dir & run & -> & Hr & Hdir).
  exists dir, run, base, tail. split_and!; [| done.. | |].
  - by rewrite E, <- !app_assoc.
  - intros ->. rewrite app_nil_r in *. destruct Hdir as [-> | (x & d' & -> & Hx)]; [done |].
    destruct Hp2 as [Hnil | (y & p2' & E2 & Hy)]; [by destruct d' |].
    apply app_inj_tail in E2 as [_ ->]. by rewrite Hx in Hy.
  - destruct Hdir as [-> | (x & d' & -> & Hx)]; [by left | right].
    rewrite length_app. simpl. replace (length d' + 1 - 1)%nat with (length d' + 0)%nat by lia.
    rewrite sep_at_app_r. exact Hx.
Qed.

(** A path of separators only is the root. *)
Lemma root_path path : seps path ->
  dirname path b = Done (if decide (path = []) then str "." else str "/") b /\ basename path b = Done [] b.
Proof.
  intros Hs. destruct path as [| ch path]; [done |]. rewrite decide_False by done. inversion Hs as [| ? ? Hc Hp]; subst.
  assert (forall cd, exists cd', strip_seps (ch :: path) 1 (length (ch :: path)) cd b = Done (1%nat, cd') b) as Hstrip.
  { intros cd. destruct (strip_run [ch] path Hp 1 cd) with (rest := [] : chars) as (cd' & E); [simpl; lia.. |].
    exists cd'. by rewrite app_nil_r in E. }
  assert (sep_at (ch :: path) 0 = true) as H0 by exact Hc.
  unfold dirname, basename. destruct (Hstrip FEX_BUILTIN_ABORT_CHECK_INTERVAL) as (cd & E).
  split; rewrite (bind_eq _ _ _ _ _ E); cbn [last_sep name_start].
  - rewrite (bind_eq _ _ _ (Some O) b); [done |].
    rewrite (bind_eq _ _ _ _ _ (builtin_poll_quiet cd b Hq)). by rewrite H0.
  - rewrite H0. done.
Qed.
End Quiet.

(** ** The builtins *)

(** A builtin of one path. *)
Lemma one_path malloc_ok c args o path more nm (f : chars -> comp Budget chars) r
    (Hm : forall n, malloc_ok n = true) (Hq : still_quiet c) (Hheap : Z.of_nat (length (cells c)) < INT_MAX)
    (Hargs : list_at c args (o :: more)) (Hs : string_at c FE_TSTRING o path)
    (Hl : Z.of_nat (length path) < INT_MAX) (Hz : zero ∉ path)
    (Hf : f path (rt_bud (rt c)) = Done r (rt_bud (rt c))) :
  (FEX_CHECK_ARGS args 1 nm ;;;
   let* '(path_obj, _) := fe_nextarg args in
   let* path := string_to_cstr malloc_ok path_obj nm in
   let* r := lift_budget (f path) in
   fe_string r) c = fe_string r c.
Proof.
  eapply (first_arg c Hheap); [exact Hargs | simpl; lia |]. intros d _.
  rewrite (bind_eq _ _ c path c) by (by rewrite (string_cstr_ok c Hq malloc_ok Hm nm o path Hs Hl), decide_False).
  by rewrite (bind_eq _ _ _ _ _ (lift_budget_quiet _ _ _ Hf)).
Qed.

(** C38. dirname and basename of a path without NUL bytes.  A path with a name in
    it is a directory part, separators, the name and separators at its end
    (slashes and backslashes both separate): basename returns the name, and
    dirname the directory, the root when there is nothing before the
    separators, or a dot when there are none.  A path of separators only is
    the root with an empty name.  There are no other paths. *)
Theorem dirname_basename_correct malloc_ok c args o path more
    (Hm : forall n, malloc_ok n = true) (Hq : still_quiet c) (Hheap : Z.of_nat (length (cells c)) < INT_MAX)
    (Hargs : list_at c args (o :: more)) (Hs : string_at c FE_TSTRING o path)
    (Hl : Z.of_nat (length path) < INT_MAX) (Hz : zero ∉ path) :
  (forall dir run base tail, has_shape path dir run base tail ->
     builtin_dirname malloc_ok args c
     = fe_string (match run, dir with [], _ => str "." | _, [] => str "/" | _, _ => dir end) c /\
     builtin_basename malloc_ok args c = fe_string base c) /\
  (seps path ->
     builtin_dirname malloc_ok args c = fe_string (if decide (path = []) then str "." else str "/") c /\
     builtin_basename malloc_ok args c = fe_string [] c) /\
  (seps path \/ exists dir run base tail, has_shape path dir run base tail).
Proof.
  split_and!.
  - intros dir run base tail H. split; (eapply one_path; [done.. |]).
    + by apply (dirname_shape _ Hq path dir run base tail).
    + by apply (basename_shape _ Hq path dir run base tail).
  - intros H. destruct (root_path _ Hq path H). split; by eapply one_path.
  - apply path_shapes.
Qed.

(** The arguments of [dirname("a//b")]. *)
Definition path_context : fe_Context :=
  with_cells
    [MkCell FE_TPAIR false (VObj (Ref 1)) (VObj Nil);
     MkCell FE_TSTRING false (VObj (Fix 4)) (VSlab 0)]
    (blank_context 2 (MkArena [MkSlab FE_SLAB_NULL (str "a//b")] FE_SLAB_NULL 0)
       example_mem (rt_bud example_rt) 4096).

Lemma dirname_basename_correct_witness :
  builtin_dirname (fun _ => true) (Ref 0) path_context = fe_string (str "a") path_context /\
  builtin_basename (fun _ => true) (Ref 0) path_context = fe_string (str "b") path_context.
Proof.
  refine (proj1 (dirname_basename_correct (fun _ => true) path_context (Ref 0) (Ref 1) (str "a//b") []
    (fun _ => eq_refl) (conj (Z.le_refl 0) eq_refl) eq_refl _ _ eq_refl _) (str "a") (str "//") (str "b") [] _).
  - eapply list_at_cons; [by do 2 eexists | apply list_at_nil].
  - do 2 eexists. exists 0, [0]. split_and!; try done.
    apply (holds_cons _ _ (MkSlab FE_SLAB_NULL (str "a//b"))); [done.. | constructor].
  - apply (bool_decide_unpack _). by vm_compute.
  - repeat split; try done; by repeat constructor.
Defined.

(** The root is lost when parts are joined: the separators at the end of the
    first part are stripped like those of any other. *)
Lemma pathjoin_drops_root :
  (let* '(b1, cd) := join_part (fun _ => true) empty_buffer false (str "/") 64 in
   let* '(b2, _) := join_part (fun _ => true) (default empty_buffer b1) false (str "etc") cd in
   ret (option_map buf_data b2)) (rt_bud example_rt)
  = Done (Some (str "etc")) (rt_bud example_rt).
Proof. by vm_compute. Qed.
