(* ===== verification/MathSpec.v ===== *)
(** * Mathematical builtins on integers *)

From Stdlib Require Import ZArith Lia Ascii String SpecFloat.
From stdpp Require Import base list.
From S2P Require Import Prelude Sfc32 Number Strtod Arith Memory Budget MapTable MapSpec Slab SlabSpec Span Host Ctx Gc GcProps Objects Writer Reader WriterSpec Frame Builtins BuiltinsSpec BuiltinsMath.

Lemma make_number_Fix oob z v (c : fe_Context) : is_double z v -> make_number oob v c = Done (Fix z) c.
Proof. intros H. unfold make_number. by rewrite (make_number_small oob z v H). Qed.
Lemma make_number_of_Z oob z (c : fe_Context) : small z -> make_number oob (double_of_Z z) c = Done (Fix z) c.
Proof. intros H. by apply make_number_Fix, is_double_of_Z. Qed.

Section Ints.
Context (oob : double -> Z) (c : fe_Context) (Hheap : Z.of_nat (length (cells c)) < INT_MAX).

(** A builtin of one number. *)
Lemma unary_number args o v more nm (f : double -> comp fe_Context obj) :
  list_at c args (o :: more) -> nval o c = Done v c -> unary nm f args c = f v c.
Proof.
  intros H Hv. unfold unary. eapply (first_arg c Hheap); [exact H | simpl; lia |]. intros d _.
  by rewrite (bind_eq (fe_tonumber o) _ _ _ _ Hv).
Qed.

End Ints.

(** ** Rounding *)

(** A rounding of [±m 2^e], [e < 0], to an integer of 53 bits. *)
Lemma integral_double rnd (s : bool) m e : let M := if s then Z.neg m else Z.pos m in let D := Z.to_pos (2 ^ (- e)) in
  e < 0 -> small (rnd M D) -> is_double (rnd M D) (integral rnd (S754_finite s m e)).
Proof.
  cbv zeta. intros He Hs. unfold integral. rewrite (proj2 (Z.leb_gt 0 e)) by done.
  destruct (Z.eqb_spec (rnd (if s then Z.neg m else Z.pos m) (Z.to_pos (2 ^ (- e)))) 0) as [E | E].
  - rewrite E. split; [done |]. destruct s; [by right | by left].
  - by apply is_double_of_Z.
Qed.

(** The bounds of the three roundings of [M/D]. *)
Lemma floor_bounds M d : let z := M / Z.pos d in z * Z.pos d <= M < (z + 1) * Z.pos d.
Proof. cbv zeta. pose proof (Z.mul_div_le M (Z.pos d)). pose proof (Z.mul_succ_div_gt M (Z.pos d)). lia. Qed.
Lemma ceil_bounds M d : let z := - ((- M) / Z.pos d) in (z - 1) * Z.pos d < M <= z * Z.pos d.
Proof. cbv zeta. pose proof (floor_bounds (- M) d). cbv zeta in *. lia. Qed.
Lemma round_bounds M d : let z := Z.sgn M * ((2 * Z.abs M + Z.pos d) / (2 * Z.pos d)) in
  2 * Z.abs (M - z * Z.pos d) <= Z.pos d /\ (2 * Z.abs (M - z * Z.pos d) = Z.pos d -> Z.abs M < Z.abs z * Z.pos d).
Proof.
  cbv zeta. set (q := (2 * Z.abs M + Z.pos d) / (2 * Z.pos d)).
  assert (q * (2 * Z.pos d) <= 2 * Z.abs M + Z.pos d < (q + 1) * (2 * Z.pos d)) as Hq
    by (apply (floor_bounds (2 * Z.abs M + Z.pos d) (2 * d))).
  assert (0 <= q) by (apply Z.div_pos; lia).
  assert (Z.abs (Z.sgn M * q) * Z.pos d = Z.abs (Z.sgn M) * (q * Z.pos d)) as -> by (rewrite Z.abs_mul, (Z.abs_eq q) by lia; ring).
  replace (Z.sgn M * q * Z.pos d) with (Z.sgn M * (q * Z.pos d)) by ring.
  replace (q * (2 * Z.pos d)) with (2 * (q * Z.pos d)) in Hq by ring.
  replace ((q + 1) * (2 * Z.pos d)) with (2 * (q * Z.pos d) + 2 * Z.pos d) in Hq by ring.
  assert (0 <= q * Z.pos d) by lia. revert Hq H0. generalize (q * Z.pos d). intros k Hq Hk.
  destruct (Z.lt_trichotomy M 0) as [Hm | [-> | Hm]]; [rewrite Z.sgn_neg by done | simpl in Hq |- * | rewrite Z.sgn_pos by done]; lia.
Qed.

Lemma valid_mantissa s m e : valid (S754_finite s m e) -> Z.pos m < 2 ^ 53.
Proof.
  unfold valid, valid_binary, bounded, canonical_mantissa. intros [H _]%andb_prop. apply Zeq_bool_eq in H.
  rewrite digits2_log2 in H. unfold fexp, prec, emax, emin, SpecFloat.emin in H.
  apply Z.log2_lt_pow2; lia.
Qed.

(** An integer within one of [M/D] has 53 bits. *)
Lemma near_small M d z : Z.abs M < 2 ^ 53 -> 2 <= Z.pos d -> Z.abs (M - z * Z.pos d) <= Z.pos d -> small z.
Proof. unfold small. intros HM Hd Hz. nia. Qed.

(** The value of a number object. *)
Definition number_at (c : fe_Context) (o : obj) (v : double) : Prop := nval o c = Done v c.

(** C39. floor, ceil and round of a fraction [±m 2^e], [e < 0]: the result is
    the integer the C functions specify, returned as a fixnum: the largest
    one not above the argument, the smallest one not below it, and the
    nearest one with halves away from zero. *)
Theorem rounding_builtins_exact oob c args o (s : bool) m e more
    (Hheap : Z.of_nat (length (cells c)) < INT_MAX) (Hargs : list_at c args (o :: more))
    (Ho : number_at c o (S754_finite s m e)) (Hv : valid (S754_finite s m e)) (He : e < 0) :
  let M := if s then Z.neg m else Z.pos m in
  let D := 2 ^ (- e) in
  (exists z, builtin_floor oob args c = Done (Fix z) c /\ z * D <= M < (z + 1) * D) /\
  (exists z, builtin_ceil oob args c = Done (Fix z) c /\ (z - 1) * D < M <= z * D) /\
  (exists z, builtin_round oob args c = Done (Fix z) c /\
     2 * Z.abs (M - z * D) <= D /\ (2 * Z.abs (M - z * D) = D -> Z.abs M < Z.abs z * D)).
Proof.
  cbv zeta. set (M := if s then Z.neg m else Z.pos m).
  assert (exists d, 2 ^ (- e) = Z.pos d /\ 2 <= Z.pos d) as (d & Ed & Hd).
  { assert (2 ^ 1 <= 2 ^ (- e)) by (apply Z.pow_le_mono_r; lia). exists (Z.to_pos (2 ^ (- e))). lia. }
  assert (Z.abs M < 2 ^ 53) as HM by (pose proof (valid_mantissa _ _ _ Hv); destruct s; simpl; lia).
  assert (forall rnd, small (rnd M d) ->
    of_double oob (integral rnd) (S754_finite s m e) c = Done (Fix (rnd M d)) c) as Hr.
  { intros rnd Hs. apply make_number_Fix. replace d with (Z.to_pos (2 ^ (- e))) in * by (by rewrite Ed).
    by apply integral_double. }
  unfold builtin_floor, builtin_ceil, builtin_round. rewrite Ed.
  rewrite !(unary_number c Hheap args o _ more) by done.
  pose proof (floor_bounds M d) as Hf. pose proof (ceil_bounds M d) as Hc. pose proof (round_bounds M d) as Hn.
  cbv zeta in Hf, Hc, Hn. split_and!; eexists; (split; [apply Hr; eapply near_small; [done | done |] | done]); lia.
Qed.

(** ** Selection *)

Lemma select_loop_ints (better : double -> double -> bool) (pick : Z -> Z -> Z) c
    (Hb : forall a b, small a -> small b -> (if better (double_of_Z a) (double_of_Z b) then double_of_Z a else double_of_Z b)
                      = double_of_Z (pick a b))
    (Hp : forall a b, pick a b = a \/ pick a b = b) zs :
  forall args r fuel, list_at c args (map Fix zs) -> Forall small (r :: zs) -> (length zs < fuel)%nat ->
  select_loop better fuel args (double_of_Z r) c = Done (double_of_Z (fold_left (fun r z => pick z r) zs r)) c.
Proof.
  induction zs as [| z zs IH]; intros args r [| fuel] Ha Hs Hf; simpl in Hf; try lia.
  { by inversion Ha. }
  cbn [select_loop]. inversion Ha as [| ? ? d ? Hp' Hd]; subst. rewrite (pair_at_not_nil _ _ _ _ Hp').
  rewrite (bind_eq _ _ _ _ _ (nextarg_pair c _ _ _ Hp')). rewrite (bind_eq (fe_tonumber (Fix z)) _ c (double_of_Z z) c) by done.
  inversion Hs as [| ? ? Hr Hzs]; subst. inversion Hzs; subst. rewrite Hb by done. apply IH; [done | | lia].
  constructor; [| done]. by destruct (Hp z r) as [-> | ->].
Qed.

Lemma select_ints oob (better : double -> double -> bool) (pick : Z -> Z -> Z) nm c args z0 zs
    (Hb : forall a b, small a -> small b -> (if better (double_of_Z a) (double_of_Z b) then double_of_Z a else double_of_Z b)
                      = double_of_Z (pick a b))
    (Hp : forall a b, pick a b = a \/ pick a b = b) :
  Z.of_nat (length (cells c)) < INT_MAX -> list_at c args (map Fix (z0 :: zs)) -> Forall small (z0 :: zs) ->
  select oob better nm args c = Done (Fix (fold_left (fun r z => pick z r) zs z0)) c.
Proof.
  intros Hh Ha Hs. unfold select. rewrite (bind_eq _ _ c tt c).
  2: { rewrite (check_args c Hh _ _ _ _ Ha). by rewrite (proj2 (Z.ltb_ge _ _)) by (simpl; lia). }
  match goal with |- bind (fe_nextarg args) ?k c = _ =>
    destruct (nextarg_list c args (Fix z0) (map Fix zs) k Ha) as (d & Hd & ->) end.
  rewrite (bind_eq (fe_tonumber (Fix z0)) _ c (double_of_Z z0) c) by done. rewrite (bind_eq get _ _ c c eq_refl).
  pose proof (list_at_fuel _ _ _ Hd) as Hf. rewrite length_map in Hf.
  rewrite (bind_eq _ _ _ _ _ (select_loop_ints better pick c Hb Hp zs d z0 _ Hd Hs Hf)).
  apply make_number_of_Z. clear -Hs Hp. revert z0 Hs. induction zs as [| z zs IH]; intros z0 Hs; simpl;
    inversion Hs as [| ? ? H0 Hzs]; subst; [done |]. apply IH. inversion Hzs; subst. constructor; [| done].
  by destruct (Hp z z0) as [-> | ->].
Qed.

Lemma fold_min zs : forall z0, let r := fold_left (fun r z => Z.min z r) zs z0 in r ∈ z0 :: zs /\ Forall (Z.le r) (z0 :: zs).
Proof.
  induction zs as [| z zs IH]; intros z0; simpl; [split; [by left | by repeat constructor] |].
  destruct (IH (Z.min z z0)) as [Hin Hall]. inversion Hall as [| ? ? H0 H1]; subst. split.
  - apply elem_of_cons in Hin as [-> | Hin]; [| by do 2 right]. destruct (Z.min_spec z z0) as [[_ ->] | [_ ->]]; [right; left | left].
  - repeat constructor; [lia | lia | done].
Qed.
Lemma fold_max zs : forall z0, let r := fold_left (fun r z => Z.max z r) zs z0 in
  r ∈ z0 :: zs /\ Forall (fun z => z <= r) (z0 :: zs).
Proof.
  induction zs as [| z zs IH]; intros z0; simpl; [split; [by left | by repeat constructor] |].
  destruct (IH (Z.max z z0)) as [Hin Hall]. inversion Hall as [| ? ? H0 H1]; subst. split.
  - apply elem_of_cons in Hin as [-> | Hin]; [| by do 2 right]. destruct (Z.max_spec z z0) as [[_ ->] | [_ ->]]; [left | right; left].
  - repeat constructor; [lia | lia | done].
Qed.

(** min and max of integers return the least and the greatest of their
    arguments. *)
Lemma min_max_select oob c args z0 zs
    (Hheap : Z.of_nat (length (cells c)) < INT_MAX)
    (Hargs : list_at c args (map Fix (z0 :: zs))) (Hs : Forall small (z0 :: zs)) :
  (exists z, builtin_min oob args c = Done (Fix z) c /\ z ∈ z0 :: zs /\ Forall (Z.le z) (z0 :: zs)) /\
  (exists z, builtin_max oob args c = Done (Fix z) c /\ z ∈ z0 :: zs /\ Forall (fun y => y <= z) (z0 :: zs)).
Proof.
  split.
  - eexists. split; [apply (select_ints oob _ Z.min); [| lia | done..] | apply fold_min].
    intros a b Ha Hb. unfold double_ltb. rewrite (ltb_double a b) by (by apply is_double_of_Z).
    destruct (Z.ltb_spec a b); f_equal; lia.
  - eexists. split; [apply (select_ints oob _ Z.max); [| lia | done..] | apply fold_max].
    intros a b Ha Hb. unfold double_ltb. rewrite (ltb_double b a) by (by apply is_double_of_Z).
    destruct (Z.ltb_spec b a); f_equal; lia.
Qed.

(** ** Random integers *)


(** ** Witnesses *)

(** The arguments of [randint(6)] and of [floor(-1.25)]. *)
Definition math_context : fe_Context :=
  with_cells
    [MkCell FE_TPAIR false (VObj (Fix 6)) (VObj Nil);
     MkCell FE_TPAIR false (VObj (Ref 2)) (VObj Nil);
     MkCell FE_TNUMBER false (VObj Nil) (VNum (S754_finite true 5629499534213120 (-52)))]
    (blank_context 3 (MkArena [] FE_SLAB_NULL 0) example_mem (rt_bud example_rt) 4096).

Lemma rounding_builtins_exact_witness :
  (exists z, builtin_floor oob_x86 (Ref 1) math_context = Done (Fix z) math_context /\ z = -2) /\
  (exists z, builtin_round oob_x86 (Ref 1) math_context = Done (Fix z) math_context /\ z = -1).
Proof.
  destruct (rounding_builtins_exact oob_x86 math_context (Ref 1) (Ref 2) true 5629499534213120 (-52) [])
    as ((z & Ez & Hz) & _ & (w & Ew & Hw & _)).
  - done.
  - eapply list_at_cons; [by do 2 eexists | apply list_at_nil].
  - done.
  - by vm_compute.
  - done.
  - split; [exists z | exists w]; (split; [done |]);
      change (2 ^ (- -52)) with 4503599627370496 in *; lia.
Defined.


(** A maximum between 0 and 1 passes the check and divides by zero. *)
Lemma randint_of_fraction_divides_by_zero :
  builtin_random_int oob_x86 oob_x86 7 (Ref 1)
    (with_cells
       (<[2%nat := MkCell FE_TNUMBER false (VObj Nil) (VNum (S754_finite false 4503599627370496 (-53)))]> (cells math_context))
       math_context, MkRng true (sfc32_seed 1)) = Stuck.
Proof. by vm_compute. Qed.

(** A string argument of a mathematical function is read as a number without
    a check of its type. *)
Lemma sqrt_of_string_misreads :
  builtin_sqrt oob_x86 (Ref 1)
    (with_cells (<[2%nat := MkCell FE_TSTRING false (VObj (Fix 0)) (VSlab FE_SLAB_NULL)]> (cells math_context)) math_context)
  = Stuck.
Proof. by vm_compute. Qed.
