(* ===== verification/ListSpec.v ===== *)
(** * List builtins on heap lists

    length and nth read a list, reverse builds a new one while the collector
    may run: the lists they work on are [held], that is reachable from the
    roots. *)

From Stdlib Require Import ZArith Lia Ascii String SpecFloat.
From stdpp Require Import base list sets.
From S2P Require Import Prelude Number Strtod Arith Memory Budget MapTable MapSpec Slab SlabSpec Span Ctx Gc GcMark GcSweep GcSpec GcAlloc GcProps Objects Writer Reader WriterSpec Frame Builtins BuiltinsText BuiltinsList BuiltinsSpec MathSpec.

(** ** Reading *)

Section Read.
Context (oob oob_int : double -> Z) (c : fe_Context) (Hq : still_quiet c) (Hheap : Z.of_nat (length (cells c)) < INT_MAX).

Lemma length_loop_list l os : list_at c l os -> forall fuel count cd,
  (length os < fuel)%nat -> 0 <= count -> count + Z.of_nat (length os) <= INT_MAX ->
  length_loop fuel l count cd c = Done (count + Z.of_nat (length os)) c.
Proof.
  induction 1 as [| l a d os Hp Hl IH]; intros [| fuel] count cd Hf Hc Hm; simpl length in *; try lia; cbn [length_loop].
  { simpl. by rewrite Z.add_0_r. }
  rewrite (pair_at_not_nil _ _ _ _ Hp), (bind_eq _ _ _ _ _ (poll_quiet_ctx cd c Hq)).
  rewrite (bind_eq _ _ _ _ _ (fe_cdr_pair c _ _ _ Hp)).
  unfold INT_MAX in Hm. rewrite swrap_small by (unfold in_s; lia).
  rewrite IH by (unfold INT_MAX; lia). f_equal. lia.
Qed.

Lemma nth_loop_list l os : list_at c l os -> forall fuel i index cd, (length os < fuel)%nat ->
  exists l', nth_loop fuel i index l cd c = Done l' c /\ list_at c l' (drop (Z.to_nat (index - i)) os).
Proof.
  induction 1 as [| l a d os Hp Hl IH]; intros [| fuel] i index cd Hf; simpl length in *; try lia; cbn [nth_loop].
  { exists Nil. rewrite andb_false_r, drop_nil. split; [done | apply list_at_nil]. }
  rewrite (pair_at_not_nil _ _ _ _ Hp). cbn [negb]. rewrite andb_true_r. destruct (Z.ltb_spec i index) as [Hi | Hi].
  - rewrite (bind_eq _ _ _ _ _ (poll_quiet_ctx cd c Hq)), (bind_eq _ _ _ _ _ (fe_cdr_pair c _ _ _ Hp)).
    destruct (IH fuel (i + 1) index (next_countdown cd)) as (l' & E & Hl'); [lia |]. exists l'. split; [done |].
    replace (Z.to_nat (index - i)) with (S (Z.to_nat (index - (i + 1)))) by lia. exact Hl'.
  - exists l. split; [done |]. rewrite Z2Nat.nonpos by lia. by eapply list_at_cons.
Qed.

Lemma pair_checked {A} l a os nm (k : unit -> comp fe_Context A) : list_at c l (a :: os) ->
  bind (FEX_CHECK_TYPE l FE_TPAIR nm) k c = k tt c.
Proof.
  inversion 1 as [| ? ? ? ? Hp]; subst. apply bind_eq.
  by rewrite (check_type _ _ _ _ _ (pair_at_type _ _ _ _ Hp)), decide_True.
Qed.

(** The head of a list, or nil. *)
Lemma head_of_list l os : list_at c l os -> (if isnil l then ret Nil else fe_car l) c = Done (default Nil (head os)) c.
Proof.
  destruct 1 as [| l a d os Hp Hl]; [done |]. rewrite (pair_at_not_nil _ _ _ _ Hp). by eapply fe_car_pair.
Qed.
End Read.

(** length counts the elements of a non-empty list and nth returns the
    element at an index: nil past the end, the first one for a negative
    index.  Both read the list only.  The empty list is refused, under the
    name of another builtin by length. *)
Theorem length_nth_correct oob oob_int c args l os (n : Z) more
    (Hq : still_quiet c) (Hheap : Z.of_nat (length (cells c)) < INT_MAX)
    (Hargs : list_at c args (l :: Fix n :: more)) (Hl : list_at c l os) (Hn : in_s 32 n) :
  builtin_list_length oob args c
  = (if decide (os = []) then Raised "contains: type mismatch" (ctx_error_reset c)
     else Done (Fix (Z.of_nat (length os))) c) /\
  builtin_list_nth oob_int args c
  = (if decide (os = []) then Raised "nth: type mismatch" (ctx_error_reset c)
     else Done (default Nil (os !! Z.to_nat n)) c).
Proof.
  assert (small n) as Hsn by (unfold in_s in Hn; unfold small; lia).
  pose proof (list_at_fuel _ _ _ Hl) as Hf. pose proof (list_at_length _ _ _ Hl) as Hlen.
  split; (eapply (first_arg c Hheap args l (Fix n :: more)); [done | simpl; lia |]); intros d Hd.
  - case_decide as He.
    { subst os. inversion Hl; subst. by apply bind_raised. }
    destruct os as [| a os]; [done |]. rewrite (pair_checked c _ _ _ _ _ Hl). rewrite (bind_eq heap_bound _ _ (list_fuel c) c) by done.
    rewrite (bind_eq _ _ _ _ _ (length_loop_list c Hq l _ Hl _ 0 _ Hf ltac:(lia) ltac:(lia))).
    apply make_number_of_Z. unfold small, INT_MAX in *. lia.
  - match goal with |- bind (fe_nextarg d) ?k c = _ => destruct (nextarg_list c d (Fix n) more k Hd) as (d' & _ & ->) end.
    rewrite (bind_eq (fe_tonumber (Fix n)) _ c (double_of_Z n) c) by done.
    unfold double_to_int. rewrite (trunc_double n) by (by apply is_double_of_Z). rewrite decide_True by done.
    case_decide as He.
    { subst os. inversion Hl; subst. by apply bind_raised. }
    destruct os as [| a os]; [done |]. rewrite (pair_checked c _ _ _ _ _ Hl). rewrite (bind_eq heap_bound _ _ (list_fuel c) c) by done.
    destruct (nth_loop_list c Hq l _ Hl (list_fuel c) 0 n FEX_BUILTIN_ABORT_CHECK_INTERVAL Hf) as (l' & E & Hl').
    rewrite (bind_eq _ _ _ _ _ E). rewrite (head_of_list c l' _ Hl'). rewrite Z.sub_0_r.
    by rewrite head_lookup, lookup_drop, Nat.add_0_r.
Qed.

(** ** Building *)

(** [o] is reachable from the roots, or is not in the heap. *)
Definition held (c : fe_Context) (o : obj) : Prop :=
  match o with Ref i => reach (cells c) (gc_roots c) i | _ => True end.

Lemma held_cdr c l a d os : pair_at c l a d -> held c l -> list_at c d os -> held c d.
Proof.
  intros (i & x & -> & E & Ht & Ea & Ed) Hh Hd. destruct d as [j | | | | |]; try done.
  eapply reach_step; [exact Hh | exact E | unfold children; by rewrite Ht, Ea, Ed | set_solver |].
  inversion Hd as [| ? ? ? ? (k & y & Ek & Ey & _)]; subst. injection Ek as ->. by eexists.
Qed.

(** A held list is the same list after anything that keeps what is
    reachable. *)
Lemma held_list_preserved c ch c' ch' l os :
  preserves c ch c' ch' -> gc_roots c ⊆ gc_roots c' -> list_at c l os -> held c l -> list_at c' l os /\ held c' l.
Proof.
  intros Hp Hr. induction 1 as [| l a d os Hpair Hl IH]; intros Hh; [split; [apply list_at_nil | done] |].
  destruct IH as [Hl' _]; [by eapply held_cdr |].
  destruct Hpair as (i & x & -> & E & Ht & Ea & Ed). assert (ty x <> FE_TFREE) as Hf by congruence.
  destruct (proj2 Hp i x E Hf Hh) as [E' _]. split.
  - eapply list_at_cons; [by exists i, x | done].
  - by apply (preserves_reach c ch c' ch' i x).
Qed.

Definition alloc_error (msg : string) : Prop := msg = "out of memory"%string \/ msg = "gc stack overflow"%string.

(** What a builder of a list of [os] returns, from the context [c]. *)
Definition builds_list (c : fe_Context) (ch : nat -> list Z) (X : list nat) (os : list obj) (r : outcome fe_Context obj) : Prop :=
  match r with
  | Done l c' => exists fl' ch' sfl', heap_ok c' X fl' ch' sfl' [] /\ list_at c' l os /\ held c' l /\
      gc_roots c ⊆ gc_roots c' /\ preserves c ch c' ch'
  | Raised msg _ => alloc_error msg
  | Stuck | NoFuel => False
  end.

Lemma cons_list a d os c X fl ch sfl :
  heap_ok c X fl ch sfl [] -> list_at c d os -> held c d -> builds_list c ch X (a :: os) (fe_cons a d c).
Proof.
  intros H Hd Hh. pose proof (fe_cons_constructed a d c X fl ch sfl [] H) as Hc.
  destruct (fe_cons a d c) as [o c' | msg c' | |]; [| exact Hc | done..].
  destruct Hc as (i & fl' & ch' & sfl' & -> & Hok & E & Hg & Hr & Hp & _).
  exists fl', ch', sfl'. split; [done |].
  destruct (held_list_preserved _ _ _ _ _ _ Hp Hr Hd Hh) as [Hd' _]. split_and!; [| | done | done].
  - eapply list_at_cons; [| exact Hd']. by exists i, (MkCell FE_TPAIR false (VObj a) (VObj d)).
  - apply reach_root; [| by eexists]. unfold gc_roots. apply elem_of_app. left. rewrite Hg, List.filter_app.
    apply elem_of_app. right. by left.
Qed.

Lemma reverse_loop_builds os : forall l result acc fuel cd c X fl ch sfl,
  heap_ok c X fl ch sfl [] -> still_quiet c -> list_at c l os -> held c l -> list_at c result acc -> held c result ->
  (length os < fuel)%nat -> builds_list c ch X (rev os ++ acc) (reverse_loop fuel l result cd c).
Proof.
  induction os as [| a os IH]; intros l result acc [| fuel] cd c X fl ch sfl Hok Hq Hl Hhl Hr Hhr Hf; simpl in Hf; try lia.
  { inversion Hl; subst. exists fl, ch, sfl. split_and!; [done.. |]. split; [done |]. intros j x E _ _. by repeat split. }
  inversion Hl as [| ? ? d ? Hp Hd]; subst. cbn [reverse_loop].
  rewrite (pair_at_not_nil _ _ _ _ Hp), (bind_eq _ _ _ _ _ (poll_quiet_ctx cd c Hq)).
  rewrite (bind_eq _ _ _ _ _ (fe_car_pair c _ _ _ Hp)).
  pose proof (cons_list a result acc c X fl ch sfl Hok Hr Hhr) as Hc. pose proof (ob_fe_cons a result c) as Hob.
  unfold bind at 1. destruct (fe_cons a result c) as [r1 c1 | msg c1 | |]; [| exact Hc | done..].
  destruct Hc as (fl1 & ch1 & sfl1 & Hok1 & Hr1 & Hh1 & Hroots & Hpres).
  destruct (held_list_preserved _ _ _ _ _ _ Hpres Hroots Hl Hhl) as [Hl1 Hhl1].
  assert (pair_at c1 l a d) as Hp1.
  { inversion Hl1 as [| ? ? d1 ? Hp1 Hd1]; subst. destruct Hp as (i & x & -> & E & Ht & Ea & Ed).
    destruct (proj2 Hpres i x E ltac:(congruence) Hhl) as [E1 _]. by exists i, x. }
  rewrite (bind_eq _ _ _ _ _ (fe_cdr_pair c1 _ _ _ Hp1)).
  destruct (held_list_preserved _ _ _ _ _ _ Hpres Hroots Hd (held_cdr _ _ _ _ _ Hp Hhl Hd)) as [Hd1 Hhd1].
  assert (still_quiet c1) as Hq1 by (unfold still_quiet; by rewrite (Hob _ _ eq_refl)).
  specialize (IH d r1 (a :: acc) fuel (next_countdown cd) c1 X fl1 ch1 sfl1 Hok1 Hq1 Hd1 Hhd1 Hr1 Hh1 ltac:(lia)).
  simpl rev. rewrite <- app_assoc. cbn [app]. destruct (reverse_loop fuel d r1 _ c1) as [r2 c2 | | |]; try done.
  destruct IH as (fl2 & ch2 & sfl2 & Hok2 & Hr2 & Hh2 & Hroots2 & Hpres2). exists fl2, ch2, sfl2.
  split_and!; [done.. | by etrans | by eapply preserves_trans].
Qed.

(** C36. reverse builds the reversed list: a fresh list of the same objects in
    the opposite order, whatever collections happen on the way; everything
    reachable, the argument included, stays as it was and the heap stays well
    formed.  It fails only for lack of objects or of room on the root stack,
    and refuses an empty list. *)
Theorem list_reverse_correct c args l os more X fl ch sfl
    (Hok : heap_ok c X fl ch sfl []) (Hq : still_quiet c) (Hheap : Z.of_nat (length (cells c)) < INT_MAX)
    (Hargs : list_at c args (l :: more)) (Hl : list_at c l os) (Hh : held c l) :
  if decide (os = []) then builtin_list_reverse args c = Raised "reverse: type mismatch" (ctx_error_reset c)
  else match builtin_list_reverse args c with
       | Done r c' => list_at c' r (rev os) /\ list_at c' l os /\
           exists fl' ch' sfl', heap_ok c' X fl' ch' sfl' [] /\ preserves c ch c' ch'
       | Raised msg _ => msg = "out of memory"%string \/ msg = "gc stack overflow"%string
       | Stuck | NoFuel => False
       end.
Proof.
  assert (forall r, (forall d, list_at c d more -> (FEX_CHECK_TYPE l FE_TPAIR "reverse" ;;;
    let* fuel := heap_bound in reverse_loop fuel l Nil FEX_BUILTIN_ABORT_CHECK_INTERVAL) c = r) -> builtin_list_reverse args c = r) as Hb.
  { intros r Hr. unfold builtin_list_reverse. eapply (first_arg c Hheap); [exact Hargs | simpl; lia |]. exact Hr. }
  case_decide as He.
  - apply Hb. intros d _. subst os. inversion Hl; subst. by apply bind_raised.
  - destruct os as [| a os]; [done |]. erewrite Hb; [| intros d _; apply (pair_checked c _ _ _ _ _ Hl)].
    rewrite (bind_eq heap_bound _ _ (list_fuel c) c) by done.
    pose proof (reverse_loop_builds (a :: os) l Nil [] (list_fuel c) FEX_BUILTIN_ABORT_CHECK_INTERVAL c X fl ch sfl
      Hok Hq Hl Hh (list_at_nil c) I (list_at_fuel _ _ _ Hl)) as H.
    destruct (reverse_loop _ _ _ _ c) as [r c' | | |]; try done. rewrite app_nil_r in H.
    destruct H as (fl' & ch' & sfl' & Hok' & Hr & _ & Hroots & Hpres).
    destruct (held_list_preserved _ _ _ _ _ _ Hpres Hroots Hl Hh) as [Hl' _]. eauto 10.
Qed.

(** ** Types *)

Lemma type_test_arg c args o t more nm p :
  Z.of_nat (length (cells c)) < INT_MAX -> list_at c args (o :: more) -> type_of o c = Done t c ->
  type_test nm p args c = Done (Boolean (p t)) c.
Proof.
  intros Hh Ha Ht. unfold type_test. eapply (first_arg c Hh); [exact Ha | simpl; lia |]. intros d _.
  by rewrite (bind_eq _ _ _ _ _ Ht).
Qed.

Lemma type_name_inj t t' : type_name t = type_name t' -> type_name t <> "unknown"%string -> t = t'.
Proof. by destruct t, t'. Qed.


(** ** Witnesses *)

(** The arguments of [nth] with the list of 5 and 7 and the index 1. *)
Definition list_context : fe_Context :=
  with_cells
    [MkCell FE_TPAIR false (VObj (Ref 2)) (VObj (Ref 1));
     MkCell FE_TPAIR false (VObj (Fix 1)) (VObj Nil);
     MkCell FE_TPAIR false (VObj (Fix 5)) (VObj (Ref 3));
     MkCell FE_TPAIR false (VObj (Fix 7)) (VObj Nil)]
    (blank_context 4 (MkArena [] FE_SLAB_NULL 0) example_mem (rt_bud example_rt) 4096).

Lemma length_nth_correct_witness :
  builtin_list_length oob_x86 (Ref 0) list_context = Done (Fix 2) list_context /\
  builtin_list_nth oob_x86 (Ref 0) list_context = Done (Fix 7) list_context.
Proof.
  refine (length_nth_correct oob_x86 oob_x86 list_context (Ref 0) (Ref 2) [Fix 5; Fix 7] 1 []
    (conj (Z.le_refl 0) eq_refl) eq_refl _ _ _).
  - repeat (eapply list_at_cons; [by do 2 eexists |]). apply list_at_nil.
  - repeat (eapply list_at_cons; [by do 2 eexists |]). apply list_at_nil.
  - done.
Defined.

(** In a heap of eight objects: the list of 2 and 1, and the argument list
    that holds it. *)
Definition list_and_args : comp fe_Context (obj * obj) :=
  let* l1 := fe_cons (Fix 1) Nil in
  let* l2 := fe_cons (Fix 2) l1 in
  let* args := fe_cons l2 Nil in
  ret (args, l2).
Definition reverse_run (start : outcome fe_Context unit) : outcome fe_Context obj :=
  match start with
  | Done _ c => (let* '(args, _) := list_and_args in builtin_list_reverse args) c
  | _ => Stuck
  end.
Definition ends {S A} (r : outcome S A) : bool := match r with Done _ _ => true | _ => false end.

Lemma list_reverse_correct_witness :
  exists c0 c args l r c', list_and_args c0 = Done (args, l) c /\
    builtin_list_reverse args c = Done r c' /\ list_at c' r [Fix 1; Fix 2].
Proof.
  assert (forall r, r = example_context -> ends (reverse_run r) = true /\
    match r with
    | Done _ c => (timeout_ms (rt_bud (rt c)) <=? 0) &&
        match interrupt_handler (rt_bud (rt c)) with None => Z.of_nat (length (cells c)) =? 8 | _ => false end
    | _ => false
    end = true) as Hrun by (intros r ->; split; by vm_compute).
  destruct example_context_ok as (c0 & E0 & H0). destruct (Hrun _ (eq_sym E0)) as [Hends H]. clear E0 Hrun.
  apply andb_prop in H as [Ht H]. assert (still_quiet c0 /\ Z.of_nat (length (cells c0)) = 8) as [Hq0 Hn0].
  { destruct (interrupt_handler (rt_bud (rt c0))) eqn:Ei; [discriminate H |]. split; [split; [lia | exact Ei] | lia]. }
  clear H.
  exists c0. unfold reverse_run, list_and_args, bind in Hends |- *.
  pose proof (cons_list (Fix 1) Nil [] c0 [] _ _ _ H0 (list_at_nil c0) I) as H1. pose proof (ob_fe_cons (Fix 1) Nil c0) as B1.
  destruct (fe_cons (Fix 1) Nil c0) as [l1 c1 | | |]; [| done..].
  destruct H1 as (fl1 & ch1 & sfl1 & K1 & L1 & R1 & G1 & P1).
  pose proof (cons_list (Fix 2) l1 _ c1 [] _ _ _ K1 L1 R1) as H2. pose proof (ob_fe_cons (Fix 2) l1 c1) as B2.
  destruct (fe_cons (Fix 2) l1 c1) as [l2 c2 | | |]; [| done..].
  destruct H2 as (fl2 & ch2 & sfl2 & K2 & L2 & R2 & G2 & P2).
  pose proof (cons_list l2 Nil [] c2 [] _ _ _ K2 (list_at_nil c2) I) as H3. pose proof (ob_fe_cons l2 Nil c2) as B3.
  destruct (fe_cons l2 Nil c2) as [args c3 | | |]; [| done..].
  destruct H3 as (fl3 & ch3 & sfl3 & K3 & L3 & R3 & G3 & P3).
  destruct (held_list_preserved _ _ _ _ _ _ P3 G3 L2 R2) as [L2' R2'].
  assert (still_quiet c3) as Hq3
    by (unfold still_quiet; by rewrite (B3 _ _ eq_refl), (B2 _ _ eq_refl), (B1 _ _ eq_refl)).
  assert (Z.of_nat (length (cells c3)) < INT_MAX) as Hn3.
  { destruct P1 as [N1 _], P2 as [N2 _], P3 as [N3 _]. rewrite N3, N2, N1, Hn0. done. }
  pose proof (list_reverse_correct c3 args l2 [Fix 2; Fix 1] [] [] fl3 ch3 sfl3 K3 Hq3 Hn3 L3 L2' R2') as H.
  rewrite decide_False in H by done. cbn [ret] in Hends |- *. destruct (builtin_list_reverse args c3) as [r c' | | |] eqn:Er.
  - exists c3, args, l2, r, c'. split_and!; [done | done | apply H].
  - discriminate Hends.
  - done.
  - done.
Defined.

