(* ===== verification/Modules.v ===== *)
(** * Resolving modules (src/fe.c: dup_cstring to fex_reset_import_state,
    path_contains_dotdot to resolve_imported_module_value)

    The file system is a parameter: [file_exists] tells whether a path can
    be opened and [realpath] is the canonical path of an existing one. *)

From Stdlib Require Import ZArith Lia Ascii String.
From stdpp Require Import base list.
From S2P Require Import Prelude Number Memory Budget MapTable Slab SlabSpec Span Host Ctx Gc Objects Writer Builtins.

Definition free (b : block) : comp fe_Context unit := lift_memory (tracked_free (Some b)).
Definition free_str (s : cstr) : comp fe_Context unit := free (snd s).

(** A block of [size] bytes for the text [s]. *)
Definition alloc_text (size : Z) (s : chars) : comp fe_Context (option cstr) :=
  let* b := lift_memory (tracked_alloc size) in
  ret (option_map (fun b => (s, b)) b).
Definition dup_cstring (src : chars) : comp fe_Context (option cstr) :=
  alloc_text (Z.of_nat (length src) + 1) src.

(** ** String arrays *)

Definition grown_capacity (cap needed : Z) : Z := doubled 32 (if 0 <? cap then cap * 2 else 4) needed.

Definition ensure_string_array_capacity (a : StrArray) (needed : Z) : comp fe_Context (option StrArray) :=
  if needed <=? capacity a then ret (Some a)
  else
    let new_capacity := grown_capacity (capacity a) needed in
    let* b := lift_memory (tracked_realloc (arr_block a) (8 * new_capacity)) in
    ret (option_map (fun b => MkArr (items a) new_capacity (Some b)) b).

Definition string_array_push_owned (a : StrArray) (value : cstr) : comp fe_Context (option StrArray) :=
  let* r := ensure_string_array_capacity a (arr_count a + 1) in
  ret (option_map (fun a => MkArr (items a ++ [value]) (capacity a) (arr_block a)) r).

(** [size] bytes are copied and [value] is the text kept of them. *)
Definition push_text (a : StrArray) (size : Z) (value : chars) : comp fe_Context (option StrArray) :=
  let* copy := alloc_text size value in
  match copy with
  | None => ret None
  | Some copy =>
      let* r := string_array_push_owned a copy in
      match r with
      | None => free_str copy ;;; ret None
      | Some a => ret (Some a)
      end
  end.
Definition string_array_push_copy (a : StrArray) (value : chars) : comp fe_Context (option StrArray) :=
  push_text a (Z.of_nat (length value) + 1) value.

Fixpoint free_strs (l : list cstr) : comp fe_Context unit :=
  match l with [] => ret tt | s :: l => free_str s ;;; free_strs l end.
Definition string_array_clear (a : StrArray) : comp fe_Context StrArray :=
  free_strs (items a) ;;;
  lift_memory (tracked_free (arr_block a)) ;;;
  ret empty_array.

Fixpoint contains_loop (l : list cstr) (value : chars) (cd : Z) : comp fe_Context bool :=
  match l with
  | [] => ret false
  | (s, _) :: l =>
      let* cd := lift_budget (poll_io cd) in
      if decide (s = value) then ret true else contains_loop l value cd
  end.
Definition string_array_contains (a : StrArray) (value : chars) : comp fe_Context bool :=
  contains_loop (items a) value FE_IO_ABORT_CHECK_INTERVAL.

Definition string_array_pop (a : StrArray) : comp fe_Context StrArray :=
  match last (items a) with
  | None => ret a
  | Some s => free_str s ;;; ret (MkArr (removelast (items a)) (capacity a) (arr_block a))
  end.

(** ** The fields of the loader *)

Definition get_loader : comp fe_Context Loader := gets (fun c => loader (host c)).
Definition set_loader (f : Loader -> Loader) : comp fe_Context unit :=
  modify (fun c => with_host (with_loader (f (loader (host c))) (host c)) c).

Definition ensure_object_array_capacity (b : option block) (cap needed : Z)
    : comp fe_Context (option (Z * option block)) :=
  if (needed <=? cap) && bool_decide (b <> None) then ret (Some (cap, b))
  else
    let new_capacity := if bool_decide (b = None) && (needed <=? cap) then cap else grown_capacity cap needed in
    let* r := lift_memory (tracked_realloc b (8 * new_capacity)) in
    ret (option_map (fun r => (new_capacity, Some r)) r).

Fixpoint find_index_loop (l : list cstr) (path : chars) (i : nat) (cd : Z) : comp fe_Context (option nat) :=
  match l with
  | [] => ret None
  | (s, _) :: l =>
      let* cd := lift_budget (poll_io cd) in
      if decide (s = path) then ret (Some i) else find_index_loop l path (S i) cd
  end.
Definition module_cache_find_index (path : chars) : comp fe_Context (option nat) :=
  let* l := get_loader in
  find_index_loop (items (loaded_modules l)) path 0 FE_IO_ABORT_CHECK_INTERVAL.

Definition module_cache_get (path : chars) : comp fe_Context obj :=
  let* index := module_cache_find_index path in
  match index with
  | None => ret Nil
  | Some i =>
      let* values := gets loaded_module_values in
      match values !! i with Some v => ret v | None => stuck end
  end.

Definition module_cache_push_owned (path : cstr) (value : obj) : comp fe_Context bool :=
  let* l := get_loader in
  let needed := arr_count (loaded_modules l) + 1 in
  let* r := ensure_string_array_capacity (loaded_modules l) needed in
  match r with
  | None => ret false
  | Some a =>
      set_loader (with_loaded_modules a) ;;;
      let* r := ensure_object_array_capacity (loaded_value_block l) (loaded_value_capacity l) needed in
      match r with
      | None => ret false
      | Some (cap, b) =>
          set_loader (fun l => with_loaded_values cap b
            (with_loaded_modules (MkArr (items a ++ [path]) (capacity a) (arr_block a)) l)) ;;;
          modify (fun c => with_loaded_module_values (loaded_module_values c ++ [value]) c) ;;;
          ret true
      end
  end.

Definition module_cache_clear : comp fe_Context unit :=
  let* l := get_loader in
  let* a := string_array_clear (loaded_modules l) in
  set_loader (with_loaded_modules a) ;;;
  modify (with_loaded_module_values []) ;;;
  lift_memory (tracked_free (loaded_value_block l)) ;;;
  set_loader (with_loaded_values 0 None).

(** ** Paths *)

Definition is_path_separator (ch : ascii) : bool := bool_decide (ch = "/"%char) || bool_decide (ch = ascii_of_nat 92).

Fixpoint normalize_loop (path : chars) (cd : Z) : comp fe_Context chars :=
  match path with
  | [] => ret []
  | ch :: path =>
      let* cd := lift_budget (poll_io cd) in
      let* path := normalize_loop path cd in
      ret ((if is_path_separator ch then "/"%char else ch) :: path)
  end.
Definition normalize_path_chars (path : chars) : comp fe_Context chars := normalize_loop path FE_IO_ABORT_CHECK_INTERVAL.

(** The text of an owned string rewritten in place. *)
Definition normalized (s : cstr) : comp fe_Context cstr :=
  let* t := normalize_path_chars (fst s) in ret (t, snd s).
Definition dup_normalized_path (path : chars) : comp fe_Context (option cstr) :=
  let* copy := dup_cstring path in
  match copy with None => ret None | Some copy => let* copy := normalized copy in ret (Some copy) end.

Fixpoint last_sep_loop (path : chars) (i : nat) (found : option nat) (cd : Z) : comp fe_Context (option nat) :=
  match path with
  | [] => ret found
  | ch :: path =>
      let* cd := lift_budget (poll_io cd) in
      last_sep_loop path (S i) (if is_path_separator ch then Some i else found) cd
  end.
Definition path_dirname_copy (path : chars) : comp fe_Context (option cstr) :=
  match path with
  | [] => dup_cstring (str ".")
  | _ =>
      let* last_sep := last_sep_loop path 0 None FE_IO_ABORT_CHECK_INTERVAL in
      match last_sep with
      | None => dup_cstring (str ".")
      | Some n =>
          let len := if decide (n = O) then 1%nat else n in
          alloc_text (Z.of_nat len + 1) (take len path)
      end
  end.

(** The path of [name] under [base]. *)
Definition joined_path (base name suffix : chars) : chars :=
  base ++ (match last base with Some ch => if is_path_separator ch then [] else str "/" | None => [] end) ++ name ++ suffix.
Definition join_path_suffix (base name suffix : chars) : comp fe_Context (option cstr) :=
  dup_cstring (joined_path base name suffix).
Definition join_module_file_path (base name : chars) : comp fe_Context (option cstr) :=
  join_path_suffix base name (str ".fex").
Definition join_module_index_path (base name : chars) : comp fe_Context (option cstr) :=
  join_path_suffix base name (str "/index.fex").

(** ** Module specifiers *)

Definition module_spec_uses_path_mode (spec : chars) : bool := existsb is_path_separator spec.
Definition module_spec_is_relative (spec : chars) : bool :=
  match spec with ch :: _ => bool_decide (ch = "."%char) | [] => false end.

(** Dots become slashes; an abort releases the copy first. *)
Fixpoint dots_loop (copy : block) (p : chars) (cd : Z) : comp fe_Context chars :=
  match p with
  | [] => ret []
  | ch :: p =>
      let* '(abort_msg, cd) := lift_budget (poll_io_abort cd) in
      match abort_msg with
      | Some msg => free copy ;;; fe_error msg
      | None =>
          let* p := dots_loop copy p cd in
          ret ((if decide (ch = "."%char) then "/"%char else ch) :: p)
      end
  end.
Definition module_spec_to_lookup_name (spec : chars) : comp fe_Context (option cstr) :=
  let* copy := dup_cstring spec in
  match copy with
  | None => ret None
  | Some copy =>
      if module_spec_uses_path_mode spec then let* copy := normalized copy in ret (Some copy)
      else let* t := dots_loop (snd copy) (fst copy) FE_IO_ABORT_CHECK_INTERVAL in ret (Some (t, snd copy))
  end.

(** A segment that names a directory is not kept in path mode. *)
Definition skipped_segment (path_mode : bool) (segment : chars) : bool :=
  path_mode && (bool_decide (segment = str ".") || bool_decide (segment = str "..")).

(** The end of a segment: its first [len] characters of [start]. *)
Definition end_segment (path_mode : bool) (start : chars) (len : nat) (a : StrArray) : comp fe_Context (option StrArray) :=
  let segment := take len start in
  if (0 <? len)%nat && negb (skipped_segment path_mode segment) then
    let* r := push_text a (Z.of_nat (length start) + 1) segment in
    match r with
    | None => string_array_clear a ;;; ret None
    | Some a => ret (Some a)
    end
  else ret (Some a).

Definition is_segment_sep (path_mode : bool) (ch : ascii) : bool :=
  if path_mode then is_path_separator ch else bool_decide (ch = "."%char).

(** [p] is what is left, [start] the text from the current segment on and
    [len] the length of the segment so far. *)
Fixpoint segments_loop (path_mode : bool) (p start : chars) (len : nat) (a : StrArray) (cd : Z)
    : comp fe_Context (option StrArray) :=
  match p with
  | [] => end_segment path_mode start len a
  | ch :: p =>
      let* '(abort_msg, cd) := lift_budget (poll_io_abort cd) in
      match abort_msg with
      | Some msg => string_array_clear a ;;; fe_error msg
      | None =>
          if is_segment_sep path_mode ch then
            let* r := end_segment path_mode start len a in
            match r with
            | None => ret None
            | Some a => segments_loop path_mode p p 0 a cd
            end
          else segments_loop path_mode p start (S len) a cd
      end
  end.
Definition split_module_spec_segments (spec : chars) : comp fe_Context (option StrArray) :=
  match spec with
  | [] => ret (Some empty_array)
  | _ => segments_loop (module_spec_uses_path_mode spec) spec spec 0 empty_array FE_IO_ABORT_CHECK_INTERVAL
  end.

Fixpoint joined_segments (segments : list chars) (sep : ascii) : chars :=
  match segments with
  | [] => []
  | [s] => s
  | s :: segments => s ++ [sep] ++ joined_segments segments sep
  end.
Definition join_module_segments (segments : list chars) (sep : ascii) : comp fe_Context (option cstr) :=
  dup_cstring (joined_segments segments sep).

(** [".."] as a whole component.  [at_start]: the previous character is a
    separator, or there is none. *)
Fixpoint dotdot_loop (at_start : bool) (path : chars) : bool :=
  match path with
  | [] => false
  | ch :: rest =>
      (at_start && bool_decide (ch = "."%char) &&
       match rest with
       | ch2 :: rest2 => bool_decide (ch2 = "."%char) && match rest2 with [] => true | ch3 :: _ => is_path_separator ch3 end
       | [] => false
       end) || dotdot_loop (is_path_separator ch) rest
  end.
Definition path_contains_dotdot (path : chars) : bool := dotdot_loop true path.

(** ** Module objects *)

Definition is_map (o : obj) : comp fe_Context bool :=
  let* t := type_of o in ret (bool_decide (t = FE_TMAP)).

Definition lookup_global_module (name : chars) : comp fe_Context obj :=
  match name with
  | [] => ret Nil
  | _ =>
      let* sym := fe_symbol name in
      let* bound := getbound sym Nil in
      let* value := cdr_of bound in
      let* b := is_map value in
      ret (if b : bool then value else Nil)
  end.

(** The maps of the segments after the first. *)
Fixpoint chain_loop (current : obj) (segments : list chars) : comp fe_Context obj :=
  match segments with
  | [] => ret current
  | s :: segments =>
      let* sym := fe_symbol s in
      let* current := map_get current sym in
      let* b := is_map current in
      if b : bool then chain_loop current segments else ret Nil
  end.
Definition lookup_module_chain (segments : list chars) : comp fe_Context obj :=
  match segments with
  | [] => ret Nil
  | s :: segments =>
      let* current := lookup_global_module s in
      let* b := is_map current in
      if b : bool then chain_loop current segments else ret Nil
  end.

(** A message built by snprintf in a buffer of [size] bytes. *)
Definition message (size : nat) (s : chars) : string := string_of_list_ascii (take (size - 1) s).

Fixpoint package_loop (current : obj) (segments : list chars) : comp fe_Context obj :=
  match segments with
  | [] => ret current
  | s :: segments =>
      let* segment_sym := fe_symbol s in
      let* next := map_get current segment_sym in
      let* next :=
        (if isnil next then
           let* next := fe_map in
           map_set current segment_sym next ;;;
           ret next
         else
           let* b := is_map next in
           if b : bool then ret next
           else fe_error (message 256 (str "package segment '" ++ s ++ str "' is not a module/map"))) in
      package_loop next segments
  end.
Definition ensure_package_chain (segments : list chars) : comp fe_Context obj :=
  match segments with
  | [] => ret NULL
  | s :: segments =>
      let* current := lookup_global_module s in
      let* b := is_map current in
      let* current :=
        (if b : bool then ret current
         else
           let* current := fe_map in
           let* sym := fe_symbol s in
           fe_set sym current ;;;
           ret current) in
      package_loop current segments
  end.

Definition bind_imported_module (spec : chars) (segments : list chars) (is_relative : bool) (module_obj : obj)
    : comp fe_Context unit :=
  match last segments with
  | None => ret tt
  | Some name =>
      let* b := is_map module_obj in
      if negb b then ret tt
      else if negb is_relative && (1 <? length segments)%nat then
        let* parent := ensure_package_chain (removelast segments) in
        let* sym := fe_symbol name in
        map_set parent sym module_obj
      else
        (let* sym := fe_symbol name in fe_set sym module_obj) ;;;
        if negb (bool_decide (spec = name)) && negb (module_spec_uses_path_mode spec)
           && negb (bool_decide ("."%char ∈ spec))
        then let* sym := fe_symbol spec in fe_set sym module_obj
        else ret tt
  end.

Definition resolve_imported_module_value (module_spec : chars) (segments : list chars) (eval_result : obj)
    : comp fe_Context obj :=
  let* b := (if decide (eval_result = NULL) then ret false else is_map eval_result) in
  if b : bool then ret eval_result
  else
    let* m := lookup_module_chain segments in
    let* b := is_map m in
    if b : bool then ret m
    else
      let* m := (match last segments with None => ret Nil | Some s => lookup_global_module s end) in
      let* b := is_map m in
      if b : bool then ret m
      else
        let* m := lookup_global_module module_spec in
        let* b := is_map m in
        ret (if b : bool then m else Nil).

(** ** Specifiers from objects *)

(** The object is a string or a symbol; [fe_strlen] of a symbol reads the
    fields of a string and has no meaning. *)
Definition import_spec_to_cstring (spec_obj : obj) : comp fe_Context cstr :=
  let* t := type_of spec_obj in
  (if bool_decide (t = FE_TSTRING) || bool_decide (t = FE_TSYMBOL) then ret tt
   else checktype spec_obj FE_TSTRING ;;; ret tt) ;;;
  let* len := fe_strlen spec_obj in
  let* b := lift_memory (tracked_alloc (len + 1)) in
  match b with
  | None => lift_memory (memory_error "out of memory (module spec)")
  | Some b =>
      let* nul := (if decide (t = FE_TSTRING) then string_contains_nul spec_obj else ret false) in
      if nul : bool then free b ;;; fe_error "import: strings containing NUL bytes are not allowed"
      else
        let* text := text_of spec_obj (i32 (i32 len + 1)) in
        if bool_decide (zero ∈ text)
        then free b ;;; fe_error "import: strings containing NUL bytes are not allowed"
        else if path_contains_dotdot text
        then free b ;;; fe_error "import: '..' path components are not allowed in import specifiers"
        else ret (text, b)
  end.

(** ** Searching *)

Fixpoint search_lines (l : list chars) : chars :=
  match l with [] => [] | s :: l => str "  - " ++ s ++ [ascii_of_nat 10] ++ search_lines l end.
Definition format_search_paths (l : list chars) : comp fe_Context (option cstr) := dup_cstring (search_lines l).

(** The message in a buffer of [size] bytes. *)
Definition append_module_search_error (size : nat) (module_spec : chars) (searched_paths : option chars) : chars :=
  let m := take (size - 1) (str "could not resolve module '" ++ module_spec ++ str "'") in
  match searched_paths with
  | None | Some [] => m
  | Some paths => take (size - 1) (m ++ [ascii_of_nat 10] ++ str "searched:" ++ [ascii_of_nat 10] ++ paths)
  end.

Section Files.
Context (file_exists : chars -> bool) (realpath : chars -> option chars).

Definition normalize_existing_path (path : chars) : comp fe_Context (option cstr) :=
  match realpath path with
  | None => ret None
  | Some resolved =>
      let* copy := dup_cstring resolved in
      match copy with None => ret None | Some copy => let* copy := normalized copy in ret (Some copy) end
  end.

(** What a search step answers: -1, 0 or 1 with the path. *)
Inductive found := Failed | Missing | Found (path : cstr).

(** [searched] is the list of candidates tried, when the caller wants it. *)
Definition try_resolve_module_candidate (candidate : chars) (searched : option StrArray)
    : comp fe_Context (found * option StrArray) :=
  let* r :=
    (match searched with
     | None => ret (Some None)
     | Some a => let* r := string_array_push_copy a candidate in ret (option_map Some r)
     end) in
  match r with
  | None => ret (Failed, searched)
  | Some searched =>
      if negb (file_exists candidate) then ret (Missing, searched)
      else
        let* n := normalize_existing_path candidate in
        match n with
        | Some p => ret (Found p, searched)
        | None =>
            let* failed := gets (fun c => alloc_failure_active (rt_mem (rt c))) in
            if failed : bool then ret (Failed, searched)
            else
              let* n := dup_normalized_path candidate in
              ret (match n with Some p => Found p | None => Failed end, searched)
        end
  end.

Definition try_candidate (candidate : comp fe_Context (option cstr)) (searched : option StrArray)
    : comp fe_Context (found * option StrArray) :=
  let* candidate := candidate in
  match candidate with
  | None => ret (Failed, searched)
  | Some candidate =>
      let* r := try_resolve_module_candidate (fst candidate) searched in
      free_str candidate ;;;
      ret r
  end.
Definition try_resolve_module_under_base (base module_name : chars) (searched : option StrArray)
    : comp fe_Context (found * option StrArray) :=
  let* '(status, searched) := try_candidate (join_module_file_path base module_name) searched in
  match status with
  | Missing => try_candidate (join_module_index_path base module_name) searched
  | _ => ret (status, searched)
  end.

(** The import paths in order; an abort is raised as it is. *)
Fixpoint import_paths_loop (paths : list cstr) (module_name : chars) (searched : option StrArray) (cd : Z)
    : comp fe_Context (found * option StrArray) :=
  match paths with
  | [] => ret (Missing, searched)
  | (p, _) :: paths =>
      let* cd := lift_budget (poll_io cd) in
      let* '(status, searched) := try_resolve_module_under_base p module_name searched in
      match status with
      | Missing => import_paths_loop paths module_name searched cd
      | _ => ret (status, searched)
      end
  end.

(** The directory of the running file, the import paths, the working
    directory. *)
Definition resolve_module_file (module_name : chars) (want_searched : bool)
    : comp fe_Context (option cstr * option cstr) :=
  let* l := get_loader in
  let searched := if want_searched then Some empty_array else None in
  let* '(status, searched) :=
    (match last (items (source_dirs l)) with
     | Some (d, _) => try_resolve_module_under_base d module_name searched
     | None => ret (Missing, searched)
     end) in
  let* '(status, searched) :=
    (match status with
     | Missing => import_paths_loop (items (import_paths l)) module_name searched FE_IO_ABORT_CHECK_INTERVAL
     | _ => ret (status, searched)
     end) in
  let* '(status, searched) :=
    (match status with
     | Missing => try_resolve_module_under_base (str ".") module_name searched
     | _ => ret (status, searched)
     end) in
  let a := default empty_array searched in
  match status with
  | Found p => string_array_clear a ;;; ret (Some p, None)
  | _ =>
      let* paths := (if want_searched then format_search_paths (map fst (items a)) else ret None) in
      string_array_clear a ;;;
      ret (None, paths)
  end.

(** *** The stacks of the loader *)

Definition push_source_dir_from_file (path : chars) : comp fe_Context bool :=
  let* normalized_path := normalize_existing_path path in
  let* dir := path_dirname_copy (match normalized_path with Some p => fst p | None => path end) in
  lift_memory (tracked_free (option_map snd normalized_path)) ;;;
  match dir with
  | None => ret false
  | Some dir =>
      let* l := get_loader in
      let* r := string_array_push_owned (source_dirs l) dir in
      match r with
      | None => free_str dir ;;; ret false
      | Some a => set_loader (with_source_dirs a) ;;; ret true
      end
  end.

Definition fex_add_import_path (path : chars) : comp fe_Context bool :=
  match path with
  | [] => ret false
  | _ =>
      let* n := normalize_existing_path path in
      let* n := (match n with Some n => ret (Some n) | None => dup_normalized_path path end) in
      match n with
      | None => ret false
      | Some n =>
          let* l := get_loader in
          let* r := string_array_push_owned (import_paths l) n in
          match r with
          | None => free_str n ;;; ret false
          | Some a => set_loader (with_import_paths a) ;;; ret true
          end
      end
  end.
End Files.

Definition pop_source_dir : comp fe_Context unit :=
  let* l := get_loader in
  let* a := string_array_pop (source_dirs l) in
  set_loader (with_source_dirs a).
Definition pop_source_buffer : comp fe_Context unit :=
  let* l := get_loader in
  let* a := string_array_pop (source_buffers l) in
  set_loader (with_source_buffers a).
Definition pop_loading_module : comp fe_Context unit :=
  let* l := get_loader in
  let* a := string_array_pop (loading_modules l) in
  set_loader (with_loading_modules a).

Definition fex_clear_import_paths : comp fe_Context unit :=
  let* l := get_loader in
  let* a := string_array_clear (import_paths l) in
  set_loader (with_import_paths a).

(** [n] times. *)
Fixpoint repeated (n : nat) (m : comp fe_Context unit) : comp fe_Context unit :=
  match n with O => ret tt | S n => m ;;; repeated n m end.
Definition fex_reset_import_state : comp fe_Context unit :=
  let* l := get_loader in
  repeated (length (items (source_buffers l))) pop_source_buffer ;;;
  repeated (length (items (source_dirs l))) pop_source_dir ;;;
  repeated (length (items (loading_modules l))) pop_loading_module ;;;
  modify (with_modulestack Nil).
