(* ===== verification/ModulesSpec.v ===== *)
(** * Module resolution stays below its base directories *)

From Stdlib Require Import ZArith Lia Ascii String.
From stdpp Require Import base list sets.
From S2P Require Import Prelude Number Memory Budget MapTable MapSpec Slab SlabSpec Span Host Ctx Gc GcProps Objects Writer Builtins Modules.

(** ** Components *)

(** The component a path starts with, and the following ones. *)
Fixpoint split_path (path : chars) : chars * list chars :=
  match path with
  | [] => ([], [])
  | ch :: path =>
      let '(h, t) := split_path path in
      if is_path_separator ch then ([], h :: t) else (ch :: h, t)
  end.
Definition components (path : chars) : list chars := fst (split_path path) :: snd (split_path path).

Definition dotdot : chars := str "..".

Lemma sep_not_dot ch : is_path_separator ch = true -> ch <> "."%char.
Proof. by intros H ->. Qed.

(** The first component is empty exactly at the end or before a separator. *)
Lemma first_empty path : fst (split_path path) = [] <->
  match path with [] => True | ch :: _ => is_path_separator ch = true end.
Proof.
  destruct path as [| ch path]; [done |]. cbn [split_path]. destruct (split_path path) as [h t].
  by destruct (is_path_separator ch).
Qed.

Lemma dotdot_head ch path :
  (bool_decide (ch = "."%char) &&
   match path with
   | ch2 :: rest2 => bool_decide (ch2 = "."%char) && match rest2 with [] => true | ch3 :: _ => is_path_separator ch3 end
   | [] => false
   end) = true <-> ch :: fst (split_path path) = dotdot.
Proof.
  rewrite andb_true_iff, bool_decide_eq_true. destruct path as [| ch2 rest]; [simpl; naive_solver |].
  rewrite andb_true_iff, bool_decide_eq_true. pose proof (first_empty rest) as Hf. cbn [split_path].
  destruct (split_path rest) as [h t]. cbn [fst] in *. destruct (is_path_separator ch2) eqn:E2.
  - split; [intros (_ & -> & _); done | done].
  - cbn [fst]. unfold dotdot, str. simpl. split.
    + intros (-> & -> & Hr). do 2 f_equal. apply Hf. by destruct rest.
    + intros [= -> -> ->]. split; [done |]. split; [done |]. destruct rest; [done | by apply Hf].
Qed.

Lemma dotdot_loop_components path :
  (dotdot_loop true path = true <-> dotdot ∈ components path) /\
  (dotdot_loop false path = true <-> dotdot ∈ snd (split_path path)).
Proof.
  induction path as [| ch path [IHt IHf]].
  { split; simpl; [| by rewrite elem_of_nil]. unfold components. simpl. rewrite list_elem_of_singleton. done. }
  unfold components in *. cbn [dotdot_loop split_path]. pose proof (dotdot_head ch path) as Hh.
  destruct (split_path path) as [h t]. cbn [fst snd] in *. destruct (is_path_separator ch) eqn:Es; cbn [fst snd].
  - rewrite (bool_decide_false (ch = "."%char)) by (by apply sep_not_dot). rewrite andb_false_r. cbn [andb orb].
    rewrite IHt, !elem_of_cons. unfold dotdot. naive_solver.
  - rewrite !orb_true_iff, IHf, elem_of_cons. rewrite andb_true_l. cbn [andb]. rewrite Hh. naive_solver.
Qed.

(** path_contains_dotdot finds exactly the paths with a component [".."]. *)
Lemma contains_dotdot_iff path : path_contains_dotdot path = true <-> dotdot ∈ components path.
Proof. apply dotdot_loop_components. Qed.

(** ** Lookup names *)

Definition slashed (ch : ascii) : ascii := if is_path_separator ch then "/"%char else ch.

Lemma normalize_loop_map path : forall cd c t c', normalize_loop path cd c = Done t c' -> t = map slashed path.
Proof.
  induction path as [| ch path IH]; intros cd c t c' H; cbn [normalize_loop] in H; inv_done; [done |].
  cbn [map]. unfold slashed at 1. f_equal. by eapply IH.
Qed.
Lemma dots_loop_map b path : forall cd c t c', dots_loop b path cd c = Done t c' ->
  t = map (fun ch => if decide (ch = "."%char) then "/"%char else ch) path.
Proof.
  induction path as [| ch path IH]; intros cd c t c' H; cbn [dots_loop] in H; inv_done; [done |].
  destruct v as [[msg |] cd1]; inv_done; [done |]. cbn [map]. f_equal. by eapply IH.
Qed.
Lemma alloc_text_some size s c t b c' : alloc_text size s c = Done (Some (t, b)) c' -> t = s.
Proof. unfold alloc_text. intros H. inv_done. destruct v; simpl in *; naive_solver. Qed.

Lemma split_slashed path : split_path (map slashed path) = split_path path.
Proof.
  induction path as [| ch path IH]; [done |]. cbn [map split_path]. rewrite IH. destruct (split_path path) as [h t].
  unfold slashed. destruct (is_path_separator ch) eqn:E; [done | by rewrite E].
Qed.

(** Without separators and dots there is no component of dots. *)
Lemma no_dots_no_dotdot path : Forall (fun ch => ch <> "."%char) path -> dotdot ∉ components path.
Proof.
  intros H. assert (Forall (Forall (fun ch => ch <> "."%char)) (components path)) as Hc.
  { unfold components. induction H as [| ch path Hc _ IH]; [by repeat constructor |]. cbn [split_path].
    destruct (split_path path) as [h t]. cbn [fst snd] in *. inversion IH; subst.
    destruct (is_path_separator ch); cbn [fst snd]; by repeat constructor. }
  intros Hin. rewrite Forall_forall in Hc. specialize (Hc _ Hin). by inversion Hc.
Qed.

Lemma lookup_name_safe spec c name b c' : path_contains_dotdot spec = false ->
  module_spec_to_lookup_name spec c = Done (Some (name, b)) c' -> dotdot ∉ components name.
Proof.
  intros Hd H. unfold module_spec_to_lookup_name in H. inv_done. destruct v as [[t b0] |]; inv_done.
  apply alloc_text_some in Hm as ->. destruct (module_spec_uses_path_mode spec) eqn:Em; inv_done; simplify_eq/=.
  - unfold normalized in *. inv_done. simplify_eq/=.
    match goal with H : normalize_path_chars _ _ = Done _ _ |- _ => apply normalize_loop_map in H; subst end.
    unfold components. rewrite split_slashed. fold (components spec). rewrite <- contains_dotdot_iff. by rewrite Hd.
  - match goal with H : dots_loop _ _ _ _ = Done _ _ |- _ => apply dots_loop_map in H; subst end. apply no_dots_no_dotdot, Forall_forall. intros ch Hch ->.
    apply list_elem_of_fmap in Hch as (x & E & _). by case_decide.
Qed.

(** ** Candidates *)

Lemma split_path_app a suf : existsb is_path_separator suf = false ->
  split_path (a ++ suf)
  = if existsb is_path_separator a
    then (fst (split_path a), let t := snd (split_path a) in removelast t ++ [default [] (last t) ++ suf])
    else (a ++ suf, []).
Proof.
  intros Hs. induction a as [| ch a IH].
  { simpl. clear -Hs. induction suf as [| ch suf IH]; [done |]. simpl in Hs |- *.
    apply orb_false_iff in Hs as [Hc Hs]. rewrite IH by done. by rewrite Hc. }
  cbn [app split_path existsb]. rewrite IH. destruct (existsb is_path_separator a) eqn:Ea.
  - destruct (split_path a) as [h t] eqn:Es. cbn [fst snd]. rewrite orb_true_r.
    destruct (is_path_separator ch); cbn [fst snd]; [| done].
    assert (t <> []) as Ht.
    { clear -Ea Es. revert h t Es. induction a as [| x a IH]; intros h t Es; [done |]. cbn [split_path existsb] in *.
      destruct (split_path a) as [h' t']. destruct (is_path_separator x); simplify_eq; [done |]. by eapply IH. }
    by destruct t.
  - assert (split_path a = (a, [])) as Es.
    { clear -Ea. induction a as [| x a IH]; [done |]. simpl in Ea |- *. apply orb_false_iff in Ea as [Hx Ha].
      rewrite IH by done. by rewrite Hx. }
    rewrite Es. destruct (is_path_separator ch); done.
Qed.

(** A long suffix without separators makes no component [".."]. *)
Lemma suffix_safe name suf : existsb is_path_separator suf = false -> (2 < length suf)%nat ->
  dotdot ∉ components name -> dotdot ∉ components (name ++ suf).
Proof.
  intros Hs Hl Hn. assert (forall t : chars, t ++ suf <> dotdot) as Hne.
  { intros t E%(f_equal length). rewrite length_app in E. simpl in E. lia. }
  unfold components in *. rewrite split_path_app by done. destruct (existsb is_path_separator name); cbn [fst snd].
  - rewrite elem_of_cons, elem_of_app, list_elem_of_singleton. rewrite elem_of_cons in Hn.
    intros [E | [Hin | E]]; [by apply Hn; left | | by eapply Hne].
    apply Hn. right. set (t := snd (split_path name)) in *. clearbody t. clear -Hin.
    destruct t as [| x t] using rev_ind; [done |]. rewrite removelast_last in Hin. apply elem_of_app. by left.
  - rewrite list_elem_of_singleton. by apply not_eq_sym.
Qed.

(** The suffixes resolution tries. *)
Definition module_suffixes : list chars := [str ".fex"; str "/index.fex"].

Lemma components_sep a b : components (a ++ "/"%char :: b) = components a ++ components b.
Proof.
  unfold components. induction a as [| ch a IH]; cbn [app split_path].
  - by destruct (split_path b).
  - destruct (split_path (a ++ "/"%char :: b)) as [h t], (split_path a) as [h' t']. cbn [fst snd app] in *.
    injection IH as -> ->. by destruct (is_path_separator ch).
Qed.
Lemma module_suffix_safe name suf : suf ∈ module_suffixes -> dotdot ∉ components name -> dotdot ∉ components (name ++ suf).
Proof.
  intros Hs Hn. unfold module_suffixes in Hs. rewrite !elem_of_cons, elem_of_nil in Hs. destruct_or! Hs; subst.
  - apply suffix_safe; [done | simpl; lia | done].
  - change (str "/index.fex") with ("/"%char :: str "index.fex"). rewrite components_sep.
    rewrite elem_of_app. intros [? | H]; [done |]. 
    assert (components (str "index.fex") = [str "index.fex"]) as E by done.
    rewrite E, list_elem_of_singleton in H. done.
Qed.

(** ** The search *)

Section Search.
Context (file_exists : chars -> bool) (realpath : chars -> option chars).

(** [p] was found as [name] under one of the [bases]. *)
Definition found_below (bases : list chars) (name p : chars) : Prop :=
  exists base suf, base ∈ bases /\ suf ∈ module_suffixes /\
    let candidate := joined_path base name suf in
    file_exists candidate = true /\
    (p = map slashed candidate \/ exists r, realpath candidate = Some r /\ p = map slashed r).

Lemma normalized_text s c r c' : normalized s c = Done r c' -> fst r = map slashed (fst s).
Proof.
  unfold normalized. intros H. inv_done. simpl.
  match goal with H : normalize_path_chars _ _ = Done _ _ |- _ => by apply normalize_loop_map in H end.
Qed.
Lemma dup_normalized_text path c p b c' : dup_normalized_path path c = Done (Some (p, b)) c' -> p = map slashed path.
Proof.
  unfold dup_normalized_path. intros H. inv_done. destruct v as [[t b0] |]; inv_done.
  match goal with H : normalized _ _ = Done ?r _ |- _ => apply normalized_text in H; simpl in H end.
  match goal with H : dup_cstring _ _ = Done _ _ |- _ => apply alloc_text_some in H; subst end. by simplify_eq/=.
Qed.
Lemma existing_text path c p b c' : normalize_existing_path realpath path c = Done (Some (p, b)) c' ->
  exists r, realpath path = Some r /\ p = map slashed r.
Proof.
  unfold normalize_existing_path. destruct (realpath path) as [r |] eqn:E; intros H; [| by inv_done].
  exists r. split; [done |]. by eapply dup_normalized_text.
Qed.

Lemma candidate_found candidate searched c p b s' c' :
  try_resolve_module_candidate file_exists realpath candidate searched c = Done (Found (p, b), s') c' ->
  file_exists candidate = true /\
  (p = map slashed candidate \/ exists r, realpath candidate = Some r /\ p = map slashed r).
Proof.
  unfold try_resolve_module_candidate. intros H. inv_done. destruct v as [searched1 |]; inv_done.
  destruct (file_exists candidate); cbn [negb] in *; inv_done. split; [done |].
  match goal with H : context [match ?v with _ => _ end] |- _ => destruct v as [[p1 b1] |] end; inv_done.
  - right. eapply existing_text. done.
  - match goal with H : context [if ?v then _ else _] |- _ => destruct v end; inv_done.
    match goal with H : dup_normalized_path _ _ = Done ?v _ |- _ => destruct v as [[p1 b1] |] end; simplify_eq.
    left. by eapply dup_normalized_text.
Qed.

Lemma join_found base name suf searched c p b s' c' :
  try_candidate file_exists realpath (join_path_suffix base name suf) searched c = Done (Found (p, b), s') c' ->
  file_exists (joined_path base name suf) = true /\
  (p = map slashed (joined_path base name suf) \/
   exists r, realpath (joined_path base name suf) = Some r /\ p = map slashed r).
Proof.
  unfold try_candidate. intros H. inv_done. destruct v as [[t b0] |]; inv_done.
  match goal with H : join_path_suffix _ _ _ _ = Done _ _ |- _ => apply alloc_text_some in H; subst end.
  by eapply candidate_found.
Qed.

Lemma base_found base name searched c p b s' c' :
  try_resolve_module_under_base file_exists realpath base name searched c = Done (Found (p, b), s') c' ->
  found_below [base] name p.
Proof.
  unfold try_resolve_module_under_base. intros H. inv_done. destruct v as [status searched1].
  assert (forall suf c1 s1 s2 c2, suf ∈ module_suffixes ->
    try_candidate file_exists realpath (join_path_suffix base name suf) s1 c1 = Done (Found (p, b), s2) c2 ->
    found_below [base] name p) as Hsuf.
  { intros suf c1 s1 s2 c2 Hin Hc. apply join_found in Hc as (He & Hp). exists base, suf. split; [by left | done]. }
  destruct status; inv_done.
  - eapply (Hsuf (str "/index.fex")); [right; left | done].
  - eapply (Hsuf (str ".fex")); [left | done].
Qed.
Lemma found_below_mono bases bases' name p : bases ⊆ bases' -> found_below bases name p -> found_below bases' name p.
Proof. intros Hs (base & suf & Hb & H). exists base, suf. split; [by apply Hs | done]. Qed.

Lemma paths_found paths name : forall searched cd c p b s' c',
  import_paths_loop file_exists realpath paths name searched cd c = Done (Found (p, b), s') c' ->
  found_below (map fst paths) name p.
Proof.
  induction paths as [| [q bq] paths IH]; intros searched cd c p b s' c' H; cbn [import_paths_loop] in H; inv_done.
  match goal with H : try_resolve_module_under_base _ _ _ _ _ _ = Done ?v _ |- _ => destruct v as [status s1] end.
  destruct status; inv_done.
  - eapply found_below_mono; [| by eapply IH]. intros x Hx. by right.
  - eapply found_below_mono; [| by eapply base_found]. intros x Hx%list_elem_of_singleton. subst. by left.
Qed.

(** The directories a module is looked up in. *)
Definition search_bases (l : Loader) : list chars :=
  (match last (items (source_dirs l)) with Some (d, _) => [d] | None => [] end)
  ++ map fst (items (import_paths l)) ++ [str "."].

Lemma resolve_found name want c p b sp c' :
  resolve_module_file file_exists realpath name want c = Done (Some (p, b), sp) c' ->
  found_below (search_bases (loader (host c))) name p.
Proof.
  unfold resolve_module_file, get_loader. intros H. unfold bind at 1, gets in H. set (l := loader (host c)) in *.
  apply bind_done in H as ([st1 q1] & c1 & H1 & H).
  apply bind_done in H as ([st2 q2] & c2 & H2 & H). apply bind_done in H as ([st3 q3] & c3 & H3 & H).
  assert (st3 = Found (p, b)) as -> by (destruct st3 as [| | [p3 b3]]; inv_done; by simplify_eq).
  clear H. unfold search_bases. destruct st2 as [| | [p2 b2]]; [by inv_done | |].
  { eapply found_below_mono; [| by eapply base_found]. intros x Hx. rewrite !elem_of_app. by right; right. }
  inv_done. simplify_eq. destruct st1 as [| | [p1 b1]]; [by inv_done | |].
  { eapply found_below_mono; [| by eapply paths_found]. intros x Hx. rewrite !elem_of_app. by right; left. }
  inv_done. simplify_eq. destruct (last (items (source_dirs l))) as [[d bd] |]; [| by inv_done].
  eapply found_below_mono; [| by eapply base_found]. intros x Hx. rewrite !elem_of_app. by left.
Qed.
End Search.

(** What import reads before it looks for a file: the object it is given has
    no component [".."] in its text. *)
Lemma spec_text_safe o c spec b c' : import_spec_to_cstring o c = Done (spec, b) c' -> path_contains_dotdot spec = false.
Proof.
  unfold import_spec_to_cstring. intros H. inv_done.
  repeat match goal with
    | H : context [match ?v with Some _ => _ | None => _ end] |- _ => is_var v; destruct v; inv_done
    | H : context [if ?v then _ else _] |- _ => destruct v eqn:?; inv_done
    end; try done; by simplify_eq.
Qed.

(** C12. Import cannot leave its directories: whatever string or symbol an
    import names, the file that is found is a name without any [".."]
    component, with the suffix of a module, directly below the directory of
    the running file, an import path or the working directory; the file
    exists, and the path returned is its canonical path when the system gives
    one. *)
Theorem import_resolution_confined file_exists realpath o c spec sb c1 name nb c2 want p pb sp c3
    (Hspec : import_spec_to_cstring o c = Done (spec, sb) c1)
    (Hname : module_spec_to_lookup_name spec c1 = Done (Some (name, nb)) c2)
    (Hfile : resolve_module_file file_exists realpath name want c2 = Done (Some (p, pb), sp) c3) :
  exists base suf, base ∈ search_bases (loader (host c2)) /\ suf ∈ module_suffixes /\
    dotdot ∉ components (name ++ suf) /\
    file_exists (joined_path base name suf) = true /\
    (p = map slashed (joined_path base name suf) \/
     exists r, realpath (joined_path base name suf) = Some r /\ p = map slashed r).
Proof.
  apply resolve_found in Hfile as (base & suf & Hb & Hs & He & Hp). exists base, suf.
  split_and!; [done | done | | done | done].
  apply module_suffix_safe; [done |]. eapply lookup_name_safe; [by eapply spec_text_safe | done].
Qed.

(** ** Witness *)

(** A string object with the specifier [util], a loader with the import path
    [lib], and a file system with the one file [lib/util.fex]. *)
Definition spec_loader : Loader :=
  MkLoader (MkArr [(str "lib", 0%nat)] 4 (Some 1%nat)) empty_array empty_array empty_array empty_array 0 None.
Definition spec_context : fe_Context :=
  with_host (with_loader spec_loader new_host) (with_cells [MkCell FE_TSTRING false (VObj (Fix 4)) (VSlab 0)]
    (blank_context 1 (MkArena [MkSlab FE_SLAB_NULL (str "util")] FE_SLAB_NULL 0) example_mem (rt_bud example_rt) 4096)).
Definition one_file (path : chars) : bool := bool_decide (path = str "lib/util.fex").

Definition resolves_util : bool :=
  match import_spec_to_cstring (Ref 0) spec_context with
  | Done (spec, _) c1 =>
      match module_spec_to_lookup_name spec c1 with
      | Done (Some (name, _)) c2 => bool_decide (name = str "util") &&
          match resolve_module_file one_file (fun _ => None) name true c2 with
          | Done (Some _, _) _ => true
          | _ => false
          end
      | _ => false
      end
  | _ => false
  end.

Lemma spec_resolves : resolves_util = true.
Proof. vm_compute. reflexivity. Qed.

Lemma import_resolution_confined_witness :
  exists c2 name p base suf, name = str "util" /\ base ∈ search_bases (loader (host c2)) /\ suf ∈ module_suffixes /\
    dotdot ∉ components (name ++ suf) /\ one_file (joined_path base name suf) = true /\
    (p = map slashed (joined_path base name suf) \/
     exists r, (fun _ => None) (joined_path base name suf) = Some r /\ p = map slashed r).
Proof.
  pose proof spec_resolves as H. unfold resolves_util in H.
  destruct (import_spec_to_cstring (Ref 0) spec_context) as [[spec sb] c1 | | |] eqn:E1; try discriminate H.
  destruct (module_spec_to_lookup_name spec c1) as [[[name nb] |] c2 | | |] eqn:E2; try discriminate H.
  apply andb_prop in H as [Hn%bool_decide_eq_true H].
  destruct (resolve_module_file one_file (fun _ => None) name true c2) as [[[[p pb] |] sp] c3 | | |] eqn:E3;
    try discriminate H.
  destruct (import_resolution_confined one_file (fun _ => None) (Ref 0) spec_context spec sb c1 name nb c2 true p pb sp c3
    E1 E2 E3) as (base & suf & Hw).
  exists c2, name, p, base, suf. split; [exact Hn | exact Hw].
Defined.
