(* ===== verification/LoaderFrame.v ===== *)
(** * What the module loader does to its stacks

    The control state of the evaluator with the arrays of the loader: rules
    for computations that push to and pop from the arrays, and the loader's
    own operations. *)

From Stdlib Require Import ZArith Lia Ascii String.
From stdpp Require Import base list.
From S2P Require Import Prelude Number Memory Budget MapTable Slab SlabSpec Span Host Ctx Gc Objects Writer Eval Frame EvalFrame Lexer Parser ParserFrame Builtins Modules.

(** ** The arrays of the loader *)

Record View := MkView { v_paths : list cstr; v_dirs : list cstr; v_buffers : list cstr; v_loading : list cstr }.
Definition view (c : fe_Context) : View :=
  let l := loader (host c) in
  MkView (items (import_paths l)) (items (source_dirs l)) (items (source_buffers l)) (items (loading_modules l)).

(** The control state apart from the arrays. *)
Record control (k : nat) (c c' : fe_Context) : Prop := {
  ct_calllist : calllist c' = calllist c;
  ct_depth : current_eval_depth c' = current_eval_depth c;
  ct_max : max_eval_depth c' = max_eval_depth c;
  ct_len : (k <= length (gcstack c'))%nat;
  ct_roots : take k (gcstack c') = take k (gcstack c);
  ct_scopes : try_scopes (host c') = try_scopes (host c);
  ct_error_fn : error_fn (host c') = error_fn (host c);
  ct_jump : jump_error (host c) = None -> jump_error (host c') = None
}.
Lemma stable_control k c c' : stable k c c' <-> control k c c' /\ view c' = view c.
Proof.
  split.
  - intros [? ? ? ? ? []]. split; [by split |]. unfold view. congruence.
  - intros [[] Hv]. unfold view in Hv. injection Hv as ? ? ? ?. by split.
Qed.
Lemma control_trans k c1 c2 c3 : control k c1 c2 -> control k c2 c3 -> control k c1 c3.
Proof. intros [] []. split; try congruence. auto. Qed.
Lemma control_ready k c c' : ready k c -> control k c c' -> ready k c'.
Proof. intros (_ & Hd & Hj) []. split; [done |]. split; [congruence | auto]. Qed.
Lemma control_aborted k c c1 c2 : control k c c1 -> aborted k c1 c2 -> aborted k c c2.
Proof. intros [] []. split; try done; congruence. Qed.

(** ** Rules *)

(** [m] takes arrays that satisfy [P] to arrays that satisfy [Q]. *)
Definition hoare {A} (k : nat) (P : View -> Prop) (m : comp fe_Context A) (Q : A -> View -> Prop) : Prop :=
  forall c, ready k c -> P (view c) ->
  match m c with
  | Done a c' => control k c c' /\ Q a (view c')
  | Raised _ c' => aborted k c c'
  | _ => True
  end.

Lemma h_bind {A B} k P (m : comp fe_Context A) R (f : A -> comp fe_Context B) Q :
  hoare k P m R -> (forall a, hoare k (R a) (f a) Q) -> hoare k P (bind m f) Q.
Proof.
  intros Hm Hf c Hc Hp. unfold bind. specialize (Hm c Hc Hp). destruct (m c) as [a c1 | | |]; try done.
  destruct Hm as [H1 H2]. specialize (Hf a c1 (control_ready _ _ _ Hc H1) H2). destruct (f a c1); try done.
  - destruct Hf. split; [by eapply control_trans | done].
  - by eapply control_aborted.
Qed.
Lemma h_keeps {A} k P (m : comp fe_Context A) : keeps k m -> hoare k P m (fun _ => P).
Proof.
  intros Hm c Hc Hp. specialize (Hm c Hc). destruct (m c); try done. apply stable_control in Hm as [H1 H2].
  split; [done | by rewrite H2].
Qed.
Lemma h_post {A} k P (m : comp fe_Context A) (Q Q' : A -> View -> Prop) :
  hoare k P m Q -> (forall a v, Q a v -> Q' a v) -> hoare k P m Q'.
Proof. intros Hm HQ c Hc Hp. specialize (Hm c Hc Hp). destruct (m c); try done. destruct Hm. auto. Qed.
Lemma h_ret {A} k (P : View -> Prop) (a : A) (Q : A -> View -> Prop) :
  (forall v, P v -> Q a v) -> hoare k P (ret a) Q.
Proof. intros H c [Hk _] Hp. split; [by split | by apply H]. Qed.
Lemma keeps_hoare {A} k (m : comp fe_Context A) : (forall v, hoare k (eq v) m (fun _ => eq v)) -> keeps k m.
Proof.
  intros H c Hc. specialize (H (view c) c Hc eq_refl). destruct (m c); try done.
  apply stable_control. destruct H. by split.
Qed.
Lemma h_loader k (P : View -> Prop) {B} (f : Loader -> comp fe_Context B) R :
  (forall l, hoare k (fun v => P v /\ v = MkView (items (import_paths l)) (items (source_dirs l))
                                        (items (source_buffers l)) (items (loading_modules l))) (f l) R) ->
  hoare k P (bind get_loader f) R.
Proof. intros H c Hc Hp. unfold bind, get_loader, gets. by apply (H (loader (host c)) c Hc). Qed.
Lemma h_set_loader k (P : View -> Prop) f (Q : unit -> View -> Prop) :
  (forall c, P (view c) -> Q tt (view (with_host (with_loader (f (loader (host c))) (host c)) c))) ->
  hoare k P (set_loader f) Q.
Proof. intros H c [Hk _] Hp. split; [by split | by apply H]. Qed.

(** ** Inert operations of the loader *)

Lemma inert_free b : inert (free b).
Proof. unfold free. inert. Qed.
Lemma inert_alloc_text n s : inert (alloc_text n s).
Proof. unfold alloc_text. inert. Qed.
#[export] Hint Resolve inert_free inert_alloc_text : inert.
Lemma inert_free_str s : inert (free_str s).
Proof. unfold free_str. inert. Qed.
Lemma inert_dup_cstring s : inert (dup_cstring s).
Proof. unfold dup_cstring. inert. Qed.
Lemma inert_ensure a n : inert (ensure_string_array_capacity a n).
Proof. unfold ensure_string_array_capacity. inert. Qed.
#[export] Hint Resolve inert_free_str inert_dup_cstring inert_ensure : inert.
Lemma inert_push_owned a s : inert (string_array_push_owned a s).
Proof. unfold string_array_push_owned. inert. Qed.
#[export] Hint Resolve inert_push_owned : inert.
Lemma inert_push_text a n s : inert (push_text a n s).
Proof. unfold push_text. inert. Qed.
#[export] Hint Resolve inert_push_text : inert.
Lemma inert_push_copy a s : inert (string_array_push_copy a s).
Proof. unfold string_array_push_copy. inert. Qed.
Lemma inert_free_strs l : inert (free_strs l).
Proof. induction l; cbn [free_strs]; inert. Qed.
#[export] Hint Resolve inert_push_copy inert_free_strs : inert.
Lemma inert_array_clear a : inert (string_array_clear a).
Proof. unfold string_array_clear. inert. Qed.
Lemma inert_contains_loop l s cd : inert (contains_loop l s cd).
Proof. revert cd. induction l as [| [x b] l IH]; intros cd; cbn [contains_loop]; inert. Qed.
#[export] Hint Resolve inert_array_clear inert_contains_loop : inert.
Lemma inert_array_contains a s : inert (string_array_contains a s).
Proof. unfold string_array_contains. inert. Qed.
Lemma inert_array_pop a : inert (string_array_pop a).
Proof. unfold string_array_pop. inert. Qed.
Lemma inert_get_loader : inert get_loader.
Proof. unfold get_loader. inert. Qed.
Lemma inert_ensure_objects b c n : inert (ensure_object_array_capacity b c n).
Proof. unfold ensure_object_array_capacity. inert. Qed.
#[export] Hint Resolve inert_array_contains inert_array_pop inert_get_loader inert_ensure_objects : inert.
Lemma inert_find_index l s i cd : inert (find_index_loop l s i cd).
Proof. revert i cd. induction l as [| [x b] l IH]; intros i cd; cbn [find_index_loop]; inert. Qed.
#[export] Hint Resolve inert_find_index : inert.
Lemma inert_cache_get path : inert (module_cache_get path).
Proof. unfold module_cache_get, module_cache_find_index. inert. Qed.
#[export] Hint Resolve inert_cache_get : inert.

(** *** Paths and specifiers *)

Lemma inert_normalize_loop p cd : inert (normalize_loop p cd).
Proof. revert cd. induction p; intros cd; cbn [normalize_loop]; inert. Qed.
#[export] Hint Resolve inert_normalize_loop : inert.
Lemma inert_normalized s : inert (normalized s).
Proof. unfold normalized, normalize_path_chars. inert. Qed.
#[export] Hint Resolve inert_normalized : inert.
Lemma inert_dup_normalized p : inert (dup_normalized_path p).
Proof. unfold dup_normalized_path. inert. Qed.
Lemma inert_last_sep p i f cd : inert (last_sep_loop p i f cd).
Proof. revert i f cd. induction p; intros i f cd; cbn [last_sep_loop]; inert. Qed.
#[export] Hint Resolve inert_dup_normalized inert_last_sep : inert.
Lemma inert_dirname_copy p : inert (path_dirname_copy p).
Proof. unfold path_dirname_copy. inert. Qed.
Lemma inert_join_suffix a b c : inert (join_path_suffix a b c).
Proof. unfold join_path_suffix. inert. Qed.
Lemma inert_dots_loop b p cd : inert (dots_loop b p cd).
Proof. revert cd. induction p; intros cd; cbn [dots_loop]; inert. Qed.
#[export] Hint Resolve inert_dirname_copy inert_join_suffix inert_dots_loop : inert.
Lemma inert_lookup_name s : inert (module_spec_to_lookup_name s).
Proof. unfold module_spec_to_lookup_name. inert. Qed.
Lemma inert_end_segment m s n a : inert (end_segment m s n a).
Proof. unfold end_segment. inert. Qed.
#[export] Hint Resolve inert_lookup_name inert_end_segment : inert.
Lemma inert_segments_loop m p s n a cd : inert (segments_loop m p s n a cd).
Proof. revert s n a cd. induction p; intros s n a' cd; cbn [segments_loop]; inert. Qed.
#[export] Hint Resolve inert_segments_loop : inert.
Lemma inert_split_segments s : inert (split_module_spec_segments s).
Proof. unfold split_module_spec_segments. inert. Qed.
Lemma inert_join_segments l c : inert (join_module_segments l c).
Proof. unfold join_module_segments. inert. Qed.
Lemma inert_format_paths l : inert (format_search_paths l).
Proof. unfold format_search_paths. inert. Qed.
#[export] Hint Resolve inert_split_segments inert_join_segments inert_format_paths : inert.

Lemma inert_fe_tostring f g n o z : inert (fe_tostring f g n o z).
Proof.
  intros c. unfold fe_tostring.
  pose proof (proj1 (wi_fe_write writebuf f g n) o false c ([], z - 1)) as H.
  by destruct (fe_write _ _ _ _ _ _ _) as [? [? []] | ? [? ?] | |].
Qed.
#[export] Hint Resolve inert_fe_tostring : inert.
Lemma inert_text_of o z : inert (text_of o z).
Proof. unfold text_of. inert. Qed.
Lemma inert_fe_strlen o : inert (fe_strlen o).
Proof. unfold fe_strlen. inert. Qed.
#[export] Hint Resolve inert_text_of inert_fe_strlen : inert.
Lemma inert_import_spec o : inert (import_spec_to_cstring o).
Proof. unfold import_spec_to_cstring. inert. Qed.
#[export] Hint Resolve inert_import_spec : inert.

(** *** Searching *)

Section Files.
Context (file_exists : chars -> bool) (realpath : chars -> option chars).

Lemma inert_normalize_existing p : inert (normalize_existing_path realpath p).
Proof. unfold normalize_existing_path. inert. Qed.
#[local] Hint Resolve inert_normalize_existing : inert.
Lemma inert_try_candidate m a : inert m -> inert (try_candidate file_exists realpath m a).
Proof. intros H. unfold try_candidate, try_resolve_module_candidate. inert. Qed.
Lemma inert_under_base b n a : inert (try_resolve_module_under_base file_exists realpath b n a).
Proof.
  unfold try_resolve_module_under_base, join_module_file_path, join_module_index_path.
  apply inert_bind; [apply inert_try_candidate; inert |]. intros [[] ?]; inert. apply inert_try_candidate; inert.
Qed.
#[local] Hint Resolve inert_under_base : inert.
Lemma inert_paths_loop l n a cd : inert (import_paths_loop file_exists realpath l n a cd).
Proof. revert a cd. induction l as [| [p b] l IH]; intros a cd; cbn [import_paths_loop]; inert. Qed.
#[local] Hint Resolve inert_paths_loop : inert.
Lemma inert_resolve n w : inert (resolve_module_file file_exists realpath n w).
Proof. unfold resolve_module_file. inert. Qed.
End Files.
#[export] Hint Resolve inert_normalize_existing inert_resolve : inert.

(** *** Module objects *)

Lemma inert_is_map o : inert (is_map o).
Proof. unfold is_map. inert. Qed.
Lemma inert_map_count o : inert (map_count o).
Proof. unfold map_count. inert. Qed.
#[export] Hint Resolve inert_is_map inert_map_count : inert.
Lemma keeps_global_module k n : keeps k (lookup_global_module n).
Proof. unfold lookup_global_module. keeps. Qed.
Lemma keeps_chain_loop k o l : keeps k (chain_loop o l).
Proof. revert o. induction l; intros o; cbn [chain_loop]; keeps. Qed.
#[export] Hint Resolve keeps_global_module keeps_chain_loop : keeps.
Lemma keeps_module_chain k l : keeps k (lookup_module_chain l).
Proof. unfold lookup_module_chain. keeps. Qed.
Lemma keeps_package_loop k o l : keeps k (package_loop o l).
Proof. revert o. induction l; intros o; cbn [package_loop]; keeps. Qed.
#[export] Hint Resolve keeps_module_chain keeps_package_loop : keeps.
Lemma keeps_package_chain k l : keeps k (ensure_package_chain l).
Proof. unfold ensure_package_chain. keeps. Qed.
#[export] Hint Resolve keeps_package_chain : keeps.
Lemma keeps_bind_imported k s l r o : keeps k (bind_imported_module s l r o).
Proof. unfold bind_imported_module. keeps. Qed.
Lemma keeps_resolve_value k s l o : keeps k (resolve_imported_module_value s l o).
Proof. unfold resolve_imported_module_value. keeps. Qed.
#[export] Hint Resolve keeps_bind_imported keeps_resolve_value : keeps.

(** Caching a module changes no stack. *)
Lemma keeps_cache_push k p o : keeps k (module_cache_push_owned p o).
Proof.
  unfold module_cache_push_owned.
  assert (forall a, keeps k (set_loader (with_loaded_modules a))) as H1 by (intros a c [? _]; by split).
  assert (forall n b a, keeps k (set_loader (fun l => with_loaded_values n b (with_loaded_modules a l)))) as H2
    by (intros n b a c [? _]; by split).
  keeps; try apply H1; apply H2.
Qed.
#[export] Hint Resolve keeps_cache_push : keeps.

(** ** The stacks *)

Ltac hk := apply h_keeps; by keeps.

Definition push_dir (d : cstr) (v : View) : View := MkView (v_paths v) (v_dirs v ++ [d]) (v_buffers v) (v_loading v).
Definition push_buffer (d : cstr) (v : View) : View := MkView (v_paths v) (v_dirs v) (v_buffers v ++ [d]) (v_loading v).
Definition push_loading (d : cstr) (v : View) : View := MkView (v_paths v) (v_dirs v) (v_buffers v) (v_loading v ++ [d]).
Definition pop_dir (v : View) : View := MkView (v_paths v) (removelast (v_dirs v)) (v_buffers v) (v_loading v).
Definition pop_buffer (v : View) : View := MkView (v_paths v) (v_dirs v) (removelast (v_buffers v)) (v_loading v).
Definition pop_loading (v : View) : View := MkView (v_paths v) (v_dirs v) (v_buffers v) (removelast (v_loading v)).

Lemma pop_push_dir d v : pop_dir (push_dir d v) = v.
Proof. destruct v. unfold pop_dir. simpl. by rewrite removelast_last. Qed.
Lemma pop_push_buffer d v : pop_buffer (push_buffer d v) = v.
Proof. destruct v. unfold pop_buffer. simpl. by rewrite removelast_last. Qed.
Lemma pop_push_loading d v : pop_loading (push_loading d v) = v.
Proof. destruct v. unfold pop_loading. simpl. by rewrite removelast_last. Qed.

(** What string_array_push_owned stores. *)
Lemma push_owned_items a s c r c' :
  string_array_push_owned a s c = Done (Some r) c' -> items r = items a ++ [s].
Proof.
  unfold string_array_push_owned. intros (x & c1 & H1 & H2)%bind_done. unfold ret in H2.
  destruct x as [x |]; simplify_eq/=. f_equal. unfold ensure_string_array_capacity in H1.
  destruct (_ <=? _); [unfold ret in H1; by simplify_eq |].
  apply bind_done in H1 as (b & c2 & _ & H2). unfold ret in H2. by destruct b; simplify_eq/=.
Qed.
Lemma push_copy_items a s c r c' :
  string_array_push_copy a s c = Done (Some r) c' -> exists b, items r = items a ++ [(s, b)].
Proof.
  unfold string_array_push_copy, push_text, alloc_text. intros H. inv_done. destruct v0 as [b |]; simpl in *; inv_done.
  destruct v as [r' |]; inv_done; simplify_eq. exists b. by eapply push_owned_items.
Qed.
Lemma pop_items a c r c' : string_array_pop a c = Done r c' -> items r = removelast (items a).
Proof.
  unfold string_array_pop. intros H. destruct (last (items a)) as [s |] eqn:E; inv_done; simplify_eq; [done |].
  by apply last_None in E as ->.
Qed.

(** An inert step whose result is used. *)
Lemma h_run {A B} k P (m : comp fe_Context A) (f : A -> comp fe_Context B) Q :
  inert m -> (forall a c c', m c = Done a c' -> hoare k P (f a) Q) -> hoare k P (bind m f) Q.
Proof.
  intros Hm Hf c Hc Hp. unfold bind. pose proof (Hm c) as H. destruct (m c) as [a c1 | | |] eqn:E; try done.
  2: { apply lost_aborted; [apply Hc | apply Hc | done]. }
  apply (same_stable k) in H; [| apply Hc]. apply stable_control in H as [H1 H2].
  specialize (Hf a c c1 E c1 (control_ready _ _ _ Hc H1)). rewrite H2 in Hf. specialize (Hf Hp).
  destruct (f a c1); try done.
  - destruct Hf. split; [by eapply control_trans | done].
  - by eapply control_aborted.
Qed.

Ltac set_view := apply h_set_loader; intros ? [? Hv]; subst; unfold view in Hv |- *; simpl; injection Hv as -> -> -> ->.

Lemma h_pop_dir k v : hoare k (eq v) pop_source_dir (fun _ => eq (pop_dir v)).
Proof.
  apply h_loader. intros l. apply h_run; [inert |]. intros a c c' E%pop_items. set_view. by rewrite E.
Qed.
Lemma h_pop_buffer k v : hoare k (eq v) pop_source_buffer (fun _ => eq (pop_buffer v)).
Proof.
  apply h_loader. intros l. apply h_run; [inert |]. intros a c c' E%pop_items. set_view. by rewrite E.
Qed.
Lemma h_pop_loading k v : hoare k (eq v) pop_loading_module (fun _ => eq (pop_loading v)).
Proof.
  apply h_loader. intros l. apply h_run; [inert |]. intros a c c' E%pop_items. set_view. by rewrite E.
Qed.

Lemma h_push_dir realpath k v path :
  hoare k (eq v) (push_source_dir_from_file realpath path)
    (fun b v' => if b : bool then exists d, push_dir d v = v' else v = v').
Proof.
  unfold push_source_dir_from_file. apply h_run; [inert |]. intros n _ _ _. apply h_run; [inert |]. intros [dir |] _ _ _.
  2: { apply h_run; [inert |]. intros _ _ _ _. by apply h_ret. }
  apply h_run; [inert |]. intros _ _ _ _. apply h_loader. intros l. apply h_run; [inert |]. intros [a |] c c' E.
  - apply push_owned_items in E. apply (h_bind _ _ _ (fun _ v' => exists d, push_dir d v = v')).
    + set_view. exists dir. by rewrite E.
    + intros _. by apply h_ret.
  - apply h_run; [inert |]. intros _ _ _ _. apply h_ret. by intros w [-> _].
Qed.

(** Emptying a stack. *)
Lemma h_repeated k n m (g : View -> View) v :
  (forall v, hoare k (eq v) m (fun _ => eq (g v))) ->
  hoare k (eq v) (repeated n m) (fun _ => eq (Nat.iter n g v)).
Proof.
  intros Hm. revert v. induction n as [| n IH]; intros v; cbn [repeated]; [by apply h_ret |].
  eapply h_bind; [apply Hm |]. intros ?. cbv beta. rewrite Nat.iter_succ_r. apply IH.
Qed.
Lemma iter_removelast {A} (l : list A) n : (length l <= n)%nat -> Nat.iter n (@removelast A) l = [].
Proof.
  revert l. induction n as [| n IH]; intros l Hl; [by destruct l; simpl in *; [| lia] |].
  rewrite Nat.iter_succ_r. apply IH. destruct l using rev_ind; [simpl; lia |].
  rewrite removelast_last. rewrite length_app in Hl. simpl in Hl. lia.
Qed.
Lemma iter_pop n v :
  Nat.iter n pop_dir v = MkView (v_paths v) (Nat.iter n (@removelast cstr) (v_dirs v)) (v_buffers v) (v_loading v) /\
  Nat.iter n pop_buffer v = MkView (v_paths v) (v_dirs v) (Nat.iter n (@removelast cstr) (v_buffers v)) (v_loading v) /\
  Nat.iter n pop_loading v = MkView (v_paths v) (v_dirs v) (v_buffers v) (Nat.iter n (@removelast cstr) (v_loading v)).
Proof. destruct v. induction n as [| n (H1 & H2 & H3)]; [done |]. simpl. by rewrite H1, H2, H3. Qed.

Definition no_imports (v : View) : View := MkView (v_paths v) [] [] [].
Lemma h_reset k v : hoare k (eq v) fex_reset_import_state (fun _ => eq (no_imports v)).
Proof.
  apply h_loader. intros l. destruct v as [vp vd vb vl].
  apply (h_bind _ _ _ (fun _ v' => v' = MkView vp vd [] vl /\ vd = items (source_dirs l) /\ vl = items (loading_modules l))).
  { intros c Hc [H0 Hv]. rewrite <- H0 in Hv. injection Hv as -> -> -> ->.
    pose proof (h_repeated k (length (items (source_buffers l))) _ _ _ (h_pop_buffer k) c Hc H0) as H.
    destruct (repeated _ _ c); try done. destruct H as [H1 <-]. split; [done |].
    rewrite (proj1 (proj2 (iter_pop _ _))). simpl. by rewrite iter_removelast by done. }
  intros _. apply (h_bind _ _ _ (fun _ v' => v' = MkView vp [] [] vl /\ vl = items (loading_modules l))).
  { intros c Hc (Hv & -> & ->). symmetry in Hv.
    pose proof (h_repeated k (length (items (source_dirs l))) _ _ _ (h_pop_dir k) c Hc Hv) as H.
    destruct (repeated _ _ c); try done. destruct H as [H1 <-]. split; [done |].
    rewrite (proj1 (iter_pop _ _)). simpl. by rewrite iter_removelast by done. }
  intros _. apply (h_bind _ _ _ (fun _ v' => v' = MkView vp [] [] [])).
  { intros c Hc (Hv & ->). symmetry in Hv.
    pose proof (h_repeated k (length (items (loading_modules l))) _ _ _ (h_pop_loading k) c Hc Hv) as H.
    destruct (repeated _ _ c); try done. destruct H as [H1 <-]. split; [done |].
    rewrite (proj2 (proj2 (iter_pop _ _))). simpl. by rewrite iter_removelast by done. }
  intros _ c [Hk _] Hv. by split.
Qed.
