(* ===== verification/Try.v ===== *)
(** * Protected calls (src/fex.c: copy_string to fex_print_error,
    fex_try_run_internal to fex_try_do_string_named)

    An error inside a protected call is a longjmp to its setjmp; here it is
    the outcome [Raised] of the computation that was started.  fe_error has
    left the call list it gives to its handler in [error_calls], and the
    handler runs where the error arrives.  A protected call is made outside
    of a compilation: the compiler starts with no scopes and no scratch
    blocks of its own. *)

From Stdlib Require Import ZArith Lia Ascii String.
From stdpp Require Import base list.
From S2P Require Import Prelude Number Memory Budget MapTable Slab Span Host Ctx Gc Objects Writer Eval Lexer Parser Builtins Modules.

(** ** Text of objects in errors *)

(** What a buffer of [dst_size] bytes holds of [src] before its NUL. *)
Definition copy_string (dst_size : nat) (src : option chars) : chars :=
  match src with None => [] | Some src => take (dst_size - 1) src end.

(** [dst] before its NUL; its length is [len]. *)
Record FexEscapedWriter := MkWriter { dst : chars; cap : nat }.

Definition escaped_writer_append (writer : FexEscapedWriter) (text : chars) : FexEscapedWriter :=
  MkWriter (dst writer ++ take (cap writer - 1 - length (dst writer)) text) (cap writer).

Definition upper_hexdigit (n : nat) : ascii := nth n (str "0123456789ABCDEF") "0"%char.

(** The escape of a control character. *)
Definition control_escape (ch : ascii) : option chars :=
  let u := nat_of_ascii ch in
  if decide (u = 0)%nat then Some [backslash; "0"%char]
  else if decide (u = 10)%nat then Some [backslash; "n"%char]
  else if decide (u = 13)%nat then Some [backslash; "r"%char]
  else if decide (u = 9)%nat then Some [backslash; "t"%char]
  else if (u <? 32)%nat || (u =? 127)%nat
  then Some [backslash; "x"%char; upper_hexdigit (u / 16); upper_hexdigit (u mod 16)]
  else None.

Definition escaped_writer_put_byte (writer : FexEscapedWriter) (ch : ascii) : FexEscapedWriter :=
  escaped_writer_append writer
    (if decide (ch = backslash) then [backslash; backslash] else default [ch] (control_escape ch)).
Definition source_excerpt_put_byte (writer : FexEscapedWriter) (ch : ascii) : FexEscapedWriter :=
  escaped_writer_append writer (default [ch] (control_escape ch)).

Fixpoint quoted_loop (text : chars) (writer : FexEscapedWriter) : FexEscapedWriter :=
  match text with
  | [] => writer
  | ch :: text =>
      quoted_loop text
        (if decide (ch = backslash) then escaped_writer_append writer [backslash; backslash]
         else if decide (ch = quote_char) then escaped_writer_append writer [backslash; quote_char]
         else escaped_writer_put_byte writer ch)
  end.

Fixpoint scalar_loop (text : chars) (in_string : bool) (writer : FexEscapedWriter) : FexEscapedWriter :=
  match text with
  | [] => writer
  | ch :: text =>
      if in_string then
        if decide (ch = backslash) then
          match text with
          | ch2 :: text2 =>
              if decide (ch2 = quote_char)
              then scalar_loop text2 true (escaped_writer_append writer [backslash; quote_char])
              else scalar_loop text true (escaped_writer_append writer [backslash; backslash])
          | [] => escaped_writer_append writer [backslash; backslash]
          end
        else if decide (ch = quote_char)
        then scalar_loop text false (escaped_writer_append writer [quote_char])
        else scalar_loop text true (escaped_writer_put_byte writer ch)
      else if decide (ch = quote_char)
      then scalar_loop text true (escaped_writer_append writer [quote_char])
      else scalar_loop text false (source_excerpt_put_byte writer ch)
  end.

Definition lookup_span (o : obj) : comp fe_Context (option FexSpan) :=
  gets (fun c => fex_lookup_span (obj_addr c o) (MkSpans (rt_mem (rt c)) (spans c))).

Section Errors.
Context (fmt_g7 : double -> chars) (fmt_p : obj -> chars) (malloc_ok : Z -> bool) (print_fuel : nat).

Definition append_string_for_error (o : obj) (writer : FexEscapedWriter) : comp fe_Context FexEscapedWriter :=
  let* sp := lookup_span o in
  match sp ≫= Span.source with
  | Some (excerpt, _) => ret (escaped_writer_append writer excerpt)
  | None =>
      let* len := fe_strlen o in
      if (256 <? len + 1) && negb (malloc_ok (len + 1))
      then ret (escaped_writer_append writer ([quote_char] ++ str "<oom>" ++ [quote_char]))
      else
        let* '(buffer, _) := fe_tostring fmt_g7 fmt_p print_fuel o (i32 (len + 1)) in
        if decide (Z.of_nat (length buffer) = len) then
          let writer := escaped_writer_append writer [quote_char] in
          ret (escaped_writer_append (quoted_loop buffer writer) [quote_char])
        else stuck
  end.

Definition append_scalar_for_error (o : obj) (writer : FexEscapedWriter) : comp fe_Context FexEscapedWriter :=
  let* '(buffer, _) := fe_tostring fmt_g7 fmt_p print_fuel o 256 in
  ret (scalar_loop buffer false writer).

(** The elements of a list with [elt], and what is left after the pairs. *)
Fixpoint append_pairs (elt : obj -> FexEscapedWriter -> comp fe_Context FexEscapedWriter) (fuel : nat)
    (o : obj) (writer : FexEscapedWriter) : comp fe_Context (obj * FexEscapedWriter) :=
  let* t := type_of o in
  if negb (isnil o) && bool_decide (t = FE_TPAIR) then
    match fuel with
    | O => no_fuel
    | S f =>
        let* a := fe_car o in
        let* writer := elt a writer in
        let* o := fe_cdr o in
        let* t := type_of o in
        append_pairs elt f o
          (if negb (isnil o) && bool_decide (t = FE_TPAIR) then escaped_writer_append writer (str " ") else writer)
    end
  else ret (o, writer).

Fixpoint append_object_for_error (fuel : nat) (o : obj) (writer : FexEscapedWriter)
    : comp fe_Context FexEscapedWriter :=
  match fuel with
  | O => no_fuel
  | S f =>
      match o with
      | Fix _ => append_scalar_for_error o writer
      | _ =>
          let* t := type_of o in
          match t with
          | FE_TPAIR =>
              let writer := escaped_writer_append writer (str "(") in
              let* '(o, writer) := append_pairs (append_object_for_error f) f o writer in
              let* writer :=
                (if isnil o then ret writer
                 else append_object_for_error f o (escaped_writer_append writer (str " . "))) in
              ret (escaped_writer_append writer (str ")"))
          | FE_TSTRING => append_string_for_error o writer
          | _ => append_scalar_for_error o writer
          end
      end
  end.

(** A list that contains itself is printed for ever. *)
Definition format_object_for_error (o : obj) (dst_size : nat) : comp fe_Context chars :=
  if decide (dst_size = 0)%nat then ret []
  else
    let* writer := append_object_for_error print_fuel o (MkWriter [] dst_size) in
    ret (dst writer).

(** ** Errors *)

Definition fex_error_clear : FexError := MkFexError FEX_STATUS_OK [] [] 0 0 [].

Definition fill_basic_error (st : FexStatus) (source_name : option chars) (line column : Z) (message : chars)
    : FexError :=
  MkFexError st (copy_string FEX_ERROR_MESSAGE_MAX (Some message))
    (copy_string FEX_ERROR_SOURCE_NAME_MAX (Some (default (str "<string>") source_name))) line column [].

Definition fex_try_is_active : comp fe_Context bool :=
  gets (fun c => negb (bool_decide (try_scopes (host c) = []))).

(** longjmp to the innermost protected call with its error filled in. *)
Definition longjmp {A} (e : FexError) : comp fe_Context A := fun c =>
  Raised (string_of_list_ascii (fe_message e)) (with_host (with_jump_error (Some e) (host c)) c).

Definition fex_try_raise (st : FexStatus) (source_name : option chars) (line column : Z) (message : chars)
    : comp fe_Context unit :=
  let* scopes := gets (fun c => try_scopes (host c)) in
  match scopes with
  | [] => ret tt
  | _ => longjmp (fill_basic_error st source_name line column message)
  end.

Definition fex_try_raise_error (error : option FexError) : comp fe_Context unit :=
  let* scopes := gets (fun c => try_scopes (host c)) in
  match scopes with
  | [] => ret tt
  | sc :: _ =>
      longjmp
        match error with
        | Some e =>
            MkFexError (if decide (status e = FEX_STATUS_OK) then FEX_STATUS_RUNTIME_ERROR else status e)
              (fe_message e)
              (match fe_source e with
               | [] => copy_string FEX_ERROR_SOURCE_NAME_MAX (Some (try_source sc))
               | s => s
               end)
              (fe_line e) (fe_column e) (frames e)
        | None => fill_basic_error FEX_STATUS_RUNTIME_ERROR (Some (try_source sc)) 0 0 (str "unknown error")
        end
  end.

(** At most [n] more frames, innermost call first. *)
Fixpoint fill_runtime_trace (n : nat) (calls : list obj) (e : FexError) : comp fe_Context FexError :=
  match n, calls with
  | S n, form :: calls =>
      let* sp := lookup_span form in
      let name := match sp with
                  | Some sp => copy_string FEX_ERROR_SOURCE_NAME_MAX (Some (Span.source_name sp))
                  | None => []
                  end in
      let line := match sp with Some sp => start_line sp | None => 0 end in
      let col := match sp with Some sp => start_col sp | None => 0 end in
      let first := match sp with Some _ => fe_line e =? 0 | None => false end in
      let* text := format_object_for_error form FEX_ERROR_EXPRESSION_MAX in
      fill_runtime_trace n calls
        (MkFexError (status e) (fe_message e)
           (if first then copy_string FEX_ERROR_SOURCE_NAME_MAX (Some name) else fe_source e)
           (if first then line else fe_line e) (if first then col else fe_column e)
           (frames e ++ [MkFrame name line col text]))
  | _, _ => ret e
  end.

(** The handler of protected calls, with the error it leaves. *)
Definition fex_try_on_error (msg : string) : comp fe_Context FexError :=
  let* scopes := gets (fun c => try_scopes (host c)) in
  let* calls := gets error_calls in
  match scopes with
  | [] => stuck
  | sc :: _ =>
      let source_name := match try_source sc with [] => str "<string>" | s => s end in
      let e := fill_basic_error FEX_STATUS_RUNTIME_ERROR (Some source_name) 0 0 (str msg) in
      if wants_error sc then fill_runtime_trace FEX_ERROR_TRACE_MAX calls e else ret e
  end.

(** The handler fex_init installs: what it prints before the process ends. *)
Fixpoint on_error_frames (depth : Z) (calls : list obj) : comp fe_Context chars :=
  match calls with
  | [] => ret []
  | form :: calls =>
      let* sp := lookup_span form in
      let* buf := format_object_for_error form 128 in
      let* rest := on_error_frames (depth + 1) calls in
      ret (str "[" ++ dec depth ++ str "] " ++
           (match sp with
            | Some sp => Span.source_name sp ++ str ":" ++ dec (start_line sp) ++ str ":" ++ dec (start_col sp)
                         ++ str "  =>  "
            | None => []
            end) ++ buf ++ [ascii_of_nat 10] ++ rest)
  end.
Definition fex_on_error (msg : string) (calls : list obj) : comp fe_Context chars :=
  let* rest := on_error_frames 0 calls in
  ret (str "error: " ++ str msg ++ [ascii_of_nat 10] ++ rest).
End Errors.

(** ** Printing an error *)

Definition status_label (st : FexStatus) : chars :=
  str match st with
      | FEX_STATUS_COMPILE_ERROR => "compile error"
      | FEX_STATUS_RUNTIME_ERROR => "runtime error"
      | FEX_STATUS_IO_ERROR => "I/O error"
      | FEX_STATUS_OK => "error"
      end.
Definition position (line column : Z) : chars :=
  str ":" ++ dec line ++ str ":" ++ dec (if 0 <? column then column else 1).

Fixpoint print_frames (i : Z) (l : list FexErrorFrame) : chars :=
  match l with
  | [] => []
  | f :: l =>
      str "[" ++ dec i ++ str "]" ++
      (match frame_name f with
       | [] => []
       | name => str " " ++ name ++ (if 0 <? frame_line f then position (frame_line f) (frame_column f) else [])
       end) ++
      (match frame_expression f with [] => [] | x => str " => " ++ x end) ++
      [ascii_of_nat 10] ++ print_frames (i + 1) l
  end.
Definition fex_print_error (e : FexError) : chars :=
  match status e with
  | FEX_STATUS_OK => []
  | st =>
      status_label st ++ str ": " ++ (match fe_message e with [] => str "unknown error" | m => m end)
      ++ [ascii_of_nat 10] ++
      (if 0 <? fe_line e then
         str "at " ++ (match fe_source e with [] => str "<string>" | s => s end)
         ++ position (fe_line e) (fe_column e) ++ [ascii_of_nat 10]
       else match fe_source e with [] => [] | s => str "at " ++ s ++ [ascii_of_nat 10] end) ++
      print_frames 0 (frames e)
  end.

(** ** Protected calls *)

(** What a protected call returns: the status, *out_result and *out_error. *)
Record TryResult := MkResult { try_status : FexStatus; out_result : obj; out_error : FexError }.

(** A compile error as fex_try_raise leaves it. *)
Definition compile_error (e : CompileError) : FexError :=
  fill_basic_error FEX_STATUS_COMPILE_ERROR (Some (err_name e)) (err_line e) (err_column e) (err_message e).

(** A bound on the steps of the compiler that every source meets. *)
Definition compile_fuel (source : chars) : nat := (4 * length source + 3)%nat.

Section Protected.
Context (fmt_g7 : double -> chars) (fmt_p : obj -> chars) (malloc_ok : Z -> bool) (print_fuel : nat).

(** The handler at work: an error raised while it prints the calls is
    handled again, with no calls left to print. *)
Definition handle_error (msg : string) : comp fe_Context FexError := fun c =>
  match fex_try_on_error fmt_g7 fmt_p malloc_ok print_fuel msg c with
  | Raised msg c => fex_try_on_error fmt_g7 fmt_p malloc_ok print_fuel msg c
  | r => r
  end.

(** The error of a call that raised [msg]: a compile error, the error of
    another longjmp, or an error of fe_error. *)
Definition caught (msg : string) (ce : option CompileError) : comp fe_Context FexError :=
  let* jumped := gets (fun c => jump_error (host c)) in
  match ce, jumped with
  | Some e, _ => ret (compile_error e)
  | None, Some e => ret e
  | None, None => handle_error msg
  end.

Definition enter_try (wants : bool) (source_name : chars) : comp fe_Context unit :=
  modify (fun c => with_host
    (with_try (MkTry wants source_name :: try_scopes (host c)) FexTryOnError None (host c)) c).

(** Releasing what the compiler holds, and the previous scope and handler. *)
Definition leave_try (previous : list FexTryScope) (previous_error : fe_ErrorFn) : comp Fex unit :=
  fex_compile_cleanup_ctx ;;;
  fex_temp_cleanup_all ;;;
  quiet (modify (fun c => with_host (with_try previous previous_error None (host c)) c)).

(** The compiler on a context that no compilation has entered. *)
Definition in_fex {A} (m : comp Fex A) : comp fe_Context A := fun c =>
  match m (MkFex c [] [] true None []) with
  | Done a s => Done a (ctx s)
  | Raised e s => Raised e (ctx s)
  | Stuck => Stuck
  | NoFuel => NoFuel
  end.

(** The call itself and its two ends: the error of a call that raised one,
    or the result. *)
Definition protected (fn : comp Fex obj) (previous : list FexTryScope) (previous_error : fe_ErrorFn)
    : comp Fex (FexError + obj) := fun s =>
  match fn s with
  | Done result s => (leave_try previous previous_error ;;; ret (inr result)) s
  | Raised msg s =>
      (let* e := quiet (caught msg (try_error s)) in
       leave_try previous previous_error ;;;
       ret (inl e)) s
  | Stuck => Stuck
  | NoFuel => NoFuel
  end.

Definition known_error (e : FexError) : FexError :=
  if decide (status e = FEX_STATUS_OK)
  then MkFexError FEX_STATUS_RUNTIME_ERROR (str "unknown error") (fe_source e) (fe_line e) (fe_column e) (frames e)
  else e.

Definition fex_try_run_internal (fn : comp Fex obj) (wants : bool) (source_name : option chars)
    (preserve_result_root : bool) : comp fe_Context TryResult :=
  let* h := gets host in
  let* gc_save := fe_savegc in
  enter_try wants (default (str "<string>") source_name) ;;;
  let* r := in_fex (protected fn (try_scopes h) (error_fn h)) in
  match r with
  | inr result =>
      let* top := fe_savegc in
      fe_restoregc (if preserve_result_root && bool_decide (result <> NULL) && (gc_save <? top)%nat
                    then S gc_save else gc_save) ;;;
      ret (MkResult FEX_STATUS_OK result fex_error_clear)
  | inl e =>
      fe_restoregc gc_save ;;;
      fex_reset_import_state ;;;
      ret (MkResult (if wants then status (known_error e) else FEX_STATUS_RUNTIME_ERROR) NULL (known_error e))
  end.

(** ** The interface *)

(** [eval_] is fe_eval. *)
Context (spent : forall A, comp Fex A) (oob : double -> Z) (realloc_ok : Z -> bool).
Context (eval_ : obj -> comp fe_Context obj).

Definition try_compile_runner (source source_name : chars) : comp Fex obj :=
  fex_compile_named spent oob realloc_ok (compile_fuel source) source (Some source_name).
Definition try_eval_runner (o : obj) : comp Fex obj := fe (eval_ o).
Definition try_do_string_runner (source source_name : chars) : comp Fex obj :=
  fex_do_string_named spent oob realloc_ok eval_ (compile_fuel source) source (Some source_name).

Definition fex_try_compile (source : chars) (source_name : option chars) (wants : bool) : comp fe_Context TryResult :=
  let name := default (str "<string>") source_name in
  fex_try_run_internal (try_compile_runner source name) wants (Some name) true.
Definition fex_try_eval (o : obj) (wants : bool) : comp fe_Context TryResult :=
  fex_try_run_internal (try_eval_runner o) wants (Some (str "<string>")) false.
Definition fex_try_do_string (source : chars) (wants : bool) : comp fe_Context TryResult :=
  fex_try_run_internal (try_do_string_runner source (str "<string>")) wants (Some (str "<string>")) false.
Definition fex_try_do_string_named (source : chars) (source_name : option chars) (wants : bool)
    : comp fe_Context TryResult :=
  let name := default (str "<string>") source_name in
  fex_try_run_internal (try_do_string_runner source name) wants (Some name) false.
End Protected.
