(* ===== verification/Import.v ===== *)
(** * Importing modules (src/fe.c: read_text_file, do_file_common to
    fex_do_file, import_module_spec, import_module; src/fex.c:
    fex_try_do_file)

    A file is searched, compiled and evaluated inside a protected call, its
    exports are collected in a map, and the map is cached under the canonical
    path of the file.  [import_loader] closes the cycle of the evaluator,
    whose import statement runs the loader, and the loader, which evaluates
    the files it loads. *)

From Stdlib Require Import ZArith Lia Ascii String.
From stdpp Require Import base list.
From S2P Require Import Prelude Number Memory Budget MapTable Slab SlabSpec Span Host Ctx Gc Objects Writer Eval Lexer Parser Builtins Modules Try.

(** What the C library gives of a file: it cannot be opened and measured, a
    read fails after its size was found, or its bytes. *)
Inductive FileRead := NoFile | ReadFailed (size : Z) | FileBytes (size : Z) (bytes : chars).

Definition SOURCE_BUFFER_TAIL_SLACK : Z := 8.

(** A byte array read as a C string. *)
Fixpoint until_nul (s : chars) : chars :=
  match s with [] => [] | ch :: s => if decide (ch = zero) then [] else ch :: until_nul s end.

Definition out_of_memory {A} (msg : string) : comp fe_Context A := lift_memory (memory_error msg).
Definition free_opt (s : option cstr) : comp fe_Context unit := lift_memory (tracked_free (option_map snd s)).

Section Loading.
Context (file_exists : chars -> bool) (realpath : chars -> option chars) (read_file : chars -> FileRead).
Context (fmt_g7 : double -> chars) (fmt_p : obj -> chars) (malloc_ok : Z -> bool) (print_fuel : nat).
Context (spent : forall A, comp Fex A) (oob : double -> Z) (realloc_ok : Z -> bool).

(** ** Files *)

Definition read_text_file (path : chars) : comp fe_Context (option cstr) :=
  match read_file path with
  | NoFile => ret None
  | ReadFailed size =>
      let* b := lift_memory (tracked_alloc (size + SOURCE_BUFFER_TAIL_SLACK)) in
      match b with None => ret None | Some b => free b ;;; ret None end
  | FileBytes size bytes => alloc_text (size + SOURCE_BUFFER_TAIL_SLACK) bytes
  end.

Section Files.
Context (eval_ : obj -> comp fe_Context obj).

(** The exports of a file are a map at the head of the module stack. *)
Definition push_exports (implicit_exports : option obj) : comp fe_Context bool :=
  match implicit_exports with
  | None => ret false
  | Some e =>
      let* b := is_map e in
      if b : bool then
        let* c := get in
        let* m := fe_cons e (modulestack c) in
        modify (with_modulestack m) ;;;
        ret true
      else ret false
  end.
Definition pop_exports (pushed_module : bool) : comp fe_Context unit :=
  if pushed_module then
    let* c := get in
    let* m := cdr_of (modulestack c) in
    modify (with_modulestack m)
  else ret tt.

Definition do_file_common (path : chars) (implicit_exports : option obj) : comp Fex obj :=
  let* pushed := fe (push_source_dir_from_file realpath path) in
  if negb pushed then fe (out_of_memory "out of memory (source path)")
  else
    let* source := fe (read_text_file path) in
    match source with
    | None =>
        fe pop_source_dir ;;;
        let* failed := fe (gets (fun c => alloc_failure_active (rt_mem (rt c)))) in
        if failed : bool then fe (out_of_memory "out of memory (source file)")
        else
          let* active := fe fex_try_is_active in
          (if active : bool
           then quiet (fex_try_raise FEX_STATUS_IO_ERROR (Some path) 0 0 (str "could not open input file"))
           else ret tt) ;;;
          ret NULL
    | Some source =>
        let* l := fe get_loader in
        let* r := fe (string_array_push_owned (source_buffers l) source) in
        match r with
        | None =>
            fe pop_source_dir ;;;
            fe (free_str source) ;;;
            fe (out_of_memory "out of memory (source path)")
        | Some a =>
            fe (set_loader (with_source_buffers a)) ;;;
            let* pushed_module := fe (push_exports implicit_exports) in
            let text := until_nul (fst source) in
            let* result := fex_do_string_named spent oob realloc_ok eval_ (compile_fuel text) text (Some path) in
            fe (pop_exports pushed_module) ;;;
            fe pop_source_buffer ;;;
            fe pop_source_dir ;;;
            ret result
        end
    end.

Definition fex_do_import_file (path : chars) (implicit_exports : obj) : comp Fex obj :=
  do_file_common path (Some implicit_exports).
Definition fex_do_file (path : chars) : comp Fex obj := do_file_common path None.

Abbreviation fex_try_run_internal := (Try.fex_try_run_internal fmt_g7 fmt_p malloc_ok print_fuel).

Definition fex_try_do_file (path : chars) (wants : bool) : comp fe_Context TryResult :=
  fex_try_run_internal (fex_do_file path) wants (Some path) false.

(** ** Importing *)

(** Leaving import: the segments, the roots and the specifier are released. *)
Definition leave_import (segments : StrArray) (gc_save : nat) (module_spec : cstr) : comp fe_Context unit :=
  string_array_clear segments ;;;
  fe_restoregc gc_save ;;;
  free_str module_spec.

(** The packages above a module, when they are files. *)
Fixpoint import_prefixes (import : cstr -> bool -> comp fe_Context obj) (lookup_name module_spec : cstr)
    (segments : StrArray) (lengths : list nat) : comp fe_Context unit :=
  match lengths with
  | [] => ret tt
  | i :: lengths =>
      let* prefix_spec := join_module_segments (take i (map fst (items segments))) "/"%char in
      match prefix_spec with
      | None =>
          free_str lookup_name ;;;
          string_array_clear segments ;;;
          free_str module_spec ;;;
          out_of_memory "out of memory (module prefix)"
      | Some prefix_spec =>
          import prefix_spec true ;;;
          import_prefixes import lookup_name module_spec segments lengths
      end
  end.

(** No file: a module that is already a global, or an error. *)
Definition import_missing (module_spec lookup_name : cstr) (segments : StrArray) (searched_paths : option cstr)
    (is_relative optional : bool) (gc_save : nat) : comp fe_Context obj :=
  let names := map fst (items segments) in
  let* module_obj := resolve_imported_module_value (fst module_spec) names NULL in
  let* b := is_map module_obj in
  if b : bool then
    bind_imported_module (fst module_spec) names is_relative module_obj ;;;
    free_str lookup_name ;;;
    free_opt searched_paths ;;;
    leave_import segments gc_save module_spec ;;;
    ret module_obj
  else
    free_str lookup_name ;;;
    if optional then
      free_opt searched_paths ;;;
      leave_import segments gc_save module_spec ;;;
      ret NULL
    else
      let* failed := gets (fun c => alloc_failure_active (rt_mem (rt c))) in
      if failed : bool then
        free_opt searched_paths ;;;
        string_array_clear segments ;;;
        free_str module_spec ;;;
        out_of_memory "out of memory (module path)"
      else
        let error_buf := append_module_search_error 2048 (fst module_spec) (option_map fst searched_paths) in
        free_opt searched_paths ;;;
        string_array_clear segments ;;;
        free_str module_spec ;;;
        fe_error (string_of_list_ascii error_buf).

(** The error of a failed import goes to the protected call around it, or to
    fe_error. *)
Definition import_failed (import_error : FexError) : comp fe_Context obj :=
  let* active := fex_try_is_active in
  (if active : bool then fex_try_raise_error (Some import_error) else ret tt) ;;;
  fe_error (string_of_list_ascii (fe_message import_error)).

(** The value of a loaded file: its exports, or the module it defined. *)
Definition loaded_value (module_spec : chars) (segments : list chars) (implicit_exports : obj) : comp fe_Context obj :=
  let* count := map_count implicit_exports in
  if 0 <? count then ret implicit_exports
  else
    let* module_obj := resolve_imported_module_value module_spec segments NULL in
    let* b := is_map module_obj in
    ret (if b : bool then module_obj else implicit_exports).

(** After the file ran: binding and caching its value. *)
Definition finish_import (module_spec module_path : cstr) (segments : StrArray) (is_relative : bool) (gc_save : nat)
    (implicit_exports : obj) : comp fe_Context obj :=
  let names := map fst (items segments) in
  pop_loading_module ;;;
  let* module_obj := loaded_value (fst module_spec) names implicit_exports in
  fe_pushgc module_obj ;;;
  let* b := is_map module_obj in
  if negb b then
    free_str module_path ;;;
    leave_import segments gc_save module_spec ;;;
    fe_error (message 2048 (str "module '" ++ fst module_spec ++ str "' did not produce a module value"))
  else
    bind_imported_module (fst module_spec) names is_relative module_obj ;;;
    let* cached := module_cache_push_owned module_path module_obj in
    if negb cached then
      free_str module_path ;;;
      leave_import segments gc_save module_spec ;;;
      out_of_memory "out of memory (module cache)"
    else
      leave_import segments gc_save module_spec ;;;
      ret module_obj.

(** A file that is not in the cache. *)
Definition import_file (module_spec module_path : cstr) (segments : StrArray) (is_relative : bool) (gc_save : nat)
    : comp fe_Context obj :=
  let* l := get_loader in
  let* cyclic := string_array_contains (loading_modules l) (fst module_path) in
  if cyclic : bool then
    free_str module_path ;;;
    leave_import segments gc_save module_spec ;;;
    fe_error (message 2048 (str "cyclic import detected for module '" ++ fst module_spec ++ str "'"))
  else
    let* r := string_array_push_copy (loading_modules l) (fst module_path) in
    match r with
    | None =>
        free_str module_path ;;;
        leave_import segments gc_save module_spec ;;;
        out_of_memory "out of memory (import state)"
    | Some a =>
        set_loader (with_loading_modules a) ;;;
        let* implicit_exports := fe_map in
        fe_pushgc implicit_exports ;;;
        let* r := fex_try_run_internal (fex_do_import_file (fst module_path) implicit_exports) true
                    (Some (fst module_path)) false in
        if decide (try_status r = FEX_STATUS_OK) then
          if decide (out_result r = NULL) then
            pop_loading_module ;;;
            free_str module_path ;;;
            leave_import segments gc_save module_spec ;;;
            fe_error "failed to import module"
          else
            fe_pushgc (out_result r) ;;;
            finish_import module_spec module_path segments is_relative gc_save implicit_exports
        else
          pop_loading_module ;;;
          free_str module_path ;;;
          leave_import segments gc_save module_spec ;;;
          import_failed (out_error r)
    end.

(** A file was found: its cached value, or the file is loaded. *)
Definition import_found (module_spec module_path : cstr) (segments : StrArray) (is_relative : bool) (gc_save : nat)
    : comp fe_Context obj :=
  let* module_obj := module_cache_get (fst module_path) in
  let* b := is_map module_obj in
  if b : bool then
    free_str module_path ;;;
    bind_imported_module (fst module_spec) (map fst (items segments)) is_relative module_obj ;;;
    leave_import segments gc_save module_spec ;;;
    ret module_obj
  else import_file module_spec module_path segments is_relative gc_save.

(** [NULL] when an optional module is missing.  Each prefix has fewer
    segments than the specifier. *)
Fixpoint import_module_spec (fuel : nat) (module_spec : cstr) (optional : bool) : comp fe_Context obj :=
  match fuel with
  | O => no_fuel
  | S f =>
      let* gc_save := fe_savegc in
      let* lookup_name := module_spec_to_lookup_name (fst module_spec) in
      match lookup_name with
      | None => free_str module_spec ;;; out_of_memory "out of memory (module lookup)"
      | Some lookup_name =>
          let* segments := split_module_spec_segments (fst module_spec) in
          match segments with
          | None =>
              free_str lookup_name ;;;
              free_str module_spec ;;;
              out_of_memory "out of memory (module segments)"
          | Some segments =>
              let is_relative := module_spec_is_relative (fst module_spec) in
              (if is_relative then ret tt
               else import_prefixes (import_module_spec f) lookup_name module_spec segments
                      (seq 1 (length (items segments) - 1))) ;;;
              let* '(module_path, searched_paths) :=
                resolve_module_file file_exists realpath (fst lookup_name) (negb optional) in
              match module_path with
              | None =>
                  import_missing module_spec lookup_name segments searched_paths is_relative optional gc_save
              | Some module_path =>
                  free_str lookup_name ;;;
                  import_found module_spec module_path segments is_relative gc_save
              end
          end
      end
  end.

(** The recursion is bounded by the number of segments. *)
Definition import_module (spec_obj : obj) : comp fe_Context obj :=
  let* module_spec := import_spec_to_cstring spec_obj in
  import_module_spec (S (length (fst module_spec))) module_spec false.
End Files.

(** ** Protected calls *)

(** The functions of fex.h that report errors to their caller. *)
Inductive Call :=
| CallCompile (source : chars) (source_name : option chars)
| CallEval (o : obj)
| CallString (source : chars)
| CallNamed (source : chars) (source_name : option chars)
| CallFile (path : chars).

(** [eval_] is fe_eval. *)
Definition try_call (eval_ : obj -> comp fe_Context obj) (x : Call) (wants : bool) : comp fe_Context TryResult :=
  match x with
  | CallCompile source name =>
      fex_try_compile fmt_g7 fmt_p malloc_ok print_fuel spent oob realloc_ok source name wants
  | CallEval o => fex_try_eval fmt_g7 fmt_p malloc_ok print_fuel eval_ o wants
  | CallString source =>
      fex_try_do_string fmt_g7 fmt_p malloc_ok print_fuel spent oob realloc_ok eval_ source wants
  | CallNamed source name =>
      fex_try_do_string_named fmt_g7 fmt_p malloc_ok print_fuel spent oob realloc_ok eval_ source name wants
  | CallFile path => fex_try_do_file eval_ path wants
  end.

(** ** Evaluator and loader *)

Context (cfunc : nat -> obj -> comp fe_Context obj) (lhs_first : bool) (fuel : nat).

(** [depth] bounds the files that are being loaded at the same time. *)
Fixpoint import_loader (depth : nat) : obj -> comp fe_Context obj :=
  match depth with
  | O => fun _ => no_fuel
  | S d => import_module (Eval.fe_eval oob fmt_g7 fmt_p cfunc (import_loader d) lhs_first fuel)
  end.
Definition fe_eval (depth : nat) : obj -> comp fe_Context obj :=
  (Eval.fe_eval oob fmt_g7 fmt_p cfunc (import_loader depth) lhs_first fuel).
End Loading.
