(* ===== verification/ImportFrame.v ===== *)
(** * Protected calls and imports leave the stacks balanced

    A protected call gives back the roots, the error handler and the scope it
    found, on both of its ends; a file that is run leaves the arrays of the
    loader as it found them; so an import is an operation the evaluator can
    rely on, and the cycle of evaluator and loader is closed. *)

From Stdlib Require Import ZArith Lia Ascii String.
From stdpp Require Import base list.
From S2P Require Import Prelude Number Memory Budget MapTable Slab SlabSpec Span Host Ctx Gc Objects Writer Eval Frame EvalFrame Lexer Parser ParserFrame Builtins Modules LoaderFrame Try Import.

(** ** Rules for the compiler's state *)

Definition fhoare {A} (k : nat) (P : View -> Prop) (m : comp Fex A) (Q : A -> View -> Prop) : Prop :=
  forall s, ready k (ctx s) -> P (view (ctx s)) ->
  match m s with
  | Done a s' => control k (ctx s) (ctx s') /\ try_error s' = try_error s /\ Q a (view (ctx s'))
  | Raised _ s' => faborted k s s'
  | _ => True
  end.

Lemma control_faborted k s s1 s2 : control k (ctx s) (ctx s1) -> faborted k s1 s2 -> faborted k s s2.
Proof. intros [] []. split; try done; congruence. Qed.
Lemma fh_bind {A B} k P (m : comp Fex A) R (f : A -> comp Fex B) Q :
  fhoare k P m R -> (forall a, fhoare k (R a) (f a) Q) -> fhoare k P (bind m f) Q.
Proof.
  intros Hm Hf s Hs Hp. unfold bind. specialize (Hm s Hs Hp). destruct (m s) as [a s1 | | |]; try done.
  destruct Hm as (H1 & H2 & H3). specialize (Hf a s1 (control_ready _ _ _ Hs H1) H3). destruct (f a s1); try done.
  - destruct Hf as (F1 & F2 & F3). split_and!; [by eapply control_trans | congruence | done].
  - by eapply control_faborted.
Qed.
Lemma fh_keeps {A} k P (m : comp Fex A) : fkeeps k m -> fhoare k P m (fun _ => P).
Proof.
  intros Hm s Hs Hp. specialize (Hm s Hs). destruct (m s); try done. destruct Hm as [[H1 H2]%stable_control H3].
  split_and!; [done | done | by rewrite H2].
Qed.
Lemma fh_ret {A} k (P : View -> Prop) (a : A) (Q : A -> View -> Prop) :
  (forall v, P v -> Q a v) -> fhoare k P (ret a) Q.
Proof. intros H s [Hk _] Hp. split_and!; [by split | done | by apply H]. Qed.
Lemma fh_fe {A} k P (m : comp fe_Context A) Q : hoare k P m Q -> fhoare k P (fe m) Q.
Proof.
  intros Hm s Hs Hp. specialize (Hm (ctx s) Hs Hp). unfold fe, quiet.
  destruct (m (ctx s)) as [a c | e c | |]; try done; [by destruct Hm |].
  pose proof (releases_cleanup (with_ctx c s)) as Hr. destruct (bind _ _ _) as [u s2 | | |]; try done.
  destruct Hr as [[E1 E2 E3 E4 E5] _]. destruct Hm as [Hw Hd Hl Ht Hc Hj]. simpl in *. unfold was_reset in *.
  split; unfold was_reset; rewrite ?E1, ?E2, ?E4, ?E5; auto.
Qed.
Lemma fk_fhoare {A} k (m : comp Fex A) : (forall v, fhoare k (eq v) m (fun _ => eq v)) -> fkeeps k m.
Proof.
  intros H s Hs. specialize (H (view (ctx s)) s Hs eq_refl). destruct (m s); try done.
  destruct H as (H1 & H2 & H3). split; [by apply stable_control | done].
Qed.
Lemma fh_raises {A} k P (m : comp Fex A) Q :
  fkeeps k m -> (forall s a s', m s <> Done a s') -> fhoare k P m Q.
Proof.
  intros Hm Hn s Hs _. specialize (Hm s Hs). destruct (m s) eqn:E; try done. by destruct (Hn s a s0).
Qed.

(** An inert step whose result is used. *)
Lemma fh_run {A B} k P (m : comp fe_Context A) (f : A -> comp Fex B) Q :
  inert m -> (forall a c c', m c = Done a c' -> fhoare k P (f a) Q) -> fhoare k P (let* a := fe m in f a) Q.
Proof.
  intros Hm Hf s Hs Hp. unfold bind.
  pose proof (fh_keeps k P _ (fk_fe k m (keeps_inert k m Hm)) s Hs Hp) as H.
  destruct (fe m s) as [a s1 | | |] eqn:E; try done. destruct H as (H1 & H2 & H3).
  assert (fhoare k P (f a) Q) as Hfa.
  { unfold fe, quiet in E. destruct (m (ctx s)) as [a' c1 | e c1 | |] eqn:Em; try done.
    - injection E as -> _. by eapply Hf.
    - by destruct (bind _ _ _). }
  specialize (Hfa s1 (control_ready _ _ _ Hs H1) H3). destruct (f a s1); try done.
  - destruct Hfa as (F1 & F2 & F3). split_and!; [by eapply control_trans | congruence | done].
  - by eapply control_faborted.
Qed.

(** ** Errors of protected calls *)

Lemma copy_string_fits n src : (0 < n)%nat -> (length (copy_string n src) < n)%nat.
Proof. intros Hn. destruct src as [src |]; simpl; [| lia]. rewrite length_take. lia. Qed.
Lemma fill_basic_fits st name line col msg : fits (fill_basic_error st name line col msg).
Proof.
  split_and!; [apply copy_string_fits; unfold FEX_ERROR_MESSAGE_MAX; lia |
    apply copy_string_fits; unfold FEX_ERROR_SOURCE_NAME_MAX; lia | apply Nat.le_0_l | constructor].
Qed.
#[export] Hint Resolve fill_basic_fits : core.

Lemma keeps_longjmp {A} k e : fits e -> keeps k (longjmp e : comp fe_Context A).
Proof. intros He c (Hk & Hd & _). split; try done. by intros e' [= <-]. Qed.
Lemma keeps_try_raise k st n l col m : keeps k (fex_try_raise st n l col m).
Proof. unfold fex_try_raise. keeps. by apply keeps_longjmp. Qed.
Lemma keeps_try_raise_error k e : fits e -> keeps k (fex_try_raise_error (Some e)).
Proof.
  intros (H1 & H2 & H3 & H4). unfold fex_try_raise_error. keeps. apply keeps_longjmp. split_and!; try done. cbn [fe_source].
  destruct (fe_source e); [| done]. apply copy_string_fits. unfold FEX_ERROR_SOURCE_NAME_MAX. lia.
Qed.
Lemma keeps_try_active k : keeps k fex_try_is_active.
Proof. unfold fex_try_is_active. keeps. Qed.
#[export] Hint Resolve keeps_try_raise keeps_try_raise_error keeps_try_active : keeps.
Lemma keeps_out_of_memory {A} k msg : keeps k (out_of_memory msg : comp fe_Context A).
Proof. unfold out_of_memory. keeps. Qed.
Lemma inert_free_opt s : inert (free_opt s).
Proof. unfold free_opt. inert. Qed.
#[export] Hint Resolve keeps_out_of_memory : keeps.
#[export] Hint Resolve inert_free_opt : inert.

Lemma out_of_memory_raises {A} msg c (a : A) c' : out_of_memory msg c <> Done a c'.
Proof. done. Qed.
Lemma fe_raises {A} (m : comp fe_Context A) : (forall c a c', m c <> Done a c') -> forall s a s', fe m s <> Done a s'.
Proof.
  intros H s a s'. unfold fe, quiet. specialize (H (ctx s)). destruct (m (ctx s)) as [x c | | |] eqn:E; try done.
  - by destruct (H x c).
  - by destruct (bind _ _ _).
Qed.

(** ** Running a file *)

Section Files.
Context (file_exists : chars -> bool) (realpath : chars -> option chars) (read_file : chars -> FileRead).
Context (fmt_g7 : double -> chars) (fmt_p : obj -> chars) (malloc_ok : Z -> bool) (print_fuel : nat).
Context (spent : forall A, comp Fex A) (oob : double -> Z) (realloc_ok : Z -> bool).
Context (Hspent : forall A k, fkeeps k (spent A)).

Lemma inert_read_text_file p : inert (read_text_file read_file p).
Proof. unfold read_text_file. inert. Qed.
#[local] Hint Resolve inert_read_text_file : inert.

Section Eval.
Context (eval_ : obj -> comp fe_Context obj) (Heval : forall k o, keeps k (eval_ o)).

Lemma keeps_push_exports k e : keeps k (push_exports e).
Proof. unfold push_exports. keeps. Qed.
Lemma keeps_pop_exports k b : keeps k (pop_exports b).
Proof. unfold pop_exports. keeps. Qed.
#[local] Hint Resolve keeps_push_exports keeps_pop_exports : keeps.

Ltac fhk := apply fh_keeps; first [by fk | by auto using fk_do_string].

(** The directory and the text of a file are on the stacks while it runs. *)
Definition in_file (v v' : View) : Prop := exists d b, push_buffer b (push_dir d v) = v'.

Lemma h_leave_dir k v : hoare k (fun v' => exists d, push_dir d v = v') pop_source_dir (fun _ => eq v).
Proof.
  intros c Hc [d Hd]. pose proof (h_pop_dir k (push_dir d v) c Hc Hd) as H.
  destruct (pop_source_dir c); try done. by rewrite pop_push_dir in H.
Qed.
Lemma h_leave_buffer k v : hoare k (in_file v) pop_source_buffer (fun _ v' => exists d, push_dir d v = v').
Proof.
  intros c Hc (d & b & Hd). pose proof (h_pop_buffer k (push_buffer b (push_dir d v)) c Hc Hd) as H.
  destruct (pop_source_buffer c); try done. rewrite pop_push_buffer in H. destruct H. split; [done | by exists d].
Qed.

Lemma fk_do_file k path e : fkeeps k (do_file_common realpath read_file spent oob realloc_ok eval_ path e).
Proof.
  apply fk_fhoare. intros v. unfold do_file_common.
  eapply fh_bind; [apply fh_fe, h_push_dir |]. intros [|]; simpl negb; cbv iota.
  2: { apply fh_raises; [fk | by apply fe_raises]. }
  eapply fh_bind; [fhk |]. intros [source |].
  2: { eapply fh_bind; [apply fh_fe, h_leave_dir |]. intros ?. fhk. }
  intros s Hs Hp. unfold bind at 1. set (l := loader (host (ctx s))).
  change (fe get_loader s) with (Done l (with_ctx (ctx s) s)). cbv iota.
  assert (forall Q m, fhoare k (fun v' => (exists d, push_dir d v = v') /\ v_buffers v' = items (source_buffers l)) m Q ->
    match (m (with_ctx (ctx s) s) : outcome Fex obj) with
    | Done a s' => control k (ctx s) (ctx s') /\ try_error s' = try_error s /\ Q a (view (ctx s'))
    | Raised _ s' => faborted k s s' | _ => True end) as Hm.
  { intros Q m Hm. specialize (Hm (with_ctx (ctx s) s) Hs (conj Hp eq_refl)). destruct (m _); try done. by destruct Hm. }
  apply (Hm (fun _ => eq v)), fh_run; [inert |]. intros [a |] c c' Ha.
  2: { apply (fh_bind _ _ _ (fun _ => eq v)).
       { apply fh_fe. intros c1 Hc1 [Hd _]. by apply h_leave_dir. }
       intros ?. eapply fh_bind; [fhk |]. intros ?. apply fh_raises; [fk | by apply fe_raises]. }
  - apply push_owned_items in Ha. apply (fh_bind _ _ _ (fun _ => in_file v)).
    { apply fh_fe, h_set_loader. intros c1 [[d Hd] Hb]. exists d, source. unfold view, push_buffer in *. simpl in *.
      rewrite Ha, <- Hb. destruct v. by injection Hd as <- <- <- <-. }
    intros ?. eapply fh_bind; [fhk |]. intros pushed. cbv zeta. eapply fh_bind; [fhk |]. intros res.
    eapply fh_bind; [fhk |]. intros ?. eapply fh_bind; [apply fh_fe, h_leave_buffer |]. intros ?.
    eapply fh_bind; [apply fh_fe, h_leave_dir |]. intros ?. by apply fh_ret.
Qed.
End Eval.

(** ** The error of a protected call *)

Lemma inert_span_of o : inert (Try.lookup_span o).
Proof. unfold Try.lookup_span. inert. Qed.
#[local] Hint Resolve inert_span_of : inert.
Lemma inert_string_for_error o w : inert (append_string_for_error fmt_g7 fmt_p malloc_ok print_fuel o w).
Proof. unfold append_string_for_error. inert. Qed.
Lemma inert_scalar_for_error o w : inert (append_scalar_for_error fmt_g7 fmt_p print_fuel o w).
Proof. unfold append_scalar_for_error. inert. Qed.
#[local] Hint Resolve inert_string_for_error inert_scalar_for_error : inert.
Lemma inert_append_pairs elt f o w : (forall o w, inert (elt o w)) -> inert (append_pairs elt f o w).
Proof. intros H. revert o w. induction f as [| f IH]; intros o w; cbn [append_pairs]; inert. Qed.
Lemma inert_object_for_error f o w : inert (append_object_for_error fmt_g7 fmt_p malloc_ok print_fuel f o w).
Proof.
  revert o w. induction f as [| f IH]; intros o w; cbn [append_object_for_error]; [inert |].
  assert (forall o w, inert (append_pairs (append_object_for_error fmt_g7 fmt_p malloc_ok print_fuel f) f o w)) as Hp
    by (intros; by apply inert_append_pairs). inert.
Qed.
#[local] Hint Resolve inert_object_for_error : inert.
Lemma inert_runtime_trace n l e : inert (fill_runtime_trace fmt_g7 fmt_p malloc_ok print_fuel n l e).
Proof.
  revert l e. induction n as [| n IH]; intros [| o l] e; cbn [fill_runtime_trace]; unfold format_object_for_error; inert.
Qed.
#[local] Hint Resolve inert_runtime_trace : inert.
Lemma inert_try_on_error msg : inert (fex_try_on_error fmt_g7 fmt_p malloc_ok print_fuel msg).
Proof. unfold fex_try_on_error. inert. Qed.

(** *** Reports fit their arrays *)

(** Every result satisfies [P]. *)
Definition yields {A} (P : A -> Prop) (m : comp fe_Context A) : Prop := forall c a c', m c = Done a c' -> P a.
Lemma y_ret {A} (P : A -> Prop) a : P a -> yields P (ret a).
Proof. intros H c a' c' [= <- _]. done. Qed.
Lemma y_bind {A B} (P : B -> Prop) (m : comp fe_Context A) (f : A -> comp fe_Context B) :
  (forall a, yields P (f a)) -> yields P (bind m f).
Proof. intros Hf c b c' (a & c1 & _ & E)%bind_done. by eapply Hf. Qed.
Lemma y_bind_if {A B} (R : A -> Prop) (P : B -> Prop) (m : comp fe_Context A) (f : A -> comp fe_Context B) :
  yields R m -> (forall a, R a -> yields P (f a)) -> yields P (bind m f).
Proof. intros Hm Hf c b c' (a & c1 & E1 & E)%bind_done. eapply Hf; [by eapply Hm | done]. Qed.
Lemma y_never {A} (P : A -> Prop) : yields P stuck /\ yields P no_fuel.
Proof. done. Qed.

(** A writer never passes its capacity, which does not change. *)
Definition bounded (w w' : FexEscapedWriter) : Prop :=
  cap w' = cap w /\ ((length (dst w) < cap w)%nat -> (length (dst w') < cap w')%nat).
#[local] Instance bounded_preorder : PreOrder bounded.
Proof. split; [by split | intros w1 w2 w3 [] []; split; [congruence | auto]]. Qed.
Lemma bounded_append w t : bounded w (escaped_writer_append w t).
Proof. split; [done |]. simpl. rewrite length_app, length_take. lia. Qed.
Lemma bounded_quoted t w : bounded w (quoted_loop t w).
Proof.
  revert w. induction t as [| ch t IH]; intros w; cbn [quoted_loop]; [done |]. etrans; [| apply IH].
  repeat (destruct (decide _)); apply bounded_append.
Qed.
Lemma bounded_scalar n t w b : (length t <= n)%nat -> bounded w (scalar_loop t b w).
Proof.
  revert t w b. induction n as [| n IH]; intros [| ch t] w b Hn; simpl in Hn; try lia; cbn [scalar_loop]; try done.
  destruct b.
  - destruct (decide (ch = backslash)).
    + destruct t as [| ch2 t2]; [apply bounded_append |]. simpl in Hn.
      destruct (decide _); (etrans; [apply bounded_append | apply IH; simpl; lia]).
    + destruct (decide _); (etrans; [apply bounded_append | apply IH; lia]).
  - destruct (decide _); (etrans; [apply bounded_append | apply IH; lia]).
Qed.
Lemma y_string o w : yields (bounded w) (append_string_for_error fmt_g7 fmt_p malloc_ok print_fuel o w).
Proof.
  apply y_bind. intros sp. destruct (sp ≫= Span.source) as [[x ?] |]; [apply y_ret, bounded_append |].
  apply y_bind. intros len. destruct (_ && _); [apply y_ret, bounded_append |].
  apply y_bind. intros [buf ?]. destruct (decide _); [| done]. apply y_ret.
  etrans; [apply bounded_append |]. etrans; [apply bounded_quoted | apply bounded_append].
Qed.
Lemma y_scalar o w : yields (bounded w) (append_scalar_for_error fmt_g7 fmt_p print_fuel o w).
Proof. apply y_bind. intros [buf ?]. by apply y_ret, (bounded_scalar (length buf)). Qed.
Lemma y_pairs elt f o w :
  (forall o w, yields (bounded w) (elt o w)) -> yields (fun r => bounded w (snd r)) (append_pairs elt f o w).
Proof.
  intros He. revert o w. induction f as [| f IH]; intros o w; cbn [append_pairs];
    (apply y_bind; intros t; destruct (_ && _); [| by apply y_ret]); [done |].
  apply y_bind. intros a. eapply y_bind_if; [apply He |]. intros w1 H1. apply y_bind. intros o1. apply y_bind. intros t1.
  intros c r c' E. etrans; [exact H1 |]. eapply IH in E. etrans; [| exact E]. destruct (_ && _); [apply bounded_append | done].
Qed.
Lemma y_object f o w : yields (bounded w) (append_object_for_error fmt_g7 fmt_p malloc_ok print_fuel f o w).
Proof.
  revert o w. induction f as [| f IH]; intros o w; cbn [append_object_for_error]; [done |].
  assert (yields (bounded w) (let* t := type_of o in
    match t with
    | FE_TPAIR =>
        let* '(o, w) := append_pairs (append_object_for_error fmt_g7 fmt_p malloc_ok print_fuel f) f o
                          (escaped_writer_append w (str "(")) in
        let* w := (if isnil o then ret w
                   else append_object_for_error fmt_g7 fmt_p malloc_ok print_fuel f o (escaped_writer_append w (str " . "))) in
        ret (escaped_writer_append w (str ")"))
    | FE_TSTRING => append_string_for_error fmt_g7 fmt_p malloc_ok print_fuel o w
    | _ => append_scalar_for_error fmt_g7 fmt_p print_fuel o w
    end)) as H.
  { apply y_bind. intros t. destruct t; try apply y_scalar; [| apply y_string].
    eapply y_bind_if; [apply y_pairs, IH |]. intros [o1 w1] H1. simpl in H1.
    apply (y_bind_if (bounded w)).
    - destruct (isnil o1); [apply y_ret; etrans; [apply bounded_append | done] |].
      intros c w2 c' E. eapply IH in E. etrans; [apply bounded_append |]. etrans; [exact H1 |]. by etrans; [apply bounded_append |].
    - intros w2 H2. apply y_ret. etrans; [exact H2 | apply bounded_append]. }
  destruct o; exact H.
Qed.
Lemma y_format o n : (0 < n)%nat ->
  yields (fun t => (length t < n)%nat) (format_object_for_error fmt_g7 fmt_p malloc_ok print_fuel o n).
Proof.
  intros Hn. unfold format_object_for_error. rewrite decide_False by lia.
  eapply y_bind_if; [apply y_object |]. intros w [H1 H2]. apply y_ret. rewrite H1 in H2. by apply H2.
Qed.
Lemma y_trace n l e : fits e -> (length (frames e) + n <= FEX_ERROR_TRACE_MAX)%nat ->
  yields fits (fill_runtime_trace fmt_g7 fmt_p malloc_ok print_fuel n l e).
Proof.
  revert l e. induction n as [| n IH]; intros [| o l] e (H1 & H2 & H3 & H4) Hn; cbn [fill_runtime_trace];
    try (by apply y_ret).
  apply y_bind. intros sp. eapply y_bind_if; [apply y_format; unfold FEX_ERROR_EXPRESSION_MAX; lia |].
  intros t Ht. apply IH; [| cbn [frames]; rewrite length_app; simpl; lia].
  assert (forall x, (length (copy_string FEX_ERROR_SOURCE_NAME_MAX x) < FEX_ERROR_SOURCE_NAME_MAX)%nat) as Hc
    by (intros x; apply copy_string_fits; unfold FEX_ERROR_SOURCE_NAME_MAX; lia).
  split_and!; cbn [fe_message fe_source frames]; [done | destruct sp; [destruct (_ =? _) |]; done | rewrite length_app; simpl; lia |].
  apply Forall_app. split; [done |]. apply Forall_singleton. split; [| done].
  destruct sp; [apply Hc |]. simpl. unfold FEX_ERROR_SOURCE_NAME_MAX. lia.
Qed.
Lemma y_on_error msg : yields fits (fex_try_on_error fmt_g7 fmt_p malloc_ok print_fuel msg).
Proof.
  apply y_bind. intros [| sc l]; apply y_bind; intros calls; [done |].
  destruct (wants_error sc); [| by apply y_ret]. apply y_trace; [done |]. simpl. lia.
Qed.

(** With no calls to print the handler raises no error. *)
Lemma on_error_no_calls msg c : error_calls c = [] ->
  match fex_try_on_error fmt_g7 fmt_p malloc_ok print_fuel msg c with Raised _ _ => False | _ => True end.
Proof.
  intros H. unfold fex_try_on_error, bind, gets. rewrite H. destruct (try_scopes (host c)) as [| sc l]; [done |].
  by destruct (wants_error sc).
Qed.

(** The roots and the host's state are what they were. *)
Record handled (c c' : fe_Context) : Prop := {
  hd_gcstack : gcstack c' = gcstack c;
  hd_host : host c' = host c;
  hd_depth : in_s 32 (current_eval_depth c) -> in_s 32 (current_eval_depth c')
}.
Lemma same_handled c c' : same c c' -> handled c c'.
Proof. intros []. split; congruence. Qed.

Lemma caught_handled msg ce c :
  (ce = None -> was_reset c) -> (forall e, jump_error (host c) = Some e -> fits e) ->
  match caught fmt_g7 fmt_p malloc_ok print_fuel msg ce c with
  | Done e c' => handled c c' /\ fits e | Raised _ _ => False | _ => True
  end.
Proof.
  intros Hr Hfit. unfold caught, bind, gets. destruct ce as [ce |]; [by split; [apply same_handled | apply fill_basic_fits] |].
  destruct (jump_error (host c)) as [e |] eqn:Hj; [by split; [apply same_handled | apply Hfit] |].
  destruct (Hr eq_refl Hj) as [Hcl _].
  unfold handle_error. pose proof (inert_try_on_error msg c) as H1.
  destruct (fex_try_on_error _ _ _ _ msg c) as [e c1 | msg2 c1 | |] eqn:E1; try done;
    [by split; [apply same_handled | eapply y_on_error] |].
  destruct H1 as [[_ Hd] Hcalls Hg Hh]. rewrite Hcl in Hcalls.
  pose proof (on_error_no_calls msg2 c1 Hcalls) as Hn. pose proof (inert_try_on_error msg2 c1) as H2.
  destruct (fex_try_on_error _ _ _ _ msg2 c1) as [e c2 | | |] eqn:E; try done. destruct H2 as [F1 F2 F3 F4 F5].
  split; [| by eapply y_on_error]. split; [congruence.. |]. intros _. by rewrite F2, Hd.
Qed.

(** ** The two ends of a protected call *)

Lemma nr_quiet {A} (m : comp fe_Context A) : never_raises m -> never_raises (quiet m).
Proof. intros H s e s'. unfold quiet. specialize (H (ctx s)). destruct (m (ctx s)) eqn:E; try done. by edestruct H. Qed.
Lemma nr_free_fex b : never_raises (tracked_free_fex b).
Proof. apply nr_quiet. nr. Qed.
Lemma nr_cleanup : never_raises (fex_compile_cleanup_ctx ;;; fex_temp_cleanup_all).
Proof.
  assert (never_raises leave_compile_scope) as Hs.
  { unfold leave_compile_scope. nr; apply nr_free_fex. }
  assert (forall l, never_raises (leave_all l)) as Ha by (induction l; cbn [leave_all]; nr).
  assert (forall l, never_raises (free_temps l)) as Ht
    by (induction l; cbn [free_temps]; [nr | by apply nr_bind; [apply nr_free_fex |]]).
  unfold fex_compile_cleanup_ctx, fex_temp_cleanup_all. nr.
Qed.

Lemma leave_try_ends scopes fn s :
  match leave_try scopes fn s with
  | Done _ s' =>
      calllist (ctx s') = calllist (ctx s) /\ current_eval_depth (ctx s') = current_eval_depth (ctx s) /\
      max_eval_depth (ctx s') = max_eval_depth (ctx s) /\ gcstack (ctx s') = gcstack (ctx s) /\
      host (ctx s') = with_try scopes fn None (host (ctx s))
  | Raised _ _ => False
  | _ => True
  end.
Proof.
  unfold leave_try. rewrite <- bind_assoc. unfold bind at 1.
  pose proof (releases_cleanup s) as Hr. pose proof (nr_cleanup s) as Hn.
  destruct (bind _ _ s) as [u s1 | e s1 | |]; try done; [| by apply (Hn e s1)].
  destruct Hr as [[E1 E2 E3 E4 E5] _]. unfold quiet, modify. simpl. by rewrite E1, E2, E3, E4, E5.
Qed.

(** What a protected call does before its roots are cut back.  [c] is the
    context it is entered with. *)
Definition ended (k : nat) (scopes : list FexTryScope) (fn : fe_ErrorFn) (c : fe_Context) (r : FexError + obj) (c' : fe_Context)
    : Prop :=
  (k <= length (gcstack c'))%nat /\ take k (gcstack c') = take k (gcstack c) /\
  try_scopes (host c') = scopes /\ error_fn (host c') = fn /\ jump_error (host c') = None /\
  match r with
  | inr _ => calllist c' = calllist c /\ current_eval_depth c' = current_eval_depth c /\
      max_eval_depth c' = max_eval_depth c /\ view c' = view c
  | inl e => idle c' /\ fits e
  end.

Lemma protected_ends k m scopes fn c :
  fkeeps k m -> ready k c ->
  match in_fex (protected fmt_g7 fmt_p malloc_ok print_fuel m scopes fn) c with
  | Done r c' => ended k scopes fn c r c'
  | Raised _ _ => False
  | _ => True
  end.
Proof.
  intros Hm Hc. unfold in_fex, protected. specialize (Hm (MkFex c [] [] true None []) Hc).
  destruct (m _) as [o s | msg s | |]; try done.
  - destruct Hm as [[H1 H2]%stable_control _]. unfold bind. pose proof (leave_try_ends scopes fn s) as Hl.
    destruct (leave_try _ _ s) as [u s1 | | |]; try done. destruct Hl as (E1 & E2 & E3 & E4 & E5).
    simpl in *. destruct H1. unfold ended, view in *. rewrite E1, E2, E3, E4, E5. simpl. by split_and!.
  - destruct Hm as [Hr Hd Hl Ht Hs Hj]. simpl in *. unfold bind, quiet.
    pose proof (caught_handled msg (try_error s) (ctx s) Hr Hj) as Hh.
    destruct (caught _ _ _ _ _ _ _) as [e c1 | | |]; try done. destruct Hh as [[G1 G2 G3] Hfit].
    pose proof (leave_try_ends scopes fn (with_ctx c1 s)) as Hl'.
    destruct (leave_try _ _ _) as [u s1 | | |]; try done. destruct Hl' as (E1 & E2 & E3 & E4 & E5). simpl in *.
    unfold ended, idle. rewrite E2, E4, E5, G1. by split_and!; auto.
Qed.

Lemma nr_set_loader f : never_raises (set_loader f).
Proof. unfold set_loader. nr. Qed.
Lemma nr_array_pop a : never_raises (string_array_pop a).
Proof. unfold string_array_pop, free_str, free. nr. Qed.
Lemma nr_repeated n m : never_raises m -> never_raises (repeated n m).
Proof. intros H. induction n; cbn [repeated]; nr. Qed.
Lemma nr_reset : never_raises fex_reset_import_state.
Proof.
  assert (never_raises pop_source_buffer /\ never_raises pop_source_dir /\ never_raises pop_loading_module)
    as (H1 & H2 & H3).
  { split_and!; (apply nr_bind; [done | intros l]; apply nr_bind; [apply nr_array_pop | intros a; apply nr_set_loader]). }
  unfold fex_reset_import_state. apply nr_bind; [done | intros l].
  do 3 (apply nr_bind; [by apply nr_repeated | intros _]). nr.
Qed.

(** What a protected call promises its caller. *)
Definition contained (preserve : bool) (c : fe_Context) (r : TryResult) (c' : fe_Context) : Prop :=
  try_scopes (host c') = try_scopes (host c) /\ error_fn (host c') = error_fn (host c) /\ jump_error (host c') = None /\
  if decide (try_status r = FEX_STATUS_OK) then
    calllist c' = calllist c /\ current_eval_depth c' = current_eval_depth c /\ max_eval_depth c' = max_eval_depth c /\
    view c' = view c /\
    (gcstack c' = gcstack c \/ preserve = true /\ exists o, gcstack c' = gcstack c ++ [o])
  else
    out_result r = NULL /\ fits (out_error r) /\ gcstack c' = gcstack c /\ in_s 32 (current_eval_depth c') /\
    v_dirs (view c') = [] /\ v_buffers (view c') = [] /\ v_loading (view c') = [] /\ modulestack c' = Nil.

Lemma known_error_fails (wants : bool) e :
  (if wants then status (known_error e) else FEX_STATUS_RUNTIME_ERROR) <> FEX_STATUS_OK.
Proof. unfold known_error. destruct wants; [| done]. by destruct (decide (status e = FEX_STATUS_OK)). Qed.

Lemma known_error_fits e : fits e -> fits (known_error e).
Proof.
  intros (H1 & H2 & H3 & H4). unfold known_error. destruct (decide _); split_and!; try done.
  cbn [fe_message]. change (length (str "unknown error")) with 13%nat. unfold FEX_ERROR_MESSAGE_MAX. lia.
Qed.

(** The loader's stacks are emptied and no root is touched. *)
Definition same_roots {A} (m : comp fe_Context A) : Prop := forall c a c', m c = Done a c' -> gcstack c' = gcstack c.
Lemma sr_inert {A} (m : comp fe_Context A) : inert m -> same_roots m.
Proof. intros H c a c' E. specialize (H c). rewrite E in H. apply H. Qed.
Lemma sr_bind {A B} (m : comp fe_Context A) (f : A -> comp fe_Context B) :
  same_roots m -> (forall a, same_roots (f a)) -> same_roots (bind m f).
Proof. intros Hm Hf c b c' (a & c1 & E1 & E2)%bind_done. erewrite Hf by done. by eapply Hm. Qed.
Lemma sr_reset : same_roots fex_reset_import_state.
Proof.
  assert (forall f, same_roots (set_loader f)) as Hset by (intros f c a c' E; by injection E as _ <-).
  assert (same_roots pop_source_buffer /\ same_roots pop_source_dir /\ same_roots pop_loading_module) as (H1 & H2 & H3).
  { split_and!; (apply sr_bind; [apply sr_inert; inert | intros l]; apply sr_bind; [apply sr_inert; inert | intros a; apply Hset]). }
  assert (forall n m, same_roots m -> same_roots (repeated n m)) as Hrep.
  { intros n m Hm. induction n; cbn [repeated]; [apply sr_inert; inert | by apply sr_bind]. }
  apply sr_bind; [apply sr_inert; inert | intros l]. do 3 (apply sr_bind; [by apply Hrep | intros _]).
  intros c a c' E. by injection E as _ <-.
Qed.
Lemma reset_clears c c' : idle c -> fex_reset_import_state c = Done tt c' ->
  control 0 c c' /\ gcstack c' = gcstack c /\ view c' = no_imports (view c) /\ modulestack c' = Nil.
Proof.
  intros Hc E. pose proof (h_reset 0 (view c) c (conj (Nat.le_0_l _) Hc) eq_refl) as H. rewrite E in H.
  destruct H as [H1 H2]. split_and!; [done | exact (sr_reset _ _ _ E) | by symmetry |].
  unfold fex_reset_import_state in E. inv_done. unfold modify in *. by simplify_eq.
Qed.

Lemma try_run_contained m wants name preserve c :
  (forall k, fkeeps k m) -> in_s 32 (current_eval_depth c) ->
  match fex_try_run_internal fmt_g7 fmt_p malloc_ok print_fuel m wants name preserve c with
  | Done r c' => contained preserve c r c'
  | Raised _ _ => False
  | _ => True
  end.
Proof.
  intros Hm Hd. unfold fex_try_run_internal. unfold bind at 1 2 3, gets, fe_savegc, gets, enter_try, modify. cbv beta.
  set (k := length (gcstack c)). set (c1 := with_host _ c).
  unfold bind at 1. pose proof (protected_ends k m (try_scopes (host c)) (error_fn (host c)) c1 (Hm k) (conj (le_n _) (conj Hd eq_refl))) as Hp.
  destruct (in_fex _ c1) as [r c2 | | |]; try done. destruct Hp as (Hlen & Hroots & Hs & Hf & Hj & Hr).
  change (gcstack c1) with (gcstack c) in Hroots. unfold k in Hroots. rewrite firstn_all in Hroots. fold k in Hroots.
  destruct r as [e | o].
  - unfold bind at 1, fe_restoregc. rewrite decide_True by done.
    set (c3 := with_gcstack _ c2). unfold bind at 1.
    destruct (fex_reset_import_state c3) as [[] c4 | | |] eqn:E; try done; [| by eapply nr_reset].
    destruct Hr as [Hi Hfit]. destruct (reset_clears c3 c4 Hi E) as ([_ Hd4 _ _ _ Hs4 Hf4 Hj4] & Hg & Hv & Hms).
    unfold contained, ret. cbn [try_status]. rewrite decide_False by apply known_error_fails.
    rewrite Hs4, Hf4, Hd4, Hv, Hg. split_and!; try done; [by apply Hj4 | by apply known_error_fits | apply Hi].
  - unfold bind at 1, fe_savegc, gets. unfold bind at 1, fe_restoregc.
    set (idx := if _ && _ && _ then S k else k).
    assert (idx = k \/ preserve = true /\ idx = S k /\ (k < length (gcstack c2))%nat) as Hi.
    { unfold idx. destruct preserve; [| by left]. destruct (bool_decide _); [| by left]. simpl.
      destruct (Nat.ltb_spec k (length (gcstack c2))); [by right | by left]. }
    rewrite decide_True by lia. unfold contained, ret. cbn [try_status]. rewrite decide_True by done.
    destruct Hr as (H1 & H2 & H3 & H4). split_and!; try done. cbn.
    destruct Hi as [-> | (Hp & -> & Hl)]; [by left; rewrite Hroots | right].
    split; [done |]. destruct (lookup_lt_is_Some_2 (gcstack c2) k Hl) as [o' Ho'].
    exists o'. by rewrite (take_S_r _ _ _ Ho'), Hroots.
Qed.

(** ** Importing *)

Lemma h_raises {A} k P (m : comp fe_Context A) Q : keeps k m -> (forall c a c', m c <> Done a c') -> hoare k P m Q.
Proof. intros Hm Hn c Hc _. specialize (Hm c Hc). destruct (m c) eqn:E; try done. by destruct (Hn c a s). Qed.
Lemma h_pre {A} k (P P' : View -> Prop) (m : comp fe_Context A) Q :
  hoare k P m Q -> (forall v, P' v -> P v) -> hoare k P' m Q.
Proof. intros Hm HP c Hc Hp. by apply Hm; [| apply HP]. Qed.
Lemma raises_bind {A B} (m : comp fe_Context A) (f : A -> comp fe_Context B) :
  (forall a c b c', f a c <> Done b c') -> forall c b c', bind m f c <> Done b c'.
Proof. intros H c b c' (a & c1 & _ & E)%bind_done. by eapply H. Qed.

Ltac raises := repeat (apply raises_bind; intros ?); done.

Section Loading.
Context (eval_ : obj -> comp fe_Context obj) (Heval : forall k o, keeps k (eval_ o)).

Lemma keeps_leave_import k a g s : (k <= g)%nat -> keeps k (leave_import a g s).
Proof. intros. unfold leave_import. keeps. Qed.
#[local] Hint Resolve keeps_leave_import : keeps.
Lemma keeps_import_prefixes k imp n s a l :
  (forall s b, keeps k (imp s b)) -> keeps k (import_prefixes imp n s a l).
Proof. intros H. induction l as [| i l IH]; cbn [import_prefixes]; keeps. Qed.
Lemma keeps_import_missing k s n a p r o g : (k <= g)%nat -> keeps k (import_missing s n a p r o g).
Proof. intros. unfold import_missing. keeps. Qed.
Lemma keeps_loaded_value k s l e : keeps k (loaded_value s l e).
Proof. unfold loaded_value. keeps. Qed.
Lemma keeps_import_failed k e : fits e -> keeps k (import_failed e).
Proof. intros. unfold import_failed. keeps. Qed.
#[local] Hint Resolve keeps_import_missing keeps_loaded_value keeps_import_failed : keeps.

(** The path of the module is the last of those being loaded. *)
Definition in_import (v v' : View) : Prop := exists p, push_loading p v = v'.
Lemma h_leave_loading k v : hoare k (in_import v) pop_loading_module (fun _ => eq v).
Proof.
  intros c Hc [p Hp]. pose proof (h_pop_loading k (push_loading p v) c Hc Hp) as H.
  destruct (pop_loading_module c); try done. by rewrite pop_push_loading in H.
Qed.
Lemma h_pop_any k : hoare k (fun _ => True) pop_loading_module (fun _ _ => True).
Proof.
  intros c Hc _. pose proof (h_pop_loading k (view c) c Hc eq_refl) as H.
  destruct (pop_loading_module c); try done. by destruct H.
Qed.

Lemma h_finish_import k v s p a r g e :
  (k <= g)%nat -> hoare k (in_import v) (finish_import s p a r g e) (fun _ => eq v).
Proof.
  intros Hg. unfold finish_import. eapply h_bind; [apply h_leave_loading |]. intros ?. apply h_keeps. keeps.
Qed.

Lemma contained_control c r c' : contained false c r c' -> try_status r = FEX_STATUS_OK ->
  forall k, (k <= length (gcstack c))%nat -> control k c c' /\ view c' = view c.
Proof.
  intros (Hs & Hf & Hj & H) Hok k Hk. rewrite decide_True in H by done.
  destruct H as (H1 & H2 & H3 & H4 & [H5 | [? _]]); [| done]. split; [| done]. split; try done; congruence.
Qed.
Lemma contained_aborted k pr c r c1 c2 : contained pr c r c1 -> try_status r <> FEX_STATUS_OK -> ready k c ->
  ready k c1 /\ (aborted k c1 c2 -> aborted k c c2) /\ fits (out_error r).
Proof.
  intros (Hs & Hf & Hj & H) Hok [Hk _]. rewrite decide_False in H by done.
  destruct H as (_ & Hfit & H2 & H3 & _). split_and!; [split; [congruence | by split] | | done].
  intros []. split; try done; congruence.
Qed.

(** Running the file that was found. *)
Lemma h_run_import k v m name (ok : TryResult -> comp fe_Context obj) (failed : TryResult -> comp fe_Context obj) :
  (forall k, fkeeps k m) ->
  (forall r, hoare k (in_import v) (ok r) (fun _ => eq v)) ->
  (forall r, fits (out_error r) -> hoare k (fun _ => True) (failed r) (fun _ _ => False)) ->
  hoare k (in_import v)
    (let* r := fex_try_run_internal fmt_g7 fmt_p malloc_ok print_fuel m true name false in
     if decide (try_status r = FEX_STATUS_OK) then ok r else failed r) (fun _ => eq v).
Proof.
  intros Hm Hok Hfail c Hc Hv. unfold bind. pose proof (try_run_contained m true name false c Hm (proj1 (proj2 Hc))) as Hr.
  destruct (fex_try_run_internal _ _ _ _ _ _ _ _ c) as [r c1 | | |]; try done.
  destruct (decide (try_status r = FEX_STATUS_OK)) as [E | E].
  - destruct (contained_control _ _ _ Hr E k (proj1 Hc)) as [H1 H2].
    assert (in_import v (view c1)) as Hv1 by (by rewrite H2).
    specialize (Hok r c1 (control_ready _ _ _ Hc H1) Hv1). destruct (ok r c1); try done.
    + destruct Hok. split; [by eapply control_trans | done].
    + by eapply control_aborted.
  - destruct (contained_aborted k _ _ _ _ c1 Hr E Hc) as (Hc1 & _ & Hfit). specialize (Hfail r Hfit c1 Hc1 I).
    destruct (failed r c1) as [? ? | ? c2 | |]; try done; [by destruct Hfail |].
    by eapply (contained_aborted k _ _ _ _ c2 Hr E Hc).
Qed.

Abbreviation import_file := (import_file realpath read_file fmt_g7 fmt_p malloc_ok print_fuel spent oob realloc_ok eval_).

Lemma keeps_import_file k s p a r g : (k <= g)%nat -> keeps k (import_file s p a r g).
Proof.
  intros Hg. apply keeps_hoare. intros v. unfold Import.import_file. apply h_loader. intros l.
  apply h_run; [inert |]. intros cyclic _ _ _. destruct cyclic.
  { apply h_raises; [keeps |]. raises. }
  apply h_run; [inert |]. intros [a' |] c c' E.
  2: { apply h_raises; [keeps |]. raises. }
  apply push_copy_items in E as [b Hb]. apply (h_bind _ _ _ (fun _ => in_import v)).
  { set_view. exists (fst p, b). by rewrite Hb. }
  intros ?. eapply h_bind; [hk |]. intros e. eapply h_bind; [hk |]. intros ?.
  apply (h_run_import k v _ _
    (fun r0 => if decide (out_result r0 = NULL) then _ else _) (fun r0 => _)).
  - intros k'. by apply fk_do_file.
  - intros r0. destruct (decide _).
    + eapply h_bind; [apply h_leave_loading |]. intros ?. apply h_raises; [keeps |]. raises.
    + eapply h_bind; [hk |]. intros ?. by apply h_finish_import.
  - intros r0 Hfit. eapply h_bind; [apply h_pop_any |]. intros ?. apply h_raises; [keeps |].
    unfold import_failed. raises.
Qed.
#[local] Hint Resolve keeps_import_file : keeps.

Lemma keeps_import_spec k f s o :
  keeps k (import_module_spec file_exists realpath read_file fmt_g7 fmt_p malloc_ok print_fuel spent oob realloc_ok eval_ f s o).
Proof.
  revert s o. induction f as [| f IH]; intros s o; cbn [import_module_spec]; [by keeps |].
  pose proof (fun n s a l => keeps_import_prefixes k _ n s a l IH) as Hp. unfold import_found. keeps.
Qed.
#[local] Hint Resolve keeps_import_spec : keeps.
Lemma keeps_import_module k o :
  keeps k (import_module file_exists realpath read_file fmt_g7 fmt_p malloc_ok print_fuel spent oob realloc_ok eval_ o).
Proof. unfold import_module. keeps. Qed.
End Loading.

(** ** Evaluator and loader *)

Context (cfunc : nat -> obj -> comp fe_Context obj) (lhs_first : bool) (fuel : nat).
Context (Hcfunc : forall k f arg, keeps k (cfunc f arg)).

Lemma keeps_import_loader depth k o :
  keeps k (import_loader file_exists realpath read_file fmt_g7 fmt_p malloc_ok print_fuel spent oob realloc_ok
             cfunc lhs_first fuel depth o).
Proof.
  revert k o. induction depth as [| d IH]; intros k o; cbn [import_loader]; [by keeps |].
  apply keeps_import_module. intros k' o'. by apply keeps_fe_eval.
Qed.
End Files.
