(* ===== verification/ImportSpec.v ===== *)
(** * The interpreter with its module loader

    The evaluator and the loader call each other: an import statement runs a
    file, and the file may import others.  Programs of several files run
    here under protected calls, on an interpreter without builtins. *)

From Stdlib Require Import ZArith Lia Ascii String.
From stdpp Require Import base list.
From S2P Require Import Prelude Number Memory Budget MapTable Slab SlabSpec Span Host Ctx Gc GcProps Objects Writer Eval Frame EvalFrame Open EvalProps Lexer Parser ParserFrame ParserProps Builtins Modules ModulesSpec LoaderFrame Try Import ImportFrame.

(** ** Protected calls *)

Section Interpreter.
Context (file_exists : chars -> bool) (realpath : chars -> option chars) (read_file : chars -> FileRead).
Context (fmt_g7 : double -> chars) (fmt_p : obj -> chars) (malloc_ok realloc_ok : Z -> bool) (print_fuel : nat).
Context (oob : double -> Z) (cfunc : nat -> obj -> comp fe_Context obj) (lhs_first : bool) (fuel depth : nat).

Definition interpret : obj -> comp fe_Context obj :=
  Import.fe_eval file_exists realpath read_file fmt_g7 fmt_p malloc_ok print_fuel out_of_bound oob realloc_ok cfunc
    lhs_first fuel depth.

Definition protected_call : Call -> bool -> comp fe_Context TryResult :=
  try_call realpath read_file fmt_g7 fmt_p malloc_ok print_fuel out_of_bound oob realloc_ok interpret.
End Interpreter.

(** ** Programs of several files *)

Definition files (p : chars) : option string :=
  if decide (p = str "./util.fex") then Some "export fn f(x) { return x + 1; }"%string
  else if decide (p = str "./bad.fex") then Some "let = ;"%string
  else if decide (p = str "./boom.fex") then Some "let y = 1; nofun(2);"%string
  else if decide (p = str "./a.fex") then Some "import b;"%string
  else if decide (p = str "./b.fex") then Some "import a;"%string
  else if decide (p = str "./pkg/sub.fex") then Some "export let z = 7;"%string
  else None.
Definition a_file (p : chars) : bool := match files p with Some _ => true | None => false end.
Definition bytes_of_file (p : chars) : FileRead :=
  match files p with Some s => FileBytes (Z.of_nat (String.length s)) (str s) | None => NoFile end.

Definition no_format {A} (_ : A) : chars := str "?".
Definition no_cfunc (_ : nat) (_ : obj) : comp fe_Context obj := stuck.

Definition run_call (x : Call) : comp fe_Context TryResult :=
  protected_call a_file (fun _ => None) bytes_of_file no_format no_format (fun _ => true) (fun _ => true) 100
    oob_x86 no_cfunc true 1000 5 x true.

(** What the caller prints: the error report, or the result. *)
Definition reported (m : comp fe_Context TryResult) (c : fe_Context) : string :=
  match m c with
  | Done r c' =>
      if decide (try_status r = FEX_STATUS_OK) then
        match fe_tostring no_format no_format 100 (out_result r) 400 c' with
        | Done (x, _) _ => string_of_list_ascii x
        | _ => "not printed"
        end
      else string_of_list_ascii (fex_print_error (out_error r))
  | Raised e _ => "raised"
  | Stuck => "undefined behaviour"
  | NoFuel => "out of fuel"
  end%string.
Definition in_context {A} (start : outcome fe_Context unit) (f : fe_Context -> A) : option A :=
  match start with Done _ c => Some (f c) | _ => None end.
Definition report (text : string) : option string :=
  in_context (small_context 700 300) (reported (run_call (CallString (str text)))).

Definition newline : string := String (ascii_of_nat 10) EmptyString.

Example imported_function : report "import util; util.f(41);" = Some "42"%string.
Proof. vm_compute. reflexivity. Qed.
Example imported_package : report "import pkg.sub; pkg.sub.z;" = Some "7"%string.
Proof. vm_compute. reflexivity. Qed.
Example module_error_has_trace :
  report "import boom;" = Some
  ("runtime error: tried to call non-callable value" ++ newline ++ "at ./boom.fex" ++ newline ++
   "[0] => (nofun 2)" ++ newline ++ "[1] => (import " ++ String (ascii_of_nat 34) "boom" ++
   String (ascii_of_nat 34) ")" ++ newline)%string.
Proof. vm_compute. reflexivity. Qed.
(** Two files that import each other are an error, not a loop. *)
Example cyclic_import_reported :
  String.substring 0 52 <$> report "import a;" = Some "runtime error: cyclic import detected for module 'a'"%string.
Proof. vm_compute. reflexivity. Qed.
Example missing_module_reported :
  report "import nothere;" = Some
  ("runtime error: could not resolve module 'nothere'" ++ newline ++ "searched:" ++ newline ++
   "  - ./nothere.fex" ++ newline ++ "  - ./nothere/index.fex" ++ newline ++ newline ++ "at <string>" ++ newline ++
   "[0] => (import " ++ String (ascii_of_nat 34) "nothere" ++ String (ascii_of_nat 34) ")" ++ newline)%string.
Proof. vm_compute. reflexivity. Qed.

(** A compile error in an imported file is a longjmp past fe_error: the
    protected call returns with the call list, the evaluation depth and the
    count of running evaluations of the frames it has left. *)
Definition left_over (text : string) (c : fe_Context) : option (nat * Z * Z) :=
  match run_call (CallString (str text)) c with
  | Done r c' => Some (length (calllist c'), current_eval_depth c', eval_depth (rt_bud (rt c')))
  | _ => None
  end.
Lemma import_compile_error_leaves_calls :
  in_context (small_context 700 300) (left_over "import bad;") = Some (Some (1%nat, 1, 1)) /\
  in_context (small_context 700 300) (left_over "import boom;") = Some (Some (0%nat, 0, 0)).
Proof. vm_compute. split; reflexivity. Qed.
