(* ===== verification/Agree.v ===== *)
(** * Computations that reach the same C functions

    A heap confines the C functions when every function pointer it stores is
    among the given ones.  Two computations agree when, on such a heap, they
    have the same outcome and leave such a heap behind; a computation that
    agrees with itself keeps the heap confined.  This file has the rules and
    the operations of the collector, the objects and the printer. *)

From Stdlib Require Import ZArith Lia Ascii String.
From stdpp Require Import base list.
From S2P Require Import Prelude Number Memory Budget MapTable Slab Span Host Ctx Gc Objects Writer.

(** ** Heaps *)

(** The function pointers that may be stored, and the calls of the system
    that have been made, when no more of them may be made. *)
Record Policy := MkPolicy { allowed : nat -> Prop; calls : option (list Event) }.

Section Confined.
Context (ok : Policy).
Definition value_ok (v : Value) : Prop := match v with VCFunc f => allowed ok f | _ => True end.
Definition cell_ok (x : cell) : Prop := value_ok (cdr x).
End Confined.

(** The states of the components that contain the heap, and whether they
    have made exactly the given calls. *)
Class HasCells (S : Type) := { heap : S -> list cell; has_made : list Event -> S -> Prop }.
#[export] Instance HasCells_self : HasCells (list cell) := {| heap := fun cs => cs; has_made := fun _ _ => True |}.
#[export] Instance HasCells_ctx : HasCells fe_Context := {| heap := cells; has_made := fun l c => events (host c) = l |}.
#[export] Instance HasCells_pair {B} : HasCells (fe_Context * B) :=
  {| heap := fun s => cells (fst s); has_made := fun l s => events (host (fst s)) = l |}.

Definition confined {S} `{HasCells S} (ok : Policy) (s : S) : Prop :=
  Forall (cell_ok ok) (heap s) /\ match calls ok with Some l => has_made l s | None => True end.

(** ** Agreement *)

Definition leaves_confined {S} `{HasCells S} {A} (ok : Policy) (r : outcome S A) : Prop :=
  match r with Done _ s | Raised _ s => confined ok s | Stuck | NoFuel => True end.
Definition agree {S} `{HasCells S} {A} (ok : Policy) (m m' : comp S A) : Prop :=
  forall s, confined ok s -> m s = m' s /\ leaves_confined ok (m s).

(** The diagonal: [m] keeps the heap confined. *)
Abbreviation confines ok m := (agree ok m m).

Section Rules.
Context {S : Type} `{HasCells S} (ok : Policy).

Lemma ag_diagonal {A} (m : comp S A) :
  (forall s, confined ok s -> leaves_confined ok (m s)) -> confines ok m.
Proof. intros Hm s Hs. auto. Qed.
Lemma ag_ret {A} (a : A) : confines ok (ret a).
Proof. by apply ag_diagonal. Qed.
Lemma ag_stuck {A} : confines ok (@stuck S A).
Proof. by apply ag_diagonal. Qed.
Lemma ag_no_fuel {A} : confines ok (@no_fuel S A).
Proof. by apply ag_diagonal. Qed.
Lemma ag_gets {A} (f : S -> A) : confines ok (gets f).
Proof. by apply ag_diagonal. Qed.
Lemma ag_get : confines ok (@get S).
Proof. by apply ag_diagonal. Qed.
Lemma ag_put s : confined ok s -> confines ok (put s).
Proof. intros Hs. by apply ag_diagonal. Qed.
Lemma ag_modify (f : S -> S) : (forall s, confined ok s -> confined ok (f s)) -> confines ok (modify f).
Proof. intros Hf. apply ag_diagonal. intros s Hs. by apply Hf. Qed.
Lemma ag_raised {A} msg : confines ok (fun s => Raised (A := A) msg s).
Proof. by apply ag_diagonal. Qed.
Lemma ag_bind {A B} (m m' : comp S A) (f f' : A -> comp S B) :
  agree ok m m' -> (forall a, agree ok (f a) (f' a)) -> agree ok (bind m f) (bind m' f').
Proof.
  intros Hm Hf s Hs. unfold bind. destruct (Hm s Hs) as [<- Hc]. destruct (m s) as [a s1 | | |]; try done.
  by apply Hf.
Qed.
Lemma ag_then {A B} (m : comp S A) (f : A -> comp S B) s :
  confines ok m -> (forall a, confines ok (f a)) -> confined ok s -> leaves_confined ok (bind m f s).
Proof. intros Hm Hf. intros Hs. by apply (ag_bind m m f f Hm Hf). Qed.
Lemma ag_get_bind {B} (f f' : S -> comp S B) :
  (forall s, confined ok s -> agree ok (f s) (f' s)) -> agree ok (bind get f) (bind get f').
Proof. intros Hf s Hs. by apply Hf. Qed.
End Rules.

Create HintDb agree.
#[export] Hint Resolve ag_ret ag_stuck ag_no_fuel ag_gets ag_get ag_raised : agree.
#[export] Hint Extern 1 (agree _ (put _) _) => apply ag_put; assumption : agree.
#[export] Hint Extern 1 (agree _ (modify _) _) =>
  apply ag_modify; first [exact (fun _ H => H) | intros [? ?] ?; assumption] : agree.

Section Cells.
Context (ok : Policy).

Lemma ag_read_cell_bind {B} i (f f' : cell -> comp fe_Context B) :
  (forall x, cell_ok ok x -> agree ok (f x) (f' x)) -> agree ok (bind (read_cell i) f) (bind (read_cell i) f').
Proof.
  intros Hf c Hc. unfold bind, read_cell. destruct (cells c !! i) as [x |] eqn:E; [| done].
  apply Hf; [| done]. by eapply Forall_lookup_1; [apply Hc |].
Qed.
Lemma ag_read_cell i : confines ok (read_cell i).
Proof. apply ag_diagonal. intros c Hc. unfold read_cell. by destruct (cells c !! i). Qed.
Lemma ag_write_cell i x : cell_ok ok x -> confines ok (write_cell i x).
Proof.
  intros Hx. apply ag_diagonal. intros c Hc. unfold write_cell. destruct (cells c !! i); [| done].
  destruct Hc. split; [by apply Forall_insert | done].
Qed.
Lemma ag_error {A} msg : confines ok (@Ctx.fe_error A msg).
Proof. by apply ag_diagonal. Qed.
Lemma ag_error_resets {A} (m m' : comp fe_Context A) : agree ok m m' -> agree ok (error_resets m) (error_resets m').
Proof. intros Hm c Hc. unfold error_resets. destruct (Hm c Hc) as [<- Hl]. by destruct (m c). Qed.
Lemma ag_lift_rt {A} (m : comp Rt A) : confines ok (lift_rt m).
Proof. apply ag_diagonal. intros c Hc. unfold lift_rt. by destruct (m (rt c)). Qed.
Lemma ag_lift_spans {A} (m : comp Spans A) : confines ok (lift_spans m).
Proof. apply ag_diagonal. intros c Hc. unfold lift_spans. by destruct (m _). Qed.
Lemma ag_lift_arena {A} (m : comp StrArena A) : confines ok (lift_arena (S := fe_Context) m).
Proof. apply ag_diagonal. intros c Hc. unfold lift_arena. by destruct (m _). Qed.
Lemma ag_lift_cells {A} (m : comp (list cell) A) : confines ok m -> confines ok (lift_cells m).
Proof.
  intros Hm. apply ag_diagonal. intros c Hc. unfold lift_cells. destruct Hc as [Hc He].
  destruct (Hm (cells c)) as [_ Hl]; [split; [done | by destruct (calls ok)] |].
  destruct (m (cells c)); try done; (split; [apply Hl | done]).
Qed.
Lemma ag_restoregc idx : confines ok (fe_restoregc idx).
Proof. apply ag_diagonal. intros c Hc. unfold fe_restoregc. by case_decide. Qed.

(** Beside the context there is data of the caller. *)
Lemma ag_in_ctx {A B} (m m' : comp fe_Context A) : agree ok m m' -> agree ok (in_ctx (B := B) m) (in_ctx m').
Proof. intros Hm [c b] Hc. unfold in_ctx. destruct (Hm c Hc) as [<- Hl]. by destruct (m c). Qed.
End Cells.

#[export] Hint Resolve ag_read_cell ag_error ag_lift_rt ag_lift_spans ag_lift_arena ag_restoregc : agree.
#[export] Hint Extern 1 (agree _ (write_cell _ _) _) => apply ag_write_cell; first [assumption | exact I] : agree.
#[export] Hint Extern 1 (agree _ (lift_budget _) _) => apply ag_lift_rt : agree.
#[export] Hint Extern 1 (agree _ (lift_memory _) _) => apply ag_lift_rt : agree.

Ltac head t := lazymatch t with ?f _ => head f | _ => t end.

(** Through sequences and cases; a definition that has no lemma is unfolded.
    What remains are the calls of the caller's own computations. *)
Ltac agree :=
  repeat (cbv beta iota zeta; lazymatch goal with
    | |- agree _ (bind get _) _ => apply ag_get_bind; intros ? ?
    | |- agree _ (bind (read_cell _) _) _ => apply ag_read_cell_bind; intros ? ?
    | |- agree _ (bind _ _) _ => apply ag_bind; [| intros ?]
    | |- agree _ (in_ctx _) _ => apply ag_in_ctx
    | |- agree _ (error_resets _) _ => apply ag_error_resets
    | H : cell_ok _ ?x |- agree _ (match cdr ?x with _ => _ end) _ =>
        unfold cell_ok in H; destruct (cdr x) in H |- *; cbn [value_ok] in H
    | |- agree _ (match ?x with _ => _ end) _ => destruct x
    | |- agree _ ?m _ => first [solve [auto with agree] | let h := head m in is_const h; progress unfold h]
    end).

(** ** Cells *)

Section Heap.
Context (ok : Policy).

Lemma ag_settype o t : confines ok (settype o t).
Proof. unfold settype. agree. Qed.
Lemma ag_setcar o v : confines ok (setcar o v).
Proof. unfold setcar. agree. Qed.
Lemma ag_setcdr o v : value_ok ok v -> confines ok (setcdr o v).
Proof. intros Hv. unfold setcdr. agree. Qed.
End Heap.
#[export] Hint Resolve ag_settype ag_setcar : agree.
#[export] Hint Extern 1 (agree _ (setcdr _ _) _) => apply ag_setcdr; first [assumption | exact I] : agree.

(** ** The collector *)

Section Collector.
Context (ok : Policy).

Lemma ag_push_children rec os stack :
  (forall o, confines ok (rec o)) -> confines ok (push_children rec os stack).
Proof.
  intros Hrec. revert stack. induction os as [| o os IH]; intros stack; cbn [push_children]; [by auto with agree |].
  unfold push_child. agree.
Qed.
Lemma ag_mark_loop f stack o : confines ok (mark_loop f stack o).
Proof.
  revert stack o. induction f as [| f IH]; intros stack o; cbn [mark_loop]; [by auto with agree |].
  assert (confines ok (match stack with [] => ret tt | o :: stack => mark_loop f stack o end)) as Hpop by agree.
  destruct o; try done. apply ag_diagonal. intros cs Hcs. destruct (cs !! i) as [x |] eqn:E; [| by apply Hpop].
  destruct (gcmark x); [by apply Hpop |].
  assert (confined ok (<[i := set_gcmark true x]> cs)) as Hcs'.
  { destruct Hcs as [Hcs ?]. split; [| done]. apply Forall_insert; [done |]. exact (Forall_lookup_1 _ _ _ _ Hcs E). }
  destruct (ty x); try by apply Hpop.
  - destruct (car x), (cdr x); try done.
    apply ag_then; [unfold push_child; agree | intros st; apply IH | done].
  - destruct (cdr x); try done. by apply IH.
  - destruct (cdr x); try done. by apply IH.
  - destruct (cdr x); try done. by apply IH.
  - destruct (cdr x) as [| | | | | | p |]; try done. destruct p; try done; by apply Hpop.
  - destruct (cdr x) as [| | | | [m |] | | |]; try done; [| by apply Hpop].
    apply ag_then; [by apply ag_push_children | intros st; agree | done].
Qed.
Lemma ag_fe_mark o : confines ok (fe_mark o).
Proof. intros cs. apply ag_mark_loop. Qed.
Lemma ag_mark_each os : confines ok (mark_each os).
Proof. induction os; cbn [mark_each]; agree. apply ag_fe_mark. Qed.
Lemma ag_sweep n i live : confines ok (sweep n i live).
Proof. revert i live. induction n as [| n IH]; intros i live; cbn [sweep]; agree. Qed.
End Collector.
#[export] Hint Resolve ag_fe_mark ag_mark_each ag_sweep : agree.
#[export] Hint Extern 1 (agree _ (lift_cells _) _) => apply ag_lift_cells; auto with agree : agree.

Section Alloc.
Context (ok : Policy).
Lemma ag_collectgarbage : confines ok collectgarbage.
Proof. unfold collectgarbage. agree. Qed.
Lemma ag_str_fill gc f o s : confines ok gc -> confines ok (str_fill gc f o s).
Proof. intros Hgc. revert o s. induction f as [| f IH]; intros o s; cbn [str_fill]; agree. Qed.
Lemma ag_str_alloc gc s : confines ok gc -> confines ok (str_alloc gc s).
Proof. intros Hgc. pose proof (ag_str_fill gc). unfold str_alloc. agree. Qed.
End Alloc.
#[export] Hint Resolve ag_collectgarbage ag_str_alloc : agree.

(** ** Constructors and operations on objects *)

Section Objects.
Context (ok : Policy).

Lemma ag_fe_pushgc o : confines ok (fe_pushgc o).
Proof. unfold fe_pushgc. agree. Qed.
Lemma ag_type_of o : confines ok (type_of o).
Proof. unfold type_of. agree. Qed.
Lemma ag_car_of o : confines ok (car_of o).
Proof. unfold car_of. agree. Qed.
Lemma ag_cdr_of o : confines ok (cdr_of o).
Proof. unfold cdr_of. agree. Qed.
#[local] Hint Resolve ag_fe_pushgc ag_type_of ag_car_of ag_cdr_of : agree.
Lemma ag_object : confines ok object.
Proof. unfold object. agree. Qed.
#[local] Hint Resolve ag_object : agree.
Lemma ag_fe_cons a d : confines ok (fe_cons a d).
Proof. unfold fe_cons. agree. Qed.
Lemma ag_make_number oob v : confines ok (make_number oob v).
Proof. unfold make_number. agree. Qed.
Lemma ag_make_data_obj t s : confines ok (make_data_obj t s).
Proof. unfold make_data_obj. agree. Qed.
Lemma ag_fe_map : confines ok fe_map.
Proof. unfold fe_map. agree. Qed.
Lemma ag_fe_cfunc f : allowed ok f -> confines ok (fe_cfunc f).
Proof. intros Hf. unfold fe_cfunc. agree. Qed.
#[local] Hint Resolve ag_fe_cons : agree.
Lemma ag_list_loop l o : confines ok (list_loop l o).
Proof. revert o. induction l as [| x l IH]; intros o; cbn [list_loop]; agree. Qed.

Lemma ag_find_symbol_obj f l o : confines ok (find_symbol_obj f l o).
Proof. revert l. induction f as [| f IH]; intros l; cbn [find_symbol_obj]; agree. Qed.
Lemma ag_find_symbol f l s cd : confines ok (find_symbol f l s cd).
Proof. revert l cd. induction f as [| f IH]; intros l cd; cbn [find_symbol]; agree. Qed.
Lemma ag_map_keys_loop gc o l r cd : confines ok (map_keys_loop gc o l r cd).
Proof. revert r cd. induction l as [| x l IH]; intros r cd; cbn [map_keys_loop]; agree. Qed.
Lemma ag_list_has f l o : confines ok (list_has f l o).
Proof. revert l. induction f as [| f IH]; intros l; cbn [list_has]; agree. Qed.
Lemma ag_assoc_loop f s l : confines ok (assoc_loop f s l).
Proof. revert l. induction f as [| f IH]; intros l; cbn [assoc_loop]; agree. Qed.
Lemma ag_find_assoc_loop f s l : confines ok (find_assoc_loop f s l).
Proof. revert l. induction f as [| f IH]; intros l; cbn [find_assoc_loop]; agree. Qed.
End Objects.
#[export] Hint Resolve ag_fe_pushgc ag_type_of ag_car_of ag_cdr_of ag_object ag_fe_cons ag_make_number
  ag_make_data_obj ag_fe_map ag_list_loop ag_find_symbol_obj ag_find_symbol ag_map_keys_loop ag_list_has
  ag_assoc_loop ag_find_assoc_loop : agree.

(** Operations the evaluator, the compiler and the builtins use most. *)
Section Access.
Context (ok : Policy).
Lemma ag_fe_symbol s : confines ok (fe_symbol s).
Proof. unfold fe_symbol. agree. Qed.
Lemma ag_fe_symbol_from_string_obj o : confines ok (fe_symbol_from_string_obj o).
Proof. unfold fe_symbol_from_string_obj. agree. Qed.
Lemma ag_fe_nextarg o : confines ok (fe_nextarg o).
Proof. unfold fe_nextarg. agree. Qed.
Lemma ag_fe_set s v : confines ok (fe_set s v).
Proof. unfold fe_set. agree. Qed.
Lemma ag_map_set o k v : confines ok (map_set o k v).
Proof. unfold map_set. agree. Qed.
Lemma ag_map_get o k : confines ok (map_get o k).
Proof. unfold map_get. agree. Qed.
Lemma ag_equal a b : confines ok (equal a b).
Proof. unfold equal. agree. Qed.
Lemma ag_getbound s env : confines ok (getbound s env).
Proof. unfold getbound. agree. Qed.
End Access.
#[export] Hint Resolve ag_fe_symbol ag_fe_symbol_from_string_obj ag_fe_nextarg ag_fe_set ag_map_set
  ag_map_get ag_equal ag_getbound : agree.

(** ** The printer *)

Section Print.
Context {B : Type} (fn : ascii -> B -> B) (fmt_g7 : double -> chars) (fmt_p : obj -> chars) (ok : Policy).

Lemma ag_write_checked ch cd : confines ok (write_checked fn ch cd).
Proof. unfold write_checked. agree. Qed.
#[local] Hint Resolve ag_write_checked : agree.
Lemma ag_writestr s cd : confines ok (writestr fn s cd).
Proof. revert cd. induction s as [| ch s IH]; intros cd; cbn [writestr]; agree. Qed.
Lemma ag_string_chars s qt cd : confines ok (write_string_chars fn s qt cd).
Proof. revert cd. induction s as [| ch s IH]; intros cd; cbn [write_string_chars]; agree. Qed.
Lemma ag_bytes_chars s first cd : confines ok (write_bytes_chars fn s first cd).
Proof. revert first cd. induction s as [| ch s IH]; intros first cd; cbn [write_bytes_chars]; agree. Qed.
#[local] Hint Resolve ag_writestr ag_string_chars ag_bytes_chars : agree.
Lemma ag_write f :
  (forall o qt, confines ok (fe_write fn fmt_g7 fmt_p f o qt)) /\
  (forall o cd, confines ok (write_items fn fmt_g7 fmt_p f o cd)) /\
  (forall l first cd, confines ok (write_slots fn fmt_g7 fmt_p f l first cd)).
Proof.
  induction f as [| f (IH1 & IH2 & IH3)]; split_and!; intros; cbn [fe_write write_items write_slots];
    by agree.
Qed.
End Print.
Section PrintTo.
Context (fmt_g7 : double -> chars) (fmt_p : obj -> chars) (ok : Policy).
Lemma ag_fe_writefp f o : confines ok (fe_writefp fmt_g7 fmt_p f o).
Proof.
  apply ag_diagonal. intros c Hc. unfold fe_writefp.
  destruct (proj1 (ag_write (fun ch b => b ++ [ch]) fmt_g7 fmt_p ok f) o false (c, []) Hc) as [_ Hl].
  by destruct (fe_write _ _ _ _ _ _ _) as [? [] | ? [] | |].
Qed.
Lemma ag_fe_tostring f o n : confines ok (fe_tostring fmt_g7 fmt_p f o n).
Proof.
  apply ag_diagonal. intros c Hc. unfold fe_tostring.
  destruct (proj1 (ag_write writebuf fmt_g7 fmt_p ok f) o false (c, ([], n - 1)) Hc) as [_ Hl].
  by destruct (fe_write _ _ _ _ _ _ _) as [? [? []] | ? [] | |].
Qed.
End PrintTo.
#[export] Hint Resolve ag_fe_writefp ag_fe_tostring : agree.
