(* ===== verification/AgreeEval.v ===== *)
(** * The evaluator reaches only the C functions of the heap

    Evaluations with C functions and loaders that agree have the same
    outcome on a confined heap. *)

From Stdlib Require Import ZArith Lia Ascii String.
From stdpp Require Import base list.
From S2P Require Import Prelude Number Memory Budget MapTable Slab Span Host Ctx Gc Objects Writer Eval Agree.

Section Analysis.
Context (ok : Policy).
Lemma ag_pushgcs os : confines ok (pushgcs os).
Proof. induction os as [| o os IH]; cbn [pushgcs]; agree. Qed.
Lemma ag_cons_params f p b : confines ok (cons_params f p b).
Proof. revert p b. induction f as [| f IH]; intros p b; cbn [cons_params]; agree. Qed.
#[local] Hint Resolve ag_cons_params : agree.
Lemma ag_analyze f :
  (forall node b fv, confines ok (analyze f node b fv)) /\
  (forall gc p b fv, confines ok (analyze_do f gc p b fv)) /\
  (forall p b fv, confines ok (analyze_each f p b fv)) /\
  (forall p b fv, confines ok (analyze_args f p b fv)).
Proof.
  induction f as [| f (IH1 & IH2 & IH3 & IH4)]; split_and!; intros;
    cbn [analyze analyze_do analyze_each analyze_args]; by agree.
Qed.
Lemma ag_argstoenv_loop f save prm arg env : confines ok (argstoenv_loop f save prm arg env).
Proof. revert prm arg env. induction f as [| f IH]; intros prm arg env; cbn [argstoenv_loop]; agree. Qed.
Lemma ag_last_expr f l : confines ok (last_expr f l).
Proof. revert l. induction f as [| f IH]; intros l; cbn [last_expr]; agree. Qed.
Lemma ag_fn_bound f s p b : confines ok (fn_bound f s p b).
Proof. revert p b. induction f as [| f IH]; intros p b; cbn [fn_bound]; agree. Qed.
Lemma ag_capture_loop f s p env arg up : confines ok (capture_loop f s p env arg up).
Proof. revert p arg up. induction f as [| f IH]; intros p arg up; cbn [capture_loop]; agree. Qed.
Lemma ag_analyze1 f node b fv : confines ok (analyze f node b fv).
Proof. apply ag_analyze. Qed.
End Analysis.
#[export] Hint Resolve ag_pushgcs ag_analyze1 ag_argstoenv_loop ag_last_expr ag_fn_bound ag_capture_loop : agree.

Section Step.
Context (oob : double -> Z) (fmt_g7 : double -> chars) (fmt_p : obj -> chars) (lhs_first : bool) (ok : Policy).
Context (ev ev' : evaluator) (Hev : forall o env ne ift, agree ok (ev o env ne ift) (ev' o env ne ift)).

Lemma ag_evallist_loop f save l env res tl :
  agree ok (evallist_loop ev f save l env res tl) (evallist_loop ev' f save l env res tl).
Proof. revert l res tl. induction f as [| f IH]; intros l res tl; cbn [evallist_loop]; agree. Qed.
Lemma ag_dolist_loop f save l env res :
  agree ok (dolist_loop ev f save l env res) (dolist_loop ev' f save l env res).
Proof. revert l env res. induction f as [| f IH]; intros l env res; cbn [dolist_loop]; agree. Qed.
Lemma ag_eval_if f gc cl arg env ne ift :
  agree ok (eval_if ev f gc cl arg env ne ift) (eval_if ev' f gc cl arg env ne ift).
Proof. revert arg. induction f as [| f IH]; intros arg; cbn [eval_if]; agree. Qed.
Lemma ag_while_body f save arg cur env res :
  agree ok (while_body ev f save arg cur env res) (while_body ev' f save arg cur env res).
Proof. revert cur env res. induction f as [| f IH]; intros cur env res; cbn [while_body]; agree. Qed.
#[local] Hint Resolve ag_while_body : agree.
Lemma ag_while_loop n f save cond arg env res :
  agree ok (while_loop ev n f save cond arg env res) (while_loop ev' n f save cond arg env res).
Proof. revert env res. induction f as [| f IH]; intros env res; cbn [while_loop]; agree. Qed.
Lemma ag_eval_logic f stop arg env res :
  agree ok (eval_logic ev f stop arg env res) (eval_logic ev' f stop arg env res).
Proof. revert arg res. induction f as [| f IH]; intros arg res; cbn [eval_logic]; agree. Qed.
Lemma ag_eval_do f gc cl save arg env res ne ift :
  agree ok (eval_do ev f gc cl save arg env res ne ift) (eval_do ev' f gc cl save arg env res ne ift).
Proof. revert arg env res. induction f as [| f IH]; intros arg env res; cbn [eval_do]; agree. Qed.
Lemma ag_eval_print n f arg env :
  agree ok (eval_print fmt_g7 fmt_p ev n f arg env) (eval_print fmt_g7 fmt_p ev' n f arg env).
Proof. revert arg. induction f as [| f IH]; intros arg; cbn [eval_print]; agree. Qed.
Lemma ag_arith_loop f op x arg env :
  (forall a b, confines ok (op a b)) ->
  agree ok (arith_loop ev f op x arg env) (arith_loop ev' f op x arg env).
Proof. intros Hop. revert x arg. induction f as [| f IH]; intros x arg; cbn [arith_loop]; agree. Qed.
Lemma ag_call_body f gc cl save cur fr res ne :
  agree ok (call_body ev f gc cl save cur fr res ne) (call_body ev' f gc cl save cur fr res ne).
Proof. revert cur fr res. induction f as [| f IH]; intros cur fr res; cbn [call_body]; agree. Qed.
#[local] Hint Resolve ag_evallist_loop ag_dolist_loop ag_eval_if ag_while_loop ag_eval_logic ag_eval_do
  ag_eval_print ag_call_body : agree.
#[local] Hint Extern 1 (agree _ (arith_loop _ _ _ _ _ _) _) =>
  apply ag_arith_loop; intros; unfold add, mul, div, sub; by agree : agree.

Lemma ag_evalarg arg env : agree ok (evalarg ev arg env) (evalarg ev' arg env).
Proof. unfold evalarg. agree. Qed.
#[local] Hint Resolve ag_evalarg : agree.

Context (cfunc cfunc' : nat -> obj -> comp fe_Context obj) (imp imp' : obj -> comp fe_Context obj).
Context (Hcfunc : forall f arg, allowed ok f -> agree ok (cfunc f arg) (cfunc' f arg)).
Context (Himp : forall o, agree ok (imp o) (imp' o)).
#[local] Hint Resolve Hcfunc : agree.

Lemma ag_eval_prim n gc cl prim arg env ne ift :
  agree ok (eval_prim oob fmt_g7 fmt_p imp lhs_first ev n gc cl prim arg env ne ift)
           (eval_prim oob fmt_g7 fmt_p imp' lhs_first ev' n gc cl prim arg env ne ift).
Proof. destruct prim; unfold eval_prim; agree. Qed.
#[local] Hint Resolve ag_eval_prim : agree.
Lemma ag_eval_step n o env ne ift :
  agree ok (eval_step oob fmt_g7 fmt_p cfunc imp lhs_first ev n o env ne ift)
           (eval_step oob fmt_g7 fmt_p cfunc' imp' lhs_first ev' n o env ne ift).
Proof. unfold eval_step. agree. Qed.
End Step.

Section Eval.
Context (oob : double -> Z) (fmt_g7 : double -> chars) (fmt_p : obj -> chars) (lhs_first : bool) (ok : Policy).
Context (cfunc cfunc' : nat -> obj -> comp fe_Context obj) (imp imp' : obj -> comp fe_Context obj).
Context (Hcfunc : forall f arg, allowed ok f -> agree ok (cfunc f arg) (cfunc' f arg)).
Context (Himp : forall o, agree ok (imp o) (imp' o)).

Lemma ag_eval f o env ne ift :
  agree ok (eval oob fmt_g7 fmt_p cfunc imp lhs_first f o env ne ift)
           (eval oob fmt_g7 fmt_p cfunc' imp' lhs_first f o env ne ift).
Proof.
  revert o env ne ift. induction f as [| f IH]; intros; cbn [eval]; [by auto with agree |].
  by apply ag_eval_step.
Qed.
Lemma ag_fe_eval f o :
  agree ok (fe_eval oob fmt_g7 fmt_p cfunc imp lhs_first f o)
           (fe_eval oob fmt_g7 fmt_p cfunc' imp' lhs_first f o).
Proof. pose proof ag_eval. unfold fe_eval. agree. Qed.
End Eval.
