(* ===== verification/AgreeParser.v ===== *)
(** * The compiler stores no C function

    Compiling keeps the heap confined, and running a text with evaluators
    that agree has the same outcome. *)

From Stdlib Require Import ZArith Lia Ascii String.
From stdpp Require Import base list.
From S2P Require Import Prelude Number Memory Budget MapTable Slab Span Host Ctx Gc Objects Writer Eval Agree Lexer Parser.

#[export] Instance HasCells_fex : HasCells Fex :=
  {| heap := fun s => cells (ctx s); has_made := fun l s => events (host (ctx s)) = l |}.

Section Cleanup.
Context (ok : Policy).
Lemma ag_quiet {A} (m m' : comp fe_Context A) : agree ok m m' -> agree ok (quiet m) (quiet m').
Proof. intros Hm s Hs. unfold quiet. destruct (Hm (ctx s) Hs) as [<- Hl]. by destruct (m (ctx s)). Qed.
Lemma ag_free_fex b : confines ok (tracked_free_fex b).
Proof. apply ag_quiet. by auto with agree. Qed.
#[local] Hint Resolve ag_free_fex : agree.
Lemma ag_leave_scope : confines ok leave_compile_scope.
Proof. unfold leave_compile_scope. agree. Qed.
#[local] Hint Resolve ag_leave_scope : agree.
Lemma ag_leave_all l : confines ok (leave_all l).
Proof. induction l as [| sc l IH]; cbn [leave_all]; agree. Qed.
Lemma ag_free_temps l : confines ok (free_temps l).
Proof. induction l as [| b l IH]; cbn [free_temps]; agree. Qed.
#[local] Hint Resolve ag_leave_all ag_free_temps : agree.
Lemma ag_cleanup : confines ok (fex_compile_cleanup_ctx ;;; fex_temp_cleanup_all).
Proof. agree. Qed.
Lemma ag_fe {A} (m m' : comp fe_Context A) : agree ok m m' -> agree ok (fe m) (fe m').
Proof.
  intros Hm s Hs. unfold fe. destruct (ag_quiet m m' Hm s Hs) as [<- Hl]. split; [done |].
  destruct (quiet m s) as [| e s1 | |]; try done. destruct (ag_cleanup s1 Hl) as [_ Hc].
  by destruct (bind _ _ s1).
Qed.
End Cleanup.
#[export] Hint Resolve ag_leave_scope ag_leave_all ag_free_temps : agree.
#[export] Hint Extern 1 (agree _ (fe _) _) => apply ag_fe; by agree : agree.
#[export] Hint Extern 1 (agree _ (quiet _) _) => apply ag_quiet; by agree : agree.

Section Tokens.
Context (spent : forall A, comp Fex A) (oob : double -> Z) (realloc_ok : Z -> bool) (ok : Policy).
Context (Hspent : forall A, confines ok (spent A)).

Lemma ag_scope : confines ok scope.
Proof. unfold scope. agree. Qed.
Lemma ag_set_scope sc : confines ok (set_scope sc).
Proof. unfold set_scope. agree. Qed.
#[local] Hint Resolve ag_scope ag_set_scope : agree.
Lemma ag_error_at t message : confines ok (error_at t message).
Proof. unfold error_at. agree. Qed.
#[local] Hint Resolve ag_error_at : agree.
Lemma ag_advance_loop f : confines ok (advance_loop spent f).
Proof. induction f as [| f IH]; cbn [advance_loop]; agree. Qed.
#[local] Hint Resolve ag_advance_loop : agree.
Lemma ag_advance : confines ok (parser_advance spent).
Proof. unfold parser_advance. agree. Qed.
Lemma ag_check t : confines ok (check t).
Proof. unfold check. agree. Qed.
#[local] Hint Resolve ag_advance ag_check : agree.
Lemma ag_consume t m : confines ok (consume spent t m).
Proof. unfold consume. agree. Qed.
Lemma ag_match t : confines ok (parser_match spent t).
Proof. unfold parser_match. agree. Qed.
Lemma ag_parse_error m : confines ok (error m).
Proof. unfold error. agree. Qed.
Lemma ag_CONS1 a d : confines ok (CONS1 a d).
Proof. unfold CONS1. agree. Qed.
#[local] Hint Resolve ag_consume ag_match ag_parse_error ag_CONS1 : agree.
Lemma ag_symbol_from_token t : confines ok (symbol_from_token t).
Proof. unfold symbol_from_token. agree. Qed.
#[local] Hint Resolve ag_symbol_from_token : agree.
Lemma ag_for_each {A} fuel (body : A -> obj -> comp Fex A) acc p :
  (forall a o, confines ok (body a o)) -> confines ok (for_each fuel body acc p).
Proof. intros Hb. revert acc p. induction fuel as [| f IH]; intros acc p; cbn [for_each]; agree. Qed.
#[local] Hint Extern 1 (agree _ (for_each _ _ _ _) _) => apply ag_for_each; intros; by agree : agree.
Lemma ag_rewrite o n : confines ok (rewrite_named_fn_declarations o n).
Proof. unfold rewrite_named_fn_declarations. agree. Qed.
Lemma ag_import_segments f b : confines ok (import_segments spent realloc_ok f b).
Proof. revert b. induction f as [| f IH]; intros b; cbn [import_segments]; agree. Qed.
#[local] Hint Resolve ag_import_segments : agree.
Lemma ag_import_specifier : confines ok (parse_import_specifier spent realloc_ok).
Proof. unfold parse_import_specifier. agree. Qed.
Lemma ag_reverse n p r : confines ok (reverse_params n p r).
Proof. revert p r. induction n as [| n IH]; intros p r; cbn [reverse_params]; agree. Qed.
Lemma ag_parameters n p c : confines ok (parameters spent n p c).
Proof. revert p c. induction n as [| n IH]; intros p c; cbn [parameters]; agree. Qed.
Lemma ag_synchronize_loop n : confines ok (synchronize_loop spent n).
Proof. induction n as [| n IH]; cbn [synchronize_loop]; agree. Qed.
End Tokens.
#[export] Hint Resolve ag_scope ag_set_scope ag_error_at ag_advance_loop ag_advance ag_check ag_consume ag_match
  ag_parse_error ag_CONS1 ag_symbol_from_token ag_rewrite ag_import_segments ag_import_specifier ag_reverse
  ag_parameters ag_synchronize_loop : agree.

Section Parse.
Context (spent : forall A, comp Fex A) (oob : double -> Z) (realloc_ok : Z -> bool) (ok : Policy).
Context (Hspent : forall A, confines ok (spent A)).

Section Rec.
Context (rec : nonterm -> comp Fex obj) (fuel : nat) (Hrec : forall nt, confines ok (rec nt)).

Lemma ag_list_elements n g l : confines ok (list_elements spent rec n g l).
Proof. revert l. induction n as [| n IH]; intros l; cbn [list_elements]; agree. Qed.
Lemma ag_block_loop n l c : confines ok (block_loop spent rec n l c).
Proof. revert l c. induction n as [| n IH]; intros l c; cbn [block_loop]; agree. Qed.
#[local] Hint Resolve ag_list_elements ag_block_loop : agree.
Lemma ag_block : confines ok (block spent rec fuel).
Proof. unfold block. agree. Qed.
#[local] Hint Resolve ag_block : agree.
Lemma ag_fn_declaration : confines ok (fn_declaration spent rec fuel).
Proof. unfold fn_declaration. agree. Qed.
#[local] Hint Resolve ag_fn_declaration : agree.
Lemma ag_prefix f : confines ok (run_prefix spent oob rec fuel f).
Proof. destruct f; unfold run_prefix; agree. Qed.
Lemma ag_assignment lhs : confines ok (parse_assignment rec lhs).
Proof. unfold parse_assignment. agree. Qed.
Lemma ag_arguments n l : confines ok (arguments spent rec n l).
Proof. revert l. induction n as [| n IH]; intros l; cbn [arguments]; agree. Qed.
#[local] Hint Resolve ag_prefix ag_assignment ag_arguments : agree.
Lemma ag_infix op lhs : confines ok (parse_infix spent rec fuel op lhs).
Proof. unfold parse_infix. agree. Qed.
#[local] Hint Resolve ag_infix : agree.
Lemma ag_infix_loop n prec lhs : confines ok (infix_loop spent rec fuel n prec lhs).
Proof. revert lhs. induction n as [| n IH]; intros lhs; cbn [infix_loop]; agree. Qed.
#[local] Hint Resolve ag_infix_loop : agree.
Lemma ag_precedence prec : confines ok (parse_precedence_new spent oob rec fuel prec).
Proof. unfold parse_precedence_new. agree. Qed.
Lemma ag_synchronize : confines ok (synchronize spent fuel).
Proof. unfold synchronize. agree. Qed.
Lemma ag_statement : confines ok (statement spent rec fuel).
Proof. unfold statement. agree. Qed.
#[local] Hint Resolve ag_precedence ag_synchronize ag_statement : agree.
Lemma ag_step nt : confines ok (parse_step spent oob realloc_ok rec fuel nt).
Proof. unfold parse_step. agree. Qed.
End Rec.

Lemma ag_parse fuel nt : confines ok (parse spent oob realloc_ok fuel nt).
Proof. revert nt. induction fuel as [| f IH]; intros nt; cbn [parse]; [by auto with agree | by apply ag_step]. Qed.
#[local] Hint Resolve ag_parse : agree.
Lemma ag_program_loop n fuel g l c : confines ok (program_loop spent oob realloc_ok n fuel g l c).
Proof. revert l c. induction n as [| n IH]; intros l c; cbn [program_loop]; agree. Qed.
#[local] Hint Resolve ag_program_loop : agree.
Lemma ag_compile fuel src name : confines ok (fex_compile_named spent oob realloc_ok fuel src name).
Proof. unfold fex_compile_named. agree. Qed.
#[local] Hint Resolve ag_compile : agree.
Lemma ag_do_string ev ev' fuel src name :
  (forall o, agree ok (ev o) (ev' o)) ->
  agree ok (fex_do_string_named spent oob realloc_ok ev fuel src name)
           (fex_do_string_named spent oob realloc_ok ev' fuel src name).
Proof. intros He. unfold fex_do_string_named. agree. Qed.
End Parse.
#[export] Hint Resolve ag_compile ag_do_string : agree.
