(* ===== verification/AgreeImport.v ===== *)
(** * Protected calls and imports reach only the C functions of the heap *)

From Stdlib Require Import ZArith Lia Ascii String.
From stdpp Require Import base list.
From S2P Require Import Prelude Number Memory Budget MapTable Slab SlabSpec Span Host Ctx Gc Objects Writer Eval Agree Lexer Parser AgreeParser Builtins Modules Try Import.

(** ** The module loader *)

Section Loops.
Context (ok : Policy).
Lemma ag_free_strs l : confines ok (free_strs l).
Proof. induction l as [| s l IH]; cbn [free_strs]; agree. Qed.
#[local] Hint Resolve ag_free_strs : agree.
Lemma ag_contains_loop l s cd : confines ok (contains_loop l s cd).
Proof. revert cd. induction l as [| [x b] l IH]; intros cd; cbn [contains_loop]; agree. Qed.
Lemma ag_find_index_loop l s i cd : confines ok (find_index_loop l s i cd).
Proof. revert i cd. induction l as [| [x b] l IH]; intros i cd; cbn [find_index_loop]; agree. Qed.
Lemma ag_normalize_loop p cd : confines ok (normalize_loop p cd).
Proof. revert cd. induction p as [| x p IH]; intros cd; cbn [normalize_loop]; agree. Qed.
Lemma ag_last_sep_loop p i found cd : confines ok (last_sep_loop p i found cd).
Proof. revert i found cd. induction p as [| x p IH]; intros i found cd; cbn [last_sep_loop]; agree. Qed.
Lemma ag_dots_loop b p cd : confines ok (dots_loop b p cd).
Proof. revert cd. induction p as [| x p IH]; intros cd; cbn [dots_loop]; agree. Qed.
Lemma ag_segments_loop mode p start len a cd : confines ok (segments_loop mode p start len a cd).
Proof. revert start len a cd. induction p as [| x p IH]; intros start len a cd; cbn [segments_loop]; agree. Qed.
Lemma ag_chain_loop o l : confines ok (chain_loop o l).
Proof. revert o. induction l as [| x l IH]; intros o; cbn [chain_loop]; agree. Qed.
Lemma ag_package_loop o l : confines ok (package_loop o l).
Proof. revert o. induction l as [| x l IH]; intros o; cbn [package_loop]; agree. Qed.
Lemma ag_repeated n m : confines ok m -> confines ok (repeated n m).
Proof. intros Hm. induction n as [| n IH]; cbn [repeated]; agree. Qed.
End Loops.
#[export] Hint Resolve ag_free_strs ag_contains_loop ag_find_index_loop ag_normalize_loop ag_last_sep_loop
  ag_dots_loop ag_segments_loop ag_chain_loop ag_package_loop : agree.
#[export] Hint Extern 1 (agree _ (repeated _ _) _) => apply ag_repeated; by agree : agree.

Section Search.
Context (file_exists : chars -> bool) (realpath : chars -> option chars) (ok : Policy).
Lemma ag_import_paths_loop l name searched cd :
  confines ok (import_paths_loop file_exists realpath l name searched cd).
Proof.
  revert searched cd. induction l as [| [x b] l IH]; intros searched cd; cbn [import_paths_loop]; agree.
Qed.
End Search.
#[export] Hint Resolve ag_import_paths_loop : agree.

(** ** Error reports and protected calls *)

Section Report.
Context (fmt_g7 : double -> chars) (fmt_p : obj -> chars) (malloc_ok : Z -> bool) (print_fuel : nat).
Context (ok : Policy).

Lemma ag_append_pairs elt f o w :
  (forall o w, confines ok (elt o w)) -> confines ok (append_pairs elt f o w).
Proof. intros He. revert o w. induction f as [| f IH]; intros o w; cbn [append_pairs]; agree. Qed.
Lemma ag_append_object f o w :
  confines ok (append_object_for_error fmt_g7 fmt_p malloc_ok print_fuel f o w).
Proof.
  pose proof ag_append_pairs. revert o w. induction f as [| f IH]; intros o w; cbn [append_object_for_error]; agree.
Qed.
#[local] Hint Resolve ag_append_object : agree.
Lemma ag_runtime_trace n calls e :
  confines ok (fill_runtime_trace fmt_g7 fmt_p malloc_ok print_fuel n calls e).
Proof.
  revert calls e. induction n as [| n IH]; intros calls e; cbn [fill_runtime_trace]; [by auto with agree |].
  destruct calls; agree.
Qed.
#[local] Hint Resolve ag_runtime_trace : agree.
Lemma ag_try_on_error msg : confines ok (fex_try_on_error fmt_g7 fmt_p malloc_ok print_fuel msg).
Proof. unfold fex_try_on_error. agree. Qed.
Lemma ag_handle_error msg : confines ok (handle_error fmt_g7 fmt_p malloc_ok print_fuel msg).
Proof.
  apply ag_diagonal. intros c Hc. unfold handle_error. destruct (ag_try_on_error msg c Hc) as [_ Hl].
  destruct (fex_try_on_error _ _ _ _ msg c) as [| msg' c' | |]; try done. by apply ag_try_on_error.
Qed.
#[local] Hint Resolve ag_handle_error : agree.
Lemma ag_caught msg ce : confines ok (caught fmt_g7 fmt_p malloc_ok print_fuel msg ce).
Proof. unfold caught. agree. Qed.
Lemma ag_longjmp {A} e : confines ok (@longjmp A e).
Proof. by apply ag_diagonal. Qed.
Lemma ag_in_fex {A} (m m' : comp Fex A) : agree ok m m' -> agree ok (in_fex m) (in_fex m').
Proof. intros Hm c Hc. unfold in_fex. destruct (Hm (MkFex c [] [] true None []) Hc) as [<- Hl]. by destruct (m _). Qed.

Lemma ag_protected (fn fn' : comp Fex obj) prev err :
  agree ok fn fn' ->
  agree ok (protected fmt_g7 fmt_p malloc_ok print_fuel fn prev err)
           (protected fmt_g7 fmt_p malloc_ok print_fuel fn' prev err).
Proof.
  intros Hm s Hs. unfold protected. destruct (Hm s Hs) as [<- Hl]. split; [done |].
  pose proof ag_caught. destruct (fn s) as [res s1 | msg s1 | |]; try done; (apply ag_then; [agree | intros; agree | done]).
Qed.
Lemma ag_try_run fn fn' wants name keep :
  agree ok fn fn' ->
  agree ok (fex_try_run_internal fmt_g7 fmt_p malloc_ok print_fuel fn wants name keep)
           (fex_try_run_internal fmt_g7 fmt_p malloc_ok print_fuel fn' wants name keep).
Proof.
  intros Hm. unfold fex_try_run_internal. do 3 (apply ag_bind; [agree | intros ?]).
  apply ag_bind; [by apply ag_in_fex, ag_protected | intros r]. agree.
Qed.
End Report.
#[export] Hint Resolve ag_longjmp : agree.
#[export] Hint Extern 1 (agree _ (Try.fex_try_run_internal _ _ _ _ _ _ _ _) _) => apply ag_try_run; by agree : agree.
#[export] Hint Extern 1 (agree _ (in_fex _) _) => apply ag_in_fex; by agree : agree.

(** ** Files *)

Section Files.
Context (file_exists : chars -> bool) (realpath : chars -> option chars) (read_file : chars -> FileRead).
Context (fmt_g7 : double -> chars) (fmt_p : obj -> chars) (malloc_ok : Z -> bool) (print_fuel : nat).
Context (spent : forall A, comp Fex A) (oob : double -> Z) (realloc_ok : Z -> bool) (ok : Policy).
Context (Hspent : forall A, confines ok (spent A)).
Context (ev ev' : obj -> comp fe_Context obj) (Hev : forall o, agree ok (ev o) (ev' o)).

Lemma ag_string_array_push_owned a s : confines ok (string_array_push_owned a s).
Proof. unfold string_array_push_owned. agree. Qed.
Lemma ag_leave_import a gc s : confines ok (leave_import a gc s).
Proof. unfold leave_import. agree. Qed.
Lemma ag_bind_imported s l r o : confines ok (bind_imported_module s l r o).
Proof. unfold bind_imported_module. agree. Qed.
Lemma ag_pop_loading : confines ok pop_loading_module.
Proof. unfold pop_loading_module. agree. Qed.
#[local] Hint Resolve ag_string_array_push_owned ag_leave_import ag_bind_imported ag_pop_loading : agree.

Lemma ag_do_file path exports :
  agree ok (do_file_common realpath read_file spent oob realloc_ok ev path exports)
           (do_file_common realpath read_file spent oob realloc_ok ev' path exports).
Proof. unfold do_file_common. agree. Qed.
#[local] Hint Resolve ag_do_file : agree.
Lemma ag_import_missing a b c d e f g : confines ok (import_missing a b c d e f g).
Proof. unfold import_missing. agree. Qed.
Lemma ag_finish_import a b c d e f : confines ok (finish_import a b c d e f).
Proof. unfold finish_import. agree. Qed.
#[local] Hint Resolve ag_import_missing ag_finish_import : agree.
Lemma ag_import_file a b c d e :
  agree ok (Import.import_file realpath read_file fmt_g7 fmt_p malloc_ok print_fuel spent oob realloc_ok ev a b c d e)
           (Import.import_file realpath read_file fmt_g7 fmt_p malloc_ok print_fuel spent oob realloc_ok ev' a b c d e).
Proof. unfold Import.import_file. agree. Qed.
#[local] Hint Resolve ag_import_file : agree.
Lemma ag_import_prefixes imp imp' name spec a l :
  (forall s o, agree ok (imp s o) (imp' s o)) ->
  agree ok (import_prefixes imp name spec a l) (import_prefixes imp' name spec a l).
Proof. intros Hi. induction l as [| i l IH]; cbn [import_prefixes]; agree. Qed.
Lemma ag_import_module_spec f spec opt :
  agree ok (import_module_spec file_exists realpath read_file fmt_g7 fmt_p malloc_ok print_fuel spent oob realloc_ok ev f spec opt)
           (import_module_spec file_exists realpath read_file fmt_g7 fmt_p malloc_ok print_fuel spent oob realloc_ok ev' f spec opt).
Proof.
  pose proof ag_import_prefixes. revert spec opt. induction f as [| f IH]; intros spec opt; cbn [import_module_spec]; agree.
Qed.
#[local] Hint Resolve ag_import_module_spec : agree.
Lemma ag_import_module o :
  agree ok (import_module file_exists realpath read_file fmt_g7 fmt_p malloc_ok print_fuel spent oob realloc_ok ev o)
           (import_module file_exists realpath read_file fmt_g7 fmt_p malloc_ok print_fuel spent oob realloc_ok ev' o).
Proof. unfold import_module. agree. Qed.
End Files.
