(* ===== verification/Console.v ===== *)
(** * Console input (src/fex.c: fex_temp_realloc, builtin_read_line,
    builtin_read_number)

    The standard input is the text that is left of it ([Host.stdin]). *)

From Stdlib Require Import ZArith Lia Ascii String.
From stdpp Require Import base list.
From S2P Require Import Prelude Number Strtod Memory Budget MapTable Slab Span Host Ctx Gc Objects Writer Eval Lexer Parser Modules Try Import.

Definition newline : ascii := ascii_of_nat 10.

Definition set_stdin (s : chars) : comp fe_Context unit :=
  modify (fun c => with_host (with_stdin s (host c)) c).
Definition fgetc : comp fe_Context (option ascii) :=
  let* s := gets (fun c => stdin (host c)) in
  match s with
  | [] => ret None
  | ch :: s => set_stdin s ;;; ret (Some ch)
  end.

(** A scratch block that moves takes the place of the old one in the list. *)
Definition fex_temp_realloc (ptr : option Memory.block) (size : Z) : comp Fex Memory.block :=
  match ptr with
  | None => fex_temp_alloc size
  | Some node =>
      let* grown := fe (lift_memory
        (let* b := tracked_realloc (Some node) (SIZEOF_FexTempAlloc + (if 0 <? size then size else 1)) in
         match b with None => memory_error "out of memory" | Some b => ret b end)) in
      modify (fun s => with_temps ((fun b => if decide (b = node) then grown else b) <$> temp_allocs s) s) ;;;
      ret grown
  end.

(** The first buffer is on the stack ([None]). *)
Definition STACK_BUF : Z := 1024.
Definition grow_line (buf : option Memory.block) (new_cap : Z) : comp Fex Memory.block :=
  match buf with
  | None => fex_temp_alloc new_cap
  | Some b => fex_temp_realloc (Some b) new_cap
  end.

(** The loop returns the line, whether it ended at the end of the input, and
    the buffer. *)
Fixpoint read_line_loop (fuel : nat) (line : chars) (buf : option Memory.block) (cap : Z)
    : comp Fex (chars * bool * option Memory.block) :=
  match fuel with
  | O => no_fuel
  | S f =>
      let* ch := fe fgetc in
      match ch with
      | None => ret (line, true, buf)
      | Some ch =>
          let* '(buf, cap) :=
            (if cap <=? Z.of_nat (length line) + 1
             then let new_cap := u64 (cap * 2) in
                  let* b := grow_line buf new_cap in
                  ret (Some b, new_cap)
             else ret (buf, cap)) in
          if decide (ch = newline) then ret (line, false, buf)
          else read_line_loop f (line ++ [ch]) buf cap
      end
  end.
Definition free_line (buf : option Memory.block) : comp Fex unit :=
  match buf with None => ret tt | Some b => fex_temp_free b end.

Definition builtin_read_line (args : obj) : comp fe_Context obj :=
  in_fex
    (let* s := get in
     let* '(line, eof, buf) := read_line_loop (S (length (stdin (host (ctx s))))) [] None STACK_BUF in
     if bool_decide (line = []) && eof then free_line buf ;;; ret Nil
     else
       let* result := fe (fe_string line) in
       free_line buf ;;;
       ret result).

(** [fgets] with a buffer of [S n] bytes: the bytes it takes, up to and with
    the first newline, and the rest. *)
Fixpoint fgets (n : nat) (s : chars) : chars * chars :=
  match n, s with
  | S n, ch :: s =>
      if decide (ch = newline) then ([ch], s)
      else let '(l, rest) := fgets n s in (ch :: l, rest)
  | _, _ => ([], s)
  end.

Definition builtin_read_number (oob : double -> Z) (args : obj) : comp fe_Context obj :=
  let* s := gets (fun c => stdin (host c)) in
  match fgets 1023 s with
  | ([], _) => ret Nil
  | (buffer, rest) =>
      set_stdin rest ;;;
      make_number oob (fst (strtod (until_nul buffer)))
  end.
