(* ===== verification/Register.v ===== *)
(** * Registration of the builtins (src/fex.c: fex_init to
    fex_init_with_builtins; src/fex_builtins.h: FexBuiltinsConfig;
    src/fex_builtins.c: register_math_functions to fex_init_all_builtins)

    Which C function every name is bound to, under which mask, and the
    interpreter with these functions: a C function that a program reaches is
    run by [call_builtin]. *)

From Stdlib Require Import ZArith Lia Ascii String.
From stdpp Require Import base list.
From S2P Require Import Prelude Number Strtod Memory Budget MapTable Slab SlabSpec Span Host Ctx Gc Objects Writer Eval Lexer Parser Builtins BuiltinsText BuiltinsList Json BuiltinsMath Paths Files Process Modules Try Import Console.

(** ** The C functions *)

Inductive builtin :=
| B_print | B_println | B_read_line | B_read_number
| B_sqrt | B_sin | B_cos | B_tan | B_abs | B_floor | B_ceil | B_round | B_min | B_max | B_pow
| B_log | B_random | B_seed_random | B_random_int | B_random_bytes
| B_string_length | B_string_upper | B_string_lower | B_string_concat | B_string_substring
| B_string_split | B_string_trim | B_string_contains | B_make_string
| B_list_length | B_list_nth | B_list_append | B_list_reverse | B_map | B_filter | B_fold
| B_path_join | B_dirname | B_basename | B_exists | B_list_dir | B_make_dir | B_make_dir_parents
| B_read_file | B_read_bytes | B_write_file | B_write_bytes | B_read_json | B_write_json
| B_make_map | B_map_set | B_map_get | B_map_has | B_map_delete | B_map_keys | B_map_count
| B_make_bytes | B_to_bytes | B_bytes_length | B_byte_at | B_bytes_slice | B_parse_json
| B_to_json
| B_cwd | B_chdir | B_get_env | B_time | B_exit | B_system | B_run_command | B_run_process
| B_type_of | B_to_string | B_to_number | B_is_nil | B_is_number | B_is_string | B_is_bytes
| B_is_list | B_is_map.
#[export] Instance builtin_eq_dec : EqDecision builtin.
Proof. solve_decision. Defined.

Definition core_functions : list (string * builtin) :=
  [("print", B_print); ("println", B_println); ("readline", B_read_line);
   ("readnumber", B_read_number)]%string.
Definition math_functions : list (string * builtin) :=
  [("sqrt", B_sqrt); ("sin", B_sin); ("cos", B_cos); ("tan", B_tan); ("abs", B_abs);
   ("floor", B_floor); ("ceil", B_ceil); ("round", B_round); ("min", B_min); ("max", B_max);
   ("pow", B_pow); ("log", B_log); ("rand", B_random); ("seedrand", B_seed_random);
   ("randint", B_random_int); ("randbytes", B_random_bytes)]%string.
Definition string_functions : list (string * builtin) :=
  [("strlen", B_string_length); ("upper", B_string_upper); ("lower", B_string_lower);
   ("concat", B_string_concat); ("substring", B_string_substring); ("split", B_string_split);
   ("trim", B_string_trim); ("contains", B_string_contains); ("makestring", B_make_string)]%string.
Definition list_functions : list (string * builtin) :=
  [("length", B_list_length); ("nth", B_list_nth); ("append", B_list_append);
   ("reverse", B_list_reverse); ("map", B_map); ("filter", B_filter); ("fold", B_fold)]%string.
Definition io_functions : list (string * builtin) :=
  [("pathjoin", B_path_join); ("dirname", B_dirname); ("basename", B_basename);
   ("exists", B_exists); ("listdir", B_list_dir); ("mkdir", B_make_dir);
   ("mkdirp", B_make_dir_parents); ("readfile", B_read_file); ("readbytes", B_read_bytes);
   ("writefile", B_write_file); ("writebytes", B_write_bytes); ("readjson", B_read_json);
   ("writejson", B_write_json)]%string.
Definition data_functions : list (string * builtin) :=
  [("makemap", B_make_map); ("mapset", B_map_set); ("mapget", B_map_get); ("maphas", B_map_has);
   ("mapdelete", B_map_delete); ("mapkeys", B_map_keys); ("mapcount", B_map_count);
   ("makebytes", B_make_bytes); ("tobytes", B_to_bytes); ("byteslen", B_bytes_length);
   ("byteat", B_byte_at); ("byteslice", B_bytes_slice); ("parsejson", B_parse_json);
   ("tojson", B_to_json)]%string.
Definition system_functions : list (string * builtin) :=
  [("cwd", B_cwd); ("chdir", B_chdir); ("getenv", B_get_env); ("time", B_time); ("exit", B_exit);
   ("system", B_system); ("runcommand", B_run_command); ("runprocess", B_run_process)]%string.
Definition type_functions : list (string * builtin) :=
  [("typeof", B_type_of); ("tostring", B_to_string); ("tonumber", B_to_number);
   ("isnil", B_is_nil); ("isnumber", B_is_number); ("isstring", B_is_string);
   ("isbytes", B_is_bytes); ("islist", B_is_list); ("ismap", B_is_map)]%string.

(** ** Masks *)

Definition FEX_BUILTINS_NONE : Z := 0.
Definition FEX_BUILTINS_MATH : Z := Z.shiftl 1 0.
Definition FEX_BUILTINS_STRING : Z := Z.shiftl 1 1.
Definition FEX_BUILTINS_LIST : Z := Z.shiftl 1 2.
Definition FEX_BUILTINS_IO : Z := Z.shiftl 1 3.
Definition FEX_BUILTINS_SYSTEM : Z := Z.shiftl 1 4.
Definition FEX_BUILTINS_TYPE : Z := Z.shiftl 1 5.
Definition FEX_BUILTINS_DATA : Z := Z.shiftl 1 6.
Definition FEX_BUILTINS_SAFE : Z :=
  Z.lor FEX_BUILTINS_MATH (Z.lor FEX_BUILTINS_STRING (Z.lor FEX_BUILTINS_LIST
    (Z.lor FEX_BUILTINS_TYPE FEX_BUILTINS_DATA))).
Definition FEX_BUILTINS_ALL : Z := Z.lor FEX_BUILTINS_SAFE (Z.lor FEX_BUILTINS_IO FEX_BUILTINS_SYSTEM).

Definition FEX_CONFIG_ENABLE_SPANS : Z := Z.shiftl 1 0.
Definition FEX_CONFIG_ENABLE_EXTENDED_BUILTINS : Z := Z.shiftl 1 1.

(** [config & bit] as a condition. *)
Definition flag (config bit : Z) : bool := negb (Z.land config bit =? 0).

(** ** Registration *)

(** The address of a function: its place in the list of all of them. *)
Definition all_builtins : list builtin :=
  snd <$> core_functions ++ math_functions ++ string_functions ++ list_functions ++ io_functions ++
          data_functions ++ system_functions ++ type_functions.
Definition address (b : builtin) : nat := default 0%nat (fst <$> list_find (eq b) all_builtins).

Section Registration.
(** The order of the two arguments of fe_set is not specified. *)
Context (lhs_first : bool).

Definition register_function (name : string) (fn : builtin) : comp fe_Context unit :=
  let* '(sym, f) :=
    (if lhs_first
     then let* sym := fe_symbol (str name) in let* f := fe_cfunc (address fn) in ret (sym, f)
     else let* f := fe_cfunc (address fn) in let* sym := fe_symbol (str name) in ret (sym, f)) in
  fe_set sym f.
Fixpoint register_all (l : list (string * builtin)) : comp fe_Context unit :=
  match l with
  | [] => ret tt
  | (name, fn) :: l => register_function name fn ;;; register_all l
  end.

(** A category: its bindings, and the root stack as it was. *)
Definition register_functions (l : list (string * builtin)) : comp fe_Context unit :=
  let* gc_save := fe_savegc in
  register_all l ;;;
  fe_restoregc gc_save.
Definition register_math_functions : comp fe_Context unit := register_functions math_functions.
Definition register_string_functions : comp fe_Context unit := register_functions string_functions.
Definition register_list_functions : comp fe_Context unit := register_functions list_functions.
Definition register_io_functions : comp fe_Context unit := register_functions io_functions.
Definition register_data_functions : comp fe_Context unit := register_functions data_functions.
Definition register_system_functions : comp fe_Context unit := register_functions system_functions.
Definition register_type_functions : comp fe_Context unit := register_functions type_functions.

Definition fex_init_extended_builtins (config : Z) : comp fe_Context unit :=
  when (flag config FEX_BUILTINS_MATH) register_math_functions ;;;
  when (flag config FEX_BUILTINS_STRING) register_string_functions ;;;
  when (flag config FEX_BUILTINS_LIST) register_list_functions ;;;
  when (flag config FEX_BUILTINS_IO) register_io_functions ;;;
  when (flag config FEX_BUILTINS_DATA) register_data_functions ;;;
  when (flag config FEX_BUILTINS_SYSTEM) register_system_functions ;;;
  when (flag config FEX_BUILTINS_TYPE) register_type_functions.
Definition fex_init_all_builtins : comp fe_Context unit := fex_init_extended_builtins FEX_BUILTINS_ALL.

(** The mask that takes effect. *)
Definition effective_builtins (config builtins : Z) : Z :=
  if (builtins =? FEX_BUILTINS_NONE) && flag config FEX_CONFIG_ENABLE_EXTENDED_BUILTINS
  then FEX_BUILTINS_ALL else builtins.

Definition fex_init_with_builtins (config builtins : Z) : comp fe_Context unit :=
  modify (fun c => with_host (with_error_fn FexOnError (host c)) c) ;;;
  let builtins := effective_builtins config builtins in
  lift_spans (fex_span_set_enabled (flag config FEX_CONFIG_ENABLE_SPANS)) ;;;
  let* gc_save := fe_savegc in
  register_all core_functions ;;;
  when (negb (builtins =? FEX_BUILTINS_NONE)) (fex_init_extended_builtins builtins) ;;;
  fe_restoregc gc_save.
Definition fex_init_with_config (config : Z) : comp fe_Context unit :=
  fex_init_with_builtins config FEX_BUILTINS_NONE.
Definition fex_init : comp fe_Context unit := fex_init_with_builtins 0 FEX_BUILTINS_NONE.
End Registration.

(** ** The interpreter with its builtins *)

(** What the C library, the compiler and the system answer. *)
Record Platform := MkPlatform {
  oob : double -> Z; oob_int : double -> Z; oob_u32 : double -> Z;
  c_sin : double -> double; c_cos : double -> double; c_tan : double -> double; c_log : double -> double;
  c_pow : double -> double -> double;
  fmt_g7 : double -> chars; fmt_g15 : double -> chars; fmt_p : obj -> chars;
  malloc_ok : Z -> bool; realloc_ok : Z -> bool;
  file_exists : chars -> bool; realpath : chars -> option chars; read_file : chars -> FileRead;
  now : Z;
  args_left_first : bool
}.

(** The random builtins on the static generator. *)
Definition with_generator {A} (m : comp (fe_Context * Rng) A) : comp fe_Context A := fun c =>
  let leave '(c, r) := with_host (with_rng r (host c)) c in
  match m (c, rng (host c)) with
  | Done a s => Done a (leave s)
  | Raised e s => Raised e (leave s)
  | Stuck => Stuck
  | NoFuel => NoFuel
  end.

(** The builtins that work on files, directories, the environment, the clock
    and other processes. *)
Definition system_builtins : list builtin :=
  [B_exists; B_list_dir; B_make_dir; B_make_dir_parents; B_read_file; B_read_bytes; B_write_file; B_write_bytes;
   B_read_json; B_write_json; B_cwd; B_chdir; B_get_env; B_time; B_exit; B_system; B_run_command; B_run_process].

Section Machine.
Context (p : Platform) (fuel : nat).
Context (sys : System).

Definition call_builtin (eval_ : obj -> comp fe_Context obj) (b : builtin) : obj -> comp fe_Context obj :=
  match b with
  | B_print => builtin_print (fmt_g7 p) (fmt_p p) fuel
  | B_println => builtin_println (fmt_g7 p) (fmt_p p) fuel
  | B_read_line => builtin_read_line
  | B_read_number => builtin_read_number (oob p)
  | B_sqrt => builtin_sqrt (oob p)
  | B_sin => builtin_sin (oob p) (c_sin p)
  | B_cos => builtin_cos (oob p) (c_cos p)
  | B_tan => builtin_tan (oob p) (c_tan p)
  | B_abs => builtin_abs (oob p)
  | B_floor => builtin_floor (oob p)
  | B_ceil => builtin_ceil (oob p)
  | B_round => builtin_round (oob p)
  | B_min => builtin_min (oob p)
  | B_max => builtin_max (oob p)
  | B_pow => builtin_pow (oob p) (c_pow p)
  | B_log => builtin_log (oob p) (c_log p)
  | B_random => fun args => with_generator (builtin_random (oob p) (now p) args)
  | B_seed_random => fun args => with_generator (builtin_seed_random (oob_u32 p) args)
  | B_random_int => fun args => with_generator (builtin_random_int (oob p) (oob_u32 p) (now p) args)
  | B_random_bytes => fun args => with_generator (builtin_random_bytes (oob p) (oob_int p) (now p) args)
  | B_string_length => builtin_string_length (oob p)
  | B_string_upper => builtin_string_upper
  | B_string_lower => builtin_string_lower
  | B_string_concat => builtin_string_concat (fmt_g7 p) (fmt_p p) fuel (malloc_ok p)
  | B_string_substring => builtin_string_substring (oob_int p)
  | B_string_split => builtin_string_split
  | B_string_trim => builtin_string_trim
  | B_string_contains => builtin_string_contains
  | B_make_string => builtin_make_string (oob_int p)
  | B_list_length => builtin_list_length (oob p)
  | B_list_nth => builtin_list_nth (oob_int p)
  | B_list_append => builtin_list_append
  | B_list_reverse => builtin_list_reverse
  | B_map => builtin_map eval_
  | B_filter => builtin_filter eval_
  | B_fold => builtin_fold eval_
  | B_path_join => builtin_path_join (malloc_ok p)
  | B_dirname => builtin_dirname (malloc_ok p)
  | B_basename => builtin_basename (malloc_ok p)
  | B_make_map => builtin_make_map
  | B_map_set => builtin_map_set
  | B_map_get => builtin_map_get
  | B_map_has => builtin_map_has
  | B_map_delete => builtin_map_delete
  | B_map_keys => builtin_map_keys
  | B_map_count => builtin_map_count (oob p)
  | B_make_bytes => builtin_make_bytes (oob_int p)
  | B_to_bytes => builtin_to_bytes (malloc_ok p)
  | B_bytes_length => builtin_bytes_length (oob p)
  | B_byte_at => builtin_byte_at (oob p) (oob_int p)
  | B_bytes_slice => builtin_bytes_slice (oob_int p) (malloc_ok p)
  | B_parse_json => builtin_parse_json (oob p) (malloc_ok p)
  | B_to_json => builtin_to_json (fmt_g15 p) (malloc_ok p) fuel
  | B_type_of => builtin_type_of
  | B_to_string => builtin_to_string (fmt_g7 p) (fmt_p p) fuel
  | B_to_number => builtin_to_number (oob p) (malloc_ok p)
  | B_is_nil => builtin_is_nil
  | B_is_number => builtin_is_number
  | B_is_string => builtin_is_string
  | B_is_bytes => builtin_is_bytes
  | B_is_list => builtin_is_list
  | B_is_map => builtin_is_map
  | B_exists => builtin_exists sys (malloc_ok p)
  | B_list_dir => builtin_list_dir sys (malloc_ok p)
  | B_make_dir => builtin_make_dir sys (malloc_ok p)
  | B_make_dir_parents => builtin_make_dir_parents sys (malloc_ok p)
  | B_read_file => builtin_read_file sys (malloc_ok p)
  | B_read_bytes => builtin_read_bytes sys (malloc_ok p)
  | B_write_file => builtin_write_file sys (oob p) (malloc_ok p)
  | B_write_bytes => builtin_write_bytes sys (oob p) (malloc_ok p)
  | B_read_json => builtin_read_json sys (oob p) (malloc_ok p)
  | B_write_json => builtin_write_json sys (oob p) (fmt_g15 p) (malloc_ok p) fuel
  | B_cwd => builtin_cwd sys (malloc_ok p) fuel
  | B_chdir => builtin_chdir sys (malloc_ok p)
  | B_get_env => builtin_get_env sys (malloc_ok p)
  | B_time => builtin_time sys (oob p)
  | B_exit => builtin_exit (oob_int p)
  | B_system => builtin_system sys (oob p) (malloc_ok p) fuel
  | B_run_command => builtin_run_command sys (oob p) (malloc_ok p) (args_left_first p) fuel
  | B_run_process => builtin_run_process sys (oob p) (malloc_ok p) (args_left_first p) fuel
  end.

(** A call of a C function object. *)
Definition call_address (eval_ : obj -> comp fe_Context obj) (f : nat) (args : obj) : comp fe_Context obj :=
  match all_builtins !! f with
  | Some b => call_builtin eval_ b args
  | None => stuck
  end.

(** fe_eval; [depth] bounds the calls of the evaluator that are started by
    builtins and imports and have not returned. *)
Fixpoint interpret (depth : nat) : obj -> comp fe_Context obj :=
  match depth with
  | O => fun _ => no_fuel
  | S d =>
      (Eval.fe_eval (oob p) (fmt_g7 p) (fmt_p p) (call_address (interpret d))
         (import_module (file_exists p) (realpath p) (read_file p) (fmt_g7 p) (fmt_p p) (malloc_ok p) fuel
            (fun _ => no_fuel) (oob p) (realloc_ok p) (interpret d))
         (args_left_first p) fuel)
  end.
End Machine.
