(* ===== verification/BuiltinsFrame.v ===== *)
(** * What the builtins do to the evaluator's stacks

    Every builtin keeps the roots of its caller, the call list, the depth and
    the stacks of the module loader.  The generator, the standard input and
    the calls of the system are the state it may change besides the heap. *)

From Stdlib Require Import ZArith Lia Ascii String.
From stdpp Require Import base list.
From S2P Require Import Prelude Number Strtod Memory Budget MapTable Slab SlabSpec Span Host Ctx Gc Objects Writer Eval Frame EvalFrame Lexer Parser ParserFrame Builtins BuiltinsText BuiltinsList Json BuiltinsMath Paths Files Process Modules LoaderFrame Try Import Agree Console Register.

(** Through sequences and cases; a definition that has no lemma is unfolded. *)
Ltac framed :=
  repeat (cbv beta iota zeta; lazymatch goal with
    | |- keeps _ (bind fe_savegc _) => apply keeps_savegc; intros ? ?
    | |- keeps _ (bind _ _) => apply keeps_bind; [| intros ?]
    | |- keeps _ (match ?x with _ => _ end) => destruct x
    | |- keeps _ ?m => first [solve [auto with keeps] | let h := head m in is_const h; progress unfold h]
    end).

(** ** State of the host *)

Lemma keeps_modify_host k (f : Host -> Host) :
  (forall h, unwound h (f h)) -> keeps k (modify (fun c => with_host (f (host c)) c)).
Proof. intros Hf c [Hk _]. by split. Qed.
Lemma keeps_set_stdin k s : keeps k (set_stdin s).
Proof. apply (keeps_modify_host k (with_stdin s)). by split. Qed.
Lemma keeps_ask {A} k (answer : list Event -> A) e : keeps k (ask answer e).
Proof.
  unfold ask. apply keeps_bind; [by auto with keeps | intros h]. apply keeps_bind; [| intros; by auto with keeps].
  apply (keeps_modify_host k (with_events _)). by split.
Qed.
#[export] Hint Resolve keeps_set_stdin keeps_ask : keeps.

(** ** Arguments, text and lists *)

Lemma nr_fe_bytescopy n a o z : never_raises (fe_bytescopy n a o z).
Proof.
  assert (forall f a i r out, never_raises (bytescopy_loop f a i r out))
    by (clear; induction f as [| f IH]; intros a i r out; cbn [bytescopy_loop]; nr).
  unfold fe_bytescopy. nr.
Qed.
#[export] Hint Resolve nr_fe_bytescopy : nr.
Lemma keeps_list_loop k l r : keeps k (list_loop l r).
Proof. revert r. induction l as [| o l IH]; intros r; cbn [list_loop]; framed. Qed.
#[export] Hint Resolve keeps_list_loop : keeps.
Lemma keeps_map_keys k o : keeps k (map_keys o).
Proof.
  assert (forall g l r cd, (k <= g)%nat -> keeps k (map_keys_loop g o l r cd)) as Hl.
  { intros g l r cd Hg. revert r cd. induction l as [| x l IH]; intros r cd; cbn [map_keys_loop]; framed. }
  unfold map_keys. framed.
Qed.
#[export] Hint Resolve keeps_map_keys : keeps.

Section Loops.
Context (fmt_g7 : double -> chars) (fmt_p : obj -> chars) (print_fuel : nat) (malloc_ok : Z -> bool).

Lemma keeps_count_args k f o n : keeps k (count_args f o n).
Proof. revert o n. induction f as [| f IH]; intros o n; cbn [count_args]; framed. Qed.
#[local] Hint Resolve keeps_count_args : keeps.
Lemma keeps_check_args k o n name : keeps k (FEX_CHECK_ARGS o n name).
Proof. unfold FEX_CHECK_ARGS. framed. Qed.
Lemma keeps_split_loop {A} k (emit : A -> chars -> comp fe_Context A) f d b i st acc cd :
  (forall a s, keeps k (emit a s)) -> keeps k (split_loop emit f d b i st acc cd).
Proof. intros He. revert i st acc cd. induction f as [| f IH]; intros i st acc cd; cbn [split_loop]; framed. Qed.
Lemma keeps_concat_loop k f o b cd : keeps k (concat_loop fmt_g7 fmt_p print_fuel malloc_ok f o b cd).
Proof. revert o b cd. induction f as [| f IH]; intros o b cd; cbn [concat_loop]; framed. Qed.
Lemma keeps_length_loop k f l n cd : keeps k (length_loop f l n cd).
Proof. revert l n cd. induction f as [| f IH]; intros l n cd; cbn [length_loop]; framed. Qed.
Lemma keeps_nth_loop k f i n l cd : keeps k (nth_loop f i n l cd).
Proof. revert i l cd. induction f as [| f IH]; intros i l cd; cbn [nth_loop]; framed. Qed.
Lemma keeps_copy_loop k f o l cd : keeps k (copy_loop f o l cd).
Proof. revert o l cd. induction f as [| f IH]; intros o l cd; cbn [copy_loop]; framed. Qed.
#[local] Hint Resolve keeps_copy_loop : keeps.
Lemma keeps_append_loop k f o l cd : keeps k (append_loop f o l cd).
Proof. revert o l cd. induction f as [| f IH]; intros o l cd; cbn [append_loop]; framed. Qed.
Lemma keeps_reverse_loop k f l r cd : keeps k (reverse_loop f l r cd).
Proof. revert l r cd. induction f as [| f IH]; intros l r cd; cbn [reverse_loop]; framed. Qed.
Lemma keeps_make_map_loop k f m o cd : keeps k (make_map_loop f m o cd).
Proof. revert o cd. induction f as [| f IH]; intros o cd; cbn [make_map_loop]; framed. Qed.
Lemma keeps_print_loop k f o : keeps k (print_loop fmt_g7 fmt_p print_fuel f o).
Proof. revert o. induction f as [| f IH]; intros o; cbn [print_loop]; framed. Qed.
Lemma keeps_select_loop k better f o r : keeps k (select_loop better f o r).
Proof. revert o r. induction f as [| f IH]; intros o r; cbn [select_loop]; framed. Qed.
Lemma keeps_join_loop k f o b sep cd : keeps k (join_loop malloc_ok f o b sep cd).
Proof. revert o b sep cd. induction f as [| f IH]; intros o b sep cd; cbn [join_loop]; framed. Qed.

Context (ev : obj -> comp fe_Context obj) (Hev : forall k o, keeps k (ev o)).
Lemma keeps_map_loop k f fn l r : keeps k (map_loop ev f fn l r).
Proof. revert l r. induction f as [| f IH]; intros l r; cbn [map_loop]; framed. Qed.
Lemma keeps_filter_loop k f fn l r : keeps k (filter_loop ev f fn l r).
Proof. revert l r. induction f as [| f IH]; intros l r; cbn [filter_loop]; framed. Qed.
Lemma keeps_fold_loop k f fn a l : keeps k (fold_loop ev f fn a l).
Proof. revert a l. induction f as [| f IH]; intros a l; cbn [fold_loop]; framed. Qed.
End Loops.
#[export] Hint Resolve keeps_count_args keeps_check_args keeps_concat_loop keeps_length_loop keeps_nth_loop
  keeps_copy_loop keeps_append_loop keeps_reverse_loop keeps_make_map_loop keeps_print_loop keeps_select_loop
  keeps_join_loop keeps_map_loop keeps_filter_loop keeps_fold_loop : keeps.
#[export] Hint Extern 1 (keeps _ (split_loop _ _ _ _ _ _ _ _)) => apply keeps_split_loop; intros; by framed : keeps.

(** ** Computations with data beside the context *)

Definition pkeeps {A B} (k : nat) (m : comp (fe_Context * B) A) : Prop := forall c b, ready k c ->
  match m (c, b) with
  | Done _ (c', _) => stable k c c'
  | Raised _ (c', _) => aborted k c c'
  | _ => True
  end.

Section Pairs.
Context {B : Type} (k : nat).

Lemma pk_ret {A} (a : A) : pkeeps (B := B) k (ret a).
Proof. intros c b [Hk _]. by apply same_stable. Qed.
Lemma pk_no_fuel {A} : pkeeps (A := A) (B := B) k no_fuel.
Proof. done. Qed.
Lemma pk_bind {A A'} (m : comp (fe_Context * B) A) (f : A -> comp (fe_Context * B) A') :
  pkeeps k m -> (forall a, pkeeps k (f a)) -> pkeeps k (bind m f).
Proof.
  intros Hm Hf c b Hc. unfold bind. specialize (Hm c b Hc). destruct (m (c, b)) as [a [c1 b1] | | |]; try done.
  specialize (Hf a c1 b1 (stable_ready _ _ _ Hc Hm)).
  destruct (f a (c1, b1)) as [? [] | ? [] | |]; try done; [by eapply stable_trans | by eapply stable_aborted].
Qed.
Lemma pk_in_ctx {A} (m : comp fe_Context A) : keeps k m -> pkeeps (B := B) k (in_ctx m).
Proof. intros Hm c b Hc. unfold in_ctx. specialize (Hm c Hc). by destruct (m c). Qed.
(** Only the data is changed. *)
Lemma pk_local {A} (m : comp (fe_Context * B) A) :
  (forall c b, match m (c, b) with Done _ (c', _) => c' = c | Raised _ _ => False | _ => True end) -> pkeeps k m.
Proof.
  intros Hm c b [Hk _]. specialize (Hm c b). destruct (m (c, b)) as [a [c' b'] | | |]; try done. subst c'. by apply same_stable.
Qed.
End Pairs.

Create HintDb pk.
#[export] Hint Resolve pk_ret pk_no_fuel : pk.
#[export] Hint Extern 1 (pkeeps _ (in_ctx _)) => apply pk_in_ctx; by framed : pk.
Ltac pk :=
  repeat (cbv beta iota zeta; lazymatch goal with
    | |- pkeeps _ (bind _ _) => apply pk_bind; [| intros ?]
    | |- pkeeps _ (match ?x with _ => _ end) => destruct x
    | |- pkeeps _ ?m => first [solve [auto with pk] | let h := head m in is_const h; progress unfold h]
    end).

(** ** JSON *)

Section Json.
Context (oob : double -> Z) (fmt_g15 : double -> chars) (malloc_ok : Z -> bool) (k : nat).

Lemma pk_char_at n : pkeeps k (char_at n).
Proof. apply pk_local. intros c [s cd]. unfold char_at. destruct (s !! n); [done |]. by case_decide. Qed.
Lemma pk_skip n : pkeeps k (skip n).
Proof. apply pk_local. by intros c [s cd]. Qed.
Lemma pk_rest : pkeeps k rest.
Proof. apply pk_local. by intros c [s cd]. Qed.
Lemma pk_set_rest s : pkeeps k (set_rest s).
Proof. apply pk_local. by intros c [s' cd]. Qed.
Lemma pk_append s : pkeeps k (append malloc_ok s).
Proof. apply pk_local. intros c [b cd]. unfold append. by destruct (buf_append_mem malloc_ok b s). Qed.
Lemma keeps_poll cd : keeps k (lift_budget (builtin_poll cd)).
Proof. framed. Qed.
Lemma pk_parser_poll : pkeeps k parser_poll.
Proof. intros c [s cd] Hc. unfold parser_poll. pose proof (keeps_poll cd c Hc). by destruct (lift_budget _ c). Qed.
Lemma pk_writer_poll : pkeeps k writer_poll.
Proof. intros c [s cd] Hc. unfold writer_poll. pose proof (keeps_poll cd c Hc). by destruct (lift_budget _ c). Qed.
#[local] Hint Resolve pk_char_at pk_skip pk_rest pk_set_rest pk_append pk_parser_poll pk_writer_poll : pk.

Lemma pk_skip_ws_loop f : pkeeps k (skip_ws_loop f).
Proof. induction f as [| f IH]; cbn [skip_ws_loop]; pk. Qed.
#[local] Hint Resolve pk_skip_ws_loop : pk.
Lemma pk_parse_escape b : pkeeps k (parse_escape malloc_ok b).
Proof. unfold parse_escape. pk. Qed.
#[local] Hint Resolve pk_parse_escape : pk.
Lemma pk_string_loop f b : pkeeps k (string_loop malloc_ok f b).
Proof. revert b. induction f as [| f IH]; intros b; cbn [string_loop]; pk. Qed.
#[local] Hint Resolve pk_string_loop : pk.

Section Value.
Context (value : comp (fe_Context * (chars * Z)) obj) (Hvalue : pkeeps k value).
Lemma pk_array_loop n l : pkeeps k (array_loop value n l).
Proof. revert l. induction n as [| n IH]; intros l; cbn [array_loop]; pk. Qed.
Lemma pk_object_loop n m : pkeeps k (object_loop malloc_ok value n m).
Proof. revert m. induction n as [| n IH]; intros m; cbn [object_loop]; pk. Qed.
End Value.
#[local] Hint Resolve pk_array_loop pk_object_loop : pk.
Lemma pk_parse_value f : pkeeps k (json_parse_value oob malloc_ok f).
Proof. induction f as [| f IH]; cbn [json_parse_value]; pk. Qed.
#[local] Hint Resolve pk_parse_value : pk.
Lemma keeps_parse_text s : keeps k (parse_text oob malloc_ok s).
Proof.
  intros c Hc. unfold parse_text. set (m := bind _ _). assert (pkeeps k m) as Hm by (unfold m; pk).
  specialize (Hm c (s, FEX_BUILTIN_ABORT_CHECK_INTERVAL) Hc). by destruct (m _) as [? [] | ? [] | |].
Qed.
Lemma keeps_parse_prefix s : keeps k (parse_prefix oob malloc_ok s).
Proof.
  intros c Hc. unfold parse_prefix. set (m := bind _ _). assert (pkeeps k m) as Hm by (unfold m; pk).
  specialize (Hm c (s, FEX_BUILTIN_ABORT_CHECK_INTERVAL) Hc). by destruct (m _) as [? [] | ? [] | |].
Qed.

Lemma pk_write_chars s : pkeeps k (write_chars malloc_ok s).
Proof. induction s as [| ch s IH]; cbn [write_chars]; pk. Qed.
Lemma keeps_proper_loop f o cd : keeps k (proper_loop f o cd).
Proof. revert o cd. induction f as [| f IH]; intros o cd; cbn [proper_loop]; framed. Qed.
#[local] Hint Resolve pk_write_chars : pk.
#[local] Hint Resolve keeps_proper_loop : keeps.
Section Write.
Context (value : obj -> comp (fe_Context * (TextBuffer * Z)) bool) (Hvalue : forall o, pkeeps k (value o)).
Lemma pk_write_elements f l first : pkeeps k (write_elements malloc_ok value f l first).
Proof. revert l first. induction f as [| f IH]; intros l first; cbn [write_elements]; pk. Qed.
Lemma pk_write_entries f m keys first : pkeeps k (write_entries malloc_ok value f m keys first).
Proof. revert keys first. induction f as [| f IH]; intros keys first; cbn [write_entries]; pk. Qed.
End Write.
#[local] Hint Resolve pk_write_elements pk_write_entries : pk.
Lemma pk_write_value f o : pkeeps k (json_write_value fmt_g15 malloc_ok f o).
Proof. revert o. induction f as [| f IH]; intros o; cbn [json_write_value]; pk. Qed.
Lemma keeps_json_text f v : keeps k (json_text fmt_g15 malloc_ok f v).
Proof.
  intros c Hc. unfold json_text.
  pose proof (pk_write_value f v c (empty_buffer, FEX_BUILTIN_ABORT_CHECK_INTERVAL) Hc) as H.
  by destruct (json_write_value _ _ _ _ _) as [? [? []] | ? [] | |].
Qed.
Lemma keeps_to_json f args : keeps k (builtin_to_json fmt_g15 malloc_ok f args).
Proof.
  unfold builtin_to_json. apply keeps_bind; [framed | intros _]. apply keeps_bind; [framed | intros [v d]].
  intros c Hc. pose proof (pk_write_value f v c (empty_buffer, FEX_BUILTIN_ABORT_CHECK_INTERVAL) Hc) as H.
  destruct (json_write_value _ _ _ _ _) as [[] [c1 []] | ? [] | |]; try done.
  pose proof (keeps_fe_string k (buf_data t) c1 (stable_ready _ _ _ Hc H)) as Hs.
  destruct (fe_string _ c1); try done; [by eapply stable_trans | by eapply stable_aborted].
Qed.
End Json.
#[export] Hint Resolve keeps_parse_text keeps_parse_prefix keeps_json_text keeps_to_json : keeps.

(** ** Random numbers and console input *)

Lemma keeps_with_generator {A} k (m : comp (fe_Context * Rng) A) : pkeeps k m -> keeps k (with_generator m).
Proof.
  intros Hm c Hc. unfold with_generator. specialize (Hm c (rng (host c)) Hc).
  destruct (m _) as [? [c' r] | ? [c' r] | |]; try done; destruct Hm; split; try done; (etrans; [done | by split]).
Qed.
Lemma pk_next_random k : pkeeps k next_random.
Proof. apply pk_local. intros c r. unfold next_random. by destruct (Sfc32.sfc32_next (rng_state r)). Qed.
Lemma pk_ensure_seeded now k : pkeeps k (ensure_seeded now).
Proof. apply pk_local. done. Qed.
#[export] Hint Resolve pk_next_random pk_ensure_seeded : pk.
#[export] Hint Extern 1 (pkeeps _ (modify _)) => apply pk_local; by intros ? ? : pk.
#[export] Hint Extern 1 (keeps _ (with_generator _)) => apply keeps_with_generator; by pk : keeps.
Lemma pk_bytes_loop k oob n l cd : pkeeps k (bytes_loop oob n l cd).
Proof. revert l cd. induction n as [| n IH]; intros l cd; cbn [bytes_loop]; pk. Qed.
#[export] Hint Resolve pk_bytes_loop : pk.

(** readline works on the scratch blocks of the compiler, and raises no
    compile error. *)
Definition mute {A} (m : comp Fex A) : Prop := forall s,
  match m s with Done _ s' | Raised _ s' => try_error s' = try_error s | _ => True end.
Lemma mute_bind {A B} (m : comp Fex A) (f : A -> comp Fex B) : mute m -> (forall a, mute (f a)) -> mute (bind m f).
Proof.
  intros Hm Hf s. unfold bind. specialize (Hm s). destruct (m s) as [a s1 | | |]; try done.
  specialize (Hf a s1). destruct (f a s1); try done; congruence.
Qed.
Lemma mute_fe {A} (m : comp fe_Context A) : mute (fe m).
Proof.
  intros s. unfold fe, quiet. destruct (m (ctx s)) as [| e c | |]; try done.
  pose proof (releases_cleanup (with_ctx c s)) as H. destruct (bind _ _ _); try done. apply H.
Qed.
Lemma mute_basic {A} (a : A) :
  mute (ret a) /\ mute (@no_fuel _ A) /\ mute get /\ forall f, (forall s, try_error (f s) = try_error s) -> mute (modify f).
Proof. done. Qed.
Ltac mute :=
  repeat (cbv beta iota zeta; lazymatch goal with
    | |- mute (bind _ _) => apply mute_bind; [| intros ?]
    | |- mute (match ?x with _ => _ end) => destruct x
    | |- mute (fe _) => apply mute_fe
    | |- mute ?m => first [by eauto | by apply mute_basic; eauto | let h := head m in is_const h; progress unfold h]
    end).
Lemma keeps_in_fex {A} k (m : comp Fex A) : fkeeps k m -> mute m -> keeps k (in_fex m).
Proof.
  intros Hm Hq c Hc. unfold in_fex. set (s0 := MkFex _ _ _ _ _ _). specialize (Hm s0 Hc). specialize (Hq s0).
  destruct (m s0) as [a s1 | e s1 | |]; try done; [apply Hm |].
  destruct Hm as [Hr ? ? ? ? ?]. split; try done. by apply Hr.
Qed.
Lemma fk_read_line_loop k f line buf cap : fkeeps k (read_line_loop f line buf cap).
Proof.
  revert line buf cap. induction f as [| f IH]; intros line buf cap; cbn [read_line_loop]; [by auto with fk |].
  unfold grow_line, fex_temp_realloc, fgetc. fk.
Qed.
Lemma mute_read_line_loop f line buf cap : mute (read_line_loop f line buf cap).
Proof. revert line buf cap. induction f as [| f IH]; intros line buf cap; cbn [read_line_loop]; mute. Qed.
Lemma keeps_read_line k args : keeps k (builtin_read_line args).
Proof.
  pose proof fk_read_line_loop. pose proof mute_read_line_loop.
  apply keeps_in_fex; [unfold free_line; fk | mute].
Qed.
#[export] Hint Resolve keeps_read_line : keeps.

(** ** Files and processes *)

Section Files.
Context (sys : System) (oob : double -> Z) (malloc_ok : Z -> bool) (k : nat).

Lemma keeps_make_prefixes path n l : keeps k (make_prefixes sys path n l).
Proof. induction l as [| i l IH]; cbn [make_prefixes]; framed. Qed.
Lemma keeps_strings_loop g l acc cd : (k <= g)%nat -> keeps k (strings_loop g l acc cd).
Proof. intros Hg. revert acc cd. induction l as [| s l IH]; intros acc cd; cbn [strings_loop]; framed. Qed.
Lemma keeps_entries_loop names l cd : keeps k (entries_loop malloc_ok names l cd).
Proof. revert l cd. induction names as [| s names IH]; intros l cd; cbn [entries_loop]; framed. Qed.
Lemma keeps_read_chunks f name fn b fails r n text cd : keeps k (read_chunks f name fn b fails r n text cd).
Proof. revert r n text cd. induction f as [| f IH]; intros r n text cd; cbn [read_chunks]; framed. Qed.
Lemma keeps_write_chunks f name fn content total cd : keeps k (write_chunks sys f name fn content total cd).
Proof. revert content total cd. induction f as [| f IH]; intros content total cd; cbn [write_chunks]; framed. Qed.
Lemma keeps_cwd_loop f n : keeps k (cwd_loop sys malloc_ok f n).
Proof. revert n. induction f as [| f IH]; intros n; cbn [cwd_loop]; framed. Qed.

Lemma keeps_count_list_loop f o fn label n cd : keeps k (count_list_loop f o fn label n cd).
Proof. revert o n cd. induction f as [| f IH]; intros o n cd; cbn [count_list_loop]; framed. Qed.
Lemma keeps_argv_loop f o fn l cd : keeps k (argv_loop malloc_ok f o fn l cd).
Proof. revert o l cd. induction f as [| f IH]; intros o l cd; cbn [argv_loop]; framed. Qed.
Lemma keeps_env_loop f env o fn l cd : keeps k (env_loop malloc_ok f env o fn l cd).
Proof. revert o l cd. induction f as [| f IH]; intros o l cd; cbn [env_loop]; framed. Qed.
Lemma keeps_write_pipe f fd data fn : keeps k (write_posix_input_pipe sys f fd data fn).
Proof. revert data. induction f as [| f IH]; intros data; cbn [write_posix_input_pipe]; framed. Qed.
Lemma keeps_drain_pipe f fd b limit over fn : keeps k (drain_posix_capture_pipe sys malloc_ok f fd b limit over fn).
Proof. revert b over. induction f as [| f IH]; intros b over; cbn [drain_posix_capture_pipe]; framed. Qed.
Lemma keeps_wait_loop f pid : keeps k (wait_loop sys f pid).
Proof. induction f as [| f IH]; cbn [wait_loop]; framed. Qed.
#[local] Hint Resolve keeps_write_pipe keeps_drain_pipe : keeps.
Lemma keeps_transfer_loop f fn options n pid t : keeps k (transfer_loop sys malloc_ok f fn options n pid t).
Proof. revert t. induction n as [| n IH]; intros t; cbn [transfer_loop]; framed. Qed.
Lemma keeps_reap_loop n pid : keeps k (reap_loop sys n pid).
Proof. induction n as [| n IH]; cbn [reap_loop]; framed. Qed.
#[local] Hint Resolve keeps_count_list_loop keeps_env_loop keeps_wait_loop keeps_transfer_loop keeps_reap_loop : keeps.
Lemma keeps_run_process f fn options argv : keeps k (run_process_native sys malloc_ok f fn options argv).
Proof. unfold run_process_native. framed. Qed.

Lemma keeps_with_option {A} opts name (d : A) f : (forall v, keeps k (f v)) -> keeps k (with_option opts name d f).
Proof. intros Hf. unfold with_option. framed. Qed.
Lemma keeps_options o fn : keeps k (parse_process_options malloc_ok o fn).
Proof.
  unfold parse_process_options.
  repeat first [apply keeps_with_option; intros ?; by framed | progress framed].
Qed.
End Files.
#[export] Hint Resolve keeps_make_prefixes keeps_strings_loop keeps_entries_loop keeps_read_chunks keeps_write_chunks
  keeps_cwd_loop keeps_count_list_loop keeps_argv_loop keeps_env_loop keeps_run_process keeps_options : keeps.

(** ** All builtins *)

Lemma keeps_call_builtin p fuel sys ev (Hev : forall k o, keeps k (ev o)) b k args :
  keeps k (call_builtin p fuel sys ev b args).
Proof. destruct b; cbn [call_builtin]; framed. Qed.

Lemma keeps_call_address p fuel sys ev (Hev : forall k o, keeps k (ev o)) k f args :
  keeps k (call_address p fuel sys ev f args).
Proof. unfold call_address. destruct (all_builtins !! f); [by apply keeps_call_builtin | framed]. Qed.
