(* ===== verification/AgreeBuiltins.v ===== *)
(** * The builtins reach only the C functions of the heap

    No builtin stores a function pointer; map, filter and fold call the
    evaluator back. *)

From Stdlib Require Import ZArith Lia Ascii String.
From stdpp Require Import base list.
From S2P Require Import Prelude Number Strtod Memory Budget MapTable Slab SlabSpec Span Host Ctx Gc Objects Writer Eval Agree AgreeEval Lexer Parser AgreeParser Builtins BuiltinsText BuiltinsList Json BuiltinsMath Paths Files Process Modules Try Import AgreeImport Console Register.

(** ** Arguments, text and lists *)

Section Loops.
Context (fmt_g7 : double -> chars) (fmt_p : obj -> chars) (print_fuel : nat) (malloc_ok : Z -> bool) (ok : Policy).

Lemma ag_count_args f o n : confines ok (count_args f o n).
Proof. revert o n. induction f as [| f IH]; intros o n; cbn [count_args]; agree. Qed.
#[local] Hint Resolve ag_count_args : agree.
Lemma ag_check_args o n name : confines ok (FEX_CHECK_ARGS o n name).
Proof. unfold FEX_CHECK_ARGS. agree. Qed.
Lemma ag_split_loop {A} (emit : A -> chars -> comp fe_Context A) f d b i st acc cd :
  (forall a s, confines ok (emit a s)) -> confines ok (split_loop emit f d b i st acc cd).
Proof. intros He. revert i st acc cd. induction f as [| f IH]; intros i st acc cd; cbn [split_loop]; agree. Qed.
Lemma ag_concat_loop f o b cd : confines ok (concat_loop fmt_g7 fmt_p print_fuel malloc_ok f o b cd).
Proof. revert o b cd. induction f as [| f IH]; intros o b cd; cbn [concat_loop]; agree. Qed.
Lemma ag_length_loop f l n cd : confines ok (length_loop f l n cd).
Proof. revert l n cd. induction f as [| f IH]; intros l n cd; cbn [length_loop]; agree. Qed.
Lemma ag_nth_loop f i n l cd : confines ok (nth_loop f i n l cd).
Proof. revert i l cd. induction f as [| f IH]; intros i l cd; cbn [nth_loop]; agree. Qed.
Lemma ag_copy_loop f o l cd : confines ok (copy_loop f o l cd).
Proof. revert o l cd. induction f as [| f IH]; intros o l cd; cbn [copy_loop]; agree. Qed.
#[local] Hint Resolve ag_copy_loop : agree.
Lemma ag_append_loop f o l cd : confines ok (append_loop f o l cd).
Proof. revert o l cd. induction f as [| f IH]; intros o l cd; cbn [append_loop]; agree. Qed.
Lemma ag_reverse_loop f l r cd : confines ok (reverse_loop f l r cd).
Proof. revert l r cd. induction f as [| f IH]; intros l r cd; cbn [reverse_loop]; agree. Qed.
Lemma ag_make_map_loop f m o cd : confines ok (make_map_loop f m o cd).
Proof. revert o cd. induction f as [| f IH]; intros o cd; cbn [make_map_loop]; agree. Qed.
Lemma ag_print_loop f o : confines ok (print_loop fmt_g7 fmt_p print_fuel f o).
Proof. revert o. induction f as [| f IH]; intros o; cbn [print_loop]; agree. Qed.
Lemma ag_select_loop better f o r : confines ok (select_loop better f o r).
Proof. revert o r. induction f as [| f IH]; intros o r; cbn [select_loop]; agree. Qed.
Lemma ag_join_loop f o b sep cd : confines ok (join_loop malloc_ok f o b sep cd).
Proof. revert o b sep cd. induction f as [| f IH]; intros o b sep cd; cbn [join_loop]; agree. Qed.

Context (ev ev' : obj -> comp fe_Context obj) (Hev : forall o, agree ok (ev o) (ev' o)).
Lemma ag_map_loop f fn l r : agree ok (map_loop ev f fn l r) (map_loop ev' f fn l r).
Proof. revert l r. induction f as [| f IH]; intros l r; cbn [map_loop]; agree. Qed.
Lemma ag_filter_loop f fn l r : agree ok (filter_loop ev f fn l r) (filter_loop ev' f fn l r).
Proof. revert l r. induction f as [| f IH]; intros l r; cbn [filter_loop]; agree. Qed.
Lemma ag_fold_loop f fn a l : agree ok (fold_loop ev f fn a l) (fold_loop ev' f fn a l).
Proof. revert a l. induction f as [| f IH]; intros a l; cbn [fold_loop]; agree. Qed.
End Loops.
#[export] Hint Resolve ag_count_args ag_check_args ag_concat_loop ag_length_loop ag_nth_loop ag_copy_loop
  ag_append_loop ag_reverse_loop ag_make_map_loop ag_print_loop ag_select_loop ag_join_loop ag_map_loop
  ag_filter_loop ag_fold_loop : agree.
#[export] Hint Extern 1 (agree _ (split_loop _ _ _ _ _ _ _ _) _) => apply ag_split_loop; intros; by agree : agree.

(** ** JSON *)

Section Json.
Context (oob : double -> Z) (fmt_g15 : double -> chars) (malloc_ok : Z -> bool) (ok : Policy).

Lemma ag_json_access (k : nat) (s : chars) :
  confines ok (char_at k) /\ confines ok (skip k) /\ confines ok rest /\ confines ok (set_rest s) /\
  confines ok parser_poll /\ confines ok writer_poll /\ confines ok (append malloc_ok s).
Proof.
  split_and!; apply ag_diagonal; intros [c [b cd]] Hc; try done.
  - unfold char_at. destruct (b !! k); [done |]. by case_decide.
  - unfold parser_poll. destruct (ag_lift_rt ok (lift_bud (builtin_poll cd)) c Hc) as [_ Hl].
    unfold lift_budget. by destruct (lift_rt _ c).
  - unfold writer_poll. destruct (ag_lift_rt ok (lift_bud (builtin_poll cd)) c Hc) as [_ Hl].
    unfold lift_budget. by destruct (lift_rt _ c).
  - unfold append. by destruct (buf_append_mem malloc_ok b s).
Qed.
#[local] Hint Extern 1 (agree _ (char_at ?k) _) => apply (ag_json_access k []) : agree.
#[local] Hint Extern 1 (agree _ (skip ?k) _) => apply (ag_json_access k []) : agree.
#[local] Hint Extern 1 (agree _ rest _) => apply (ag_json_access O []) : agree.
#[local] Hint Extern 1 (agree _ (set_rest ?s) _) => apply (ag_json_access O s) : agree.
#[local] Hint Extern 1 (agree _ parser_poll _) => apply (ag_json_access O []) : agree.
#[local] Hint Extern 1 (agree _ writer_poll _) => apply (ag_json_access O []) : agree.
#[local] Hint Extern 1 (agree _ (append _ ?s) _) => apply (ag_json_access O s) : agree.

Lemma ag_skip_ws_loop f : confines ok (skip_ws_loop f).
Proof. induction f as [| f IH]; cbn [skip_ws_loop]; agree. Qed.
#[local] Hint Resolve ag_skip_ws_loop : agree.
Lemma ag_parse_escape b : confines ok (parse_escape malloc_ok b).
Proof. unfold parse_escape. agree. Qed.
#[local] Hint Resolve ag_parse_escape : agree.
Lemma ag_string_loop f b : confines ok (string_loop malloc_ok f b).
Proof. revert b. induction f as [| f IH]; intros b; cbn [string_loop]; agree. Qed.
#[local] Hint Resolve ag_string_loop : agree.

Section Value.
Context (value : comp (fe_Context * (chars * Z)) obj) (Hvalue : confines ok value).
Lemma ag_array_loop n l : confines ok (array_loop value n l).
Proof. revert l. induction n as [| n IH]; intros l; cbn [array_loop]; agree. Qed.
Lemma ag_object_loop n m : confines ok (object_loop malloc_ok value n m).
Proof. revert m. induction n as [| n IH]; intros m; cbn [object_loop]; agree. Qed.
End Value.
#[local] Hint Resolve ag_array_loop ag_object_loop : agree.
Lemma ag_parse_value f : confines ok (json_parse_value oob malloc_ok f).
Proof. induction f as [| f IH]; cbn [json_parse_value]; agree. Qed.
#[local] Hint Resolve ag_parse_value : agree.
Lemma ag_parse_text s : confines ok (parse_text oob malloc_ok s).
Proof.
  apply ag_diagonal. intros c Hc. unfold parse_text.
  match goal with |- context [match ?m ?s with _ => _ end] => assert (leaves_confined ok (m s)) as Hl end.
  { apply ag_then; [agree | intros a; agree | done]. }
  destruct (bind _ _ _) as [? [] | ? [] | |]; done.
Qed.

Lemma ag_write_chars s : confines ok (write_chars malloc_ok s).
Proof. induction s as [| ch s IH]; cbn [write_chars]; agree. Qed.
Lemma ag_proper_loop f o cd : confines ok (proper_loop f o cd).
Proof. revert o cd. induction f as [| f IH]; intros o cd; cbn [proper_loop]; agree. Qed.
#[local] Hint Resolve ag_write_chars ag_proper_loop : agree.
Section Write.
Context (value : obj -> comp (fe_Context * (TextBuffer * Z)) bool) (Hvalue : forall o, confines ok (value o)).
Lemma ag_write_elements f l first : confines ok (write_elements malloc_ok value f l first).
Proof. revert l first. induction f as [| f IH]; intros l first; cbn [write_elements]; agree. Qed.
Lemma ag_write_entries f m keys first : confines ok (write_entries malloc_ok value f m keys first).
Proof. revert keys first. induction f as [| f IH]; intros keys first; cbn [write_entries]; agree. Qed.
End Write.
#[local] Hint Resolve ag_write_elements ag_write_entries : agree.
Lemma ag_write_value f o : confines ok (json_write_value fmt_g15 malloc_ok f o).
Proof. revert o. induction f as [| f IH]; intros o; cbn [json_write_value]; agree. Qed.
Lemma ag_to_json f args : confines ok (builtin_to_json fmt_g15 malloc_ok f args).
Proof.
  unfold builtin_to_json. apply ag_bind; [agree | intros _]. apply ag_bind; [agree | intros [v d]].
  apply ag_diagonal. intros c Hc.
  destruct (ag_write_value f v (c, (empty_buffer, FEX_BUILTIN_ABORT_CHECK_INTERVAL)) Hc) as [_ Hl].
  destruct (json_write_value _ _ _ _ _) as [[] [? []] | ? [] | |]; try done. by apply ag_make_data_obj.
Qed.
End Json.
#[export] Hint Resolve ag_parse_text ag_to_json : agree.

(** ** Random numbers and console input *)

Section Effects.
Context (ok : Policy).
Lemma ag_with_generator {A} (m : comp (fe_Context * Rng) A) : confines ok m -> confines ok (with_generator m).
Proof.
  intros Hm. apply ag_diagonal. intros c Hc. unfold with_generator.
  destruct (Hm (c, rng (host c)) Hc) as [_ Hl]. by destruct (m _) as [? [] | ? [] | |].
Qed.
Lemma ag_next_random : confines ok next_random.
Proof. apply ag_diagonal. intros [c r] Hc. unfold next_random. by destruct (Sfc32.sfc32_next (rng_state r)). Qed.
#[local] Hint Resolve ag_next_random : agree.
Lemma ag_bytes_loop oob n l cd : confines ok (bytes_loop oob n l cd).
Proof. revert l cd. induction n as [| n IH]; intros l cd; cbn [bytes_loop]; agree. Qed.
Lemma ag_read_line_loop f line buf cap : confines ok (read_line_loop f line buf cap).
Proof. revert line buf cap. induction f as [| f IH]; intros line buf cap; cbn [read_line_loop]; agree. Qed.
End Effects.
#[export] Hint Resolve ag_next_random ag_bytes_loop ag_read_line_loop : agree.
#[export] Hint Extern 1 (agree _ (with_generator _) _) => apply ag_with_generator; by agree : agree.

(** ** Files and processes *)

(** Calls of the system, where they may be made. *)
Lemma ag_ask {A} (ok : Policy) (answer : list Event -> A) e : calls ok = None -> confines ok (ask answer e).
Proof. intros Hn. apply ag_diagonal. intros c [Hc _]. split; [exact Hc | by rewrite Hn]. Qed.
#[export] Hint Resolve ag_ask : agree.

Section Files.
Context (sys : System) (oob : double -> Z) (fmt_g15 : double -> chars) (malloc_ok : Z -> bool) (ok : Policy).
Context (Hcalls : calls ok = None).

Lemma ag_make_prefixes path n l : confines ok (make_prefixes sys path n l).
Proof. induction l as [| i l IH]; cbn [make_prefixes]; agree. Qed.
Lemma ag_strings_loop gc l acc cd : confines ok (strings_loop gc l acc cd).
Proof. revert acc cd. induction l as [| s l IH]; intros acc cd; cbn [strings_loop]; agree. Qed.
Lemma ag_entries_loop names l cd : confines ok (entries_loop malloc_ok names l cd).
Proof. revert l cd. induction names as [| s names IH]; intros l cd; cbn [entries_loop]; agree. Qed.
Lemma ag_read_chunks f name fn b fails r n text cd : confines ok (read_chunks f name fn b fails r n text cd).
Proof. revert r n text cd. induction f as [| f IH]; intros r n text cd; cbn [read_chunks]; agree. Qed.
Lemma ag_write_chunks f name fn content total cd : confines ok (write_chunks sys f name fn content total cd).
Proof. revert content total cd. induction f as [| f IH]; intros content total cd; cbn [write_chunks]; agree. Qed.
Lemma ag_cwd_loop f n : confines ok (cwd_loop sys malloc_ok f n).
Proof. revert n. induction f as [| f IH]; intros n; cbn [cwd_loop]; agree. Qed.
#[local] Hint Resolve ag_read_chunks : agree.
Lemma ag_read_file name n fn : confines ok (read_file_dynamic sys name n fn).
Proof. unfold read_file_dynamic. agree. Qed.
Lemma ag_parse_prefix s : confines ok (parse_prefix oob malloc_ok s).
Proof.
  pose proof (ag_parse_value oob malloc_ok ok). pose proof (ag_skip_ws_loop malloc_ok ok).
  apply ag_diagonal. intros c Hc. unfold parse_prefix.
  match goal with |- context [match ?m ?s with _ => _ end] => assert (leaves_confined ok (m s)) as Hl end.
  { apply ag_then; [agree | intros a; agree | done]; apply (ag_json_access malloc_ok ok O []). }
  destruct (bind _ _ _) as [? [] | ? [] | |]; done.
Qed.
Lemma ag_json_text f v : confines ok (json_text fmt_g15 malloc_ok f v).
Proof.
  apply ag_diagonal. intros c Hc. unfold json_text.
  destruct (ag_write_value fmt_g15 malloc_ok ok f v (c, (empty_buffer, FEX_BUILTIN_ABORT_CHECK_INTERVAL)) Hc) as [_ Hl].
  by destruct (json_write_value _ _ _ _ _) as [? [? []] | ? [] | |].
Qed.

Lemma ag_count_list_loop f o fn label n cd : confines ok (count_list_loop f o fn label n cd).
Proof. revert o n cd. induction f as [| f IH]; intros o n cd; cbn [count_list_loop]; agree. Qed.
Lemma ag_argv_loop f o fn l cd : confines ok (argv_loop malloc_ok f o fn l cd).
Proof. revert o l cd. induction f as [| f IH]; intros o l cd; cbn [argv_loop]; agree. Qed.
Lemma ag_env_loop f env o fn l cd : confines ok (env_loop malloc_ok f env o fn l cd).
Proof. revert o l cd. induction f as [| f IH]; intros o l cd; cbn [env_loop]; agree. Qed.
Lemma ag_write_pipe f fd data fn : confines ok (write_posix_input_pipe sys f fd data fn).
Proof. revert data. induction f as [| f IH]; intros data; cbn [write_posix_input_pipe]; agree. Qed.
Lemma ag_drain_pipe f fd b limit over fn : confines ok (drain_posix_capture_pipe sys malloc_ok f fd b limit over fn).
Proof. revert b over. induction f as [| f IH]; intros b over; cbn [drain_posix_capture_pipe]; agree. Qed.
Lemma ag_wait_loop f pid : confines ok (wait_loop sys f pid).
Proof. induction f as [| f IH]; cbn [wait_loop]; agree. Qed.
#[local] Hint Resolve ag_write_pipe ag_drain_pipe : agree.
Lemma ag_transfer_loop f fn options n pid t : confines ok (transfer_loop sys malloc_ok f fn options n pid t).
Proof. revert t. induction n as [| n IH]; intros t; cbn [transfer_loop]; agree. Qed.
Lemma ag_reap_loop n pid : confines ok (reap_loop sys n pid).
Proof. induction n as [| n IH]; cbn [reap_loop]; agree. Qed.
#[local] Hint Resolve ag_wait_loop ag_transfer_loop ag_reap_loop : agree.
Lemma ag_run_process f fn options argv : confines ok (run_process_native sys malloc_ok f fn options argv).
Proof. unfold run_process_native. agree. Qed.
End Files.
#[export] Hint Resolve ag_make_prefixes ag_strings_loop ag_entries_loop ag_write_chunks ag_cwd_loop ag_read_file
  ag_parse_prefix ag_json_text ag_count_list_loop ag_argv_loop ag_env_loop ag_run_process : agree.

Section Options.
Context (malloc_ok : Z -> bool) (ok : Policy).
Lemma ag_with_option {A} opts name (d : A) f :
  (forall v, confines ok (f v)) -> confines ok (with_option opts name d f).
Proof. intros Hf. unfold with_option. agree. Qed.
Lemma ag_stream_mode v fn name : confines ok (parse_process_stream_mode malloc_ok v fn name).
Proof. unfold parse_process_stream_mode. agree. Qed.
Lemma ag_size_limit v fn name : confines ok (parse_process_size_limit v fn name).
Proof. unfold parse_process_size_limit. agree. Qed.
Lemma ag_options o fn : confines ok (parse_process_options malloc_ok o fn).
Proof.
  pose proof ag_stream_mode. pose proof ag_size_limit. unfold parse_process_options.
  repeat first [apply ag_with_option; intros ?; by agree | progress agree].
Qed.
End Options.
#[export] Hint Resolve ag_options : agree.

(** ** All builtins *)

Section Calls.
Context (p : Platform) (fuel : nat) (ok : Policy).
Context (sys sys' : System).
Context (ev ev' : obj -> comp fe_Context obj) (Hev : forall o, agree ok (ev o) (ev' o)).

Lemma ag_call_builtin b args :
  (b ∈ system_builtins -> sys = sys' /\ calls ok = None) ->
  agree ok (call_builtin p fuel sys ev b args) (call_builtin p fuel sys' ev' b args).
Proof.
  intros Hs. destruct (decide (b ∈ system_builtins)) as [Hb | Hb].
  - destruct (Hs Hb) as [<- Hn]. clear Hb Hs. destruct b; cbn [call_builtin]; agree.
  - destruct b; cbn [call_builtin];
      lazymatch goal with
      | |- context [sys] => destruct Hb; apply (bool_decide_unpack _); exact I
      | |- context [builtin_exit] => destruct Hb; apply (bool_decide_unpack _); exact I
      | |- _ => clear Hb Hs
      end; agree.
Qed.
End Calls.
