(* ===== verification/Sandbox.v ===== *)
(** * The mask of builtins confines programs

    A context that was opened and initialised with a mask of builtins reaches
    only the C functions of the categories in the mask, whatever programs it
    compiles, runs and imports. *)

From Stdlib Require Import ZArith Lia Ascii String.
From stdpp Require Import base list.
From S2P Require Import Prelude Number Strtod Memory Budget MapTable MapSpec Slab SlabSpec Span Host Ctx Gc GcProps Objects Writer Reader Eval Agree AgreeEval Open EvalProps Lexer Parser ParserProps AgreeParser Builtins Modules Try Import AgreeImport Console Files Process Register AgreeBuiltins.

(** ** Registration *)

(** The bindings a mask asks for. *)
Definition enabled_functions (mask : Z) : list (string * builtin) :=
  core_functions ++
  (if flag mask FEX_BUILTINS_MATH then math_functions else []) ++
  (if flag mask FEX_BUILTINS_STRING then string_functions else []) ++
  (if flag mask FEX_BUILTINS_LIST then list_functions else []) ++
  (if flag mask FEX_BUILTINS_IO then io_functions else []) ++
  (if flag mask FEX_BUILTINS_DATA then data_functions else []) ++
  (if flag mask FEX_BUILTINS_SYSTEM then system_functions else []) ++
  (if flag mask FEX_BUILTINS_TYPE then type_functions else []).
Definition enabled (mask : Z) (b : builtin) : Prop := b ∈ (enabled_functions mask).*2.
Definition enabled_address (mask : Z) (f : nat) : Prop := exists b, all_builtins !! f = Some b /\ enabled mask b.

Lemma all_builtins_address b : all_builtins !! address b = Some b.
Proof. by destruct b. Qed.

(** The builtins of a mask, with or without calls of the system. *)
Definition policy (mask : Z) (l : option (list Event)) : Policy := MkPolicy (enabled_address mask) l.

Section Register.
Context (lhs_first : bool) (mask : Z) (l0 : option (list Event)).
Abbreviation ok := (policy mask l0).

Lemma ag_register_function name b : enabled mask b -> confines ok (register_function lhs_first name b).
Proof.
  intros Hb. assert (allowed ok (address b)) as Ha by (exists b; split; [apply all_builtins_address | done]).
  pose proof (ag_fe_cfunc ok (address b) Ha). unfold register_function. agree.
Qed.
Lemma ag_register_all l :
  (forall b, b ∈ l.*2 -> enabled mask b) -> confines ok (register_all lhs_first l).
Proof.
  induction l as [| [name b] l IH]; intros Hl; cbn [register_all]; [by auto with agree |].
  apply ag_bind; [apply ag_register_function, Hl; csimpl; left | intros _; apply IH; intros b' Hb'; apply Hl; csimpl; by right].
Qed.
Lemma ag_register_when bit l :
  (flag mask bit = true -> forall b, b ∈ l.*2 -> enabled mask b) ->
  confines ok (when (flag mask bit) (register_functions lhs_first l)).
Proof.
  intros Hl. unfold when. destruct (flag mask bit) eqn:E; [| by auto with agree].
  pose proof (ag_register_all l (Hl eq_refl)). unfold register_functions. agree.
Qed.
Ltac in_category := intros E b Hb; unfold enabled, enabled_functions; rewrite E, !fmap_app, !elem_of_app; tauto.
Lemma ag_extended : confines ok (fex_init_extended_builtins lhs_first mask).
Proof.
  unfold fex_init_extended_builtins.
  repeat (apply ag_bind; [apply ag_register_when; in_category | intros _]). apply ag_register_when. in_category.
Qed.
End Register.

Lemma ag_init lhs_first config builtins l :
  confines (policy (effective_builtins config builtins) l) (fex_init_with_builtins lhs_first config builtins).
Proof.
  pose proof (ag_extended lhs_first (effective_builtins config builtins) l).
  pose proof (ag_register_all lhs_first (effective_builtins config builtins) l core_functions) as Hcore.
  unfold fex_init_with_builtins. agree. apply Hcore. intros b Hb.
  unfold enabled, enabled_functions. rewrite fmap_app, elem_of_app. by left.
Qed.

(** ** A new context has no C functions *)

Definition none : Policy := MkPolicy (fun _ => False) None.
Lemma confined_none ok (c : fe_Context) : confined none c -> calls ok = None -> confined ok c.
Proof.
  intros [H _] E. split; [| by rewrite E]. eapply Forall_impl; [exact H |]. intros x. unfold cell_ok. by destruct (cdr x).
Qed.

Lemma ag_register_primitives save l : confines none (register_primitives save l).
Proof. induction l as [| [p name] l IH]; cbn [register_primitives]; agree. Qed.
Lemma ag_init_symbols : confines none init_symbols.
Proof. pose proof ag_register_primitives. unfold init_symbols. agree. Qed.
Lemma ag_populate n i : confines none (populate_objects n i).
Proof. revert i. induction n as [| n IH]; intros i; cbn [populate_objects]; agree. Qed.
Lemma open_confined ctx_size str_part base b malloc total c :
  fe_open ctx_size str_part base b malloc total = inl (Done tt c) -> confined none c.
Proof.
  unfold fe_open. destruct (_ <? _); [done |]. destruct (_ <? _); [done |]. intros E. injection E as E.
  destruct (populate_slabs _ _ _ _) as [u A | | |]; try done. unfold open_heap in E.
  match type of E with context [populate_objects ?n 0 ?c0] => destruct (ag_populate n 0 c0) as [_ H] end.
  { split; [by apply Forall_replicate | done]. }
  destruct (populate_objects _ _ _) as [u1 c1 | | |]; try done.
  destruct (ag_init_symbols c1 H) as [_ Hs]. by rewrite E in Hs.
Qed.

(** ** Programs *)

Section Machine.
Context (p : Platform) (fuel : nat) (ok : Policy) (sys sys' : System).
Context (Hsys : forall f b, allowed ok f -> all_builtins !! f = Some b -> b ∈ system_builtins -> sys = sys' /\ calls ok = None).

Lemma ag_interpret depth o : agree ok (interpret p fuel sys depth o) (interpret p fuel sys' depth o).
Proof.
  revert o. induction depth as [| d IH]; intros o; cbn [interpret]; [by auto with agree |].
  apply ag_fe_eval.
  - intros f arg Hf. unfold call_address. destruct (all_builtins !! f) as [b |] eqn:E; [| by auto with agree].
    apply ag_call_builtin; [exact IH | intros Hb; by apply (Hsys f b)].
  - intros o'. apply ag_import_module; [intros; by auto with agree | exact IH].
Qed.
End Machine.

Lemma confined_lookup ok cs i x f :
  Forall (cell_ok ok) cs -> cs !! i = Some x -> cdr x = VCFunc f -> allowed ok f.
Proof. intros H Hx E. pose proof (Forall_lookup_1 _ _ _ _ H Hx) as Hc. unfold cell_ok in Hc. by rewrite E in Hc. Qed.

(** ** Sessions *)

(** A host that makes protected calls one after the other. *)
Section Session.
Context (p : Platform) (fuel : nat) (sys : System) (depth : nat).
Definition host_call (x : Call) : comp fe_Context TryResult :=
  try_call (realpath p) (read_file p) (fmt_g7 p) (fmt_p p) (malloc_ok p) fuel out_of_bound (oob p) (realloc_ok p)
    (interpret p fuel sys depth) x true.
Fixpoint session (calls : list Call) : comp fe_Context (list TryResult) :=
  match calls with
  | [] => ret []
  | x :: calls =>
      let* r := host_call x in
      let* rs := session calls in
      ret (r :: rs)
  end.
End Session.

Definition untouched (ok : Policy) (sys sys' : System) : Prop :=
  forall f b, allowed ok f -> all_builtins !! f = Some b -> b ∈ system_builtins -> sys = sys' /\ calls ok = None.
Lemma ag_host_call p fuel ok sys sys' depth x :
  untouched ok sys sys' -> agree ok (host_call p fuel sys depth x) (host_call p fuel sys' depth x).
Proof.
  intros Hsys. pose proof (ag_interpret p fuel ok sys sys' Hsys depth) as Hi.
  assert (forall A, confines ok (out_of_bound A)) as Ho by (intros A; apply ag_no_fuel).
  unfold host_call. destruct x; unfold try_call; agree; by apply ag_do_file.
Qed.
Lemma ag_session p fuel ok sys sys' depth requests :
  untouched ok sys sys' -> agree ok (session p fuel sys depth requests) (session p fuel sys' depth requests).
Proof.
  intros Hsys. induction requests as [| x requests IH]; cbn [session]; [by auto with agree |].
  apply ag_bind; [by apply ag_host_call | intros r; agree].
Qed.

Lemma system_builtin_disabled mask b :
  flag mask FEX_BUILTINS_IO = false -> flag mask FEX_BUILTINS_SYSTEM = false -> enabled mask b ->
  b ∉ system_builtins.
Proof.
  assert (Forall (fun b => b ∉ system_builtins) ((core_functions ++ math_functions ++ string_functions ++
    list_functions ++ data_functions ++ type_functions).*2)) as Hsafe
    by (apply (bool_decide_unpack _); vm_compute; exact I).
  intros E1 E2. unfold enabled, enabled_functions. rewrite E1, E2, !fmap_app, !elem_of_app. intros Hb.
  rewrite Forall_forall in Hsafe. apply Hsafe. rewrite !fmap_app, !elem_of_app.
  destruct (flag mask FEX_BUILTINS_MATH), (flag mask FEX_BUILTINS_STRING), (flag mask FEX_BUILTINS_LIST),
    (flag mask FEX_BUILTINS_DATA), (flag mask FEX_BUILTINS_TYPE); rewrite ?elem_of_nil in Hb; tauto.
Qed.

Lemma mask_untouched mask l sys sys' :
  flag mask FEX_BUILTINS_IO = false -> flag mask FEX_BUILTINS_SYSTEM = false -> untouched (policy mask l) sys sys'.
Proof.
  intros Hio Hsystem f b (b' & E & Hb') E' Hs. rewrite E in E'. injection E' as ->.
  by destruct (system_builtin_disabled _ _ Hio Hsystem Hb').
Qed.

(** C4. The mask of builtins is a sandbox.  A context that fe_open made and
    that was initialised with a mask without the I/O and the system category
    runs every sequence of protected calls (compiling, evaluating, running
    texts and files, with the modules they import and the callbacks of map,
    filter and fold) with the same results and the same final state,
    whatever the operating system answers to the builtins on files,
    directories, the environment, the clock and processes: none of them is
    ever called, and no call of the system is made.  At the end the heap
    still holds no function pointer outside of the mask. *)
Theorem mask_confines_programs ctx_size str_part base b malloc total lhs_first config builtins c c1
    p fuel depth sys sys' requests
    (Hopen : fe_open ctx_size str_part base b malloc total = inl (Done tt c))
    (Hinit : fex_init_with_builtins lhs_first config builtins c = Done tt c1)
    (Hio : flag (effective_builtins config builtins) FEX_BUILTINS_IO = false)
    (Hsystem : flag (effective_builtins config builtins) FEX_BUILTINS_SYSTEM = false) :
  session p fuel sys depth requests c1 = session p fuel sys' depth requests c1 /\
  match session p fuel sys depth requests c1 with
  | Done _ c2 | Raised _ c2 =>
      events (host c2) = events (host c1) /\
      forall i x f, cells c2 !! i = Some x -> cdr x = VCFunc f ->
        enabled_address (effective_builtins config builtins) f
  | Stuck | NoFuel => True
  end.
Proof.
  set (mask := effective_builtins config builtins) in *.
  destruct (ag_session p fuel (policy mask (Some (events (host c1)))) sys sys' depth requests) with (s := c1) as [E H].
  - by apply mask_untouched.
  - destruct (ag_init lhs_first config builtins None c) as [_ Hc].
    { apply confined_none; [by eapply open_confined | done]. }
    rewrite Hinit in Hc. split; [apply Hc | done].
  - split; [done |]. destruct (session p fuel sys depth requests c1) as [rs c2 | e c2 | |]; try done;
      (destruct H as [Hf He]; split; [exact He |]; intros i x f Hx Ef; exact (confined_lookup _ _ i x f Hf Hx Ef)).
Qed.

(** ** Examples *)

Definition test_platform : Platform :=
  MkPlatform oob_x86 oob_x86 oob_x86 (fun x => x) (fun x => x) (fun x => x) (fun x => x) (fun x _ => x)
    (fun _ => str "?") (fun _ => str "?") (fun _ => str "?") (fun _ => true) (fun _ => true)
    (fun _ => false) (fun _ => None) (fun _ => NoFile) 1 true.
(** A system without files whose clock always shows [k]. *)
Definition quiet_system (k : Z) : System :=
  MkSystem (fun _ _ => None) (fun _ _ => Refused) (fun _ _ => None) (fun _ _ => None) (fun _ _ => false)
    (fun _ _ _ => (0%nat, true)) (fun _ => None) (fun _ _ => false) (fun _ _ => None) (fun _ => k) (fun _ => None)
    (fun _ => None) (fun _ _ => false) (fun _ _ _ _ => None) (fun _ _ => WaitError) (fun _ => SelectError)
    (fun _ _ => ReadError) (fun _ _ _ => WriteError).

Definition initialised (builtins : Z) (start : outcome fe_Context unit) : outcome fe_Context unit :=
  match start with Done _ c => fex_init_with_builtins true 0 builtins c | r => r end.
Definition shown (r : outcome fe_Context (list TryResult)) : list string :=
  match r with
  | Done rs c =>
      (fun r => match fe_tostring (fun _ => str "?") (fun _ => str "?") 100 (out_result r) 100 c with
                | Done (x, _) _ => if decide (try_status r = FEX_STATUS_OK) then string_of_list_ascii x
                                   else string_of_list_ascii (fe_message (out_error r))
                | _ => string_of_list_ascii (fe_message (out_error r))
                end) <$> rs
  | Raised e _ => [e]
  | _ => []
  end.
Definition run_session (builtins : Z) (n : nat) (texts : list string) : list string :=
  match initialised builtins (small_context n 240) with
  | Done _ c => shown (session test_platform 300 (quiet_system 7) 4 ((fun t => CallString (str t)) <$> texts) c)
  | _ => []
  end.

Example list_session :
  run_session FEX_BUILTINS_LIST 900 ["time();"; "fold(fn(a, b) { return a + b; }, 0, map(fn(x) { return x + 1; }, [1, 2, 3]));"]%string
  = ["tried to call non-callable value"; "9"]%string.
Proof. vm_compute. reflexivity. Qed.
Example system_session : run_session FEX_BUILTINS_SYSTEM 900 ["time();"; "sqrt(4);"]%string
  = ["7"; "tried to call non-callable value"]%string.
Proof. vm_compute. reflexivity. Qed.

(** A context for the safe builtins, and two systems that differ. *)
Definition safe_start : outcome fe_Context unit + unit :=
  fe_open 0 (fun _ => FE_SLAB_SIZE * 300) 65536 (rt_bud example_rt) (fun _ => true)
    (SIZEOF_OBJECT * 1000 + FE_SLAB_SIZE * 300).
Definition is_done {A} (r : outcome fe_Context A) : bool := match r with Done _ _ => true | _ => false end.
Definition starts_safe (start : outcome fe_Context unit + unit) : bool :=
  match start with
  | inl r => is_done r && is_done (initialised FEX_BUILTINS_SAFE r)
  | inr _ => false
  end.
Lemma starts_safe_inv start :
  starts_safe start = true ->
  exists c c1, start = inl (Done tt c) /\ fex_init_with_builtins true 0 FEX_BUILTINS_SAFE c = Done tt c1.
Proof.
  destruct start as [[[] c | | |] |]; try done. cbn [starts_safe is_done initialised andb].
  destruct (fex_init_with_builtins _ _ _ c) as [[] c1 | | |] eqn:E; try done. eauto.
Qed.
Lemma safe_start_starts : starts_safe safe_start = true.
Proof. vm_compute. reflexivity. Qed.

Lemma mask_confines_programs_witness :
  exists c c1, safe_start = inl (Done tt c) /\ fex_init_with_builtins true 0 FEX_BUILTINS_SAFE c = Done tt c1 /\
    let calls := [CallString (str "exit(system(time()));"); CallString (str "1;")] in
    session test_platform 300 (quiet_system 7) 4 calls c1 = session test_platform 300 (quiet_system 8) 4 calls c1.
Proof.
  destruct (starts_safe_inv safe_start safe_start_starts) as (c & c1 & E & E1).
  exists c, c1. split; [exact E |]. split; [exact E1 |]. intros calls.
  exact (proj1 (mask_confines_programs _ _ _ _ _ _ true 0 FEX_BUILTINS_SAFE c c1 test_platform 300 4 (quiet_system 7)
    (quiet_system 8) calls E E1 eq_refl eq_refl)).
Defined.
