(* ===== verification/Sessions.v ===== *)
(** * What a host program can rely on

    The interpreter with all its builtins: the evaluator, the builtins, the
    callbacks of map, filter and fold and the module loader call each other,
    and a host program uses them through protected calls, one after the
    other. *)

From Stdlib Require Import ZArith Lia Ascii String.
From stdpp Require Import base list.
From S2P Require Import Prelude Number Memory Budget MapTable Slab SlabSpec Span Host Ctx Gc GcProps Objects Writer Eval Frame EvalFrame Open EvalProps Lexer Parser ParserFrame ParserProps Builtins Files Modules ModulesSpec LoaderFrame Try Import ImportFrame ImportSpec Register BuiltinsFrame Sandbox.

Section Machine.
Context (p : Platform) (fuel : nat) (sys : System) (depth : nat).

(** The evaluator below fe_eval, with the builtins and the loader it calls;
    these call fe_eval back. *)
Definition builtin_calls (inner : obj -> comp fe_Context obj) : nat -> obj -> comp fe_Context obj :=
  call_address p fuel sys inner.
Definition loads_modules (inner : obj -> comp fe_Context obj) : obj -> comp fe_Context obj :=
  import_module (file_exists p) (realpath p) (read_file p) (fmt_g7 p) (fmt_p p) (malloc_ok p) fuel
    (fun _ => no_fuel) (oob p) (realloc_ok p) inner.
Definition evaluate : evaluator :=
  (Eval.eval (oob p) (fmt_g7 p) (fmt_p p) (builtin_calls (Register.interpret p fuel sys depth))
     (loads_modules (Register.interpret p fuel sys depth)) (args_left_first p) fuel).

Lemma keeps_loads_modules inner k o : (forall k o, keeps k (inner o)) -> keeps k (loads_modules inner o).
Proof. intros Hi. by apply keeps_import_module. Qed.
Lemma keeps_interpret k d o : keeps k (Register.interpret p fuel sys d o).
Proof.
  revert k o. induction d as [| d IH]; intros k o; cbn [Register.interpret]; [by auto with keeps |].
  apply keeps_fe_eval; intros; [by apply keeps_call_address | by apply keeps_loads_modules].
Qed.


(** ** Protected calls *)

Definition protected_call : Call -> bool -> comp fe_Context TryResult :=
  try_call (realpath p) (read_file p) (fmt_g7 p) (fmt_p p) (malloc_ok p) fuel out_of_bound (oob p) (realloc_ok p)
    (Register.interpret p fuel sys depth).
Definition roots_result (x : Call) : bool := match x with CallCompile _ _ => true | _ => false end.

Lemma protected_call_contained x wants c :
  in_s 32 (current_eval_depth c) ->
  match protected_call x wants c with
  | Done r c' => contained (roots_result x) c r c'
  | Raised _ _ => False
  | Stuck | NoFuel => True
  end.
Proof.
  intros Hd. pose proof (fun k => keeps_interpret k depth) as Hi. assert (forall A k, fkeeps k (out_of_bound A)) as Hs by done.
  destruct x; apply try_run_contained; try done; intros k.
  - by apply fk_compile.
  - apply fk_fe, Hi.
  - by apply fk_do_string.
  - by apply fk_do_string.
  - by apply fk_do_file.
Qed.

(** What is left after a protected call, whether it succeeded or not: the
    next call can be made, and only a compilation leaves a root. *)
Lemma contained_leaves x c r c' :
  in_s 32 (current_eval_depth c) -> contained (roots_result x) c r c' ->
  try_scopes (host c') = try_scopes (host c) /\ error_fn (host c') = error_fn (host c) /\
  in_s 32 (current_eval_depth c') /\
  exists l, gcstack c' = gcstack c ++ l /\ (length l <= if roots_result x then 1 else 0)%nat.
Proof.
  intros Hd (Hs & Hf & _ & H). split; [done |]. split; [done |]. destruct (decide _).
  - destruct H as (_ & -> & _ & _ & [-> | [-> [o ->]]]); (split; [done |]).
    + exists []. rewrite app_nil_r. split; [done |]. simpl. lia.
    + by exists [o].
  - destruct H as (_ & _ & -> & ? & _). split; [done |]. exists []. rewrite app_nil_r. split; [done |]. simpl. lia.
Qed.

(** C3. Protected calls contain errors.  None of fex_try_compile,
    fex_try_eval, fex_try_do_string, fex_try_do_string_named and
    fex_try_do_file lets an error out, whatever the source does, whichever
    builtins it calls, whatever the system answers them and however many
    files it imports: it returns, with the error handler, the try scope and
    the roots of its caller as they were (fex_try_compile may leave its
    result as one more root).  On success the call list, the depth and the
    loader's stacks are unchanged.  On failure there is no result, the
    loader's stacks are empty, and the error report fits the character arrays
    of FexError with at most eight frames.  A host can go on after every
    failure: a whole session of calls ends with one result for each call, the
    handler and the try scope it began with, and at most one root for each
    compilation. *)
Theorem protected_calls_contained x wants requests c (Hd : in_s 32 (current_eval_depth c)) :
  match protected_call x wants c with
  | Done r c' => contained (roots_result x) c r c'
  | Raised _ _ => False
  | Stuck | NoFuel => True
  end /\
  match session p fuel sys depth requests c with
  | Done rs c' =>
      length rs = length requests /\
      try_scopes (host c') = try_scopes (host c) /\ error_fn (host c') = error_fn (host c) /\
      exists l, gcstack c' = gcstack c ++ l /\ (length l <= length (filter (fun x => roots_result x = true) requests))%nat
  | Raised _ _ => False
  | Stuck | NoFuel => True
  end.
Proof.
  split; [by apply protected_call_contained |].
  revert c Hd. induction requests as [| y requests IH]; intros c Hd; cbn [session].
  { split_and!; try done. exists []. by rewrite app_nil_r. }
  unfold bind at 1. pose proof (protected_call_contained y true c Hd) as Hy. unfold protected_call in Hy. unfold host_call.
  destruct (try_call _ _ _ _ _ _ _ _ _ _ _ _ c) as [r c1 | | |]; try done.
  destruct (contained_leaves y c r c1 Hd Hy) as (Hs & Hf & Hd1 & l & Hl & Hn).
  specialize (IH c1 Hd1). unfold bind, ret. destruct (session _ _ _ _ requests c1) as [rs c2 | | |]; try done.
  destruct IH as (Hlen & -> & -> & l' & -> & Hn'). rewrite Hl, Hs, Hf. cbn [length]. split_and!; try done; [congruence |].
  exists (l ++ l'). rewrite app_assoc. split; [done |]. rewrite length_app, filter_cons.
  destruct (roots_result y), (decide _); try done; cbn [length]; lia.
Qed.
End Machine.

(** ** A session *)

(** A platform with the files of [ImportSpec.files]. *)
Definition file_platform : Platform :=
  MkPlatform oob_x86 oob_x86 oob_x86 (fun x => x) (fun x => x) (fun x => x) (fun x => x) (fun x _ => x)
    no_format no_format no_format (fun _ => true) (fun _ => true) a_file (fun _ => None) bytes_of_file 1 true.
Definition ready_context (start : outcome fe_Context unit) : fe_Context :=
  match start with Done _ c => c | _ => spec_context end.
Definition list_context : fe_Context := ready_context (initialised FEX_BUILTINS_LIST (small_context 900 300)).
(** An import and a callback, an error in a callback, a cyclic import, and a
    compilation. *)
Definition requests : list Call :=
  [CallString (str "import util; map(fn(x) { return util.f(x); }, [1, 2]);");
   CallString (str "map(fn(x) { return nofun(x); }, [1]);");
   CallString (str "import a;");
   CallCompile (str "1 + 2;") None]%string.

Definition statuses (r : outcome fe_Context (list TryResult)) : option (list FexStatus) :=
  match r with Done rs _ => Some (try_status <$> rs) | _ => None end.
Lemma session_ends :
  statuses (session file_platform 600 (quiet_system 7) 5 requests list_context)
  = Some [FEX_STATUS_OK; FEX_STATUS_RUNTIME_ERROR; FEX_STATUS_RUNTIME_ERROR; FEX_STATUS_OK].
Proof. vm_compute. reflexivity. Qed.
Lemma list_context_depth : in_s 32 (current_eval_depth list_context).
Proof. vm_compute. split; congruence. Qed.
Lemma statuses_inv l (P : list TryResult -> fe_Context -> Prop) r :
  statuses r = Some l -> match r with Done rs c' => P rs c' | Raised _ _ => False | _ => True end ->
  exists rs c', try_status <$> rs = l /\ P rs c'.
Proof. destruct r as [rs c' | | |]; try done. intros [= H] Hp. by exists rs, c'. Qed.

Lemma protected_calls_contained_witness :
  exists rs c', try_status <$> rs = [FEX_STATUS_OK; FEX_STATUS_RUNTIME_ERROR; FEX_STATUS_RUNTIME_ERROR; FEX_STATUS_OK] /\
    error_fn (host c') = error_fn (host list_context) /\
    exists l, gcstack c' = gcstack list_context ++ l /\ (length l <= 1)%nat.
Proof.
  assert (forall c, in_s 32 (current_eval_depth c) ->
    statuses (session file_platform 600 (quiet_system 7) 5 requests c)
      = Some [FEX_STATUS_OK; FEX_STATUS_RUNTIME_ERROR; FEX_STATUS_RUNTIME_ERROR; FEX_STATUS_OK] ->
    exists rs c', try_status <$> rs = [FEX_STATUS_OK; FEX_STATUS_RUNTIME_ERROR; FEX_STATUS_RUNTIME_ERROR; FEX_STATUS_OK] /\
      error_fn (host c') = error_fn (host c) /\ exists l, gcstack c' = gcstack c ++ l /\ (length l <= 1)%nat) as Hw.
  { intros c Hd He.
    destruct (protected_calls_contained file_platform 600 (quiet_system 7) 5 (CallEval Nil) true requests c Hd) as [_ H].
    destruct (statuses_inv _ _ _ He H) as (rs & c' & Hrs & _ & _ & Hf & Hl).
    exists rs, c'. split; [exact Hrs | split; [exact Hf | exact Hl]]. }
  exact (Hw _ list_context_depth session_ends).
Defined.

(** [is_done]: an expression over integers, in a context with a variable. *)
Lemma evaluated :
  is_done (evaluate file_platform 40 (quiet_system 7) 2 (Ref 20) (Ref 12) None false if_context) = true.
Proof. vm_compute. reflexivity. Qed.
Lemma if_context_depth : in_s 32 (current_eval_depth if_context).
Proof. vm_compute. split; congruence. Qed.
