(* ===== verification/FilesSpec.v ===== *)
(** * Files and directories: what is written is read back, listings are sorted

    [Disk] states what a file system promises of the calls the builtins make;
    [ram_disk] is an instance that replays the calls made so far. *)

From Stdlib Require Import ZArith Lia Ascii String SpecFloat.
From stdpp Require Import base list sets sorting gmap.
From S2P Require Import Prelude Number Arith Strtod Memory Budget MapTable MapSpec Slab SlabSpec Span Host Ctx Gc GcProps Objects Writer WriterSpec Builtins BuiltinsSpec MathSpec TextSpec Open Paths Files.

(** ** File systems *)

(** The bytes of a file are determined by the calls: opening a file for
    writing empties it, a write appends what was accepted of it, and a file
    is opened for reading with its size and its bytes. *)
Class Disk (sys : System) := {
  contents : list Event -> chars -> option chars;
  disk_emptied h p : contents (EOpenWrite p true :: h) p = Some [];
  disk_appended h p s data n : contents h p = Some s -> contents (EWrite p data n :: h) p = Some (s ++ take n data);
  disk_others h p q data n b : p <> q ->
    contents (EOpenWrite p b :: h) q = contents h q /\ contents (EWrite p data n :: h) q = contents h q;
  disk_closed h p q : contents (EClose p :: h) q = contents h q;
  disk_written h p data : (fst (fwrite sys h p data) <= length data)%nat;
  disk_opened h p s : contents h p = Some s ->
    fopen_read sys h p = Some (MkStream true (Z.of_nat (length s)) s false)
}.

Fixpoint replay (h : list Event) (p : chars) : option chars :=
  match h with
  | [] => None
  | EOpenWrite q true :: h => if decide (q = p) then Some [] else replay h p
  | EWrite q data n :: h => if decide (q = p) then (fun s => s ++ take n data) <$> replay h p else replay h p
  | _ :: h => replay h p
  end.
(** [accepts] of a chunk are written at most. *)
Definition ram_system (accepts : nat) : System :=
  MkSystem (fun _ _ => None) (fun _ _ => Refused) (fun _ _ => None)
    (fun h p => (fun s => MkStream true (Z.of_nat (length s)) s false) <$> replay h p) (fun _ _ => true)
    (fun _ _ data => (Nat.min accepts (length data), false)) (fun _ => None) (fun _ _ => false) (fun _ _ => None)
    (fun _ => 0) (fun _ => None)
    (fun _ => None) (fun _ _ => false) (fun _ _ _ _ => None) (fun _ _ => WaitError) (fun _ => SelectError)
    (fun _ _ => ReadError) (fun _ _ _ => WriteError).
#[export] Instance ram_disk accepts : Disk (ram_system accepts).
Proof.
  refine {| contents := replay |}.
  - intros h p. cbn. by rewrite decide_True.
  - intros h p s data n E. cbn. by rewrite decide_True, E.
  - intros h p q data n b Hn. cbn. by destruct b; rewrite ?decide_False.
  - done.
  - intros h p data. cbn. lia.
  - intros h p s E. cbn. by rewrite E.
Defined.

(** ** Contexts after calls *)

Definition told (calls : list Event) (c : fe_Context) : fe_Context :=
  with_host (with_events (calls ++ events (host c)) (host c)) c.
Lemma told_nil c : told [] c = c.
Proof. destruct c as [cs fl gs ms sl lm cl sy ar r sp lc ag gt bt gr oa ob nc ed me rd mr o ec h]. by destruct h. Qed.
Lemma told_told l1 l2 c : told l1 (told l2 c) = told (l1 ++ l2) c.
Proof. unfold told. cbn. by rewrite (assoc_L (++)). Qed.
Lemma ask_told {A} (answer : list Event -> A) e c :
  ask answer e c = Done (answer (events (host c))) (told [e (answer (events (host c)))] c).
Proof. done. Qed.
Lemma fclose_told p c : fclose p c = Done tt (told [EClose p] c).
Proof. done. Qed.
Lemma list_at_told calls c l os : list_at c l os -> list_at (told calls c) l os.
Proof. induction 1; [constructor | by eapply list_at_cons]. Qed.
Lemma poll_abort_quiet cd c :
  still_quiet c -> lift_budget (builtin_poll_abort cd) c = Done (None, next_countdown cd) c.
Proof.
  intros [Ht Hi]. apply lift_budget_quiet. unfold builtin_poll_abort, next_countdown. destruct (1 <? cd); [done |].
  unfold fe_poll_abort, poll_eval_abort, poll_timeout, poll_interrupt, bind, get, ret.
  by rewrite (proj2 (Z.ltb_ge _ _) Ht), Hi.
Qed.
Lemma chunk_pos : (0 < FEX_FILE_IO_CHUNK_SIZE)%nat.
Proof. apply Nat.ltb_lt. by vm_compute. Qed.

Section Disk.
Context (sys : System) `{!Disk sys} (oob : double -> Z).

(** ** Writing *)

(** After [calls], the file holds [s] and no other file has changed. *)
Definition stores (h : list Event) (f s : chars) (calls : list Event) : Prop :=
  contents (calls ++ h) f = Some s /\ forall q, f <> q -> contents (calls ++ h) q = contents h q.

Lemma write_chunks_stores f fn fuel : forall content total cd c s, (length content < fuel)%nat -> still_quiet c ->
  contents (events (host c)) f = Some s ->
  match write_chunks sys fuel f fn content total cd c with
  | Done n c1 => n = total + Z.of_nat (length content) /\
      exists calls, c1 = told calls c /\ stores (events (host c)) f (s ++ content) calls
  | Raised msg c1 => msg = named fn "error writing file" /\ exists calls, c1 = ctx_error_reset (told (EClose f :: calls) c)
  | _ => False
  end.
Proof.
  pose proof chunk_pos as Hpos. induction fuel as [| fuel IH]; intros content total cd c s Hf Hq Hs; [lia |].
  cbn [write_chunks]. destruct content as [| ch content].
  { split; [cbn; lia |]. exists []. rewrite told_nil, app_nil_r. by split. }
  set (data := ch :: content) in *. assert (0 < length data)%nat as Hd by (cbn; lia). clearbody data.
  rewrite (bind_eq _ _ _ _ _ (poll_abort_quiet cd c Hq)). rewrite (bind_eq _ _ _ _ _ (ask_told _ _ c)).
  set (chunk := take FEX_FILE_IO_CHUNK_SIZE data). set (h := events (host c)).
  pose proof (disk_written h f chunk) as Hw. destruct (fwrite sys h f chunk) as [written err] eqn:Ew. cbn [fst] in Hw.
  destruct ((written <? length chunk)%nat || err) eqn:Eb.
  { split; [done |]. by exists [EWrite f chunk written]. }
  apply orb_false_iff in Eb as [Eb _]. apply Nat.ltb_ge in Eb.
  assert (take written chunk = chunk) as Et by (apply take_ge; lia).
  assert (stores h f (s ++ chunk) [EWrite f chunk written]) as [Hs1 Ho1].
  { split; [etrans; [by apply (disk_appended h f s chunk written) | by rewrite Et] |]. intros q Hn. by apply (disk_others h f q chunk written true). }
  specialize (IH (drop FEX_FILE_IO_CHUNK_SIZE data) (total + Z.of_nat written) (next_countdown cd)
    (told [EWrite f chunk written] c) (s ++ chunk)).
  rewrite length_drop in IH. specialize (IH ltac:(lia) Hq Hs1).
  assert (length chunk = Nat.min FEX_FILE_IO_CHUNK_SIZE (length data)) as El by apply length_take.
  destruct (write_chunks _ _ _ _ _ _ _ _) as [n c1 | msg c1 | |].
  - destruct IH as (-> & calls & -> & Hs2 & Ho2). split; [lia |].
    exists (calls ++ [EWrite f chunk written]). split; [by rewrite told_told |].
    unfold stores. rewrite <- (assoc_L (++)). split.
    + etrans; [exact Hs2 |]. unfold chunk. by rewrite <- (assoc_L (++)), take_drop.
    + intros q Hn. etrans; [by apply Ho2 | by apply Ho1].
  - destruct IH as (-> & calls & ->). split; [done |]. exists (calls ++ [EWrite f chunk written]).
    by rewrite told_told.
  - done.
  - done.
Qed.

(** The ways writing a file can end. *)
Definition written (f s : chars) (fn : string) (c : fe_Context) (r : outcome fe_Context obj) : Prop :=
  match r with
  | Done n c1 => n = Fix (Z.of_nat (length s)) /\
      exists calls, c1 = told (EClose f :: calls) c /\ stores (events (host c)) f s (EClose f :: calls)
  | Raised msg c1 =>
      (msg = named fn "could not open file for writing" /\ c1 = ctx_error_reset (told [EOpenWrite f false] c)) \/
      (msg = named fn "error writing file" /\ exists calls, c1 = ctx_error_reset (told (EClose f :: calls) c))
  | _ => False
  end.
Lemma write_content_written f fn s c :
  still_quiet c -> Z.of_nat (length s) < INT_MAX -> written f s fn c (write_content sys oob f fn s c).
Proof.
  intros Hq Hl. unfold write_content. rewrite (bind_eq _ _ _ _ _ (ask_told _ _ c)).
  destruct (fopen_write sys _ f) eqn:Eo; cbn [negb]; [| by left]. set (h := events (host c)).
  pose proof (write_chunks_stores f fn (S (length s)) s 0 1 (told [EOpenWrite f true] c) [] ltac:(lia) Hq
    (disk_emptied h f)) as H. unfold bind.
  destruct (write_chunks _ _ _ _ _ _ _ _) as [n c1 | msg c1 | |]; [| | done..].
  - destruct H as (-> & calls & -> & Hs & Ho). cbn [app] in Hs. rewrite fclose_told, make_number_of_Z.
    2: { unfold small, INT_MAX in *. lia. }
    split; [by rewrite Z.add_0_l |]. exists (calls ++ [EOpenWrite f true]). rewrite !told_told. split; [done |].
    split; cbn [app]; [| intros q Hn]; rewrite disk_closed, <- (assoc_L (++)); [done |].
    etrans; [by apply Ho |]. by apply (disk_others h f q [] 0).
  - destruct H as (-> & calls & ->). right. split; [done |]. exists (calls ++ [EOpenWrite f true]). by rewrite told_told.
Qed.

(** ** Reading *)

Lemma read_chunks_all f fn b fuel : forall rest text cd c, (length rest < fuel)%nat -> still_quiet c ->
  read_chunks fuel f fn b false rest (length rest) text cd c = Done (text ++ rest) c.
Proof.
  pose proof chunk_pos as Hpos. induction fuel as [| fuel IH]; intros rest text cd c Hf Hq; [lia |].
  cbn [read_chunks]. destruct (length rest) as [| k] eqn:El; [by rewrite (nil_length_inv _ El), app_nil_r |].
  rewrite <- El in *. rewrite (bind_eq _ _ _ _ _ (poll_abort_quiet cd c Hq)).
  set (size := Nat.min _ _). assert (length (take size rest) = size) as -> by (rewrite length_take; lia).
  rewrite Nat.ltb_irrefl, <- length_drop, IH by (rewrite ?length_drop; lia || done).
  by rewrite <- (assoc_L (++)), take_drop.
Qed.
(** A file of known contents: the buffer and the bytes, or no memory. *)
Definition reading (f s : chars) (fn : string) {A} (k : Memory.block * chars -> comp fe_Context A) : comp fe_Context A :=
  let* buffer := lift_memory (tracked_alloc (Z.of_nat (length s) + 1)) in
  match buffer with
  | None => fclose f ;;; lift_memory (memory_error (named fn "out of memory"))
  | Some b => fclose f ;;; k (b, s)
  end.
Lemma read_file_stored f s fn max {A} (k : Memory.block * chars -> comp fe_Context A) c :
  still_quiet c -> contents (events (host c)) f = Some s -> Z.of_nat (length s) <= max ->
  (let* r := read_file_dynamic sys f max fn in k r) c = reading f s fn k (told [EOpenRead f] c).
Proof.
  intros Hq Hs Hl. unfold read_file_dynamic. unfold bind at 1. rewrite (bind_eq _ _ _ _ _ (ask_told _ _ c)).
  rewrite (disk_opened _ _ _ Hs). cbn [seek_end tell stream_data read_fails negb orb].
  rewrite (proj2 (Z.ltb_ge _ _)), (proj2 (Z.ltb_ge _ _)) by lia.
  unfold reading, bind. destruct (lift_memory (tracked_alloc _) _) as [[b |] c1 | | |] eqn:E; try done.
  rewrite Nat2Z.id, read_chunks_all; [done | lia |]. exact (off_budget_quiet _ _ _ _ (ob_lift_memory _) E Hq).
Qed.

(** ** Builtins *)

Context (malloc_ok : Z -> bool) (Hm : forall n, malloc_ok n = true).

Lemma path_arg_string {A} c args o more f fn (k : chars -> comp fe_Context A) :
  still_quiet c -> Z.of_nat (length (cells c)) < INT_MAX ->
  list_at c args (o :: more) -> string_at c FE_TSTRING o f -> Z.of_nat (length f) < INT_MAX -> zero ∉ f ->
  (let* path := path_arg malloc_ok args fn in k path) c = k f c.
Proof.
  intros Hq Hh Ha Hf Hl Hz. rewrite (bind_eq _ _ c f c); [done |]. unfold path_arg.
  eapply (first_arg c Hh); [done | simpl; lia |]. intros d _.
  by rewrite (string_cstr_ok c Hq malloc_ok Hm fn o f Hf Hl), decide_False.
Qed.
Lemma write_file_written c args fo so more f s :
  still_quiet c -> Z.of_nat (length (cells c)) < INT_MAX -> list_at c args (fo :: so :: more) ->
  string_at c FE_TSTRING fo f -> Z.of_nat (length f) < INT_MAX -> zero ∉ f ->
  string_at c FE_TSTRING so s -> Z.of_nat (length s) < INT_MAX -> zero ∉ s ->
  written f s "writefile" c (builtin_write_file sys oob malloc_ok args c).
Proof.
  intros Hq Hh Ha Hf Hlf Hzf Hs Hls Hzs.
  assert (builtin_write_file sys oob malloc_ok args c = write_content sys oob f "writefile" s c) as ->;
    [| by apply write_content_written].
  eapply (first_arg c Hh); [done | simpl; lia |]. intros d Hd. eapply (skip_arg c); [exact Hd |]. intros d' _.
  rewrite (bind_eq _ _ c f c) by (by rewrite (string_cstr_ok c Hq malloc_ok Hm _ _ _ Hf Hlf), decide_False).
  by rewrite (bind_eq _ _ c s c) by (by rewrite (string_cstr_ok c Hq malloc_ok Hm _ _ _ Hs Hls), decide_False).
Qed.
End Disk.


(** ** Listings *)

#[export] Instance strcmp_total : Total (fun x y => strcmp_le x y).
Proof.
  intros x. induction x as [| a x IH]; intros [| b y]; cbn; [by left.. | by right |].
  destruct (decide (a = b)) as [-> | Hn]; [rewrite decide_True by done; apply IH |]. rewrite decide_False by congruence.
  assert (code a <> code b) by (by intros E%code_inj).
  destruct (Z.lt_total (code a) (code b)) as [? | [? | ?]]; [left | done | right]; by apply Is_true_true, Z.ltb_lt.
Qed.
#[export] Instance strcmp_trans : Transitive (fun x y => strcmp_le x y).
Proof.
  intros x. induction x as [| a x IH]; intros [| b y] [| d z] H1 H2; cbn in *; try done.
  destruct (decide (a = b)) as [-> | Hn], (decide (b = d)) as [-> | Hn']; rewrite ?decide_False by done; try done.
  - by eapply IH.
  - apply Is_true_true, Z.ltb_lt in H1. apply Is_true_true, Z.ltb_lt in H2.
    rewrite decide_False by (intros ->; lia). apply Is_true_true, Z.ltb_lt. lia.
Qed.
Lemma entries_loop_all malloc_ok (Hm : forall n, malloc_ok n = true) c (Hq : still_quiet c) : forall names acc cd,
  entries_loop malloc_ok names acc cd c = Done (acc ++ filter (fun n => is_dots n = false) names) c.
Proof.
  induction names as [| n names IH]; intros acc cd; cbn [entries_loop]; [by rewrite app_nil_r |].
  rewrite (bind_eq _ _ _ _ _ (poll_quiet_ctx cd c Hq)), filter_cons. destruct (is_dots n).
  - by rewrite IH, decide_False.
  - unfold cstring_array_push_copy. rewrite !Hm. cbn [andb]. by rewrite IH, decide_True, <- (assoc_L (++)).
Qed.

Lemma directory_told sys f c :
  path_is_directory_cstr sys f c
  = Done (match stat sys (events (host c)) f with Some dir => dir | None => false end) (told [EStat f] c).
Proof. done. Qed.
Lemma list_dir_equation sys malloc_ok c args o more f :
  (forall n, malloc_ok n = true) -> still_quiet c -> Z.of_nat (length (cells c)) < INT_MAX ->
  list_at c args (o :: more) -> string_at c FE_TSTRING o f -> Z.of_nat (length f) < INT_MAX -> zero ∉ f ->
  builtin_list_dir sys malloc_ok args c =
  match stat sys (events (host c)) f, readdir sys (EStat f :: events (host c)) f with
  | Some true, Some names =>
      cstring_array_to_list malloc_ok (cstring_array_sort (filter (fun n => is_dots n = false) names))
        (told [EReadDir f; EStat f] c)
  | Some true, None => Raised "listdir: could not read directory" (ctx_error_reset (told [EReadDir f; EStat f] c))
  | _, _ => Raised "listdir: not a directory" (ctx_error_reset (told [EStat f] c))
  end.
Proof.
  intros Hm Hq Hh Ha Hf Hl Hz. unfold builtin_list_dir. rewrite (path_arg_string malloc_ok Hm c args o more f) by done.
  rewrite (bind_eq _ _ _ _ _ (directory_told sys f c)). destruct (stat sys _ f) as [[] |]; [| done..]. cbn [negb].
  rewrite (bind_eq _ _ _ _ _ (ask_told _ _ _)), told_told.
  change (events (host (told [EStat f] c))) with (EStat f :: events (host c)).
  destruct (readdir sys _ f) as [names |]; [| done].
  by rewrite (bind_eq _ _ _ _ _ (entries_loop_all malloc_ok Hm (told [EReadDir f; EStat f] c) Hq _ _ _)).
Qed.

(** listdir of a directory builds the list of its names in the order of
    strcmp, each as often as readdir gave it, without the two entries for the
    directory and its parent; anything that is not a directory, and one that
    cannot be read, is refused. *)
Theorem listdir_sorted (sys : System) (malloc_ok : Z -> bool) (c : fe_Context) (args o : obj) (more : list obj) (f : chars) :
  (forall n, malloc_ok n = true) -> still_quiet c -> Z.of_nat (length (cells c)) < INT_MAX ->
  list_at c args (o :: more) -> string_at c FE_TSTRING o f -> Z.of_nat (length f) < INT_MAX -> zero ∉ f ->
  match stat sys (events (host c)) f, readdir sys (EStat f :: events (host c)) f with
  | Some true, Some names => exists l,
      l ≡ₚ filter (fun n => n <> str "." /\ n <> str "..") names /\ StronglySorted (fun x y => strcmp_le x y) l /\
      builtin_list_dir sys malloc_ok args c = cstring_array_to_list malloc_ok l (told [EReadDir f; EStat f] c)
  | Some true, None => builtin_list_dir sys malloc_ok args c
      = Raised "listdir: could not read directory" (ctx_error_reset (told [EReadDir f; EStat f] c))
  | _, _ => builtin_list_dir sys malloc_ok args c = Raised "listdir: not a directory" (ctx_error_reset (told [EStat f] c))
  end.
Proof.
  intros Hm Hq Hh Ha Hf Hl Hz. pose proof (list_dir_equation sys malloc_ok c args o more f Hm Hq Hh Ha Hf Hl Hz) as ->.
  destruct (stat sys _ f) as [[] |]; [| done..]. destruct (readdir sys _ f) as [names |]; [| done].
  eexists. split; [| split; [| done]].
  - unfold cstring_array_sort. rewrite merge_sort_Permutation.
    erewrite list_filter_iff; [done |]. intros n. unfold is_dots. rewrite orb_false_iff, !bool_decide_eq_false. done.
  - apply (StronglySorted_merge_sort _).
Qed.

(** ** Witnesses *)

Definition is_returned {S A} (r : outcome S A) : bool := match r with Done _ _ => true | _ => false end.
Lemma is_returned_inv {S A} (r : outcome S A) : is_returned r = true -> exists a s, r = Done a s.
Proof. destruct r; [eauto | done..]. Qed.


(** A directory with two entries of its own. *)
Definition dir_system (names : list chars) : System :=
  MkSystem (fun _ _ => Some true) (fun _ _ => Refused) (fun _ _ => Some names) (fun _ _ => None) (fun _ _ => false)
    (fun _ _ _ => (0%nat, true)) (fun _ => None) (fun _ _ => false) (fun _ _ => None) (fun _ => 0) (fun _ => None)
    (fun _ => None) (fun _ _ => false) (fun _ _ _ _ => None) (fun _ _ => WaitError) (fun _ => SelectError)
    (fun _ _ => ReadError) (fun _ _ _ => WriteError).
Lemma listdir_sorted_witness : exists l,
  l ≡ₚ [str "b"; str "a"] /\ StronglySorted (fun x y => strcmp_le x y) l /\
  builtin_list_dir (dir_system [str "b"; str "."; str "a"; str ".."]) (fun _ => true) (Ref 0) text_context
  = cstring_array_to_list (fun _ => true) l (told [EReadDir (str "a,b"); EStat (str "a,b")] text_context).
Proof.
  exact (listdir_sorted (dir_system [str "b"; str "."; str "a"; str ".."]) (fun _ => true) text_context (Ref 0)
    (Ref 2) [Ref 3] (str "a,b") (fun _ => eq_refl) ltac:(done) ltac:(done)
    text_context_args text_context_first ltac:(done) ltac:(set_solver)).
Defined.

(** ** Limits *)

(** listdir keeps every name on the root stack twice: with half as many
    entries as the stack has slots it cannot return. *)
Lemma listdir_many_entries_overflow :
  match small_context 1200 700 with
  | Done _ c =>
      match cstring_array_to_list (fun _ => true) (replicate 512 (str "f")) c with Raised msg _ => msg | _ => ""%string end
      = "gc stack overflow"%string
  | _ => False
  end.
Proof. vm_compute. reflexivity. Qed.

(** The error of a file that is not JSON text leaves its buffer allocated. *)
Definition stored (f s : chars) (c : fe_Context) : fe_Context := told [EWrite f s (length s); EOpenWrite f true] c.
Lemma readjson_error_leaks :
  match builtin_read_json (ram_system 64) oob_x86 (fun _ => true) (Ref 0) (stored (str "a,b") (str "[1") text_context) with
  | Raised _ c => blocks (rt_mem (rt c))
      = <[next_block (rt_mem (rt text_context)) := 3]> (blocks (rt_mem (rt text_context)))
  | _ => False
  end.
Proof. vm_compute. reflexivity. Qed.
