(* ===== verification/ProcessSpec.v ===== *)
(** * Processes: descriptors, children and captured output

    Whatever the system answers, running a process gives back every
    descriptor it opened and leaves no child behind, as long as it returns;
    the errors that fe_error raises inside of it do not. *)

From Stdlib Require Import ZArith Lia Ascii String SpecFloat.
From stdpp Require Import base list sets.
From S2P Require Import Prelude Number Strtod Memory Budget MapTable MapSpec Slab SlabSpec Span Host Ctx Gc GcProps Objects Writer Builtins BuiltinsMath Files FilesSpec Process.

(** ** Balance of descriptors *)

Definition one (x fd : nat) : Z := if decide (x = fd) then 1 else 0.
Definition opt (x : option nat) (fd : nat) : Z := match x with Some x => one x fd | None => 0 end.

(** How often [fd] was opened, less how often it was closed. *)
Definition effect (e : Event) (fd : nat) : Z :=
  match e with
  | EPipe (Some (r, w)) => one r fd + one w fd
  | EOpenNull (Some x) => one x fd
  | ECloseFd x => - one x fd
  | _ => 0
  end.
Fixpoint balance (l : list Event) (fd : nat) : Z :=
  match l with [] => 0 | e :: l => effect e fd + balance l fd end.
Lemma balance_app l1 l2 fd : balance (l1 ++ l2) fd = balance l1 fd + balance l2 fd.
Proof. induction l1; simpl; lia. Qed.

(** The lowest balance on the way: the events are the latest first. *)
Fixpoint low (l : list Event) (fd : nat) : Z :=
  match l with [] => 0 | e :: l => Z.min (low l fd) (effect e fd + balance l fd) end.
Lemma low_app l1 l2 fd : low (l1 ++ l2) fd = Z.min (low l2 fd) (low l1 fd + balance l2 fd).
Proof.
  induction l1 as [| e l1 IH]; simpl; [| rewrite IH, balance_app; lia].
  assert (low l2 fd <= balance l2 fd) by (destruct l2; simpl; lia). lia.
Qed.
Lemma one_nonneg x fd : 0 <= one x fd.
Proof. unfold one. case_decide; lia. Qed.
Lemma opt_nonneg x fd : 0 <= opt x fd.
Proof. destruct x; [apply one_nonneg | simpl; lia]. Qed.

(** ** Rules *)

(** When [m] returns, its result and the events it added satisfy [Q]. *)
Definition emits {A} (m : comp fe_Context A) (Q : A -> list Event -> Prop) : Prop := forall c,
  match m c with
  | Done a c' => exists new, events (host c') = new ++ events (host c) /\ Q a new
  | _ => True
  end.

Lemma em_bind {A B} (m : comp fe_Context A) (f : A -> comp fe_Context B) Q1 Q :
  emits m Q1 -> (forall a n1, Q1 a n1 -> emits (f a) (fun b n2 => Q b (n2 ++ n1))) -> emits (bind m f) Q.
Proof.
  intros Hm Hf c. unfold bind. specialize (Hm c). destruct (m c) as [a c1 | | |]; try done.
  destruct Hm as (n1 & E1 & H1). specialize (Hf a n1 H1 c1). destruct (f a c1) as [b c2 | | |]; try done.
  destruct Hf as (n2 & E2 & H2). exists (n2 ++ n1). split; [by rewrite E2, E1, (assoc_L _) | done].
Qed.
Lemma em_mono {A} (m : comp fe_Context A) (Q Q' : A -> list Event -> Prop) :
  emits m Q -> (forall a n, Q a n -> Q' a n) -> emits m Q'.
Proof. intros Hm HQ c. specialize (Hm c). destruct (m c); try done. destruct Hm as (n & E & H). eauto. Qed.
Lemma em_ret {A} (a : A) (Q : A -> list Event -> Prop) : Q a [] -> emits (ret a) Q.
Proof. intros H c. by exists []. Qed.
Lemma em_ask {A} (answer : list Event -> A) e (Q : A -> list Event -> Prop) :
  (forall a, Q a [e a]) -> emits (ask answer e) Q.
Proof. intros H c. by exists [e (answer (events (host c)))]. Qed.
Lemma em_tell e (Q : unit -> list Event -> Prop) : Q tt [e] -> emits (tell_system e) Q.
Proof. intros H. apply em_ask. by intros []. Qed.
Lemma em_error {A} msg (Q : A -> list Event -> Prop) : emits (Ctx.fe_error msg) Q.
Proof. by intros c. Qed.
Lemma em_no_fuel {A} (Q : A -> list Event -> Prop) : emits no_fuel Q.
Proof. by intros c. Qed.
Lemma em_stuck {A} (Q : A -> list Event -> Prop) : emits stuck Q.
Proof. by intros c. Qed.
Lemma em_budget {A} (m : comp Budget A) (Q : A -> list Event -> Prop) :
  (forall a, Q a []) -> emits (lift_budget m) Q.
Proof.
  intros H c. unfold lift_budget, lift_rt, lift_bud. destruct (m (rt_bud (rt c))); try done. by exists [].
Qed.

Ltac em :=
  repeat (cbv beta iota zeta; lazymatch goal with
    | |- emits (bind (lift_budget _) _) _ => eapply em_bind; [by apply (em_budget _ (fun _ n => n = [])) | intros ? ? ->; rewrite ?app_nil_r]
    | |- emits (Ctx.fe_error _) _ => apply em_error
    | |- emits (fail_as _ _) _ => apply em_error
    | |- emits no_fuel _ => apply em_no_fuel
    | |- emits stuck _ => apply em_stuck
    | |- emits (ret _) _ => apply em_ret
    end).

(** ** Pipes *)

(** Who holds [before] holds [after] once [n] has happened, and closed
    nothing else on the way. *)
Definition moves (n : list Event) (after before : nat -> Z) : Prop :=
  forall fd, balance n fd = after fd - before fd /\ - before fd <= low n fd.
Definition nothing (fd : nat) : Z := 0.
Definition ends (p : ProcessCapturePipe) (fd : nat) : Z := opt (read_fd p) fd + opt (write_fd p) fd.

Definition t_held (t : Transfer) (fd : nat) : Z := opt (t_in t) fd + opt (t_out t) fd + opt (t_err t) fd.

Ltac nonneg t := let H := fresh in pose proof t as H; lazymatch type of H with
  | ?P => revert H; lazymatch goal with _ : P |- _ => fail | _ => intros H end
  end.
Ltac account :=
  let fd := fresh "fd" in
  intros fd; cbv beta in *; repeat match goal with H : moves _ _ _ |- _ => specialize (H fd) end;
  unfold nothing, ends, t_held in *;
  cbn [balance low effect opt fst snd read_fd write_fd app t_in t_out t_err with_exit closed_pipe] in *;
  rewrite ?balance_app, ?low_app in *; cbn [balance low effect] in *;
  repeat match goal with
    | |- context [opt ?x fd] => nonneg (opt_nonneg x fd)
    | |- context [one ?x fd] => nonneg (one_nonneg x fd)
    | _ : context [opt ?x fd] |- _ => nonneg (opt_nonneg x fd)
    | _ : context [one ?x fd] |- _ => nonneg (one_nonneg x fd)
    end; lia.

Section Run.
Context (sys : System) (malloc_ok : Z -> bool).

Lemma em_close fd : emits (close_fd fd) (fun _ n => moves n nothing (opt fd)).
Proof. destruct fd as [x |]; [apply em_tell | apply em_ret]; account. Qed.
Lemma em_destroy p : emits (destroy_process_capture_pipe p) (fun _ n => moves n nothing (ends p)).
Proof.
  eapply em_bind; [apply em_close | intros [] n1 H1]. eapply em_mono; [apply em_close | intros [] n2 H2]. account.
Qed.
Lemma em_create nb what fn :
  emits (create_process_pipe sys nb what fn)
    (fun p n => moves n (ends p) nothing /\ exists r w, p = MkPipe (Some r) (Some w)).
Proof.
  unfold create_process_pipe. eapply em_bind; [apply (em_ask _ _ (fun a n => n = [EPipe a])); done |].
  intros [[r w] |] n1 ->; [| em].
  do 2 (eapply em_bind; [apply (em_tell _ (fun _ n => exists x, n = [EFcntl x])); eauto | intros _ ? [? ->]]).
  eapply em_bind; [apply (em_ask _ _ (fun _ n => exists x, n = [EFcntl x])); eauto | intros [] ? [? ->]]; em.
  split; [account | eauto].
Qed.
Lemma em_null fn : emits (open_null_redirect_file sys fn) (fun x n => moves n (one x) nothing).
Proof.
  unfold open_null_redirect_file. eapply em_bind; [apply (em_ask _ _ (fun a n => n = [EOpenNull a])); done |].
  intros [x |] n1 ->; em. account.
Qed.
Lemma em_open_output mode fn :
  emits (open_output sys mode fn) (fun r n => moves n (fun fd => ends (fst r) fd + opt (snd r) fd) nothing).
Proof.
  destruct mode; cbn [open_output].
  - eapply em_bind; [apply em_create | intros p n1 (H1 & r & w & ->)]. em. account.
  - em. account.
  - eapply em_bind; [apply em_null | intros x n1 H1]. em. account.
Qed.

(** *** Transfer *)

Definition within (limit : Z) (buf : TextBuffer) : Prop := 0 < limit -> buf_len buf <= limit.

Lemma within_empty limit : within limit empty_buffer.
Proof. intros ?. change (0 <= limit). lia. Qed.
Lemma em_append buf data limit over fn :
  within limit buf ->
  emits (append_process_capture malloc_ok buf data limit over fn)
    (fun r n => n = [] /\ within limit (fst r)).
Proof.
  intros Hb. unfold append_process_capture. destruct over; [by em |].
  destruct ((0 <? limit) && (limit <=? buf_len buf)) eqn:E1; [by em |].
  set (cut := (0 <? limit) && _). set (to_copy := if cut then _ else data).
  assert (0 < limit -> buf_len buf + Z.of_nat (length to_copy) <= limit) as Hc.
  { intros Hl. subst to_copy cut. assert (0 <? limit = true) as E by lia. rewrite E in E1 |- *. cbn [andb] in *.
    destruct (_ <? Z.of_nat (length data)) eqn:E2; [rewrite length_take |]; lia. }
  destruct to_copy as [| ch l]; [by em |]. unfold buf_append_mem, buf_reserve.
  destruct (_ <=? buf_cap buf); cbn [mbind option_bind]; [| destruct (malloc_ok _); cbn [mbind option_bind]];
    em; (split; [done |]); intros Hl; specialize (Hc Hl); unfold buf_len in *; cbn [fst buf_data]; rewrite length_app; lia.
Qed.

Lemma em_write f fd data fn :
  emits (write_posix_input_pipe sys f fd data fn) (fun r n => moves n (opt (snd r)) (one fd)).
Proof.
  revert data. induction f as [| f IH]; intros data.
  - destruct data; [| apply em_no_fuel]. cbn [write_posix_input_pipe].
    eapply em_bind; [apply em_close | intros [] n1 H1]. em. exact H1.
  - cbn [write_posix_input_pipe]. destruct data as [| ch data].
    { eapply em_bind; [apply em_close | intros [] n1 H1]. em. exact H1. }
    eapply em_bind; [apply (em_ask _ _ (fun _ n => n = [EWriteFd fd (ch :: data)])); done | intros r n1 ->].
    assert (forall r' n, moves n (opt r') (one fd) -> moves (n ++ [EWriteFd fd (ch :: data)]) (opt r') (one fd)) as Hw.
    { intros r' n H. account. }
    destruct r as [[| k] | | | |]; em.
    + eapply em_mono; [apply IH | intros [? r'] n; apply Hw].
    + account.
    + eapply em_mono; [apply IH | intros [? r'] n; apply Hw].
    + eapply em_bind; [apply em_close | intros [] n2 H2]. em. apply (Hw None), H2.
Qed.

Lemma em_drain f fd buf limit over fn :
  within limit buf ->
  emits (drain_posix_capture_pipe sys malloc_ok f fd buf limit over fn)
    (fun r n => moves n (opt (snd r)) (one fd) /\ within limit (fst (fst r))).
Proof.
  revert buf over. induction f as [| f IH]; intros buf over Hb; cbn [drain_posix_capture_pipe]; [em |].
  eapply em_bind; [apply (em_ask _ _ (fun a n => exists d, n = [ERead fd d])); eauto | intros r n1 [d ->]].
  assert (forall r' n b, moves n (opt r') (one fd) /\ within limit b ->
    moves (n ++ [ERead fd d]) (opt r') (one fd) /\ within limit b) as Hw.
  { intros r' n b [H ?]. split; [account | done]. }
  destruct r as [[| ch data] | | | |]; em.
  - eapply em_bind; [apply em_close | intros [] n2 H2]. em. by apply (Hw None).
  - eapply em_bind; [by apply em_append | intros [b o] n2 [-> Hb2]].
    eapply em_mono; [by apply IH | intros [[? ?] r'] n; rewrite app_nil_r; apply Hw].
  - eapply em_bind; [apply em_close | intros [] n2 H2]. em. by apply (Hw None).
  - split; [account | done].
  - eapply em_mono; [by apply IH | intros [[? ?] r'] n; apply Hw].
Qed.

(** *** The parent *)

Context (fuel : nat) (fn : string) (options : ProcessOptions).

Definition t_within (t : Transfer) : Prop :=
  within (max_stdout options) (t_out_buf t) /\ within (max_stderr options) (t_err_buf t).
(** A step of the loop that leaves the child alone. *)
Definition transfers (t t' : Transfer) (n : list Event) : Prop :=
  moves n (t_held t') (t_held t) /\ t_within t' /\ t_exit t' = t_exit t.

Lemma em_step_input ready t :
  t_within t -> emits (step_input sys fuel fn ready t) (fun t' n => transfers t t' n).
Proof.
  intros Hw. unfold step_input. destruct t as [ex [fd |] inp out ob oo er eb eo]; cbn [t_in].
  - destruct (ready fd); [eapply em_bind; [apply em_write | intros [i fd'] n1 H1] |]; em;
      (split; [| by split]); account.
  - em. split; [| by split]. account.
Qed.
Lemma em_step_output ready t :
  t_within t -> emits (step_output sys malloc_ok fuel fn options ready t) (fun t' n => transfers t t' n).
Proof.
  intros [Hw1 Hw2]. unfold step_output. destruct t as [ex inp i [fd |] ob oo er eb eo]; cbn [t_out].
  - destruct (_ || _); [eapply em_bind; [by apply em_drain | intros [[b o] fd'] n1 [H1 Hb]] |]; em;
      (split; [| by repeat split]); account.
  - em. split; [| by repeat split]. account.
Qed.
Lemma em_step_errors ready t :
  t_within t -> emits (step_errors sys malloc_ok fuel fn options ready t) (fun t' n => transfers t t' n).
Proof.
  intros [Hw1 Hw2]. unfold step_errors. destruct t as [ex inp i out ob oo [fd |] eb eo]; cbn [t_err].
  - destruct (_ || _); [eapply em_bind; [by apply em_drain | intros [[b o] fd'] n1 [H1 Hb]] |]; em;
      (split; [| by repeat split]); account.
  - em. split; [| by repeat split]. account.
Qed.

Lemma em_poll pid :
  emits (poll_child sys pid) (fun r n => moves n nothing nothing /\ (is_Some r -> EWait pid true ∈ n)).
Proof.
  unfold poll_child.
  eapply em_bind; [eapply (em_ask _ _ (fun a n => n = [EWait pid (match a with Exited _ => true | _ => false end)])); done |].
  intros [] ? ->; em; (split; [account |]); set_solver.
Qed.
Lemma em_wait pid f :
  emits (wait_loop sys f pid)
    (fun r n => moves n nothing nothing /\ match r with inr _ => EWait pid true ∈ n | inl _ => True end).
Proof.
  induction f as [| f IH]; cbn [wait_loop]; em. destruct a as [msg |]; em; [split; [account | done] |].
  eapply em_bind; [apply em_poll | intros [code |] n1 [H1 Hw]]; em; [split; [account | set_solver] |].
  eapply em_bind; [by apply (em_tell _ (fun _ n => n = [ESelect])) | intros _ ? ->].
  eapply em_mono; [apply IH |]. intros [] n [H2 ?]; (split; [account | set_solver]).
Qed.

(** From [t] to [t']: the ends are accounted for, the buffers are within
    their limits, and an exit code comes from a wait. *)
Definition run_to (pid : positive) (t t' : Transfer) (n : list Event) : Prop :=
  moves n (t_held t') (t_held t) /\ t_within t' /\ (is_Some (t_exit t) -> is_Some (t_exit t')) /\
  (t_exit t = None -> is_Some (t_exit t') -> EWait pid true ∈ n).
Lemma run_to_refl pid t : t_within t -> run_to pid t t [].
Proof. intros Hw. split; [account |]. repeat split; try apply Hw; [done |]. intros ->. by intros [? ?]. Qed.
Lemma run_to_trans pid t t1 t2 n1 n2 : run_to pid t t1 n1 -> run_to pid t1 t2 n2 -> run_to pid t t2 (n2 ++ n1).
Proof.
  intros (H1 & _ & Hs1 & Ho1) (H2 & Hw & Hs2 & Ho2). split; [account | split; [done |]]. split; [tauto |].
  intros E Hs. destruct (t_exit t1) eqn:E1; [| set_solver]. specialize (Ho1 E). set_solver.
Qed.
Lemma run_to_step pid t t' n : transfers t t' n -> run_to pid t t' n.
Proof. intros (H & Hw & E). split; [done | split; [done |]]. rewrite E. split; [done |]. intros ->. by intros [? ?]. Qed.
Lemma run_to_select pid t : t_within t -> run_to pid t t [ESelect].
Proof. intros Hw. apply run_to_step. split; [account | by split]. Qed.

Lemma em_observe pid t :
  t_within t ->
  emits (match t_exit t with Some _ => ret t | None => let* code := poll_child sys pid in ret (with_exit code t) end)
    (fun t' n => run_to pid t t' n).
Proof.
  intros Hw. destruct (t_exit t) as [code |] eqn:E; [em; by apply run_to_refl |].
  eapply em_bind; [apply em_poll | intros code n1 [H1 Hc]]. em.
  split; [account |]. split; [done |]. rewrite E. split; [by intros [? ?] |]. by intros _.
Qed.
Lemma em_transfer pid f t :
  t_within t ->
  emits (transfer_loop sys malloc_ok fuel fn options f pid t) (fun r n =>
    run_to pid t (snd r) n /\ (fst r = None -> is_Some (t_exit (snd r)))).
Proof.
  revert t. induction f as [| f IH]; intros t Hw; cbn [transfer_loop]; destruct (t_done t) eqn:Ed.
  1, 3: em; (split; [by apply run_to_refl |]); intros _; cbn; unfold t_done in Ed; destruct (t_exit t); done.
  - em.
  - em. destruct a as [msg |]; em; [by split; [apply run_to_refl |] |].
    eapply em_bind; [by apply em_observe | intros t1 n1 H1]. assert (t_within t1) as Hw1 by apply H1.
    assert (forall t2 n2, run_to pid t t2 n2 -> emits (transfer_loop sys malloc_ok fuel fn options f pid t2)
      (fun r n => run_to pid t (snd r) (n ++ n2) /\ (fst r = None -> is_Some (t_exit (snd r))))) as Hloop.
    { intros t2 n2 H2. eapply em_mono; [by apply IH, H2 | intros r n [H3 ?]]. split; [by eapply run_to_trans | done]. }
    destruct (t_open t1).
    + eapply em_bind; [by apply (em_ask _ _ (fun _ n => n = [ESelect])) | intros r ? ->].
      assert (run_to pid t t1 ([ESelect] ++ n1)) as H2 by (eapply run_to_trans; [done | by apply run_to_select]).
      destruct r as [ready | |]; em.
      2: { eapply em_mono; [by apply Hloop, H2 | intros ? n]. by rewrite !app_nil_r, <- (assoc_L (++)). }
      eapply em_bind; [by apply em_step_input | intros t2 n2 H3]; assert (t_within t2) by apply H3.
      eapply em_bind; [by apply em_step_output | intros t3 n3 H4]; assert (t_within t3) by apply H4.
      eapply em_bind; [by apply em_step_errors | intros t4 n4 H5].
      eapply em_mono; [apply (Hloop t4 (n4 ++ n3 ++ n2 ++ [ESelect] ++ n1)) | intros ? n; by rewrite !app_nil_r, <- !(assoc_L (++))].
      repeat (eapply run_to_trans; [| by apply run_to_step]). exact H2.
    + eapply (em_bind _ _ (fun _ n => run_to pid t1 t1 n)).
      { destruct (finished t1); [em; by apply run_to_refl | apply em_tell; by apply run_to_select]. }
      intros _ n2 H2. eapply em_mono; [apply (Hloop t1 (n2 ++ n1)); by eapply run_to_trans |].
      intros ? n. by rewrite !app_nil_r, <- (assoc_L (++)).
Qed.

(** *** The whole *)

Lemma em_reap pid f : emits (reap_loop sys f pid) (fun _ n => moves n nothing nothing).
Proof.
  induction f as [| f IH]; cbn [reap_loop]; em.
  eapply em_bind; [apply (em_ask _ _ (fun _ n => exists b, n = [EWait pid b])); eauto | intros r ? [b ->]].
  destruct r; em; [account .. |]. eapply em_mono; [apply IH | intros [] n H]. account.
Qed.
Lemma em_terminate pid :
  emits (terminate_posix_process sys fuel pid) (fun _ n => moves n nothing nothing /\ EKill pid ∈ n).
Proof.
  unfold terminate_posix_process. eapply em_bind; [by apply (em_tell _ (fun _ n => n = [EKill pid])) | intros _ ? ->].
  eapply em_mono; [apply em_reap | intros [] n H]. split; [account | set_solver].
Qed.

(** The child was waited for, or killed. *)
Definition settled (pid : positive) (n : list Event) : Prop := EWait pid true ∈ n \/ EKill pid ∈ n.
Definition output_within (r : string + ProcessOutput) : Prop :=
  match r with
  | inl _ => True
  | inr o => (0 < max_stdout options -> Z.of_nat (length (stdout_data o)) <= max_stdout options) /\
             (0 < max_stderr options -> Z.of_nat (length (stderr_data o)) <= max_stderr options)
  end.

Lemma em_waiting pid input :
  emits (close_fd (Some input) ;;;
      let* r := wait_loop sys fuel pid in
      match r with
      | inl msg => terminate_posix_process sys fuel pid ;;; ret (inl msg)
      | inr code => ret (inr (MkOutput code [] []))
      end)
    (fun r n => moves n nothing (one input) /\ settled pid n /\ output_within r).
Proof.
  eapply em_bind; [apply em_close | intros [] n1 H1]. eapply em_bind; [apply em_wait | intros [msg | code] n2 [H2 Hw]].
  - eapply em_bind; [apply em_terminate | intros [] n3 [H3 Hk]]. em. split; [account |]. split; [right; set_solver | done].
  - em. split; [account |]. split; [left; set_solver |]. cbn. lia.
Qed.

(** What follows the fork once there is something to transfer. *)
Definition transferring (pid : positive) (fd : option nat) (data : chars) (out err : option nat)
    : comp fe_Context (string + ProcessOutput) :=
      let* '(abort_error, t) :=
        transfer_loop sys malloc_ok fuel fn options fuel pid
          (MkTransfer None fd data out empty_buffer false err empty_buffer false) in
      (match t_exit t with None => terminate_posix_process sys fuel pid | Some _ => ret tt end) ;;;
      destroy_process_capture_pipe (MkPipe None (t_in t)) ;;;
      destroy_process_capture_pipe (MkPipe (t_out t) None) ;;;
      destroy_process_capture_pipe (MkPipe (t_err t) None) ;;;
      match abort_error, t_exit t with
      | Some msg, _ => ret (inl msg)
      | None, Some code =>
          if t_out_over t then ret (inl "runprocess stdout: file too large"%string)
          else if t_err_over t then ret (inl "runprocess stderr: file too large"%string)
          else ret (inr (MkOutput code (buf_data (t_out_buf t)) (buf_data (t_err_buf t))))
      | None, None => stuck
      end.
Lemma em_transferring pid fd data out err :
  emits (transferring pid fd data out err)
    (fun r n => moves n nothing (fun x => opt fd x + opt out x + opt err x) /\ settled pid n /\ output_within r).
Proof.
  eapply em_bind; [apply em_transfer; split; apply within_empty |].
  intros [ab t] n1 [(H1 & [Hw1 Hw2] & _ & Ho) Hd]. cbn [fst snd t_exit] in *.
  eapply (em_bind _ _ (fun _ n => moves n nothing nothing /\ settled pid (n ++ n1))).
  { destruct (t_exit t) as [code |]; [em; split; [account | left; apply Ho; by eauto] |].
    eapply em_mono; [apply em_terminate | intros [] n [H2 ?]]. split; [done | right; set_solver]. }
  intros [] n2 [H2 Hs].
  do 3 (eapply em_bind; [apply em_destroy | intros [] ? ?]).
  destruct ab as [msg |]; [| destruct (t_exit t) as [code |]; [destruct (t_out_over t); [| destruct (t_err_over t)] |]];
    em; (split; [account | split; [destruct Hs; [left | right]; set_solver |]]); try exact I.
  split; [apply Hw1 | apply Hw2].
Qed.

Lemma em_input data input :
  emits (match data : chars with [] => close_fd (Some input) ;;; ret None | _ => ret (Some input) end)
    (fun fd n => moves n (opt fd) (one input)).
Proof. destruct data; [eapply em_bind; [apply em_close | intros [] n1 H1] |]; em; account. Qed.
Lemma em_parent pid input out err :
  emits (run_parent sys malloc_ok fuel fn options pid input out err) (fun r n =>
    moves n nothing (fun x => one input x + opt out x + opt err x) /\ settled pid n /\ output_within r).
Proof.
  assert (forall data, emits (let* fd := (match data : chars with [] => close_fd (Some input) ;;; ret None | _ => ret (Some input) end) in
    transferring pid fd data out err) (fun r n =>
    moves n nothing (fun x => one input x + opt out x + opt err x) /\ settled pid n /\ output_within r)) as Hrest.
  { intros data. eapply em_bind; [apply em_input | intros fd n1 H1].
    eapply em_mono; [apply em_transferring | intros r n (H2 & Hs & ?)].
    split; [account | split; [destruct Hs; [left | right]; set_solver | done]]. }
  unfold run_parent. destruct (stdin_data options), out, err; try exact (Hrest []); try exact (Hrest (_ :: _)).
  eapply em_mono; [apply em_waiting | intros r n (H2 & ? & ?)]. split; [account | done].
Qed.

Definition started (argv : list chars) (pid : positive) (n : list Event) : Prop :=
  EFork argv (opt_cwd options) (opt_env options) (Some pid) ∈ n.
Lemma em_run argv :
  emits (run_process_native sys malloc_ok fuel fn options argv) (fun r n =>
    moves n nothing nothing /\ (exists pid, started argv pid n /\ settled pid n) /\ output_within r).
Proof.
  unfold run_process_native.
  eapply em_bind; [apply em_create | intros ? n1 (H1 & r & w & ->)].
  eapply em_bind; [apply em_open_output | intros [po ro] n2 H2].
  eapply em_bind; [apply em_open_output | intros [pe re] n3 H3].
  eapply em_bind; [by apply (em_ask _ _ (fun p n => n = [EFork argv (opt_cwd options) (opt_env options) p])) |].
  intros [pid |] n4 ->; cbn [write_fd read_fd]; [| em].
  do 5 (eapply em_bind; [apply em_close | intros [] ? ?]).
  eapply em_mono; [apply em_parent | intros res n (Hp & Hs & ?)].
  split; [account |]. split; [| done]. exists pid. split; [unfold started; set_solver |]. destruct Hs; [left | right]; set_solver.
Qed.
End Run.


(** A system with one program that answers "hi" and ends with code 3; [wait]
    is its answer to waitpid. *)
Definition greeter (wait : WaitAnswer) : System :=
  MkSystem (fun _ _ => None) (fun _ _ => Refused) (fun _ _ => None) (fun _ _ => None) (fun _ _ => false)
    (fun _ _ _ => (0%nat, true)) (fun _ => None) (fun _ _ => false) (fun _ _ => None) (fun _ => 0)
    (fun h => Some (length h + 3, length h + 4)%nat) (fun h => Some (length h + 3)%nat) (fun _ _ => true)
    (fun _ _ _ _ => Some 7%positive)
    (fun _ _ => wait) (fun _ => Ready (fun _ => true))
    (fun h _ => if existsb (fun e => match e with ERead _ _ => true | _ => false end) h then Eof else Bytes (str "hi"))
    (fun _ _ data => Wrote (length data)).
Definition asking : ProcessOptions :=
  MkOptions (str "?") None None PROCESS_STREAM_CAPTURE PROCESS_STREAM_DISCARD 2 0.
Definition idle : fe_Context := blank_context 1 (MkArena [] FE_SLAB_NULL 0) example_mem (rt_bud example_rt) 4096.
Local Notation greeting wait :=
  (run_process_native (greeter wait) (fun _ => true) 9 "runprocess" asking [str "greet"] idle).
Definition left_behind (r : outcome fe_Context (string + ProcessOutput)) : option (string + ProcessOutput) * list Event :=
  match r with
  | Done a c => (Some a, events (host c))
  | Raised e c => (Some (inl e), events (host c))
  | _ => (None, [])
  end.


Lemma left_behind_inv o a :
  is_returned o = true -> fst (left_behind o) = Some a -> exists c', o = Done a c'.
Proof. destruct o as [b c' | | |]; try discriminate. intros _ [= ->]. by exists c'. Qed.


(** When waitpid fails, the error leaves two ends of pipes open and the
    child unattended. *)
Lemma run_process_wait_error_leaks :
  match left_behind (greeting WaitError) with
  | (r, calls) =>
      r = Some (inl "runprocess: could not wait for process"%string) /\
      filter (fun fd => balance calls fd <> 0) (seq 0 30) = [4; 7]%nat /\
      forallb (fun e => match e with EKill _ | EWait _ true => false | _ => true end) calls = true
  end.
Proof. vm_compute. done. Qed.
