(* ===== verification/WinArgs.v ===== *)
(** * Command lines on Windows (src/fex_builtins.c: buf_append_repeat to
    build_windows_command_line)

    CreateProcess takes one command line, which the C runtime of the new
    process splits into arguments again.  The code quotes the arguments so
    that they survive; [windows_argv] states the rules of the runtime. *)

From Stdlib Require Import ZArith Lia Ascii String.
From stdpp Require Import base list sets.
From S2P Require Import Prelude Memory Budget MapTable MapSpec Span Ctx Gc GcProps Objects Writer Builtins BuiltinsSpec TextSpec Json JsonSpec Files FilesSpec.

(** ** Quoting *)

Definition blank_char (ch : ascii) : bool := bool_decide (ch = " "%char) || bool_decide (ch = TAB).

Section Quoting.
Context (malloc_ok : Z -> bool).

Fixpoint buf_append_repeat (count : nat) (ch : ascii) (buf : TextBuffer) (cd : Z) : comp Budget (option TextBuffer * Z) :=
  match count with
  | O => ret (Some buf, cd)
  | S count =>
      let* cd := builtin_poll cd in
      match buf_append_char malloc_ok buf ch with
      | None => ret (None, cd)
      | Some buf => buf_append_repeat count ch buf cd
      end
  end.

Fixpoint has_special (p : chars) (cd : Z) : comp Budget (bool * Z) :=
  match p with
  | [] => ret (false, cd)
  | ch :: p =>
      let* cd := builtin_poll cd in
      if blank_char ch || bool_decide (ch = quote) then ret (true, cd) else has_special p cd
  end.
Definition needs_windows_quotes (arg : chars) (cd : Z) : comp Budget (bool * Z) :=
  match arg with
  | [] => ret (true, cd)
  | _ => has_special arg cd
  end.

(** [count] backslashes and a character. *)
Definition append_escaped (count : nat) (ch : ascii) (buf : TextBuffer) (cd : Z) : comp Budget (option TextBuffer * Z) :=
  let* '(buf, cd) := buf_append_repeat count backslash buf cd in
  ret (buf ← buf; buf_append_char malloc_ok buf ch, cd).

Fixpoint quote_loop (p : chars) (backslashes : nat) (buf : TextBuffer) (cd : Z) : comp Budget (option TextBuffer * Z) :=
  match p with
  | [] => append_escaped (backslashes * 2) quote buf cd
  | ch :: p =>
      let* cd := builtin_poll cd in
      if decide (ch = backslash) then quote_loop p (S backslashes) buf cd
      else
        let* '(buf, cd) := append_escaped (if decide (ch = quote) then backslashes * 2 + 1 else backslashes)%nat ch buf cd in
        match buf with
        | None => ret (None, cd)
        | Some buf => quote_loop p 0 buf cd
        end
  end.
Definition append_windows_command_arg (buf : TextBuffer) (arg : chars) (cd : Z) : comp Budget (option TextBuffer * Z) :=
  let* '(quote_mode, cd) := needs_windows_quotes arg cd in
  if quote_mode : bool then
    match buf_append_char malloc_ok buf quote with
    | None => ret (None, cd)
    | Some buf => quote_loop arg 0 buf cd
    end
  else buf_append_mem_polling malloc_ok buf arg cd.

Fixpoint args_loop (first : bool) (argv : list chars) (func_name : string) (buf : TextBuffer) (cd : Z) : comp fe_Context TextBuffer :=
  match argv with
  | [] => ret buf
  | arg :: argv =>
      let* cd := lift_budget (builtin_poll cd) in
      match (if first then Some buf else buf_append_char malloc_ok buf " "%char) with
      | None => fail_as func_name "out of memory"
      | Some buf =>
          let* '(r, cd) := lift_budget (append_windows_command_arg buf arg cd) in
          match r with
          | None => fail_as func_name "out of memory"
          | Some buf => args_loop false argv func_name buf cd
          end
      end
  end.
(** The buffer is NULL as long as nothing was appended to it. *)
Definition build_windows_command_line (argv : list chars) (func_name : string) : comp fe_Context chars :=
  let* buf := args_loop true argv func_name empty_buffer FEX_BUILTIN_ABORT_CHECK_INTERVAL in
  match buf_data buf with
  | [] => if malloc_ok 1 then ret [] else fail_as func_name "out of memory"
  | line => ret line
  end.
End Quoting.

(** ** The rules of the C runtime *)

(** The program name: quotation marks keep blanks inside and are dropped,
    backslashes are ordinary. *)
Fixpoint program_name (s : chars) (quoted : bool) : chars * chars :=
  match s with
  | [] => ([], [])
  | ch :: s =>
      if decide (ch = quote) then program_name s (negb quoted)
      else if blank_char ch && negb quoted then ([], s)
      else let (name, rest) := program_name s quoted in (ch :: name, rest)
  end.

(** The arguments: [cur] is the argument under way, [slashes] the number of
    backslashes just read.  In front of a quotation mark a pair of them
    stands for one, and an odd one makes the mark an ordinary character;
    otherwise they stand for themselves.  Two marks inside of quotation
    marks stand for one. *)
Fixpoint split_arguments (s : chars) (quoted : bool) (slashes : nat) (cur : option chars) : list chars :=
  let text := default [] cur in
  let plain := text ++ replicate slashes backslash in
  match s with
  | [] => match cur, slashes with None, O => [] | _, _ => [plain] end
  | ch :: s =>
      if decide (ch = backslash) then split_arguments s quoted (S slashes) (Some text)
      else if decide (ch = quote) then
        let half := text ++ replicate (Nat.div2 slashes) backslash in
        if Nat.odd slashes then split_arguments s quoted 0 (Some (half ++ [quote]))
        else if quoted then
          match s with
          | ch' :: s' => if decide (ch' = quote) then split_arguments s' true 0 (Some (half ++ [quote]))
                         else split_arguments s false 0 (Some half)
          | [] => split_arguments s false 0 (Some half)
          end
        else split_arguments s true 0 (Some half)
      else if blank_char ch && negb quoted then
        match cur with
        | None => split_arguments s false 0 None
        | Some _ => plain :: split_arguments s false 0 None
        end
      else split_arguments s quoted 0 (Some (plain ++ [ch]))
  end.
Definition windows_argv (line : chars) : list chars :=
  let (name, rest) := program_name line false in name :: split_arguments rest false 0 None.

(** ** The text the code builds *)

Definition special (arg : chars) : bool := existsb (fun ch => blank_char ch || bool_decide (ch = quote)) arg.
Fixpoint quoted_tail (p : chars) (backslashes : nat) : chars :=
  match p with
  | [] => replicate (backslashes * 2) backslash ++ [quote]
  | ch :: p =>
      if decide (ch = backslash) then quoted_tail p (S backslashes)
      else replicate (if decide (ch = quote) then backslashes * 2 + 1 else backslashes)%nat backslash ++ ch :: quoted_tail p 0
  end.
Definition quote_arg (arg : chars) : chars :=
  if bool_decide (arg = []) || special arg then quote :: quoted_tail arg 0 else arg.
Fixpoint spaced (args : list chars) : chars :=
  match args with [] => [] | arg :: args => " "%char :: quote_arg arg ++ spaced args end.
Definition command_line (argv : list chars) : chars :=
  match argv with [] => [] | exe :: args => quote_arg exe ++ spaced args end.

Section Text.
Context (malloc_ok : Z -> bool) (Hm : forall n, malloc_ok n = true) (b : Budget) (Hq : quiet b).

(** [m] appends [s] to a buffer. *)
Definition appends (s : chars) (m : TextBuffer -> Z -> comp Budget (option TextBuffer * Z)) : Prop := forall buf cd,
  exists cap cd', m buf cd b = Done (Some (MkBuf (buf_data buf ++ s) cap), cd') b.

Lemma append_repeat_text n ch : appends (replicate n ch) (buf_append_repeat malloc_ok n ch).
Proof.
  induction n as [| n IH]; intros buf cd; cbn [buf_append_repeat replicate].
  - exists (buf_cap buf), cd. rewrite app_nil_r. by destruct buf.
  - rewrite (bind_eq _ _ _ _ _ (builtin_poll_quiet cd b Hq)). destruct (append_char_ok malloc_ok Hm buf ch) as (cap & ->).
    destruct (IH (MkBuf (buf_data buf ++ [ch]) cap) (next_countdown cd)) as (cap' & cd' & ->).
    exists cap', cd'. cbn [buf_data]. by rewrite <- (assoc_L (++)).
Qed.
Lemma append_escaped_text n ch : appends (replicate n backslash ++ [ch]) (append_escaped malloc_ok n ch).
Proof.
  intros buf cd. unfold append_escaped. destruct (append_repeat_text n backslash buf cd) as (cap & cd' & E).
  rewrite (bind_eq _ _ _ _ _ E). destruct (append_char_ok malloc_ok Hm (MkBuf (buf_data buf ++ replicate n backslash) cap) ch) as (cap' & E').
  exists cap', cd'. unfold ret. cbn [mbind option_bind]. rewrite E'. cbn [buf_data]. by rewrite <- (assoc_L (++)).
Qed.
Lemma quote_loop_text p : forall k, appends (quoted_tail p k) (quote_loop malloc_ok p k).
Proof.
  induction p as [| ch p IH]; intros k buf cd; cbn [quote_loop quoted_tail]; [apply append_escaped_text |].
  rewrite (bind_eq _ _ _ _ _ (builtin_poll_quiet cd b Hq)). case_decide; [apply IH |].
  set (n := if decide (ch = quote) then _ else k).
  destruct (append_escaped_text n ch buf (next_countdown cd)) as (cap & cd' & E). rewrite (bind_eq _ _ _ _ _ E).
  destruct (IH 0%nat (MkBuf (buf_data buf ++ replicate n backslash ++ [ch]) cap) cd') as (cap' & cd'' & ->).
  exists cap', cd''. cbn [buf_data]. by rewrite <- !(assoc_L (++)).
Qed.
Lemma has_special_text p : forall cd, exists cd', has_special p cd b = Done (special p, cd') b.
Proof.
  induction p as [| ch p IH]; intros cd; cbn [has_special special existsb]; [by exists cd |].
  rewrite (bind_eq _ _ _ _ _ (builtin_poll_quiet cd b Hq)). destruct (_ || _); [by eexists | apply IH].
Qed.
Lemma append_chunks_text fuel : forall data, (length data <= fuel)%nat ->
  appends data (fun buf cd => append_chunks malloc_ok fuel buf data cd).
Proof.
  pose proof chunk_pos as Hpos. induction fuel as [| fuel IH]; intros data Hf buf cd;
    (destruct data as [| ch data]; [exists (buf_cap buf), cd; cbn; rewrite app_nil_r; by destruct buf |]); [simpl in Hf; lia |].
  cbn [append_chunks]. set (d := ch :: data) in *. assert (0 < length d)%nat by (cbn; lia). clearbody d.
  rewrite (bind_eq _ _ _ _ _ (builtin_poll_quiet cd b Hq)).
  destruct (append_mem_ok malloc_ok Hm buf (take FEX_FILE_IO_CHUNK_SIZE d)) as (cap & ->).
  destruct (IH (drop FEX_FILE_IO_CHUNK_SIZE d) ltac:(rewrite length_drop; lia)
    (MkBuf (buf_data buf ++ take FEX_FILE_IO_CHUNK_SIZE d) cap) (next_countdown cd)) as (cap' & cd' & ->).
  exists cap', cd'. cbn [buf_data]. by rewrite <- (assoc_L (++)), take_drop.
Qed.
Lemma command_arg_text arg : appends (quote_arg arg) (fun buf cd => append_windows_command_arg malloc_ok buf arg cd).
Proof.
  intros buf cd. unfold append_windows_command_arg, quote_arg.
  assert (exists cd', needs_windows_quotes arg cd b = Done (bool_decide (arg = []) || special arg, cd') b) as [cd' E].
  { destruct arg as [| ch arg]; [by exists cd |]. apply has_special_text. }
  rewrite (bind_eq _ _ _ _ _ E). destruct (_ || _); [| by apply append_chunks_text].
  destruct (append_char_ok malloc_ok Hm buf quote) as (cap & ->).
  destruct (quote_loop_text arg 0 (MkBuf (buf_data buf ++ [quote]) cap) cd') as (cap' & cd'' & ->).
  exists cap', cd''. cbn [buf_data]. by rewrite <- (assoc_L (++)).
Qed.
End Text.

Lemma lift_quiet {A} (m : comp Budget A) a (c : fe_Context) :
  m (rt_bud (rt c)) = Done a (rt_bud (rt c)) -> lift_budget m c = Done a c.
Proof. apply lift_budget_quiet. Qed.
Lemma args_loop_text malloc_ok (Hm : forall n, malloc_ok n = true) fn c (Hq : still_quiet c) : forall argv first buf cd,
  exists cap, args_loop malloc_ok first argv fn buf cd c
    = Done (MkBuf (buf_data buf ++ (if first : bool then command_line argv else spaced argv)) cap) c.
Proof.
  induction argv as [| arg argv IH]; intros first buf cd; cbn [args_loop].
  { exists (buf_cap buf). destruct first; cbn; rewrite app_nil_r; by destruct buf. }
  rewrite (bind_eq _ _ _ _ _ (poll_quiet_ctx cd c Hq)).
  assert (exists cap, (if first then Some buf else buf_append_char malloc_ok buf " "%char)
    = Some (MkBuf (buf_data buf ++ (if first then [] else [" "%char])) cap)) as [cap ->].
  { destruct first; [exists (buf_cap buf); rewrite app_nil_r; by destruct buf | by apply append_char_ok]. }
  set (buf1 := MkBuf _ cap).
  destruct (command_arg_text malloc_ok Hm _ Hq arg buf1 (next_countdown cd)) as (cap' & cd' & E).
  rewrite (bind_eq _ _ _ _ _ (lift_quiet _ _ _ E)). destruct (IH false (MkBuf (buf_data buf1 ++ quote_arg arg) cap') cd') as [cap'' ->].
  exists cap''. cbn [buf_data buf1]. do 2 f_equal. unfold buf1. cbn [buf_data]. by destruct first; rewrite <- !(assoc_L (++)).
Qed.

(** ** Round trip *)

(** The rest of a line after an argument: its end, or a blank. *)
Definition ended (rest : chars) : Prop := rest = [] \/ exists r, rest = " "%char :: r.
Lemma spaced_ended args : ended (spaced args).
Proof. destruct args; [by left | right; by eexists]. Qed.
Lemma arguments_slashes n : forall s q k t,
  split_arguments (replicate n backslash ++ s) q k (Some t) = split_arguments s q (k + n) (Some t).
Proof.
  induction n as [| n IH]; intros s q k t; [by rewrite Nat.add_0_r |]. cbn [replicate app split_arguments].
  rewrite decide_True by done. cbn [default]. rewrite IH. f_equal. lia.
Qed.
Lemma arguments_end rest k t : ended rest ->
  split_arguments rest false k (Some t) = (t ++ replicate k backslash) :: split_arguments (tail rest) false 0 None.
Proof. by intros [-> | [r ->]]. Qed.
Lemma half_double k : Nat.div2 (k * 2) = k /\ Nat.odd (k * 2) = false /\ Nat.div2 (k * 2 + 1) = k /\ Nat.odd (k * 2 + 1) = true.
Proof.
  induction k as [| k (E1 & E2 & E3 & E4)]; [done |]. cbn [Nat.mul Nat.add Nat.div2].
  split_and!; [by rewrite E1 | exact E2 | by rewrite E3 | exact E4].
Qed.
Lemma slashes_cons k p : replicate (S k) backslash ++ p = replicate k backslash ++ backslash :: p.
Proof. rewrite replicate_S, replicate_cons_app. by rewrite <- (assoc_L (++)). Qed.

Lemma arguments_quoted rest : ended rest -> forall p k t,
  split_arguments (quoted_tail p k ++ rest) true 0 (Some t)
  = (t ++ replicate k backslash ++ p) :: split_arguments (tail rest) false 0 None.
Proof.
  intros Hr. induction p as [| ch p IH]; intros k t; cbn [quoted_tail].
  - destruct (half_double k) as (E1 & E2 & _). rewrite <- (assoc_L (++)), arguments_slashes, Nat.add_0_l. cbn [app split_arguments].
    rewrite decide_False, decide_True, E2, E1 by done. cbn [default app_nil_r]. rewrite app_nil_r.
    assert (split_arguments rest false 0 (Some (t ++ replicate k backslash)) = (t ++ replicate k backslash) :: split_arguments (tail rest) false 0 None) as E
      by (by rewrite arguments_end, app_nil_r).
    destruct Hr as [-> | [r ->]]; [exact E |]. by rewrite decide_False.
  - case_decide as Hb; [subst ch; rewrite IH; by rewrite slashes_cons |].
    rewrite <- (assoc_L (++)), arguments_slashes, Nat.add_0_l. cbn [app split_arguments]. rewrite (decide_False _ _ Hb).
    destruct (half_double k) as (_ & _ & E3 & E4). destruct (decide (ch = quote)) as [-> | Hn].
    + rewrite E4, E3, IH. cbn [replicate app default]. by rewrite <- !(assoc_L (++)).
    + rewrite andb_false_r, IH. cbn [replicate app default]. by rewrite <- !(assoc_L (++)).
Qed.
Lemma special_cons ch p : special (ch :: p) = false -> blank_char ch = false /\ ch <> quote /\ special p = false.
Proof. cbn. intros [[H1 H2%bool_decide_eq_false]%orb_false_iff H3]%orb_false_iff. done. Qed.
Lemma arguments_plain rest : ended rest -> forall p k t, special p = false ->
  split_arguments (p ++ rest) false k (Some t) = (t ++ replicate k backslash ++ p) :: split_arguments (tail rest) false 0 None.
Proof.
  intros Hr. induction p as [| ch p IH]; intros k t Hp; [by rewrite app_nil_r; apply arguments_end |].
  apply special_cons in Hp as (Hb & Hn & Hp). cbn [app split_arguments default]. case_decide as Hs.
  - subst ch. rewrite IH by done. by rewrite slashes_cons.
  - rewrite decide_False, Hb by done. cbn [andb]. rewrite IH by done. cbn [replicate app]. by rewrite <- !(assoc_L (++)).
Qed.
Lemma arguments_one rest arg : ended rest ->
  split_arguments (quote_arg arg ++ rest) false 0 None = arg :: split_arguments (tail rest) false 0 None.
Proof.
  intros Hr. unfold quote_arg. case_bool_decide as He; cbn [orb]; [| destruct (special arg) eqn:Es].
  1, 2: cbn [app split_arguments]; rewrite decide_False, decide_True by done; cbn [Nat.odd Nat.even negb default app Nat.div2 replicate];
    by rewrite (arguments_quoted rest Hr).
  destruct arg as [| ch arg]; [done |].
  apply special_cons in Es as Hs. destruct Hs as (Hb & Hn & _).
  trans (split_arguments ((ch :: arg) ++ rest) false 0 (Some [])); [| by apply (arguments_plain rest Hr (ch :: arg) 0 [])].
  cbn [app split_arguments default]. by rewrite Hb.
Qed.
Lemma arguments_spaced args : split_arguments (tail (spaced args)) false 0 None = args.
Proof.
  induction args as [| arg args IH]; [done |]. cbn [spaced tail]. rewrite arguments_one by apply spaced_ended. by rewrite IH.
Qed.
Lemma program_quoted rest : ended rest -> forall p, quote ∉ p -> program_name (p ++ quote :: rest) true = (p, tail rest).
Proof.
  intros Hr. induction p as [| ch p IH]; intros Hp; cbn [app program_name].
  - rewrite decide_True by done. by destruct Hr as [-> | [r ->]].
  - rewrite decide_False, andb_false_r, IH by set_solver. done.
Qed.
Lemma program_plain rest : ended rest -> forall p, special p = false -> program_name (p ++ rest) false = (p, tail rest).
Proof.
  intros Hr. induction p as [| ch p IH]; intros Hp; [by destruct Hr as [-> | [r ->]] |].
  apply special_cons in Hp as (Hb & Hn & Hp). cbn [app program_name]. by rewrite decide_False, Hb, IH.
Qed.
(** Without quotation marks and backslashes at its end, an argument is
    quoted as it is. *)
Lemma quoted_tail_plain : forall p k, quote ∉ p -> last (replicate k backslash ++ p) <> Some backslash ->
  quoted_tail p k = replicate k backslash ++ p ++ [quote].
Proof.
  induction p as [| ch p IH]; intros k Hp Hl; cbn [quoted_tail].
  - destruct k as [| k]; [done |]. exfalso. apply Hl. rewrite app_nil_r, replicate_S, replicate_cons_app. by rewrite last_snoc.
  - case_decide as Hb; [subst ch; rewrite IH, slashes_cons by (set_solver || by rewrite slashes_cons); done |].
    rewrite decide_False, IH by set_solver || (intros E; apply Hl; rewrite last_app_cons; by destruct p).
    done.
Qed.
Lemma program_one rest exe : ended rest -> quote ∉ exe -> last exe <> Some backslash ->
  program_name (quote_arg exe ++ rest) false = (exe, tail rest).
Proof.
  intros Hr Hq Hl. unfold quote_arg. destruct (_ || special exe) eqn:E.
  - rewrite quoted_tail_plain by done. cbn [app replicate program_name]. rewrite decide_True by done. cbn [negb].
    rewrite <- (assoc_L (++)). by apply program_quoted.
  - apply orb_false_iff in E as [_ E]. by apply program_plain.
Qed.

(** C9. The command line built for CreateProcess is split by the rules of
    the C runtime into exactly the arguments that were asked for, whatever
    blanks, quotation marks and backslashes they contain; the program name
    must be one: without a quotation mark and not ending in a backslash. *)
Theorem windows_command_line_roundtrip (malloc_ok : Z -> bool) (func_name : string) (exe : chars) (args : list chars)
    (c : fe_Context) :
  (forall n, malloc_ok n = true) -> still_quiet c -> quote ∉ exe -> last exe <> Some backslash ->
  exists line, build_windows_command_line malloc_ok (exe :: args) func_name c = Done line c /\
    windows_argv line = exe :: args.
Proof.
  intros Hm Hq He Hl. exists (command_line (exe :: args)). split.
  - unfold build_windows_command_line.
    destruct (args_loop_text malloc_ok Hm func_name c Hq (exe :: args) true empty_buffer FEX_BUILTIN_ABORT_CHECK_INTERVAL) as [cap E].
    rewrite (bind_eq _ _ _ _ _ E). cbn [buf_data empty_buffer app].
    destruct (command_line (exe :: args)) as [| ch line] eqn:El; [| done]. by rewrite Hm.
  - unfold windows_argv. cbn [command_line]. rewrite program_one by (done || apply spaced_ended). by rewrite arguments_spaced.
Qed.

Lemma windows_command_line_roundtrip_witness : exists line,
  build_windows_command_line (fun _ => true) [str "C:\a b\x.exe"; []; quote :: str "a b\"; str "c\d"] "runprocess" text_context
  = Done line text_context /\
  windows_argv line = [str "C:\a b\x.exe"; []; quote :: str "a b\"; str "c\d"].
Proof.
  apply (windows_command_line_roundtrip (fun _ => true) "runprocess" (str "C:\a b\x.exe") [[]; quote :: str "a b\"; str "c\d"] text_context);
    [done | done | | done].
  by apply (bool_decide_unpack _).
Defined.
Example quoted_line :
  command_line [str "x"; []; quote :: str "a b\"; str "c\d"] = str "x " ++ [quote; quote] ++ str " " ++
    [quote; backslash; quote] ++ str "a b\\" ++ [quote] ++ str " c\d".
Proof. reflexivity. Qed.
