(* ===== verification/Options.v ===== *)
(** * Options of the command line (src/main.c: builtin_mask_from_name to
    append_source_fragment, print_version, print_usage and the argument loop
    of fex_main_utf8)

    The loop is a fold over the arguments ([parse_args]); what one argument
    does to the variables it sets ([Options]) is [option_step]. *)

From Stdlib Require Import ZArith Lia Ascii String.
From stdpp Require Import base list pretty.
From S2P Require Import Prelude Strtod Writer Register.

(** ** Integers of the C library *)

Fixpoint digits_value (s : chars) (acc : Z) : Z * chars :=
  match s with
  | ch :: s' => if is_digit ch then digits_value s' (acc * 10 + (code ch - 48)) else (acc, s)
  | [] => (acc, [])
  end.
(** The sign and the digits after white space, in base 10, and what follows
    them; all of the text follows when there are none. *)
Definition scan_integer (s : chars) : bool * Z * chars :=
  let t := skip_space s in
  let '(neg, t) :=
    match t with
    | ch :: t' => if decide (ch = "-"%char) then (true, t') else if decide (ch = "+"%char) then (false, t') else (false, t)
    | [] => (false, t)
    end in
  match t with
  | ch :: _ => if is_digit ch then let '(v, rest) := digits_value t 0 in (neg, v, rest) else (false, 0, s)
  | [] => (false, 0, s)
  end.
Definition ULLONG_MAX : Z := 2 ^ 64 - 1.
Definition LONG_MAX : Z := 2 ^ 63 - 1.
Definition strtoull (s : chars) : Z * chars :=
  let '(neg, v, rest) := scan_integer s in
  (if ULLONG_MAX <? v then ULLONG_MAX else if neg : bool then u64 (- v) else v, rest).
Definition strtol (s : chars) : Z * chars :=
  let '(neg, v, rest) := scan_integer s in
  (let v := if neg : bool then - v else v in
   if LONG_MAX <? v then LONG_MAX else if v <? - LONG_MAX - 1 then - LONG_MAX - 1 else v, rest).

(** ** Data *)

Definition MEMORY_POOL_SIZE : Z := 5 * 1024 * 1024.

(** The buffer of inline source: NULL as long as its capacity is 0. *)
Record SourceBuffer := MkSource { src_data : chars; src_cap : Z }.
Definition src_null (b : SourceBuffer) : bool := src_cap b =? 0.

Record Options := MkCliOptions {
  enable_spans : bool;
  builtins : Z;
  module_paths : list chars;
  max_steps : Z;
  cli_timeout_ms : Z;
  max_memory : Z;
  eval_depth_limit : Z;     (* -1: the default *)
  read_depth_limit : Z;
  json_output : bool;
  show_stats : bool;
  memory_pool_size : Z;
  eval_source : SourceBuffer;
  filename : option chars;
  read_stdin : bool;
  end_of_options : bool
}.
Definition no_options : Options :=
  MkCliOptions false FEX_BUILTINS_NONE [] 0 0 0 (-1) (-1) false false MEMORY_POOL_SIZE (MkSource [] 0) None false false.

Definition set_spans (v : bool) (o : Options) : Options :=
  MkCliOptions v (builtins o) (module_paths o) (max_steps o) (cli_timeout_ms o) (max_memory o) (eval_depth_limit o)
    (read_depth_limit o) (json_output o) (show_stats o) (memory_pool_size o) (eval_source o) (filename o) (read_stdin o)
    (end_of_options o).
Definition set_builtins (v : Z) (o : Options) : Options :=
  MkCliOptions (enable_spans o) v (module_paths o) (max_steps o) (cli_timeout_ms o) (max_memory o) (eval_depth_limit o)
    (read_depth_limit o) (json_output o) (show_stats o) (memory_pool_size o) (eval_source o) (filename o) (read_stdin o)
    (end_of_options o).
Definition set_module_paths (v : list chars) (o : Options) : Options :=
  MkCliOptions (enable_spans o) (builtins o) v (max_steps o) (cli_timeout_ms o) (max_memory o) (eval_depth_limit o)
    (read_depth_limit o) (json_output o) (show_stats o) (memory_pool_size o) (eval_source o) (filename o) (read_stdin o)
    (end_of_options o).
Definition set_max_steps (v : Z) (o : Options) : Options :=
  MkCliOptions (enable_spans o) (builtins o) (module_paths o) v (cli_timeout_ms o) (max_memory o) (eval_depth_limit o)
    (read_depth_limit o) (json_output o) (show_stats o) (memory_pool_size o) (eval_source o) (filename o) (read_stdin o)
    (end_of_options o).
Definition set_cli_timeout (v : Z) (o : Options) : Options :=
  MkCliOptions (enable_spans o) (builtins o) (module_paths o) (max_steps o) v (max_memory o) (eval_depth_limit o)
    (read_depth_limit o) (json_output o) (show_stats o) (memory_pool_size o) (eval_source o) (filename o) (read_stdin o)
    (end_of_options o).
Definition set_max_memory (v : Z) (o : Options) : Options :=
  MkCliOptions (enable_spans o) (builtins o) (module_paths o) (max_steps o) (cli_timeout_ms o) v (eval_depth_limit o)
    (read_depth_limit o) (json_output o) (show_stats o) (memory_pool_size o) (eval_source o) (filename o) (read_stdin o)
    (end_of_options o).
Definition set_eval_limit (v : Z) (o : Options) : Options :=
  MkCliOptions (enable_spans o) (builtins o) (module_paths o) (max_steps o) (cli_timeout_ms o) (max_memory o) v
    (read_depth_limit o) (json_output o) (show_stats o) (memory_pool_size o) (eval_source o) (filename o) (read_stdin o)
    (end_of_options o).
Definition set_read_limit (v : Z) (o : Options) : Options :=
  MkCliOptions (enable_spans o) (builtins o) (module_paths o) (max_steps o) (cli_timeout_ms o) (max_memory o)
    (eval_depth_limit o) v (json_output o) (show_stats o) (memory_pool_size o) (eval_source o) (filename o) (read_stdin o)
    (end_of_options o).
Definition set_json (v : bool) (o : Options) : Options :=
  MkCliOptions (enable_spans o) (builtins o) (module_paths o) (max_steps o) (cli_timeout_ms o) (max_memory o)
    (eval_depth_limit o) (read_depth_limit o) v (show_stats o) (memory_pool_size o) (eval_source o) (filename o)
    (read_stdin o) (end_of_options o).
Definition set_stats (v : bool) (o : Options) : Options :=
  MkCliOptions (enable_spans o) (builtins o) (module_paths o) (max_steps o) (cli_timeout_ms o) (max_memory o)
    (eval_depth_limit o) (read_depth_limit o) (json_output o) v (memory_pool_size o) (eval_source o) (filename o)
    (read_stdin o) (end_of_options o).
Definition set_pool (v : Z) (o : Options) : Options :=
  MkCliOptions (enable_spans o) (builtins o) (module_paths o) (max_steps o) (cli_timeout_ms o) (max_memory o)
    (eval_depth_limit o) (read_depth_limit o) (json_output o) (show_stats o) v (eval_source o) (filename o) (read_stdin o)
    (end_of_options o).
Definition set_source (v : SourceBuffer) (o : Options) : Options :=
  MkCliOptions (enable_spans o) (builtins o) (module_paths o) (max_steps o) (cli_timeout_ms o) (max_memory o)
    (eval_depth_limit o) (read_depth_limit o) (json_output o) (show_stats o) (memory_pool_size o) v (filename o)
    (read_stdin o) (end_of_options o).
Definition set_filename (v : chars) (o : Options) : Options :=
  MkCliOptions (enable_spans o) (builtins o) (module_paths o) (max_steps o) (cli_timeout_ms o) (max_memory o)
    (eval_depth_limit o) (read_depth_limit o) (json_output o) (show_stats o) (memory_pool_size o) (eval_source o) (Some v)
    (read_stdin o) (end_of_options o).
Definition set_read_stdin (v : bool) (o : Options) : Options :=
  MkCliOptions (enable_spans o) (builtins o) (module_paths o) (max_steps o) (cli_timeout_ms o) (max_memory o)
    (eval_depth_limit o) (read_depth_limit o) (json_output o) (show_stats o) (memory_pool_size o) (eval_source o)
    (filename o) v (end_of_options o).
Definition set_end (v : bool) (o : Options) : Options :=
  MkCliOptions (enable_spans o) (builtins o) (module_paths o) (max_steps o) (cli_timeout_ms o) (max_memory o)
    (eval_depth_limit o) (read_depth_limit o) (json_output o) (show_stats o) (memory_pool_size o) (eval_source o)
    (filename o) (read_stdin o) v.

(** The end of the process: its exit code and what it wrote. *)
Record Exit := MkExit { exit_status : Z; exit_out : chars; exit_err : chars }.

(** ** Builtin categories *)

Definition builtin_mask_from_name (name : chars) : option Z :=
  if decide (name = str "math") then Some FEX_BUILTINS_MATH
  else if decide (name = str "string") then Some FEX_BUILTINS_STRING
  else if decide (name = str "list") then Some FEX_BUILTINS_LIST
  else if decide (name = str "io") then Some FEX_BUILTINS_IO
  else if decide (name = str "system") then Some FEX_BUILTINS_SYSTEM
  else if decide (name = str "type") then Some FEX_BUILTINS_TYPE
  else if decide (name = str "data") then Some FEX_BUILTINS_DATA
  else if decide (name = str "safe") then Some FEX_BUILTINS_SAFE
  else if decide (name = str "all") then Some FEX_BUILTINS_ALL
  else None.

(** The text up to the first comma, and what follows that. *)
Fixpoint next_token (s : chars) : chars * option chars :=
  match s with
  | [] => ([], None)
  | ch :: s =>
      if decide (ch = ","%char) then ([], Some s)
      else let '(t, rest) := next_token s in (ch :: t, rest)
  end.
Definition trim_token (t : chars) : chars := rev (skip_space (rev (skip_space t))).
Fixpoint spec_loop (fuel : nat) (mask : Z) (token : chars) : option Z :=
  match fuel with
  | O => None
  | S f =>
      let '(t, next) := next_token token in
      match trim_token t with
      | [] => None
      | name =>
          token_mask ← builtin_mask_from_name name;
          let mask := Z.lor mask token_mask in
          match next with None => Some mask | Some token => spec_loop f mask token end
      end
  end.

Section Malloc.
Context (malloc_ok : Z -> bool).

Definition add_builtin_spec (mask : Z) (spec : chars) : option Z :=
  if malloc_ok (Z.of_nat (length spec) + 1) then spec_loop (S (length spec)) mask spec else None.

(** ** Inline source *)

Definition append_source_fragment (b : SourceBuffer) (fragment : chars) : option SourceBuffer :=
  match fragment with
  | [] => Some b
  | _ =>
      let needed := Z.of_nat (length (src_data b)) + Z.of_nat (length fragment) + 1 in
      if needed <=? src_cap b then Some (MkSource (src_data b ++ fragment) (src_cap b))
      else
        let new_cap := doubled 64 (if 0 <? src_cap b then src_cap b else 128) needed in
        if malloc_ok new_cap then Some (MkSource (src_data b ++ fragment) new_cap) else None
  end.

(** ** Texts *)

Definition nl : chars := [ascii_of_nat 10].
Definition FE_VERSION : chars := str "1.0".
Definition version_text : chars := str "FeX " ++ FE_VERSION ++ nl.
Definition usage_lines : list string :=
  ["Options:";
   "  -e CODE       Evaluate inline source (may repeat)";
   "  --spans       Enable detailed error reporting with source spans";
   "  --builtins    Enable all extended built-in functions";
   "  --builtin NAME  Enable a builtin category or preset (may repeat, comma-separated)";
   "                Categories: math, string, list, io, system, type, data";
   "                Presets: safe, all";
   "  --module-path PATH  Add a module search directory (may be repeated)";
   "  -I PATH       Alias for --module-path";
   "  --max-steps N  Abort evaluation after approximately N eval steps (0 disables)";
   "  --timeout-ms N  Abort evaluation after roughly N milliseconds (0 disables)";
   "  --max-memory N  Abort when tracked context memory exceeds N bytes (0 disables)";
   "  --max-eval-depth N  Limit eval recursion depth (0 disables, default: 512)";
   "  --max-read-depth N  Limit read nesting depth (0 disables, default: 512)";
   "  --json-output Emit structured JSON diagnostics to stderr instead of text";
   "  --stats       Print runtime stats to stderr after non-REPL execution";
   "  --memory-pool-size SIZE  Set memory pool size in MB (default: 5MB)";
   "  --version, -V  Show version information";
   "  --help        Show this help message";
   "";
   "Use '-' to read source from stdin. If no file or -e input is provided,";
   "the CLI reads stdin when piped input is present; otherwise it starts the REPL."]%string.
Definition print_usage (program_name : chars) : chars :=
  str "Usage: " ++ program_name ++ str " [options] [file|-]" ++ nl ++ concat ((fun l => str l ++ nl) <$> usage_lines).

(** ** The loop *)

Section Loop.
Context (program_name : chars).

Definition usage_error (msg : chars) : Exit := MkExit 64 [] (msg ++ nl ++ print_usage program_name).
Definition no_source_memory : Exit := MkExit 1 [] (str "Failed to allocate inline source buffer." ++ nl).

(** What an argument does: it changes the variables, takes the next argument
    as its value (the error says what is missing without one), or ends the
    program. *)
Inductive Step :=
| Next (o : Options)
| Takes (missing : chars) (value : chars -> Options + Exit)
| Ends (e : Exit).

(** A number is taken when nothing follows it. *)
Definition number_value (read : chars -> Z * chars) (accept : Z -> bool) (set : Z -> Options -> Options) (what must : string)
    (o : Options) (value : chars) : Options + Exit :=
  let '(v, rest) := read value in
  match rest with
  | [] => if accept v then inl (set v o)
          else inr (usage_error (str "Error: Invalid " ++ str what ++ str " '" ++ value ++ str "'. Must be a " ++ str must ++ str "."))
  | _ => inr (usage_error (str "Error: Invalid " ++ str what ++ str " '" ++ value ++ str "'. Must be a " ++ str must ++ str "."))
  end.
Definition depth_ok (v : Z) : bool := (0 <=? v) && (v <=? INT_MAX).
Definition source_value (o : Options) (value : chars) : Options + Exit :=
  match (if src_null (eval_source o) then Some (eval_source o) else append_source_fragment (eval_source o) nl) with
  | None => inr no_source_memory
  | Some b =>
      match append_source_fragment b value with
      | None => inr no_source_memory
      | Some b => inl (set_source b o)
      end
  end.
Definition has_input (o : Options) : bool :=
  (match filename o with Some _ => true | None => false end) || negb (src_null (eval_source o)) || read_stdin o.
Definition multiple_sources : Exit := usage_error (str "Multiple input sources specified.").

Definition input_step (arg : chars) (o : Options) : Step :=
  if has_input o then Ends multiple_sources
  else if decide (arg = str "-") then Next (set_read_stdin true o)
  else Next (set_filename arg o).
Definition is_arg (arg : chars) (name : string) : bool := bool_decide (arg = str name).
Definition option_step (arg : chars) (o : Options) : Step :=
  if end_of_options o then input_step arg o
  else if is_arg arg "--" then Next (set_end true o)
  else if is_arg arg "-e" then
    if (match filename o with Some _ => true | None => false end) || read_stdin o then Ends multiple_sources
    else Takes (str "Error: -e requires a source string") (source_value o)
  else if is_arg arg "--spans" then Next (set_spans true o)
  else if is_arg arg "--builtins" then Next (set_builtins (Z.lor (builtins o) FEX_BUILTINS_ALL) o)
  else if is_arg arg "--builtin" then
    Takes (str "Error: --builtin requires a category or preset name") (fun value =>
      match add_builtin_spec (builtins o) value with
      | Some mask => inl (set_builtins mask o)
      | None => inr (usage_error (str "Error: Unknown builtin category or preset '" ++ value ++ str "'"))
      end)
  else if is_arg arg "--module-path" || is_arg arg "-I" then
    Takes (str "Error: " ++ arg ++ str " requires a path argument")
      (fun value => inl (set_module_paths (module_paths o ++ [value]) o))
  else if is_arg arg "--max-steps" then
    Takes (str "Error: --max-steps requires an integer value")
      (number_value strtoull (fun _ => true) set_max_steps "max step count" "non-negative integer" o)
  else if is_arg arg "--timeout-ms" then
    Takes (str "Error: --timeout-ms requires an integer value")
      (number_value strtoull (fun _ => true) set_cli_timeout "timeout" "non-negative integer in milliseconds" o)
  else if is_arg arg "--max-memory" then
    Takes (str "Error: --max-memory requires an integer value")
      (number_value strtoull (fun _ => true) set_max_memory "memory limit" "non-negative integer in bytes" o)
  else if is_arg arg "--max-eval-depth" then
    Takes (str "Error: --max-eval-depth requires an integer value")
      (number_value strtol depth_ok set_eval_limit "eval depth limit" "non-negative integer" o)
  else if is_arg arg "--max-read-depth" then
    Takes (str "Error: --max-read-depth requires an integer value")
      (number_value strtol depth_ok set_read_limit "read depth limit" "non-negative integer" o)
  else if is_arg arg "--json-output" then Next (set_json true o)
  else if is_arg arg "--stats" then Next (set_stats true o)
  else if is_arg arg "--memory-pool-size" then
    Takes (str "Error: --memory-pool-size requires a value in MB")
      (number_value strtol (fun v => 0 <? v) (fun v => set_pool (u64 (v * 1024 * 1024))) "memory pool size"
         "positive integer in MB" o)
  else if is_arg arg "--version" || is_arg arg "-V" then Ends (MkExit 0 version_text [])
  else if is_arg arg "--help" || is_arg arg "-h" then Ends (MkExit 0 [] (print_usage program_name))
  else if (match arg with ch :: _ => bool_decide (ch = "-"%char) | [] => false end) && negb (is_arg arg "-") then
    Ends (usage_error (str "Unknown option: " ++ arg))
  else input_step arg o.

Fixpoint parse_args (argv : list chars) (o : Options) : Options + Exit :=
  match argv with
  | [] => inl o
  | arg :: argv =>
      match option_step arg o with
      | Next o => parse_args argv o
      | Ends e => inr e
      | Takes missing value =>
          match argv with
          | [] => inr (usage_error missing)
          | v :: argv => match value v with inl o => parse_args argv o | inr e => inr e end
          end
      end
  end.
End Loop.
End Malloc.
