(* ===== verification/OptionsSpec.v ===== *)
(** * Options: printing and reading them back *)

From Stdlib Require Import ZArith Lia Ascii String.
From stdpp Require Import base list sets pretty.
From S2P Require Import Prelude Strtod Writer Register Options.

(** ** Decimal numbers *)

Lemma code_pretty_char d : (d < 10)%N -> code (pretty_N_char d) = 48 + Z.of_N d.
Proof.
  intros Hd. assert (d ∈ [0; 1; 2; 3; 4; 5; 6; 7; 8; 9])%N as H by (rewrite !elem_of_cons; lia).
  rewrite !elem_of_cons, elem_of_nil in H. by repeat (destruct H as [-> | H]; [reflexivity |]).
Qed.
Lemma is_digit_code ch : is_digit ch = ((48 <=? code ch) && (code ch <=? 57)).
Proof. by destruct ch as [[] [] [] [] [] [] [] []]. Qed.
Lemma str_cons ch s : str (String ch s) = ch :: str s.
Proof. done. Qed.

(** The digits of [x] in front of any text. *)
Definition reads_as (x : N) (ds : chars) : Prop :=
  Forall (fun ch => is_digit ch = true) ds /\ (forall acc t, digits_value (ds ++ t) acc = digits_value t (acc * 10 ^ Z.of_nat (length ds) + Z.of_N x)).
Lemma reads_as_snoc x d ds : (d < 10)%N -> reads_as x ds -> reads_as (x * 10 + d) (ds ++ [pretty_N_char d]).
Proof.
  intros Hd [Hds Hv]. pose proof (code_pretty_char d Hd) as Hc.
  assert (is_digit (pretty_N_char d) = true) as Hdig by (rewrite is_digit_code, Hc; lia).
  split; [by apply Forall_app_2; [| constructor] |]. intros acc t. rewrite <- (assoc_L (++)), Hv. cbn [app digits_value].
  rewrite Hdig, Hc. f_equal. rewrite length_app. cbn [length]. rewrite Nat2Z.inj_add, Z.pow_add_r by lia. lia.
Qed.
Lemma pretty_go_reads x : forall s, exists ds, str (pretty_N_go x s) = ds ++ str s /\ reads_as x ds /\ ((0 < x)%N -> ds <> []).
Proof.
  induction x as [x IH] using (well_founded_induction N.lt_wf_0). intros s.
  destruct (decide (x = 0)%N) as [-> | Hx].
  - exists []. rewrite pretty_N_go_0. split; [done |]. split; [| done]. split; [constructor |].
    intros acc t. cbn [app length]. f_equal. cbn. lia.
  - rewrite pretty_N_go_step by lia. assert (x / 10 < x)%N as Hlt by (apply N.div_lt; lia).
    assert (x mod 10 < 10)%N as Hm by (apply N.mod_lt; lia).
    destruct (IH _ Hlt (String (pretty_N_char (x mod 10)) s)) as (ds & E & Hr & _).
    exists (ds ++ [pretty_N_char (x mod 10)]). split; [by rewrite E, str_cons, <- (assoc_L (++)) |].
    split; [| by destruct ds]. apply (reads_as_snoc _ _ _ Hm) in Hr. replace (x / 10 * 10 + x mod 10)%N with x in Hr; [done |].
    rewrite (N.div_mod x 10) at 1 by lia. lia.
Qed.
Lemma dec_reads z : 0 <= z -> exists ch ds, dec z = ch :: ds /\ reads_as (Z.to_N z) (ch :: ds).
Proof.
  intros Hz. unfold dec. destruct z as [| p | p]; [| | lia].
  - exists "0"%char, []. split; [done |]. split; [by constructor |]. intros acc t. cbn [app digits_value length]. by cbn; f_equal.
  - change (pretty (Z.pos p)) with (pretty (N.pos p)).
    change (pretty (N.pos p)) with (if decide (N.pos p = 0)%N then "0"%string else pretty_N_go (N.pos p) "").
    rewrite decide_False by done. destruct (pretty_go_reads (N.pos p) "") as ([| ch ds] & E & Hr & Hn); [by destruct (Hn eq_refl) |].
    exists ch, ds. by rewrite E, app_nil_r.
Qed.
Lemma digit_not_sign ch : is_digit ch = true -> is_space ch = false /\ ch <> "-"%char /\ ch <> "+"%char.
Proof. by destruct ch as [[] [] [] [] [] [] [] []]. Qed.
Lemma scan_dec z : 0 <= z -> scan_integer (dec z) = (false, z, []).
Proof.
  intros Hz. destruct (dec_reads z Hz) as (ch & ds & -> & Hd & Hv).
  inversion Hd as [| ? ? Hc _]. subst. destruct (digit_not_sign ch Hc) as (Hs & Hm & Hp).
  unfold scan_integer. cbn [skip_space]. rewrite Hs, !decide_False, Hc by done.
  specialize (Hv 0 []). rewrite app_nil_r in Hv. rewrite Hv. cbn [digits_value]. do 2 f_equal. lia.
Qed.
Lemma strtoull_dec z : 0 <= z <= ULLONG_MAX -> strtoull (dec z) = (z, []).
Proof. intros Hz. unfold strtoull. rewrite scan_dec by lia. by rewrite (proj2 (Z.ltb_ge _ _)) by lia. Qed.
Lemma strtol_dec z : 0 <= z <= LONG_MAX -> strtol (dec z) = (z, []).
Proof.
  intros Hz. unfold strtol. rewrite scan_dec by lia. unfold LONG_MAX in *.
  by rewrite (proj2 (Z.ltb_ge _ _)), (proj2 (Z.ltb_ge _ _)) by lia.
Qed.

(** ** Printing options *)

Definition categories : list (Z * string) :=
  [(FEX_BUILTINS_MATH, "math"); (FEX_BUILTINS_STRING, "string"); (FEX_BUILTINS_LIST, "list"); (FEX_BUILTINS_IO, "io");
   (FEX_BUILTINS_SYSTEM, "system"); (FEX_BUILTINS_TYPE, "type"); (FEX_BUILTINS_DATA, "data")]%string.
Definition selected (mask : Z) : list (Z * string) := filter (fun x => flag mask (fst x) = true) categories.
Definition flag_arg (b : bool) (name : string) : list chars := if b then [str name] else [].
Definition depth_arg (name : string) (v : Z) : list chars := if 0 <=? v then [str name; dec v] else [].
Definition source_arg (b : SourceBuffer) : list chars := if src_null b then [] else [str "-e"; src_data b].
Definition input_arg (o : Options) : list chars :=
  match filename o with Some f => [f] | None => flag_arg (read_stdin o) "-" end.

(** Arguments that set the variables to [o]. *)
Definition render (o : Options) : list chars :=
  flag_arg (enable_spans o) "--spans" ++
  concat ((fun x => [str "--builtin"; str (snd x)]) <$> selected (builtins o)) ++
  concat ((fun p => [str "--module-path"; p]) <$> module_paths o) ++
  [str "--max-steps"; dec (max_steps o)] ++
  [str "--timeout-ms"; dec (cli_timeout_ms o)] ++
  [str "--max-memory"; dec (max_memory o)] ++
  depth_arg "--max-eval-depth" (eval_depth_limit o) ++
  depth_arg "--max-read-depth" (read_depth_limit o) ++
  flag_arg (json_output o) "--json-output" ++
  flag_arg (show_stats o) "--stats" ++
  [str "--memory-pool-size"; dec (memory_pool_size o / 2 ^ 20)] ++
  source_arg (eval_source o) ++
  flag_arg (end_of_options o) "--" ++
  input_arg o.

Definition dashed (arg : chars) : Prop := head arg = Some "-"%char.
(** The options that arguments can express. *)
Record expressible (o : Options) : Prop := {
  ex_builtins : 0 <= builtins o < 2 ^ 7;
  ex_steps : 0 <= max_steps o <= ULLONG_MAX;
  ex_timeout : 0 <= cli_timeout_ms o <= ULLONG_MAX;
  ex_memory : 0 <= max_memory o <= ULLONG_MAX;
  ex_eval : -1 <= eval_depth_limit o <= INT_MAX;
  ex_read : -1 <= read_depth_limit o <= INT_MAX;
  ex_pool : exists mb, 0 < mb < 2 ^ 44 /\ memory_pool_size o = mb * 2 ^ 20;
  ex_source : append_source_fragment (fun _ => true) (MkSource [] 0) (src_data (eval_source o)) = Some (eval_source o);
  ex_null : src_null (eval_source o) = true -> src_data (eval_source o) = [];
  ex_input : if src_null (eval_source o)
             then (if read_stdin o then filename o = None else forall f, filename o = Some f -> f <> str "-")
             else filename o = None /\ read_stdin o = false;
  ex_file : end_of_options o = false -> forall f, filename o = Some f -> ~ dashed f
}.

Section Parse.
Context (malloc_ok : Z -> bool) (Hm : forall n, malloc_ok n = true) (prog : chars).
Local Notation parse := (parse_args malloc_ok prog).
Local Notation step := (option_step malloc_ok prog).

Lemma parse_flag (b : bool) name (set : bool -> Options -> Options) rest o :
  step (str name) o = Next (set true o) -> set false o = o -> parse (flag_arg b name ++ rest) o = parse rest (set b o).
Proof. intros E E'. destruct b; [| by rewrite E']. cbn [flag_arg app parse_args]. by rewrite E. Qed.
Lemma parse_value name v rest o m f o' :
  step (str name) o = Takes m f -> f v = inl o' -> parse ([str name; v] ++ rest) o = parse rest o'.
Proof. intros E Ev. cbn [app parse_args]. by rewrite E, Ev. Qed.

Context (rest : list chars) (o : Options) (He : end_of_options o = false).
Ltac step := unfold option_step; rewrite He; reflexivity.

Lemma parse_spans b : enable_spans o = false -> parse (flag_arg b "--spans" ++ rest) o = parse rest (set_spans b o).
Proof. intros E. apply parse_flag; [step | destruct o; by rewrite <- E]. Qed.
Lemma parse_json b : json_output o = false -> parse (flag_arg b "--json-output" ++ rest) o = parse rest (set_json b o).
Proof. intros E. apply parse_flag; [step | destruct o; by rewrite <- E]. Qed.
Lemma parse_stats b : show_stats o = false -> parse (flag_arg b "--stats" ++ rest) o = parse rest (set_stats b o).
Proof. intros E. apply parse_flag; [step | destruct o; by rewrite <- E]. Qed.
Lemma parse_end b : parse (flag_arg b "--" ++ rest) o = parse rest (set_end b o).
Proof. apply parse_flag; [step | destruct o; by rewrite <- He]. Qed.
Lemma parse_steps v : 0 <= v <= ULLONG_MAX -> parse ([str "--max-steps"; dec v] ++ rest) o = parse rest (set_max_steps v o).
Proof. intros Hv. eapply parse_value; [step |]. unfold number_value. by rewrite strtoull_dec. Qed.
Lemma parse_timeout v : 0 <= v <= ULLONG_MAX -> parse ([str "--timeout-ms"; dec v] ++ rest) o = parse rest (set_cli_timeout v o).
Proof. intros Hv. eapply parse_value; [step |]. unfold number_value. by rewrite strtoull_dec. Qed.
Lemma parse_memory v : 0 <= v <= ULLONG_MAX -> parse ([str "--max-memory"; dec v] ++ rest) o = parse rest (set_max_memory v o).
Proof. intros Hv. eapply parse_value; [step |]. unfold number_value. by rewrite strtoull_dec. Qed.
Lemma depth_value set v what must : 0 <= v <= INT_MAX -> number_value prog strtol depth_ok set what must o (dec v) = inl (set v o).
Proof.
  intros Hv. unfold number_value. rewrite strtol_dec by (unfold INT_MAX, LONG_MAX in *; lia).
  unfold depth_ok. by rewrite (proj2 (Z.leb_le _ _)), (proj2 (Z.leb_le _ _)) by lia.
Qed.
Lemma parse_eval_depth v : -1 <= v <= INT_MAX -> eval_depth_limit o = -1 ->
  parse (depth_arg "--max-eval-depth" v ++ rest) o = parse rest (set_eval_limit v o).
Proof.
  intros Hv E. unfold depth_arg. destruct (Z.leb_spec 0 v); [eapply parse_value; [step | apply depth_value; lia] |].
  replace v with (eval_depth_limit o) by lia. by destruct o.
Qed.
Lemma parse_read_depth v : -1 <= v <= INT_MAX -> read_depth_limit o = -1 ->
  parse (depth_arg "--max-read-depth" v ++ rest) o = parse rest (set_read_limit v o).
Proof.
  intros Hv E. unfold depth_arg. destruct (Z.leb_spec 0 v); [eapply parse_value; [step | apply depth_value; lia] |].
  replace v with (read_depth_limit o) by lia. by destruct o.
Qed.
Lemma parse_pool mb : 0 < mb < 2 ^ 44 ->
  parse ([str "--memory-pool-size"; dec mb] ++ rest) o = parse rest (set_pool (mb * 2 ^ 20) o).
Proof.
  intros Hmb. eapply parse_value; [step |]. unfold number_value. rewrite strtol_dec by (unfold LONG_MAX; lia).
  rewrite (proj2 (Z.ltb_lt _ _)) by lia. do 2 f_equal. unfold u64. rewrite Z.mod_small by lia. lia.
Qed.

Lemma parse_source b : append_source_fragment (fun _ => true) (MkSource [] 0) (src_data b) = Some b ->
  (src_null b = true -> src_data b = []) -> eval_source o = MkSource [] 0 -> filename o = None -> read_stdin o = false ->
  parse (source_arg b ++ rest) o = parse rest (set_source b o).
Proof.
  intros Hb Hn Es Ef Er. unfold source_arg. destruct (src_null b) eqn:E.
  - rewrite (Hn eq_refl) in Hb. injection Hb as <-. rewrite <- Es. by destruct o.
  - eapply parse_value; [unfold option_step; rewrite He, Ef, Er; reflexivity |]. unfold source_value. rewrite Es. cbn [src_null src_cap Z.eqb].
    assert (append_source_fragment malloc_ok (MkSource [] 0) (src_data b) = Some b) as ->; [| done].
    rewrite <- Hb. unfold append_source_fragment. destruct (src_data b); [done |]. by rewrite Hm.
Qed.
End Parse.

Section Lists.
Context (malloc_ok : Z -> bool) (Hm : forall n, malloc_ok n = true) (prog : chars) (rest : list chars).
Local Notation parse := (parse_args malloc_ok prog).

Lemma parse_builtin x more o : end_of_options o = false -> x ∈ categories ->
  parse ([str "--builtin"; str (snd x)] ++ more) o = parse more (set_builtins (Z.lor (builtins o) (fst x)) o).
Proof.
  intros He Hx. eapply parse_value; [unfold option_step; rewrite He; reflexivity |]. cbv beta.
  unfold add_builtin_spec. rewrite Hm. unfold categories in Hx. rewrite !elem_of_cons, elem_of_nil in Hx.
  by repeat (destruct Hx as [-> | Hx]; [reflexivity |]).
Qed.
Lemma parse_builtins l : forall o, end_of_options o = false -> Forall (fun x => x ∈ categories) l ->
  parse (concat ((fun x => [str "--builtin"; str (snd x)]) <$> l) ++ rest) o
  = parse rest (set_builtins (fold_left (fun m x => Z.lor m (fst x)) l (builtins o)) o).
Proof.
  induction l as [| x l IH]; intros o He Hl; [by destruct o |]. inversion Hl; subst.
  cbn [fmap list_fmap concat fold_left]. rewrite <- (assoc_L (++)), parse_builtin by done. by rewrite IH.
Qed.
Lemma parse_paths l : forall o, end_of_options o = false ->
  parse (concat ((fun p => [str "--module-path"; p]) <$> l) ++ rest) o
  = parse rest (set_module_paths (module_paths o ++ l) o).
Proof.
  induction l as [| p l IH]; intros o He; [rewrite app_nil_r; by destruct o |].
  cbn [fmap list_fmap concat]. rewrite <- (assoc_L (++)).
  erewrite (parse_value malloc_ok prog "--module-path" p); [| unfold option_step; rewrite He; reflexivity | reflexivity].
  rewrite IH by done. cbn [module_paths set_module_paths]. by rewrite <- (assoc_L (++)).
Qed.
Lemma selected_categories mask : Forall (fun x => x ∈ categories) (selected mask).
Proof. apply Forall_forall. intros x Hx. by apply list_elem_of_filter in Hx as [_ ?]. Qed.
Lemma selected_mask mask : 0 <= mask < 2 ^ 7 -> fold_left (fun m x => Z.lor m (fst x)) (selected mask) FEX_BUILTINS_NONE = mask.
Proof.
  assert (Forall (fun n => fold_left (fun m x => Z.lor m (fst x)) (selected (Z.of_nat n)) FEX_BUILTINS_NONE = Z.of_nat n) (seq 0 128))
    as H by (apply (bool_decide_unpack _); vm_compute; exact I).
  intros Hmask. rewrite Forall_forall in H. rewrite <- (Z2Nat.id mask) by lia. apply H. apply elem_of_seq. lia.
Qed.

(** The input, last. *)
Lemma parse_input o f stdin_ :
  has_input o = false -> (if stdin_ : bool then f = None else forall g, f = Some g -> g <> str "-") ->
  (end_of_options o = false -> forall g, f = Some g -> ~ dashed g) ->
  parse (match f with Some f => [f] | None => flag_arg stdin_ "-" end) o
  = inl (match f with Some f => set_filename f o | None => if stdin_ then set_read_stdin true o else o end).
Proof.
  intros Hi Hf Hd. assert (forall arg, end_of_options o = false -> ~ dashed arg -> option_step malloc_ok prog arg o = input_step prog arg o) as Hstep.
  { intros arg He Ha. unfold option_step. rewrite He.
    assert (forall name, dashed (str name) -> is_arg arg name = false) as Hn
      by (intros name Hname; apply bool_decide_eq_false; by intros ->).
    rewrite !Hn by done. cbn [orb]. destruct arg as [| ch arg]; [done |]. rewrite bool_decide_false; [done |]. by intros ->. }
  destruct f as [f |].
  - destruct stdin_; [done |]. cbn [parse_args].
    assert (option_step malloc_ok prog f o = Next (set_filename f o)) as ->; [| done].
    assert (input_step prog f o = Next (set_filename f o)) as Ei by (unfold input_step; rewrite Hi, decide_False; auto).
    destruct (end_of_options o) eqn:He; [unfold option_step; by rewrite He |]. rewrite Hstep; auto.
  - destruct stdin_; [| done]. cbn [flag_arg parse_args].
    assert (input_step prog (str "-") o = Next (set_read_stdin true o)) as Ei by (unfold input_step; by rewrite Hi, decide_True).
    assert (option_step malloc_ok prog (str "-") o = Next (set_read_stdin true o)) as ->; [| done].
    unfold option_step. destruct (end_of_options o); exact Ei.
Qed.
End Lists.

(** C10. Every setting of the command line can be asked for: for options
    within the ranges of their types there are arguments that set exactly
    them, and the parser reads them back, whatever the texts of paths, files
    and inline source are; a file name that starts with a dash goes after the
    end of the options. *)
Theorem options_roundtrip (malloc_ok : Z -> bool) (prog : chars) (o : Options) :
  (forall n, malloc_ok n = true) -> expressible o -> parse_args malloc_ok prog (render o) no_options = inl o.
Proof.
  intros Hm [Hb Hs Ht Hmem He Hr (mb & Hmb & Hp) Hsrc Hnull Hin Hfile].
  destruct o as [sp bu mp ms ti mm ed rd js st po es fn rs en]. unfold render, input_arg.
  cbn [enable_spans builtins module_paths max_steps cli_timeout_ms max_memory eval_depth_limit read_depth_limit json_output
    show_stats memory_pool_size eval_source filename read_stdin end_of_options] in *. subst po.
  rewrite Z.div_mul by lia. rewrite parse_spans, parse_builtins by (done || apply selected_categories).
  cbn [builtins no_options set_spans]. rewrite selected_mask, parse_paths, parse_steps, parse_timeout, parse_memory by done.
  rewrite parse_eval_depth, parse_read_depth, parse_json, parse_stats, parse_pool, parse_source, parse_end by done.
  destruct (src_null es) eqn:En.
  - rewrite (parse_input malloc_ok prog); [| change (false || negb (src_null es) || false = false); by rewrite En | done | done].
    destruct fn, rs; first [done | by destruct Hin].
  - destruct Hin as [-> ->]. done.
Qed.

Definition sample_options : Options :=
  MkCliOptions true (Z.lor FEX_BUILTINS_MATH FEX_BUILTINS_DATA) [str "lib"; str "--"] 1000 ULLONG_MAX 0 (-1) 64 true false
    (8 * 2 ^ 20) (MkSource [] 0) (Some (str "-odd")) false true.
Lemma sample_expressible : expressible sample_options.
Proof.
  constructor; cbn [sample_options builtins max_steps cli_timeout_ms max_memory eval_depth_limit read_depth_limit eval_source
    filename read_stdin end_of_options memory_pool_size src_null src_cap src_data Z.eqb].
  1-6: apply (bool_decide_unpack _); vm_compute; exact I.
  - by exists 8.
  - reflexivity.
  - reflexivity.
  - by intros f [= <-].
  - discriminate.
Qed.
Lemma options_roundtrip_witness :
  parse_args (fun _ => true) (str "fex") (render sample_options) no_options = inl sample_options.
Proof. apply (options_roundtrip (fun _ => true) (str "fex") sample_options (fun _ => eq_refl) sample_expressible). Defined.

(** ** Arguments that are misread *)

Definition parsed (argv : list string) : option Options :=
  match parse_args (fun _ => true) (str "fex") (str <$> argv) no_options with inl o => Some o | inr _ => None end.
(** Negative numbers and the empty text are taken for limits. *)
Lemma negative_limits_accepted :
  max_steps <$> parsed ["--max-steps"; "-1"]%string = Some ULLONG_MAX /\
  cli_timeout_ms <$> parsed ["--timeout-ms"; ""]%string = Some 0 /\
  max_memory <$> parsed ["--max-memory"; "99999999999999999999999"]%string = Some ULLONG_MAX.
Proof. vm_compute. done. Qed.
(** The size of the pool wraps around. *)
Lemma pool_size_wraps : memory_pool_size <$> parsed ["--memory-pool-size"; "17592186044416"]%string = Some 0.
Proof. vm_compute. done. Qed.
(** Empty inline source counts as no input: a second input is accepted, and
    the program goes on to read stdin. *)
Lemma empty_source_is_no_input :
  has_input <$> parsed ["-e"; ""]%string = Some false /\ filename <$> parsed ["-e"; ""; "f"]%string = Some (Some (str "f")).
Proof. vm_compute. done. Qed.
