(* ===== verification/Report.v ===== *)
(** * Reports of the command line program (src/main.c: exit_code_for_status,
    print_runtime_stats to print_json_result; src/fe.c: fe_get_stats) *)

From Stdlib Require Import ZArith Lia Ascii String.
From stdpp Require Import base list.
From S2P Require Import Prelude Memory Budget MapTable Slab Span Host Ctx Gc Objects Writer Json Options.

Definition exit_code_for_status (st : FexStatus) : Z :=
  match st with
  | FEX_STATUS_COMPILE_ERROR => 65
  | FEX_STATUS_RUNTIME_ERROR => 70
  | FEX_STATUS_IO_ERROR => 74
  | FEX_STATUS_OK => 1
  end.

(** ** Statistics *)

Record fe_Stats := MkStats {
  st_step_limit : Z; st_steps_executed : Z; st_timeout_ms : Z; st_memory_limit : Z; st_memory_used : Z;
  st_peak_memory_used : Z; st_base_memory_bytes : Z; st_object_capacity : Z; st_live_objects : Z;
  st_object_allocations_total : Z; st_allocs_since_gc : Z; st_gc_runs : Z
}.
Definition fe_get_stats (c : fe_Context) : fe_Stats :=
  let m := rt_mem (rt c) in
  let b := rt_bud (rt c) in
  MkStats (step_limit b) (steps_executed b) (timeout_ms b) (memory_limit m) (memory_used m) (peak_memory_used m)
    (base_memory_bytes m) (Z.of_nat (length (cells c))) (if 0 <? live_count c then live_count c else 0)
    (object_allocations_total c) (if 0 <? allocs_since_gc c then allocs_since_gc c else 0) (gc_runs c).

(** The fields in the order in which they are printed. *)
Definition stats_fields (s : fe_Stats) : list (string * Z) :=
  [("steps_executed", st_steps_executed s); ("step_limit", st_step_limit s); ("timeout_ms", st_timeout_ms s);
   ("memory_used", st_memory_used s); ("peak_memory_used", st_peak_memory_used s); ("memory_limit", st_memory_limit s);
   ("base_memory_bytes", st_base_memory_bytes s); ("object_capacity", st_object_capacity s);
   ("live_objects", st_live_objects s); ("object_allocations_total", st_object_allocations_total s);
   ("allocs_since_gc", st_allocs_since_gc s); ("gc_runs", st_gc_runs s)]%string.
Definition print_runtime_stats (c : fe_Context) : chars :=
  str "runtime stats:" ++ nl ++
  concat ((fun '(name, v) => str "  " ++ str name ++ str ": " ++ dec v ++ nl) <$> stats_fields (fe_get_stats c)).

(** ** JSON *)

Definition escape_char (ch : ascii) : chars :=
  if decide (ch = quote) then [backslash; quote]
  else if decide (ch = backslash) then [backslash; backslash]
  else if decide (ch = LF) then [backslash; "n"%char]
  else if decide (ch = CR) then [backslash; "r"%char]
  else if decide (ch = TAB) then [backslash; "t"%char]
  else if code ch <? 0x20 then backslash :: str "u00" ++ [hexdigit (Z.shiftr (code ch) 4); hexdigit (Z.land (code ch) 15)]
  else [ch].
Definition json_write_escaped_string (s : chars) : chars := [quote] ++ concat (escape_char <$> s) ++ [quote].

Definition status_string (st : FexStatus) : chars :=
  str match st with
      | FEX_STATUS_OK => "ok"
      | FEX_STATUS_COMPILE_ERROR => "compile_error"
      | FEX_STATUS_RUNTIME_ERROR => "runtime_error"
      | FEX_STATUS_IO_ERROR => "io_error"
      end.

(** A quoted name and a colon. *)
Definition key (name : string) : chars := [quote] ++ str name ++ [quote] ++ str ":".
Fixpoint commas (l : list chars) : chars :=
  match l with [] => [] | [x] => x | x :: l => x ++ str "," ++ commas l end.
Definition print_json_stats (c : fe_Context) : chars :=
  str "{" ++ commas ((fun '(name, v) => key name ++ dec v) <$> stats_fields (fe_get_stats c)) ++ str "}".

Definition json_position (line column : Z) : chars :=
  str "," ++ key "line" ++ dec line ++ str "," ++ key "column" ++ dec (if 0 <? column then column else 1).
Definition json_frame (f : FexErrorFrame) : chars :=
  str "{" ++
  (match frame_name f with
   | [] => []
   | name =>
       key "source" ++ json_write_escaped_string name ++
       (if 0 <? frame_line f then json_position (frame_line f) (frame_column f) else [])
   end) ++
  (match frame_expression f with
   | [] => []
   | x => (match frame_name f with [] => [] | _ => str "," end) ++ key "expression" ++ json_write_escaped_string x
   end) ++
  str "}".
Definition json_error (e : FexError) : chars :=
  str "," ++ key "error" ++ str "{" ++ key "message" ++
  json_write_escaped_string (match fe_message e with [] => str "unknown error" | m => m end) ++
  (match fe_source e with [] => [] | s => str "," ++ key "source" ++ json_write_escaped_string s end) ++
  (if 0 <? fe_line e then json_position (fe_line e) (fe_column e) else []) ++
  (match frames e with [] => [] | l => str "," ++ key "trace" ++ str "[" ++ commas (json_frame <$> l) ++ str "]" end) ++
  str "}".

Definition failed (error : option FexError) : option FexError :=
  e ← error; if decide (status e = FEX_STATUS_OK) then None else Some e.
(** The report; the statistics of the context when there are some. *)
Definition print_json_result (exit_code : Z) (error : option FexError) (stats : option fe_Context) : chars :=
  str "{" ++ key "status" ++
  (match failed error with
   | Some e => json_write_escaped_string (status_string (status e))
   | None => [quote] ++ str "ok" ++ [quote]
   end) ++
  str "," ++ key "exit_code" ++ dec exit_code ++
  (match failed error with Some e => json_error e | None => [] end) ++
  (match stats with Some c => str "," ++ key "stats" ++ print_json_stats c | None => [] end) ++
  str "}" ++ nl.
