(* ===== verification/ReportSpec.v ===== *)
(** * Reports: the JSON value they denote *)

From Stdlib Require Import ZArith Lia Ascii String.
From stdpp Require Import base list.
From S2P Require Import Prelude Memory Budget MapTable Slab Span Host Ctx Gc Objects Writer Builtins BuiltinsSpec Json JsonSpec Options Report.

(** ** JSON values and their spellings *)

Inductive jvalue :=
| JString (s : chars)
| JNumber (z : Z)
| JObject (members : list (string * jvalue))
| JArray (l : list jvalue).

(** A literal denotes a text when every character is spelled by itself or by
    an escape the parser of the interpreter knows ([JsonSpec.written]). *)
Inductive spells : jvalue -> chars -> Prop :=
| spells_string s es : Forall2 written s es -> spells (JString s) ([quote] ++ concat es ++ [quote])
| spells_number z : spells (JNumber z) (dec z)
| spells_object members texts : spell_members members texts -> spells (JObject members) (str "{" ++ commas texts ++ str "}")
| spells_array l texts : spell_items l texts -> spells (JArray l) (str "[" ++ commas texts ++ str "]")
with spell_members : list (string * jvalue) -> list chars -> Prop :=
| members_nil : spell_members [] []
| members_cons name v t l texts :
    spells v t -> spell_members l texts -> spell_members ((name, v) :: l) ((key name ++ t) :: texts)
with spell_items : list jvalue -> list chars -> Prop :=
| items_nil : spell_items [] []
| items_cons v t l texts : spells v t -> spell_items l texts -> spell_items (v :: l) (t :: texts).

Create HintDb spells.
#[export] Hint Constructors spells spell_members spell_items : spells.

Lemma spell_members_app l1 t1 l2 t2 : spell_members l1 t1 -> spell_members l2 t2 -> spell_members (l1 ++ l2) (t1 ++ t2).
Proof. intros H. induction H; cbn [app]; auto with spells. Qed.
Lemma spell_map {A} (f : A -> jvalue) (g : A -> chars) l : (forall x, spells (f x) (g x)) -> spell_items (f <$> l) (g <$> l).
Proof. intros H. induction l; cbn; auto with spells. Qed.
Lemma commas_app l1 l2 : commas (l1 ++ l2)
  = match l1, l2 with [], _ => commas l2 | _, [] => commas l1 | _, _ => commas l1 ++ str "," ++ commas l2 end.
Proof.
  induction l1 as [| x l1 IH]; [done |]. destruct l2 as [| y l2]; [by rewrite app_nil_r |].
  destruct l1 as [| x' l1]; [done |]. cbn [app commas] in *. rewrite IH. by rewrite <- !(assoc_L (++)).
Qed.

Lemma escape_char_written ch : written ch (escape_char ch).
Proof.
  unfold escape_char.
  repeat match goal with |- written _ (if decide (_ = ?x) then _ else _) =>
    destruct (decide (ch = x)) as [-> | ?]; [by apply written_short |] end.
  destruct (code ch <? 0x20) eqn:E; [apply control_written; lia |].
  apply written_plain; [| done..]. by intros ->.
Qed.
Lemma escaped_spells s : spells (JString s) (json_write_escaped_string s).
Proof.
  apply (spells_string s (escape_char <$> s)). induction s; constructor; [apply escape_char_written | done].
Qed.
#[export] Hint Resolve escaped_spells : spells.

(** Such a literal is read back by parsejson. *)
Lemma literal_parsed malloc_ok (Hm : forall n, malloc_ok n = true) c (Hq : still_quiet c) rest : forall s es, Forall2 written s es ->
  forall fuel b cd, (length s <= fuel)%nat -> exists cap cd', string_loop malloc_ok fuel b (c, (concat es ++ quote :: rest, cd))
    = Done (MkBuf (buf_data b ++ s) cap) (c, (quote :: rest, cd')).
Proof.
  induction 1 as [| ch e s es Hw Hes IH]; intros fuel b cd Hf.
  { exists (buf_cap b), cd. rewrite app_nil_r. by destruct fuel, b. }
  destruct fuel as [| fuel]; [simpl in Hf; lia |]. cbn [concat]. rewrite <- (assoc_L (++)).
  destruct (string_loop_char malloc_ok Hm c Hq b ch e (concat es ++ quote :: rest) cd fuel Hw) as (cap & cd1 & ->).
  destruct (IH fuel (MkBuf (buf_data b ++ [ch]) cap) cd1 ltac:(simpl in Hf; lia)) as (cap2 & cd2 & ->).
  exists cap2, cd2. cbn [buf_data]. by rewrite <- (assoc_L (++)).
Qed.

(** ** The value of a report *)

Definition stats_value (c : fe_Context) : jvalue :=
  JObject ((fun '(name, v) => (name, JNumber v)) <$> stats_fields (fe_get_stats c)).
Definition position_members (line column : Z) : list (string * jvalue) :=
  if 0 <? line then [("line"%string, JNumber line); ("column"%string, JNumber (if 0 <? column then column else 1))] else [].
Definition frame_value (f : FexErrorFrame) : jvalue :=
  JObject ((match frame_name f with
            | [] => []
            | name => ("source"%string, JString name) :: position_members (frame_line f) (frame_column f)
            end) ++
           (match frame_expression f with [] => [] | x => [("expression"%string, JString x)] end)).
Definition error_value (e : FexError) : jvalue :=
  JObject ([("message"%string, JString (match fe_message e with [] => str "unknown error" | m => m end))] ++
           (match fe_source e with [] => [] | s => [("source"%string, JString s)] end) ++
           position_members (fe_line e) (fe_column e) ++
           (match frames e with [] => [] | l => [("trace"%string, JArray (frame_value <$> l))] end)).
Definition report_value (exit_code : Z) (error : option FexError) (stats : option fe_Context) : jvalue :=
  JObject ([("status"%string, JString (match failed error with Some e => status_string (status e) | None => str "ok" end));
            ("exit_code"%string, JNumber exit_code)] ++
           (match failed error with Some e => [("error"%string, error_value e)] | None => [] end) ++
           (match stats with Some c => [("stats"%string, stats_value c)] | None => [] end)).

Lemma concat_singletons (s : chars) : concat ((fun ch => [ch]) <$> s) = s.
Proof. induction s as [| ch s IH]; [done |]. cbn. by f_equal. Qed.
Lemma plain_spells s : Forall (fun ch => written ch [ch]) s -> spells (JString s) ([quote] ++ s ++ [quote]).
Proof.
  intros H. rewrite <- (concat_singletons s) at 2. apply spells_string. induction H; constructor; done.
Qed.
Lemma stats_spells c : spells (stats_value c) (print_json_stats c).
Proof.
  unfold stats_value, print_json_stats. apply spells_object. generalize (stats_fields (fe_get_stats c)). intros l.
  induction l as [| [name v] l IH]; cbn [fmap list_fmap]; [constructor |]. apply members_cons; [constructor | exact IH].
Qed.
(** Members behind others, each with its comma. *)
Definition trailing (texts : list chars) : chars := concat ((fun t => str "," ++ t) <$> texts).
Lemma commas_trailing t texts : commas (t :: texts) = t ++ trailing texts.
Proof.
  revert t. induction texts as [| x texts IH]; intros t; [by rewrite app_nil_r |].
  change (commas (t :: x :: texts)) with (t ++ str "," ++ commas (x :: texts)). rewrite IH. unfold trailing. cbn. done.
Qed.
Lemma trailing_app l1 l2 : trailing (l1 ++ l2) = trailing l1 ++ trailing l2.
Proof. unfold trailing. by rewrite fmap_app, concat_app. Qed.
(** [text] spells further members of an object. *)
Definition more (members : list (string * jvalue)) (text : chars) : Prop :=
  exists texts, spell_members members texts /\ text = trailing texts.
Lemma more_nil : more [] [].
Proof. exists []. by split; [constructor |]. Qed.
Lemma more_one name v t : spells v t -> more [(name, v)] (str "," ++ key name ++ t).
Proof. intros H. exists [key name ++ t]. split; [by auto with spells |]. unfold trailing. cbn. by rewrite app_nil_r. Qed.
Lemma more_app l1 t1 l2 t2 : more l1 t1 -> more l2 t2 -> more (l1 ++ l2) (t1 ++ t2).
Proof.
  intros (x1 & H1 & ->) (x2 & H2 & ->). exists (x1 ++ x2). split; [by apply spell_members_app | by rewrite trailing_app].
Qed.
Lemma object_spells name v t members text : spells v t -> more members text ->
  spells (JObject ((name, v) :: members)) (str "{" ++ key name ++ t ++ text ++ str "}").
Proof.
  intros Hv (texts & Ht & ->). replace (str "{" ++ key name ++ t ++ trailing texts ++ str "}")
    with (str "{" ++ commas ((key name ++ t) :: texts) ++ str "}") by (rewrite commas_trailing; by rewrite <- !(assoc_L (++))).
  auto with spells.
Qed.

Lemma more_position line column : more (position_members line column) (if 0 <? line then json_position line column else []).
Proof.
  unfold position_members, json_position. destruct (0 <? line); [| apply more_nil].
  apply (more_app [("line"%string, JNumber line)] (str "," ++ key "line" ++ dec line)); apply more_one; constructor.
Qed.
Lemma spells_eq v t t' : spells v t -> t = t' -> spells v t'.
Proof. by intros H <-. Qed.
(** An optional member. *)
Lemma more_optional name (x : chars) (f : chars -> jvalue) (g : chars -> chars) : (forall x, spells (f x) (g x)) ->
  more (match x with [] => [] | a :: l => [(name, f (a :: l))] end)
    (match x with [] => [] | a :: l => str "," ++ key name ++ g (a :: l) end).
Proof. intros H. destruct x; [apply more_nil | by apply more_one]. Qed.
Lemma frame_spells f : spells (frame_value f) (json_frame f).
Proof.
  unfold frame_value, json_frame. pose proof (more_optional "expression" (frame_expression f) _ _ escaped_spells) as Hx.
  destruct (frame_name f) as [| ch name].
  - destruct (frame_expression f) as [| ch' x]; [apply (spells_object [] []); constructor |].
    eapply spells_eq; [apply (object_spells "expression" (JString (ch' :: x)) (json_write_escaped_string (ch' :: x)) [] []); [apply escaped_spells | apply more_nil] |].
    by rewrite <- !(assoc_L (++)).
  - eapply spells_eq; [apply object_spells; [apply escaped_spells | apply more_app; [apply more_position | exact Hx]] |].
    rewrite <- !(assoc_L (++)). by destruct (frame_expression f).
Qed.
Lemma error_spells e : exists t, spells (error_value e) t /\ json_error e = str "," ++ key "error" ++ t.
Proof.
  unfold error_value, json_error. eexists. split; [| reflexivity].
  eapply spells_eq; [apply object_spells; [apply escaped_spells |] |].
  - apply more_app; [apply (more_optional "source" (fe_source e) _ _ escaped_spells) | apply more_app; [apply more_position |]].
    instantiate (1 := match frames e with [] => [] | l => str "," ++ key "trace" ++ str "[" ++ commas (json_frame <$> l) ++ str "]" end).
    destruct (frames e) as [| f l]; [apply more_nil |]. apply (more_one "trace"), spells_array, spell_map, frame_spells.
  - by rewrite <- !(assoc_L (++)).
Qed.

(** C11. With --json-output the program reports in JSON whatever happened:
    the text written to stderr is one line that spells the object with the
    status, the exit code, and, after an error, its message, source, position
    and trace, every text in it spelled so that the parser of the interpreter
    gives it back; the statistics follow when they were asked for. *)
Theorem json_report_spells (exit_code : Z) (error : option FexError) (stats : option fe_Context) :
  exists text, print_json_result exit_code error stats = text ++ nl /\ spells (report_value exit_code error stats) text.
Proof.
  unfold print_json_result, report_value.
  set (st := match failed error with Some e => _ | None => [quote] ++ _ end).
  set (er := match failed error with Some e => json_error e | None => [] end).
  set (sa := match stats with Some c => _ | None => [] end).
  exists (str "{" ++ key "status" ++ st ++ ((str "," ++ key "exit_code" ++ dec exit_code) ++ er ++ sa) ++ str "}").
  split; [by rewrite <- !(assoc_L (++)) |]. apply object_spells.
  - subst st. destruct (failed error); [apply escaped_spells | apply plain_spells].
    repeat constructor; done.
  - apply (more_app [_]); [apply more_one; constructor | apply more_app].
    + subst er. destruct (failed error) as [e |]; [| apply more_nil].
      destruct (error_spells e) as (t & Ht & ->). by apply more_one.
    + subst sa. destruct stats; [apply more_one, stats_spells | apply more_nil].
Qed.

