(* ===== verification/Main.v ===== *)
(** * The command line program (src/main.c: read_stream_source, run_repl to
    run_source and fex_main_utf8 after its argument loop; src/fe.c: the depth
    limits and fe_close)

    The program works on the context and on the text written to stderr.  An
    error raised outside of a protected call ends the process in the error
    handler: it is the outcome [Raised]. *)

From Stdlib Require Import ZArith Lia Ascii String.
From stdpp Require Import base list.
From S2P Require Import Prelude Memory Budget MapTable Slab Span Host Ctx Gc Objects Writer Open Parser Builtins Json Modules Try Import Files Console Register Sandbox Options Report.

(** ** Limits and closing a context *)

Definition fe_set_eval_depth_limit (max_depth : Z) : comp fe_Context unit := modify (with_max_eval_depth max_depth).
Definition fe_set_read_depth_limit (max_depth : Z) : comp fe_Context unit := modify (with_max_read_depth max_depth).

(** One of the arrays of the loader, emptied. *)
Definition clear_array (field : Loader -> StrArray) (set : StrArray -> Loader -> Loader) : comp fe_Context unit :=
  let* l := get_loader in
  let* a := string_array_clear (field l) in
  set_loader (set a).
Definition fe_close : comp fe_Context unit :=
  in_fex fex_temp_cleanup_all ;;;
  lift_spans fex_span_cleanup ;;;
  clear_array import_paths with_import_paths ;;;
  clear_array source_dirs with_source_dirs ;;;
  clear_array source_buffers with_source_buffers ;;;
  clear_array loading_modules with_loading_modules ;;;
  module_cache_clear ;;;
  modify (with_gcstack []) ;;;
  modify (with_symlist Nil) ;;;
  collectgarbage.

(** ** Input and output *)

Definition REPL_BUFFER_SIZE : nat := 1024.
Definition STREAM_CHUNK : nat := 4096.

(** The context and stderr. *)
Abbreviation Cli := (fe_Context * chars)%type.
Definition cli {A} (m : comp fe_Context A) : comp Cli A := in_ctx m.
Definition eprint (s : chars) : comp Cli unit := modify (fun '(c, e) => (c, e ++ s)).
Definition print (s : chars) : comp Cli unit := cli (modify (fun c => with_out (out c ++ s) c)).

(** How a process ends: with an exit code, or in the handler of an error
    that no protected call caught. *)
Inductive Ending :=
| Ended (e : Exit)
| Died (msg : string) (out_ err : chars)
| Undefined
| Unbounded.

Section Program.
Context (p : Platform) (fuel depth : nat) (sys : System).
(** The standard input: whether it is a terminal, and whether reading it
    ends in an error. *)
Context (interactive stdin_fails : bool).

(** The buffer with the bytes of the stream; nothing when it cannot grow. *)
Fixpoint stream_loop (n : nat) (text : chars) (b : SourceBuffer) : option SourceBuffer * chars :=
  match n with
  | O => (Some b, text)
  | S n =>
      match take STREAM_CHUNK text with
      | [] => (Some b, text)
      | chunk =>
          match append_source_fragment (malloc_ok p) b chunk with
          | None => (None, drop STREAM_CHUNK text)
          | Some b => stream_loop n (drop STREAM_CHUNK text) b
          end
      end
  end.
Definition read_stream_source : comp fe_Context (option chars) :=
  let* text := gets (fun c => stdin (host c)) in
  let '(b, rest) := stream_loop (length text) text (MkSource [] 0) in
  set_stdin rest ;;;
  match b with
  | None => ret None
  | Some b =>
      if stdin_fails then ret None
      else if src_null b then ret (if malloc_ok p 1 then Some [] else None)
      else ret (Some (src_data b))
  end.

(** ** Running *)

Definition call (x : Call) : comp Cli TryResult := cli (host_call p fuel sys depth x).

(** The exit code, and the error when there was one. *)
Definition run_call (json_output : bool) (x : Call) : comp Cli (Z * option FexError) :=
  let* r := call x in
  if decide (try_status r = FEX_STATUS_OK) then ret (0, None)
  else
    (if json_output then ret tt else eprint (fex_print_error (out_error r))) ;;;
    ret (exit_code_for_status (try_status r), Some (out_error r)).
Definition run_file (path : chars) (json_output : bool) : comp Cli (Z * option FexError) := run_call json_output (CallFile path).
(** The source is a C string. *)
Definition run_source (source : chars) (source_name : string) (json_output : bool) : comp Cli (Z * option FexError) :=
  match until_nul source with
  | [] => ret (0, None)
  | source => run_call json_output (CallNamed source (Some (str source_name)))
  end.

Fixpoint repl_loop (n : nat) : comp Cli unit :=
  match n with
  | O => no_fuel
  | S n =>
      print (str "> ") ;;;
      let* text := cli (gets (fun c => stdin (host c))) in
      match fgets (REPL_BUFFER_SIZE - 1) text with
      | ([], _) => print nl
      | (buffer, rest) =>
          cli (set_stdin rest) ;;;
          let* r := call (CallString (until_nul buffer)) in
          (if decide (try_status r = FEX_STATUS_OK) then
             cli (fe_writefp (fmt_g7 p) (fmt_p p) fuel (out_result r)) ;;;
             print nl
           else eprint (fex_print_error (out_error r))) ;;;
          repl_loop n
      end
  end.
Definition run_repl : comp Cli unit :=
  print (str "FeX v1.0 (Modern Syntax Layer for enhanced Fe code)" ++ nl) ;;;
  let* text := cli (gets (fun c => stdin (host c))) in
  repl_loop (S (length text)).

Definition stdin_error : FexError := MkFexError FEX_STATUS_IO_ERROR (str "could not read stdin") [] 0 0 [].
Definition run_input (o : Options) : comp Cli (Z * option FexError) :=
  if negb (src_null (eval_source o)) then run_source (src_data (eval_source o)) "<expr>" (json_output o)
  else match filename o with
       | Some path => run_file path (json_output o)
       | None =>
           if read_stdin o || negb interactive then
             let* source := cli read_stream_source in
             match source with
             | None =>
                 (if json_output o then ret tt else eprint (str "I/O error: could not read stdin" ++ nl)) ;;;
                 ret (74, Some stdin_error)
             | Some source => run_source source "<stdin>" (json_output o)
             end
           else run_repl ;;; ret (0, None)
       end.
Definition is_batch (o : Options) : bool := has_input o || negb interactive.

Fixpoint add_paths (l : list chars) : comp Cli (option chars) :=
  match l with
  | [] => ret None
  | path :: l =>
      let* ok := cli (fex_add_import_path (realpath p) path) in
      if ok : bool then add_paths l else ret (Some path)
  end.

(** What the program does with an open context. *)
Definition run_program (o : Options) : comp Cli Z :=
  cli (fex_init_with_builtins (args_left_first p) (if enable_spans o then FEX_CONFIG_ENABLE_SPANS else 0) (builtins o)) ;;;
  cli (modify (fun c => with_rt (MkRt (fe_set_memory_limit (max_memory o) (rt_mem (rt c)))
                                       (fe_set_step_limit (max_steps o) (rt_bud (rt c)))) c)) ;;;
  cli (lift_budget (fe_set_timeout_ms (cli_timeout_ms o))) ;;;
  (if 0 <=? eval_depth_limit o then cli (fe_set_eval_depth_limit (eval_depth_limit o)) else ret tt) ;;;
  (if 0 <=? read_depth_limit o then cli (fe_set_read_depth_limit (read_depth_limit o)) else ret tt) ;;;
  let* bad := add_paths (module_paths o) in
  match bad with
  | Some path =>
      eprint (str "Failed to add module path " ++ [quote] ++ path ++ [quote] ++ str "." ++ nl) ;;;
      cli fe_close ;;;
      ret 1
  | None =>
      let* '(exit_code, error) := run_input o in
      (if json_output o && is_batch o then
         let* '(c, _) := get in
         eprint (print_json_result exit_code error (if show_stats o then Some c else None))
       else if show_stats o && is_batch o then let* '(c, _) := get in eprint (print_runtime_stats c)
       else ret tt) ;;;
      cli fe_close ;;;
      ret exit_code
  end.

(** ** The process *)

Context (ctx_size : Z) (str_part : Z -> Z) (base : Z) (clock : Budget) (tracked_malloc : nat -> bool) (input : chars).

Definition ending (r : outcome Cli Z) : Ending :=
  match r with
  | Done code (c, err) => Ended (MkExit code (out c) err)
  | Raised msg (c, err) => Died msg (out c) err
  | Stuck => Undefined
  | NoFuel => Unbounded
  end.
Definition open_and_run (o : Options) : Ending :=
  if negb (malloc_ok p (memory_pool_size o)) then
    Ended (MkExit 1 [] (str "Failed to allocate " ++ dec (memory_pool_size o) ++ str " bytes for interpreter." ++ nl))
  else match fe_open ctx_size str_part base clock tracked_malloc (memory_pool_size o) with
       | inr _ => Ended (MkExit 1 [] (str "Failed to initialize interpreter context." ++ nl))
       | inl (Done _ c) => ending ((cli (set_stdin input) ;;; run_program o) (c, []))
       | inl (Raised msg c) => Died msg (out c) []
       | inl Stuck => Undefined
       | inl NoFuel => Unbounded
       end.
Definition fex_main_utf8 (argv : list chars) : Ending :=
  if negb (malloc_ok p (8 * Z.max 1 (Z.of_nat (length argv))))
  then Ended (MkExit 1 [] (str "Failed to allocate module path storage." ++ nl))
  else match parse_args (malloc_ok p) (default [] (head argv)) (tail argv) no_options with
       | inr e => Ended e
       | inl o => open_and_run o
       end.
End Program.
