(* ===== verification/MainSpec.v ===== *)
(** * The command line program: exit codes and reports *)

From Stdlib Require Import ZArith Lia Ascii String.
From stdpp Require Import base list sets.
From S2P Require Import Prelude Memory Budget MapTable MapSpec Slab Span Host Ctx Gc Objects Writer Open Parser Builtins Modules Try Import Files Console Register Sandbox Options Report Main.

(** ** What is written to stderr *)

(** When [m] returns, its result and the text it added satisfy [Q]. *)
Definition says {A} (m : comp Cli A) (Q : A -> chars -> Prop) : Prop := forall c e,
  match m (c, e) with
  | Done a (_, e') => exists s, e' = e ++ s /\ Q a s
  | _ => True
  end.
Lemma says_bind {A B} (m : comp Cli A) (f : A -> comp Cli B) Q1 Q :
  says m Q1 -> (forall a s1, Q1 a s1 -> says (f a) (fun b s2 => Q b (s1 ++ s2))) -> says (bind m f) Q.
Proof.
  intros Hm Hf c e. unfold bind. specialize (Hm c e). destruct (m (c, e)) as [a [c1 e1] | | |]; try done.
  destruct Hm as (s1 & -> & H1). specialize (Hf a s1 H1 c1 (e ++ s1)). destruct (f a (c1, e ++ s1)) as [b [c2 e2] | | |]; try done.
  destruct Hf as (s2 & -> & H2). exists (s1 ++ s2). by rewrite (assoc_L (++)).
Qed.
Lemma says_mono {A} (m : comp Cli A) (Q Q' : A -> chars -> Prop) : says m Q -> (forall a s, Q a s -> Q' a s) -> says m Q'.
Proof.
  intros Hm HQ c e. specialize (Hm c e). destruct (m (c, e)) as [a [c1 e1] | | |]; try done. destruct Hm as (s & ? & ?). eauto.
Qed.
Lemma says_ret {A} (a : A) (Q : A -> chars -> Prop) : Q a [] -> says (ret a) Q.
Proof. intros H c e. exists []. by rewrite app_nil_r. Qed.
Lemma says_cli {A} (m : comp fe_Context A) (Q : A -> chars -> Prop) :
  (forall c, match m c with Done a _ => Q a [] | _ => True end) -> says (cli m) Q.
Proof. intros H c e. unfold cli, in_ctx. specialize (H c). destruct (m c); try done. exists []. by rewrite app_nil_r. Qed.
Lemma says_nothing {A} (m : comp fe_Context A) : says (cli m) (fun _ s => s = []).
Proof. apply says_cli. intros c. by destruct (m c). Qed.
Lemma says_eprint t (Q : unit -> chars -> Prop) : Q tt t -> says (eprint t) Q.
Proof. intros H c e. by exists t. Qed.
Lemma says_get (Q : Cli -> chars -> Prop) : (forall x, Q x []) -> says get Q.
Proof. intros H c e. exists []. by rewrite app_nil_r. Qed.
Lemma says_skip {B} (m : comp fe_Context unit) (k : comp Cli B) Q : says k Q -> says (cli m ;;; k) Q.
Proof. intros Hk. eapply says_bind; [apply says_nothing | intros [] ? ->; exact Hk]. Qed.

(** ** Protected calls *)

Lemma try_result_status g7 fp mo fu fn name keep c r c' :
  fex_try_run_internal g7 fp mo fu fn true name keep c = Done r c' -> status (out_error r) = try_status r.
Proof.
  unfold fex_try_run_internal, bind at 1 2 3 4. destruct (gets host c) as [h c1 | | |]; try done.
  destruct (fe_savegc c1) as [n c2 | | |]; try done. destruct (enter_try _ _ c2) as [[] c3 | | |]; try done.
  destruct (in_fex _ c3) as [[e | o] c4 | | |]; try done; unfold bind.
  - destruct (fe_restoregc _ c4) as [[] c5 | | |]; try done. destruct (fex_reset_import_state c5) as [[] c6 | | |]; try done.
    by intros [= <- <-].
  - destruct (fe_savegc c4) as [n' c5 | | |]; try done. destruct (fe_restoregc _ c5) as [[] c6 | | |]; try done.
    by intros [= <- <-].
Qed.

Section Program.
Context (p : Platform) (fuel depth : nat) (sys : System) (interactive stdin_fails : bool).

Lemma call_status x : says (call p fuel depth sys x) (fun r s => s = [] /\ status (out_error r) = try_status r).
Proof.
  apply says_cli. intros c. destruct (host_call _ _ _ _ _ c) as [r c' | | |] eqn:E; try done. split; [done |].
  unfold host_call, try_call, fex_try_compile, fex_try_eval, fex_try_do_string, fex_try_do_string_named, fex_try_do_file in E.
  destruct x; eapply try_result_status; exact E.
Qed.

(** The exit code and the error agree, and nothing is written in JSON mode. *)
Definition reported (json : bool) (r : Z * option FexError) (s : chars) : Prop :=
  (json = true -> s = []) /\
  match snd r with
  | None => fst r = 0
  | Some e => status e <> FEX_STATUS_OK /\ fst r = exit_code_for_status (status e)
  end.
Lemma run_call_reported json x : says (run_call p fuel depth sys json x) (reported json).
Proof.
  unfold run_call. eapply says_bind; [apply call_status | intros r s [-> Hr]]. case_decide as Hs; [by apply says_ret |].
  eapply (says_bind _ _ (fun _ s => json = true -> s = [])); [destruct json; [by apply says_ret | by apply says_eprint] |].
  intros [] s1 H1. apply says_ret. cbn [app]. rewrite app_nil_r. split; [done |]. cbn. by rewrite Hr.
Qed.
Lemma run_source_reported source name json : says (run_source p fuel depth sys source name json) (reported json).
Proof. unfold run_source. destruct (until_nul source); [by apply says_ret | apply run_call_reported]. Qed.
Lemma run_input_reported o : is_batch interactive o = true ->
  says (run_input p fuel depth sys interactive stdin_fails o) (reported (json_output o)).
Proof.
  unfold is_batch, has_input, run_input. intros Hb. destruct (src_null (eval_source o)); cbn [negb orb] in *; [| apply run_source_reported].
  destruct (filename o) as [path |]; [apply run_call_reported |]. cbn [orb] in Hb. rewrite Hb.
  eapply says_bind; [apply says_nothing | intros [source |] s ->; [apply run_source_reported |]].
  eapply (says_bind _ _ (fun _ s => json_output o = true -> s = []));
    [destruct (json_output o); [by apply says_ret | by apply says_eprint] |].
  intros [] s1 H1. apply says_ret. cbn [app]. rewrite app_nil_r. by split.
Qed.

(** The exit codes of a run, also of the prompt. *)
Definition run_codes : list Z := [0; 65; 70; 74].
Lemma reported_code json r s : reported json r s -> fst r ∈ run_codes.
Proof.
  destruct r as [code [e |]]; unfold reported; cbn [fst snd]; intros [_ H]; [| subst; set_solver].
  destruct H as [Hs ->]. unfold run_codes. destruct (status e); [done | set_solver ..].
Qed.

Definition any {A} (a : A) (s : chars) : Prop := True.
Lemma says_any {A} (m : comp fe_Context A) : says (cli m) any.
Proof. eapply says_mono; [apply says_nothing | done]. Qed.
Lemma says_eprint_any t : says (eprint t) any.
Proof. by apply says_eprint. Qed.
Lemma says_call_any x : says (call p fuel depth sys x) any.
Proof. eapply says_mono; [apply call_status | done]. Qed.
Lemma repl_says n : says (repl_loop p fuel depth sys n) any.
Proof.
  induction n as [| n IH]; cbn [repl_loop]; [by intros c e |].
  eapply says_bind; [apply says_any | intros [] s1 _]. eapply says_bind; [apply says_any | intros text s2 _].
  destruct (fgets _ text) as [[| ch buffer] rest]; [eapply says_mono; [apply says_any | done] |].
  eapply says_bind; [apply says_any | intros [] s3 _]. eapply says_bind; [apply says_call_any | intros r s4 _].
  eapply (says_bind _ _ any); [| intros [] s5 _; eapply says_mono; [apply IH | done]].
  case_decide; [| apply says_eprint_any]. eapply says_bind; [apply says_any | intros [] s5 _]. eapply says_mono; [apply says_any | done].
Qed.
Lemma run_input_codes o : says (run_input p fuel depth sys interactive stdin_fails o) (fun r s =>
  fst r ∈ run_codes /\ (is_batch interactive o = true -> reported (json_output o) r s)).
Proof.
  destruct (is_batch interactive o) eqn:Hb.
  - eapply says_mono; [by apply run_input_reported | intros r s H]. split; [by eapply reported_code | done].
  - unfold is_batch, has_input in Hb. unfold run_input. destruct (src_null (eval_source o)), (filename o); try done.
    cbn [negb orb] in *. destruct (read_stdin o), interactive; try done. cbn [orb negb].
    eapply (says_bind _ _ any); [| intros [] s _; apply says_ret; cbn; split; [set_solver | done]].
    unfold run_repl. eapply says_bind; [apply says_any | intros [] s1 _]. eapply says_bind; [apply says_any | intros text s2 _].
    eapply says_mono; [apply repl_says | done].
Qed.

(** ** The whole run *)

(** In JSON mode stderr holds the report and nothing else. *)
Definition json_only (o : Options) (code : Z) (s : chars) : Prop :=
  json_output o = true -> is_batch interactive o = true -> exists error stats,
    s = print_json_result code error stats /\ (is_Some stats <-> show_stats o = true) /\
    match failed error with None => code = 0 | Some e => code = exit_code_for_status (status e) end.

Lemma run_program_codes o :
  says (run_program p fuel depth sys interactive stdin_fails o) (fun code s => code = 1 \/ (code ∈ run_codes /\ json_only o code s)).
Proof.
  unfold run_program. do 3 apply says_skip.
  do 2 (eapply (says_bind _ _ (fun _ s => s = [])); [destruct (_ <=? _); [apply says_nothing | by apply says_ret] | intros [] ? ->]).
  eapply (says_bind _ _ (fun _ s => s = [])).
  { induction (module_paths o) as [| path l IH]; cbn [add_paths]; [by apply says_ret |].
    eapply says_bind; [apply says_nothing | intros [] ? ->; [exact IH | by apply says_ret]]. }
  intros [path |] ? ->.
  { eapply says_bind; [apply says_eprint_any | intros [] s1 _]. apply says_skip, says_ret. by left. }
  eapply says_bind; [apply run_input_codes | intros [code error] s1 [Hc Hr]].
  eapply (says_bind _ _ (fun _ s => json_only o code (s1 ++ s))).
  - unfold json_only. destruct (json_output o), (is_batch interactive o); cbn [andb].
    + destruct (Hr eq_refl) as [-> He]; [| done]. eapply says_bind; [by apply (says_get (fun _ s => s = [])) | intros [c e] ? ->].
      apply says_eprint. intros _ _. exists error, (if show_stats o then Some c else None). split; [done |].
      split; [destruct (show_stats o); split; [done | eauto | by intros [? ?] | done] |]. unfold failed. cbn [fst snd] in He.
      destruct error as [e1 |]; [| done]. destruct He as [Hs ->]. cbn. destruct (decide (status e1 = FEX_STATUS_OK)); [done | reflexivity].
    + rewrite andb_false_r. by apply says_ret.
    + destruct (show_stats o); [| by apply says_ret]. eapply says_bind; [by apply (says_get any) | intros [c e] ? _]. by apply says_eprint.
    + rewrite andb_false_r. by apply says_ret.
  - intros [] s2 H2. apply says_skip, says_ret. right. rewrite app_nil_r. done.
Qed.
End Program.

(** ** Exit codes of the argument loop *)

Definition usage_codes : list Z := [0; 1; 64].
Definition stops_with (r : Options + Exit) : Prop := forall e, r = inr e -> exit_status e ∈ usage_codes.
Lemma number_value_stops prog read accept set what must o v : stops_with (number_value prog read accept set what must o v).
Proof.
  intros e. unfold number_value, usage_codes. destruct (read v) as [z rest]. destruct rest; [destruct (accept z); [done |] |];
    intros [= <-]; cbn; set_solver.
Qed.
Lemma option_step_stops malloc_ok prog arg o :
  match option_step malloc_ok prog arg o with
  | Next _ => True
  | Ends e => exit_status e ∈ usage_codes
  | Takes _ value => forall v, stops_with (value v)
  end.
Proof.
  assert (forall e, exit_status e = 64 -> exit_status e ∈ usage_codes) as H64 by (intros e ->; unfold usage_codes; set_solver).
  assert (match input_step prog arg o with Ends e => exit_status e ∈ usage_codes | Takes _ _ => False | Next _ => True end) as Hi.
  { unfold input_step. destruct (has_input o); [by apply H64 | by case_decide]. }
  assert (match input_step prog arg o with Next _ => True | Ends e => exit_status e ∈ usage_codes | Takes _ value => forall v, stops_with (value v) end)
    as Hi' by (by destruct (input_step prog arg o)).
  assert (forall v, stops_with (source_value malloc_ok o v)) as Hs.
  { intros v e. unfold source_value, usage_codes. destruct (if src_null _ then _ else _); [| intros [= <-]; cbn; set_solver].
    destruct (append_source_fragment _ _ v); [done | intros [= <-]; cbn; set_solver]. }
  unfold option_step.
  repeat match goal with |- match (if ?b then _ else _) with _ => _ end => destruct b end;
    first [exact I | by apply H64 | exact Hi' | exact Hs | intros v; apply number_value_stops | cbn; unfold usage_codes; set_solver | idtac].
  - intros v e. destruct (add_builtin_spec _ _ v); [done |]. intros [= <-]. by apply H64.
  - by intros v e.
Qed.
Lemma parse_args_stops malloc_ok prog argv o : stops_with (parse_args malloc_ok prog argv o).
Proof.
  revert o. induction argv as [argv IH] using (induction_ltof1 _ (@length chars)). unfold ltof in IH. intros o.
  destruct argv as [| arg argv]; [by intros e |]. cbn [parse_args]. pose proof (option_step_stops malloc_ok prog arg o) as Hs.
  destruct (option_step malloc_ok prog arg o) as [o' | missing value | e].
  - apply IH. simpl. lia.
  - destruct argv as [| v argv]; [intros e [= <-]; cbn; unfold usage_codes; set_solver |].
    specialize (Hs v). destruct (value v) as [o' | e]; [apply IH; simpl; lia | exact Hs].
  - intros e' [= <-]. exact Hs.
Qed.


(** ** Runs *)

(** The program on a small pool, with its context of the size that leaves
    room for 1200 objects and 300 slabs in a megabyte. *)
Definition room : Z := SIZEOF_OBJECT * 1200 + FE_SLAB_SIZE * 300.
Local Notation run_cli argv :=
  (fex_main_utf8 test_platform 300 3 (quiet_system 7) false false (2 ^ 20 - room) (fun _ => FE_SLAB_SIZE * 300) 65536
    (rt_bud example_rt) (fun _ => true) (str "1 +") (str <$> ("fex" :: "--memory-pool-size" :: "1" :: argv))%string).
Definition ended_code (x : Ending) : option Z := match x with Ended e => Some (exit_status e) | _ => None end.
Definition ended_text (x : Ending) : string * string :=
  match x with Ended e => (string_of_list_ascii (exit_out e), string_of_list_ascii (exit_err e)) | _ => (""%string, ""%string) end.
Lemma ended_inv x code : ended_code x = Some code -> exists e, x = Ended e /\ exit_status e = code.
Proof. destruct x; [| done..]. intros [= <-]. eauto. Qed.

Example program_prints :
  let r := run_cli ["-e"; "println(1 + 2);"]%string in
  ended_code r = Some 0 /\ fst (ended_text r) = string_of_list_ascii (str "3" ++ nl) /\ snd (ended_text r) = ""%string.
Proof. vm_compute. done. Qed.
Example program_reads_stdin :
  let r := run_cli [] in
  ended_code r = Some 65 /\
  snd (ended_text r) = string_of_list_ascii (str "compile error: Expect expression." ++ nl ++ str "at <stdin>:1:4" ++ nl).
Proof. vm_compute. done. Qed.

