(* ===== verification/CliSandbox.v ===== *)
(** * The command line program without system builtins *)

From Stdlib Require Import ZArith Lia Ascii String.
From stdpp Require Import base list sets.
From S2P Require Import Prelude Number Strtod Memory Budget MapTable MapSpec Slab Span Host Ctx Gc Objects Writer Reader Eval Agree AgreeEval Open Lexer Parser ParserProps AgreeParser Builtins Modules Try Import AgreeImport Console Files Process Register AgreeBuiltins Sandbox Options Report Main MainSpec.

Section Agree.
Context (p : Platform) (fuel depth : nat) (sys sys' : System) (interactive stdin_fails : bool).
Context (ok : Policy) (Hsys : untouched ok sys sys').

Lemma ag_eprint s : confines ok (eprint s).
Proof. apply ag_modify. by intros [c e] H. Qed.
Lemma ag_print s : confines ok (print s).
Proof. unfold print. agree. Qed.
Lemma ag_set_input s : confines ok (set_stdin s).
Proof. unfold set_stdin. agree. Qed.
Lemma ag_clear_array f g : confines ok (clear_array f g).
Proof. unfold clear_array. agree. Qed.
Lemma ag_close : confines ok fe_close.
Proof. pose proof ag_clear_array. unfold fe_close, module_cache_clear. agree. Qed.
#[local] Hint Resolve ag_eprint ag_print ag_set_input ag_close : agree.

Lemma ag_call x : agree ok (call p fuel depth sys x) (call p fuel depth sys' x).
Proof. apply ag_in_ctx. by apply ag_host_call. Qed.
#[local] Hint Resolve ag_call : agree.
Lemma ag_run_call json x : agree ok (run_call p fuel depth sys json x) (run_call p fuel depth sys' json x).
Proof. unfold run_call. agree. Qed.
#[local] Hint Resolve ag_run_call : agree.
Lemma ag_run_source source name json :
  agree ok (run_source p fuel depth sys source name json) (run_source p fuel depth sys' source name json).
Proof. unfold run_source. agree. Qed.
#[local] Hint Resolve ag_run_source : agree.
Lemma ag_repl_loop n : agree ok (repl_loop p fuel depth sys n) (repl_loop p fuel depth sys' n).
Proof. induction n as [| n IH]; cbn [repl_loop]; agree. Qed.
#[local] Hint Resolve ag_repl_loop : agree.
Lemma ag_run_input o :
  agree ok (run_input p fuel depth sys interactive stdin_fails o) (run_input p fuel depth sys' interactive stdin_fails o).
Proof. unfold run_input, run_file, run_repl, read_stream_source. agree. Qed.
#[local] Hint Resolve ag_run_input : agree.
Lemma ag_add_paths l : confines ok (add_paths p l).
Proof. induction l as [| path l IH]; cbn [add_paths]; agree. Qed.
#[local] Hint Resolve ag_add_paths : agree.
Lemma ag_run_program o :
  confines ok (fex_init_with_builtins (args_left_first p) (if enable_spans o then FEX_CONFIG_ENABLE_SPANS else 0) (builtins o)) ->
  agree ok (run_program p fuel depth sys interactive stdin_fails o) (run_program p fuel depth sys' interactive stdin_fails o).
Proof. intros Hinit. unfold run_program. agree. Qed.
End Agree.


(** A pure program, with clocks that differ. *)
Local Notation run_cli sys :=
  (fex_main_utf8 test_platform 300 3 sys true false (2 ^ 20 - room) (fun _ => FE_SLAB_SIZE * 300) 65536
    (rt_bud example_rt) (fun _ => true) [] (str <$> ["fex"; "--memory-pool-size"; "1"; "--builtin"; "safe"; "-e"; "time();"])%string).
